(** * AutomationPayroll: the spreadsheet patch engine and identity resolution

    A shallow embedding of [fill_payroll_workbook_from_hours.py] and the
    properties its specification states about it.

    Conventions of the embedding.
    - Python [str] values are [string]s (byte strings; the patterns of the
      source only ever inspect ASCII characters).
    - Python [int]s are [Z].
    - Python [float]s are binary64 [float]s; the decimal rendering of a float
      is computed from its exact binary value ([Prim2SF]).
    - Python exceptions are the [Err] results of the [result] monad.
    - [xml.etree.ElementTree] elements are values of [Element]; a Python
      reference to a child element is the child's index in its parent. *)

From Stdlib Require Import ZArith QArith Floats Lia Bool.
From Stdlib Require Import Strings.String Strings.Ascii.
From Stdlib Require Import Numbers.DecimalString Numbers.DecimalZ Numbers.DecimalN Numbers.DecimalPos.
From stdpp Require Import base option list gmap strings sorting.

Set Warnings "-inexact-float,-register-all,-level-tolerance".
Close Scope Q_scope.
Open Scope Z_scope.
#[global] Arguments String.append : simpl nomatch.

(** ** Exceptions *)

Inductive exn : Type :=
| ValueError (msg : string)
| KeyError (key : string)
| IndexError
| ReError (msg : string).

Inductive result (A : Type) : Type :=
| Ok (a : A)
| Err (e : exn).
Arguments Ok {A} a.
Arguments Err {A} e.

Global Instance result_ret : MRet result := @Ok.
Global Instance result_bind : MBind result := fun A B k m =>
  match m with
  | Ok a => k a
  | Err e => Err e
  end.

Definition is_ok {A} (m : result A) : bool :=
  match m with Ok _ => true | Err _ => false end.

(** A [for] loop whose body may raise: the state is threaded left to
    right and the first exception aborts the loop. *)
Fixpoint for_each {A S} (body : S -> A -> result S) (xs : list A) (s : S)
  : result S :=
  match xs with
  | [] => Ok s
  | x :: xs' => s' ← body s x; for_each body xs' s'
  end.

(** ** Text *)

Module Text.

Definition is_digit (c : ascii) : bool :=
  let n := nat_of_ascii c in (48 <=? n)%nat && (n <=? 57)%nat.

Definition is_upper (c : ascii) : bool :=
  let n := nat_of_ascii c in (65 <=? n)%nat && (n <=? 90)%nat.

Definition is_lower (c : ascii) : bool :=
  let n := nat_of_ascii c in (97 <=? n)%nat && (n <=? 122)%nat.

(** [\w] restricted to ASCII. *)
Definition is_word (c : ascii) : bool :=
  is_digit c || is_upper c || is_lower c || Ascii.eqb c "_".

Definition is_char (x : ascii) (c : ascii) : bool := Ascii.eqb c x.

Fixpoint all_chars (p : ascii -> bool) (s : string) : bool :=
  match s with
  | EmptyString => true
  | String c s' => p c && all_chars p s'
  end.

Fixpoint has_char (p : ascii -> bool) (s : string) : bool :=
  match s with
  | EmptyString => false
  | String c s' => p c || has_char p s'
  end.

(** The last character, if any. *)
Fixpoint last_char (s : string) : option ascii :=
  match s with
  | EmptyString => None
  | String c EmptyString => Some c
  | String _ s' => last_char s'
  end.

(** [s.rstrip(chars)], with [chars] given as a predicate. *)
Fixpoint rstrip (p : ascii -> bool) (s : string) : string :=
  match s with
  | EmptyString => EmptyString
  | String c s' =>
      match rstrip p s' with
      | EmptyString => if p c then EmptyString else String c EmptyString
      | r => String c r
      end
  end.

(** [str(n)] for an integer. *)
Definition str (n : Z) : string := NilZero.string_of_int (Z.to_int n).

(** The value of a run of decimal digits ([int(text)] on a [\d+] match). *)
Definition digits_value (s : string) : option Z :=
  match s with
  | EmptyString => None
  | _ => option_map Z.of_uint (NilEmpty.uint_of_string s)
  end.

(** [int(text)]: an optional sign followed by decimal digits; anything
    else raises [ValueError]. *)
Definition py_int (s : string) : result Z :=
  let bad := Err (ValueError ("invalid literal for int(): " +:+ s)) in
  match s with
  | String "-" s' =>
      match digits_value s' with Some n => Ok (- n) | None => bad end
  | String "+" s' =>
      match digits_value s' with Some n => Ok n | None => bad end
  | _ => match digits_value s with Some n => Ok n | None => bad end
  end.

Fixpoint repeat_char (c : ascii) (n : nat) : string :=
  match n with
  | O => EmptyString
  | S n' => String c (repeat_char c n')
  end.

(** Left-pad with zeros to a width. *)
Definition zero_pad (width : nat) (s : string) : string :=
  repeat_char "0" (width - String.length s) +:+ s.

End Text.

(** ** Numeric cell text

    [format_decimal_for_excel] renders a float with ten decimals and strips
    the trailing zeros and the trailing point.  [f"{value:.10f}"] is the
    correctly rounded (half to even) decimal rendering of the exact binary
    value of the float. *)

Module PyFloat.
Import Text.

(** The integer nearest to [m * 2^e * 10^10], ties to even. *)
Definition scaled10_round (m : positive) (e : Z) : Z :=
  let num := Z.pos m * 10 ^ 10 in
  if 0 <=? e then num * 2 ^ e
  else
    let den := 2 ^ (- e) in
    let q := num / den in
    let r := num mod den in
    if (den <? 2 * r) || ((den =? 2 * r) && Z.odd q) then q + 1 else q.

Definition sign_text (s : bool) : string := if s then "-" else "".

(** [f"{value:.10f}"]. *)
Definition format_10f (value : float) : string :=
  match Prim2SF value with
  | S754_nan => "nan"
  | S754_infinity s => sign_text s +:+ "inf"
  | S754_zero s => sign_text s +:+ "0" +:+ "." +:+ "0000000000"
  | S754_finite s m e =>
      let n := scaled10_round m e in
      sign_text s +:+ str (n / 10 ^ 10) +:+ "." +:+ zero_pad 10 (str (n mod 10 ^ 10))
  end.

Definition format_decimal_for_excel (value : float) : string :=
  if PrimFloat.ltb (PrimFloat.abs value) 1e-12 then "0"
  else
    let text := rstrip (is_char ".") (rstrip (is_char "0") (format_10f value)) in
    match text with
    | EmptyString => "0"
    | _ => text
    end.

End PyFloat.

(** ** Regular expressions

    A backtracking matcher with the priorities of Python's [re]: the
    results of [exec] are listed in the order in which the backtracking
    search would try them, so the first one is the match [re] reports.
    Capturing groups are recorded as they close, which numbers them as
    [re] does for the patterns of this program (groups in sequence, not
    nested, not under a repetition). *)

Module Re.
Import Text.

Inductive regex : Type :=
| Chr (p : ascii -> bool)           (* one character of a class *)
| Eps                               (* the empty pattern *)
| Seq (r1 r2 : regex)
| Alt (r1 r2 : regex)               (* [r1|r2], [r1] first *)
| Star (greedy : bool) (r : regex)  (* [r*] or [r*?] *)
| WordB                             (* [\b] *)
| Group (r : regex).                (* [(r)] *)

Definition Opt (r : regex) : regex := Alt r Eps.               (* [r?] *)
Definition Plus (r : regex) : regex := Seq r (Star true r).    (* [r+] *)
Definition Rep1to3 (r : regex) : regex :=                      (* [r{1,3}] *)
  Seq r (Opt (Seq r (Opt r))).
Fixpoint Lit (s : string) : regex :=
  match s with
  | EmptyString => Eps
  | String c s' => Seq (Chr (is_char c)) (Lit s')
  end.
Definition AnyChar : regex := Chr (fun _ => true).             (* [.] with DOTALL *)

(** The state of a match attempt: the character before the cursor, the
    text after it and the groups closed so far. *)
Record mstate : Type := MState {
  prev : option ascii;
  rest : string;
  groups : list string;
}.

Definition is_word_opt (c : option ascii) : bool :=
  match c with Some c => is_word c | None => false end.

Definition next_char (s : string) : option ascii :=
  match s with String c _ => Some c | EmptyString => None end.

Definition str_take (n : nat) (s : string) : string := String.substring 0 n s.

(** Iteration of a starred body; an iteration that consumes nothing is
    cut, as [re] does.  [n] bounds the number of iterations by the
    length of the remaining text. *)
Fixpoint star_iter (step : mstate -> list mstate) (greedy : bool) (n : nat)
    (st : mstate) : list mstate :=
  match n with
  | O => [st]
  | S n' =>
      let more :=
        st' ← step st;
        if (String.length (rest st') <? String.length (rest st))%nat
        then star_iter step greedy n' st' else [] in
      if greedy then more ++ [st] else st :: more
  end.

Fixpoint exec (r : regex) (st : mstate) : list mstate :=
  match r with
  | Chr p =>
      match rest st with
      | String c s' =>
          if p c then [MState (Some c) s' (groups st)] else []
      | EmptyString => []
      end
  | Eps => [st]
  | Seq r1 r2 => st1 ← exec r1 st; exec r2 st1
  | Alt r1 r2 => exec r1 st ++ exec r2 st
  | Star g r1 => star_iter (exec r1) g (String.length (rest st)) st
  | WordB =>
      if xorb (is_word_opt (prev st)) (is_word_opt (next_char (rest st)))
      then [st] else []
  | Group r1 =>
      (fun st' =>
         let n := (String.length (rest st) - String.length (rest st'))%nat in
         MState (prev st') (rest st') (groups st' ++ [str_take n (rest st)]))
      <$> exec r1 st
  end.

(** [pattern.match] at a cursor. *)
Definition match_at (r : regex) (p : option ascii) (s : string)
  : option mstate :=
  head (exec r (MState p s [])).

(** [pattern.fullmatch(s)]: the groups of the first way to match all of [s]. *)
Definition fullmatch (r : regex) (s : string) : option (list string) :=
  groups <$> head (filter (fun st => rest st = EmptyString)
                          (exec r (MState None s []))).

(** A text cut by the leftmost non-overlapping matches of a pattern:
    the characters outside the matches and the groups of each match.
    ([fuel] bounds the number of steps; [S (length s)] is enough, each step
    moving the cursor forward.) *)
Inductive piece : Type :=
| PChar (c : ascii)
| PMatch (text : string) (gs : list string).

Fixpoint scan_from (fuel : nat) (r : regex) (p : option ascii) (s : string)
  : list piece :=
  match fuel with
  | O => []
  | S fuel' =>
      match match_at r p s, s with
      | Some st, String c s' =>
          let n := (String.length s - String.length (rest st))%nat in
          match n with
          | O => PMatch EmptyString (groups st)
                   :: PChar c :: scan_from fuel' r (Some c) s'
          | _ => PMatch (str_take n s) (groups st)
                   :: scan_from fuel' r (prev st) (rest st)
          end
      | Some st, EmptyString => [PMatch EmptyString (groups st)]
      | None, String c s' => PChar c :: scan_from fuel' r (Some c) s'
      | None, EmptyString => []
      end
  end.

Definition scan (r : regex) (s : string) : list piece :=
  scan_from (S (String.length s)) r None s.

Fixpoint concat_text (l : list string) : string :=
  match l with
  | [] => EmptyString
  | x :: l' => x +:+ concat_text l'
  end.

(** [pattern.sub(repl, s)] for a callable [repl], given the groups of
    each match. *)
Definition sub (r : regex) (repl : list string -> string) (s : string)
  : string :=
  concat_text
    ((fun pc => match pc with
                | PChar c => String c EmptyString
                | PMatch _ gs => repl gs
                end) <$> scan r s).

(** [pattern.search(s)]: the text before the leftmost match, the match
    and the text after it. *)
Fixpoint search_from (r : regex) (p : option ascii) (before : string)
    (s : string) : option (string * string * string) :=
  match match_at r p s with
  | Some st =>
      let n := (String.length s - String.length (rest st))%nat in
      Some (before, str_take n s, rest st)
  | None =>
      match s with
      | String c s' =>
          search_from r (Some c) (before +:+ String c EmptyString) s'
      | EmptyString => None
      end
  end.

Definition search (r : regex) (s : string)
  : option (string * string * string) :=
  search_from r None EmptyString s.

(** [pattern.subn(repl, s, count=1)] for a replacement text that has
    already been expanded to a literal. *)
Definition subn_first (r : regex) (literal : string) (s : string)
  : string * Z :=
  match search r s with
  | Some (before, _, after) => (before +:+ literal +:+ after, 1)
  | None => (s, 0)
  end.

End Re.

(** ** The patterns of the program *)

Import Text Re.

(** [CELL_REF_RE = ([A-Z]+)(\d+)] *)
Definition CELL_REF_RE : regex :=
  Seq (Group (Plus (Chr is_upper))) (Group (Plus (Chr is_digit))).

(** [FORMULA_CELL_REF_RE = (\$?)([A-Z]{1,3})(\$?)(\d+)] *)
Definition FORMULA_CELL_REF_RE : regex :=
  Seq (Group (Opt (Chr (is_char "$"))))
    (Seq (Group (Rep1to3 (Chr is_upper)))
       (Seq (Group (Opt (Chr (is_char "$"))))
          (Group (Plus (Chr is_digit))))).

(** [(?:\w+:)?] *)
Definition ns_prefix : regex :=
  Opt (Seq (Plus (Chr is_word)) (Chr (is_char ":"))).

Definition not_gt : regex := Chr (fun c => negb (is_char ">" c)).

(** [SHEET_DATA_XML_RE =
     <(?:\w+:)?sheetData\b[^>]*>.*?</(?:\w+:)?sheetData>] with DOTALL *)
Definition SHEET_DATA_XML_RE : regex :=
  Seq (Lit "<")
    (Seq ns_prefix
       (Seq (Lit "sheetData")
          (Seq WordB
             (Seq (Star true not_gt)
                (Seq (Lit ">")
                   (Seq (Star false AnyChar)
                      (Seq (Lit "</")
                         (Seq ns_prefix (Lit "sheetData>")))))))) ).

(** [CALC_PR_XML_RE =
     <(?:\w+:)?calcPr\b[^>]*(?:/>|>.*?</(?:\w+:)?calcPr>)] with DOTALL *)
Definition CALC_PR_XML_RE : regex :=
  Seq (Lit "<")
    (Seq ns_prefix
       (Seq (Lit "calcPr")
          (Seq WordB
             (Seq (Star true not_gt)
                (Alt (Lit "/>")
                   (Seq (Lit ">")
                      (Seq (Star false AnyChar)
                         (Seq (Lit "</")
                            (Seq ns_prefix (Lit "calcPr>"))))))))) ).

(** ** Element trees

    The part of [xml.etree.ElementTree] the program uses.  An attribute
    dictionary is a finite map; the children of an element are a list, and
    the program's in-place mutation of a child is the replacement of the
    child at its index. *)

Module ET.

Inductive Element : Type := mkElement {
  tag : string;
  attrib : gmap string string;
  text : option string;
  tail : option string;
  children : list Element;
}.

Definition NS_MAIN : string :=
  "http://schemas.openxmlformats.org/spreadsheetml/2006/main".
Definition NS_REL : string :=
  "http://schemas.openxmlformats.org/package/2006/relationships".

(** The tag [{namespace}local], as ElementTree spells qualified names. *)
Definition qname (ns local : string) : string :=
  "{" +:+ ns +:+ "}" +:+ local.
Definition main (local : string) : string := qname NS_MAIN local.

(** [ET.Element(tag, attrib)] *)
Definition new_element (t : string) (a : gmap string string) : Element :=
  mkElement t a None None [].

Definition set_attrib (a : gmap string string) (e : Element) : Element :=
  mkElement (tag e) a (text e) (tail e) (children e).
Definition set_text (t : option string) (e : Element) : Element :=
  mkElement (tag e) (attrib e) t (tail e) (children e).
Definition set_children (cs : list Element) (e : Element) : Element :=
  mkElement (tag e) (attrib e) (text e) (tail e) cs.

(** [e.attrib[k] = v], [e.attrib.pop(k, None)], [e.attrib.get(k, d)] *)
Definition set_attr (k v : string) (e : Element) : Element :=
  set_attrib (<[k := v]> (attrib e)) e.
Definition pop_attr (k : string) (e : Element) : Element :=
  set_attrib (delete k (attrib e)) e.
Definition get_attr (k : string) (e : Element) : option string :=
  attrib e !! k.
Definition get_attr_default (k d : string) (e : Element) : string :=
  default d (attrib e !! k).

(** The index of the first element of a list that satisfies a test. *)
Fixpoint index_where {A} (p : A -> bool) (l : list A) : option nat :=
  match l with
  | [] => None
  | x :: l' => if p x then Some O else S <$> index_where p l'
  end.

(** The indices of all elements that satisfy a test, in order. *)
Fixpoint indices_where_from {A} (p : A -> bool) (i : nat) (l : list A)
  : list nat :=
  match l with
  | [] => []
  | x :: l' =>
      if p x then i :: indices_where_from p (S i) l'
      else indices_where_from p (S i) l'
  end.
Definition indices_where {A} (p : A -> bool) (l : list A) : list nat :=
  indices_where_from p O l.

Definition has_tag (t : string) (e : Element) : bool := String.eqb (tag e) t.

(** [e.find(tag)] and [e.findall(tag)] on direct children; the [_index]
    versions return the positions of the children found, which stand for
    the Python references to them. *)
Definition find_index (t : string) (e : Element) : option nat :=
  index_where (has_tag t) (children e).
Definition find (t : string) (e : Element) : option Element :=
  i ← find_index t e; children e !! i.
Definition findall_index (t : string) (e : Element) : list nat :=
  indices_where (has_tag t) (children e).
Definition findall (t : string) (e : Element) : list Element :=
  filter (fun c => has_tag t c = true) (children e).

Definition child (i : nat) (e : Element) : option Element := children e !! i.

(** Replace the child at an index (an in-place mutation of that child). *)
Definition set_child (i : nat) (c : Element) (e : Element) : Element :=
  set_children (<[i := c]> (children e)) e.

(** Apply a mutation to the child at an index. *)
Definition update_child (i : nat) (f : Element -> Element) (e : Element)
  : Element :=
  match children e !! i with
  | Some c => set_child i (f c) e
  | None => e
  end.

(** [e.insert(i, c)] and [e.append(c)] *)
Definition insert_child (i : nat) (c : Element) (e : Element) : Element :=
  set_children (take i (children e) ++ c :: drop i (children e)) e.
Definition append_child (c : Element) (e : Element) : Element :=
  set_children (children e ++ [c]) e.

(** [e.remove(c)] for the child at an index. *)
Definition remove_child (i : nat) (e : Element) : Element :=
  set_children (delete i (children e)) e.

(** Python truthiness of an optional text: present and not empty. *)
Definition nonempty (s : option string) : bool :=
  match s with
  | Some (String _ _) => true
  | _ => false
  end.

End ET.

(** ** Sorting as Python does

    [sorted] and [list.sort] are stable; with [reverse=True] the result is
    the reversal of the stable ascending sort of the reversed list. *)

Fixpoint insert_sorted {A} (lt : A -> A -> bool) (x : A) (l : list A)
  : list A :=
  match l with
  | [] => [x]
  | y :: l' => if lt x y then x :: l else y :: insert_sorted lt x l'
  end.

Definition stable_sort {A} (lt : A -> A -> bool) (l : list A) : list A :=
  foldr (insert_sorted lt) [] l.

Definition py_sorted {A} (lt : A -> A -> bool) (reverse : bool) (l : list A)
  : list A :=
  if reverse then rev (stable_sort lt (rev l)) else stable_sort lt l.

(** ** Cell addressing and the formula shift engine *)

Import ET PyFloat.

Definition tag_sheetData : string := main "sheetData".
Definition tag_row : string := main "row".
Definition tag_c : string := main "c".
Definition tag_f : string := main "f".
Definition tag_v : string := main "v".
Definition tag_is : string := main "is".
Definition tag_t : string := main "t".
Definition tag_mergeCells : string := main "mergeCells".
Definition tag_mergeCell : string := main "mergeCell".
Definition tag_dimension : string := main "dimension".
Definition tag_calcPr : string := main "calcPr".

Definition parse_cell_ref (cell_ref : string) : result (string * Z) :=
  match fullmatch CELL_REF_RE cell_ref with
  | Some [col; row_text] => n ← py_int row_text; Ok (col, n)
  | _ => Err (ValueError ("Invalid cell reference: " +:+ cell_ref))
  end.

Fixpoint column_index_from (value : Z) (column : string) : Z :=
  match column with
  | EmptyString => value
  | String char column' =>
      column_index_from
        (value * 26 + (Z.of_nat (nat_of_ascii char) - 65 + 1)) column'
  end.

Definition column_index (column : string) : Z := column_index_from 0 column.

(** The loop of [insert_cell_in_order]: the index of the first cell child
    whose column comes after the target column. *)
Fixpoint cell_insert_position (target_idx : Z) (cs : list Element)
    (child_idx : nat) : option nat :=
  match cs with
  | [] => None
  | c :: cs' =>
      if negb (has_tag tag_c c)
      then cell_insert_position target_idx cs' (S child_idx)
      else
        match fullmatch CELL_REF_RE (get_attr_default "r" "" c) with
        | Some (col :: _) =>
            if target_idx <? column_index col then Some child_idx
            else cell_insert_position target_idx cs' (S child_idx)
        | _ => cell_insert_position target_idx cs' (S child_idx)
        end
  end.

(** Returns the row and the index at which the new cell now stands. *)
Definition insert_cell_in_order (row_elem new_cell : Element)
    (target_column : string) : Element * nat :=
  let target_idx := column_index target_column in
  match cell_insert_position target_idx (children row_elem) O with
  | Some child_idx => (insert_child child_idx new_cell row_elem, child_idx)
  | None => (append_child new_cell row_elem, length (children row_elem))
  end.

(** The replacement function of [shift_formula_for_row_insert]; the
    groups are [col_abs], [col], [row_abs] and [row_text]. *)
Definition row_insert_repl (start_row delta : Z) (gs : list string) : string :=
  match gs with
  | [col_abs; col; row_abs; row_text] =>
      match digits_value row_text with
      | Some row_number =>
          let row_number :=
            if start_row <=? row_number then row_number + delta
            else row_number in
          col_abs +:+ col +:+ row_abs +:+ str row_number
      | None => EmptyString
      end
  | _ => EmptyString
  end.

Definition shift_formula_for_row_insert (formula : string)
    (start_row delta : Z) : string :=
  match formula with
  | EmptyString => formula
  | _ =>
      if delta =? 0 then formula
      else Re.sub FORMULA_CELL_REF_RE (row_insert_repl start_row delta) formula
  end.

Definition row_copy_repl (delta : Z) (gs : list string) : string :=
  match gs with
  | [col_abs; col; row_abs; row_text] =>
      match digits_value row_text with
      | Some row_number =>
          let row_number :=
            match row_abs with
            | EmptyString => row_number + delta
            | _ => row_number
            end in
          col_abs +:+ col +:+ row_abs +:+ str row_number
      | None => EmptyString
      end
  | _ => EmptyString
  end.

Definition shift_formula_for_row_copy (formula : string) (delta : Z)
  : string :=
  match formula with
  | EmptyString => formula
  | _ =>
      if delta =? 0 then formula
      else Re.sub FORMULA_CELL_REF_RE (row_copy_repl delta) formula
  end.

(** [text.split(":", 1)] *)
Fixpoint split_colon_once (s : string) : list string :=
  match s with
  | EmptyString => [EmptyString]
  | String c s' =>
      if Ascii.eqb c ":" then [EmptyString; s']
      else
        match split_colon_once s' with
        | p :: ps => String c p :: ps
        | [] => [String c EmptyString]
        end
  end.

(** [":".join(parts)] *)
Fixpoint join_colon (parts : list string) : string :=
  match parts with
  | [] => EmptyString
  | [p] => p
  | p :: ps => p +:+ ":" +:+ join_colon ps
  end.

Definition shift_ref_part (start_row delta : Z) (part : string) : string :=
  match fullmatch FORMULA_CELL_REF_RE part with
  | Some [col_abs; col; row_abs; row_text] =>
      match digits_value row_text with
      | Some row_number =>
          let row_number :=
            if start_row <=? row_number then row_number + delta
            else row_number in
          col_abs +:+ col +:+ row_abs +:+ str row_number
      | None => part
      end
  | _ => part
  end.

Definition shift_ref_rows (ref_text : string) (start_row delta : Z)
  : string :=
  match ref_text with
  | EmptyString => ref_text
  | _ =>
      if delta =? 0 then ref_text
      else join_colon (shift_ref_part start_row delta
                         <$> split_colon_once ref_text)
  end.

(** [int(row_elem.attrib.get("r", "0"))] *)
Definition row_number_of (row_elem : Element) : result Z :=
  py_int (get_attr_default "r" "0" row_elem).

(** The body of the cell loop of [shift_rows_in_sheet]. *)
Definition shift_cell (start_row delta : Z) (cell : Element)
  : result Element :=
  cell ←
    match get_attr "r" cell with
    | Some (String _ _ as ref) =>
        '(col, cell_row) ← parse_cell_ref ref;
        Ok (if start_row <=? cell_row
            then set_attr "r" (col +:+ str (cell_row + delta)) cell
            else cell)
    | _ => Ok cell
    end;
  match find_index tag_f cell with
  | Some fi =>
      Ok (update_child fi
            (fun formula =>
               let formula :=
                 match text formula with
                 | Some (String _ _ as t) =>
                     set_text
                       (Some (shift_formula_for_row_insert t start_row delta))
                       formula
                 | _ => formula
                 end in
               match get_attr "ref" formula with
               | Some (String _ _ as formula_ref) =>
                   set_attr "ref"
                     (shift_ref_rows formula_ref start_row delta) formula
               | _ => formula
               end)
            cell)
  | None => Ok cell
  end.

(** Run a fallible mutation on the child at an index. *)
Definition mutate_child (i : nat) (f : Element -> result Element)
    (e : Element) : result Element :=
  match children e !! i with
  | Some c => c' ← f c; Ok (set_child i c' e)
  | None => Ok e
  end.

(** The body of the row loop of [shift_rows_in_sheet]. *)
Definition shift_row (start_row delta : Z) (row_elem : Element)
  : result Element :=
  row_number ← row_number_of row_elem;
  let row_elem :=
    if start_row <=? row_number
    then set_attr "r" (str (row_number + delta)) row_elem
    else row_elem in
  for_each (fun row ci => mutate_child ci (shift_cell start_row delta) row)
    (findall_index tag_c row_elem) row_elem.

(** [[f(x) for x in xs]] for a fallible [f]. *)
Fixpoint map_result {A B} (f : A -> result B) (xs : list A)
  : result (list B) :=
  match xs with
  | [] => Ok []
  | x :: xs' => y ← f x; ys ← map_result f xs'; Ok (y :: ys)
  end.

Definition shift_ref_attr (start_row delta : Z) (e : Element) : Element :=
  match get_attr "ref" e with
  | Some (String _ _ as ref) =>
      set_attr "ref" (shift_ref_rows ref start_row delta) e
  | _ => e
  end.

Definition shift_rows_in_sheet (sheet_root : Element) (start_row delta : Z)
  : result Element :=
  if delta =? 0 then Ok sheet_root
  else
    match find_index tag_sheetData sheet_root with
    | None => Ok sheet_root
    | Some sd =>
        sheet_root ←
          mutate_child sd
            (fun sheet_data =>
               let rows := findall_index tag_row sheet_data in
               keyed ←
                 map_result
                   (fun i =>
                      match children sheet_data !! i with
                      | Some node => k ← row_number_of node; Ok (k, i)
                      | None => Err IndexError
                      end) rows;
               let rows_sorted :=
                 snd <$> py_sorted (fun a b => fst a <? fst b)
                           (0 <? delta) keyed in
               for_each
                 (fun sheet_data i =>
                    mutate_child i (shift_row start_row delta) sheet_data)
                 rows_sorted sheet_data)
            sheet_root;
        let sheet_root :=
          match find_index tag_mergeCells sheet_root with
          | Some mi =>
              update_child mi
                (fun merge_cells =>
                   foldl
                     (fun mc i =>
                        update_child i (shift_ref_attr start_row delta) mc)
                     merge_cells (findall_index tag_mergeCell merge_cells))
                sheet_root
          | None => sheet_root
          end in
        let sheet_root :=
          match find_index tag_dimension sheet_root with
          | Some di =>
              update_child di (shift_ref_attr start_row delta) sheet_root
          | None => sheet_root
          end in
        Ok sheet_root
    end.

(** The loop of [insert_row_in_order]: the index of the first row child
    whose number is greater than the target. *)
Fixpoint row_insert_position (target_row : Z) (cs : list Element)
    (child_idx : nat) : result (option nat) :=
  match cs with
  | [] => Ok None
  | c :: cs' =>
      if negb (has_tag tag_row c)
      then row_insert_position target_row cs' (S child_idx)
      else
        existing_row ← row_number_of c;
        if target_row <? existing_row then Ok (Some child_idx)
        else row_insert_position target_row cs' (S child_idx)
  end.

Definition insert_row_in_order (sheet_data row_elem : Element)
  : result Element :=
  target_row ← row_number_of row_elem;
  pos ← row_insert_position target_row (children sheet_data) O;
  match pos with
  | Some child_idx => Ok (insert_child child_idx row_elem sheet_data)
  | None => Ok (append_child row_elem sheet_data)
  end.

(** The formula branch of the cell loop of [clone_template_row]: what
    it does to the formula element, when there is one. *)
Definition clone_formula (delta : Z) (formula : Element) : Element :=
  match text formula with
  | Some (String _ _ as t) =>
      pop_attr "ref"
        (set_text (Some (shift_formula_for_row_copy t delta)) formula)
  | _ => formula
  end.

(** The body of the cell loop of [clone_template_row]. *)
Definition clone_cell (target_row delta : Z) (cell : Element)
  : result Element :=
  cell ←
    match get_attr "r" cell with
    | Some (String _ _ as ref) =>
        '(col, _) ← parse_cell_ref ref;
        Ok (set_attr "r" (col +:+ str target_row) cell)
    | _ => Ok cell
    end;
  let formula := find_index tag_f cell in
  let cell :=
    match formula with
    | Some fi => update_child fi (clone_formula delta) cell
    | None => cell
    end in
  let value_node := find_index tag_v cell in
  match formula, value_node with
  | Some _, Some vi => Ok (remove_child vi cell)
  | _, _ => Ok cell
  end.

(** [template_row] is the row as it stands when the clone is taken (the
    clone is a deep copy). *)
Definition clone_template_row (sheet_data template_row : Element)
    (target_row : Z) : result Element :=
  source_row ← row_number_of template_row;
  let row_clone := set_attr "r" (str target_row) template_row in
  let delta := target_row - source_row in
  row_clone ←
    for_each
      (fun row ci => mutate_child ci (clone_cell target_row delta) row)
      (findall_index tag_c row_clone) row_clone;
  insert_row_in_order sheet_data row_clone.

(** ** The document accessor *)

(** The index of the first cell child of a row whose [r] is [target_ref]. *)
Definition find_cell_index (row_elem : Element) (target_ref : string)
  : option nat :=
  index_where
    (fun cell => has_tag tag_c cell
                 && bool_decide (get_attr "r" cell = Some target_ref))
    (children row_elem).

Definition is_content_tag (c : Element) : bool :=
  has_tag tag_v c || has_tag tag_f c || has_tag tag_is c.

(** Remove the [v], [f] and [is] children of a cell. *)
Definition clear_content (cell : Element) : Element :=
  set_children (filter (fun c => is_content_tag c = false) (children cell))
    cell.

(** The target cell of a setter: found, or created in column order. *)
Definition find_or_create_cell (row_elem : Element) (target_ref column : string)
  : Element * nat :=
  match find_cell_index row_elem target_ref with
  | Some ci => (row_elem, ci)
  | None =>
      insert_cell_in_order row_elem
        (new_element tag_c {[ "r" := target_ref ]}) column
  end.

Definition has_formula (cell : Element) : bool :=
  bool_decide (is_Some (find_index tag_f cell)).

Definition set_numeric_cell (row_elem : Element) (row_number : Z)
    (column : string) (value : float) (preserve_formula : bool) : Element :=
  let target_ref := column +:+ str row_number in
  let target_cell := find_cell_index row_elem target_ref in
  if preserve_formula
     && match target_cell with
        | Some ci =>
            match children row_elem !! ci with
            | Some cell => has_formula cell
            | None => false
            end
        | None => false
        end
  then row_elem
  else
    let '(row_elem, ci) := find_or_create_cell row_elem target_ref column in
    update_child ci
      (fun cell =>
         let cell := pop_attr "t" cell in
         let cell := clear_content cell in
         append_child
           (set_text (Some (format_decimal_for_excel value))
              (new_element tag_v ∅))
           cell)
      row_elem.

(** The first loop of [get_or_create_row]. *)
Fixpoint find_row_index (row_number : Z) (cs : list Element) (i : nat)
  : result (option nat) :=
  match cs with
  | [] => Ok None
  | c :: cs' =>
      if has_tag tag_row c
      then
        n ← row_number_of c;
        if n =? row_number then Ok (Some i)
        else find_row_index row_number cs' (S i)
      else find_row_index row_number cs' (S i)
  end.

(** The second loop of [get_or_create_row]; a row whose number does not
    parse is skipped. *)
Fixpoint new_row_position (row_number : Z) (cs : list Element)
    (child_idx : nat) : option nat :=
  match cs with
  | [] => None
  | c :: cs' =>
      if negb (has_tag tag_row c)
      then new_row_position row_number cs' (S child_idx)
      else
        match row_number_of c with
        | Ok existing_number =>
            if row_number <? existing_number then Some child_idx
            else new_row_position row_number cs' (S child_idx)
        | Err _ => new_row_position row_number cs' (S child_idx)
        end
  end.

(** Returns the sheet data and the index of the row in it. *)
Definition get_or_create_row (sheet_data : Element) (row_number : Z)
  : result (Element * nat) :=
  found ← find_row_index row_number (children sheet_data) O;
  match found with
  | Some i => Ok (sheet_data, i)
  | None =>
      let new_row := new_element tag_row {[ "r" := str row_number ]} in
      match new_row_position row_number (children sheet_data) O with
      | Some child_idx =>
          Ok (insert_child child_idx new_row sheet_data, child_idx)
      | None =>
          Ok (append_child new_row sheet_data, length (children sheet_data))
      end
  end.

(** The end of [set_formula_cell]: the cell type, the old content and
    the new formula element of the target cell. *)
Definition write_formula (cell_type : option string) (formula : string)
    (cell : Element) : Element :=
  let cell :=
    match cell_type with
    | Some (String _ _ as t) => set_attr "t" t cell
    | _ => pop_attr "t" cell
    end in
  let cell := clear_content cell in
  append_child (set_text (Some formula) (new_element tag_f ∅)) cell.

(** [set_formula_cell] once the row is at hand. *)
Definition set_formula_in_row (row_number : Z) (column formula : string)
    (cell_type : option string) (row_elem : Element) : Element :=
  let target_ref := column +:+ str row_number in
  let '(row_elem, ci) := find_or_create_cell row_elem target_ref column in
  update_child ci (write_formula cell_type formula) row_elem.

Definition set_formula_cell (sheet_data : Element) (row_number : Z)
    (column formula : string) (cell_type : option string) : result Element :=
  '(sheet_data, ri) ← get_or_create_row sheet_data row_number;
  Ok (update_child ri
        (set_formula_in_row row_number column formula cell_type)
        sheet_data).

Definition set_formula_string_cell (sheet_data : Element) (row_number : Z)
    (column formula : string) : result Element :=
  set_formula_cell sheet_data row_number column formula (Some "str").

Definition set_inline_string_cell (row_elem : Element) (row_number : Z)
    (column value : string) : Element :=
  let target_ref := column +:+ str row_number in
  let '(row_elem, ci) := find_or_create_cell row_elem target_ref column in
  update_child ci
    (fun cell =>
       let cell := set_attr "t" "inlineStr" cell in
       let cell := clear_content cell in
       append_child
         (append_child (set_text (Some value) (new_element tag_t ∅))
            (new_element tag_is ∅))
         cell)
    row_elem.

(** ** Row layout *)

Definition map_row_with_insertions (original_row : Z)
    (insertions : list (Z * Z)) : Z :=
  foldl (fun mapped '(start_row, delta) =>
           if start_row <=? mapped then mapped + delta else mapped)
    original_row insertions.

(** [list(range(a, b))] *)
Definition py_range (a b : Z) : list Z :=
  (fun i => a + Z.of_nat i) <$> seq 0 (Z.to_nat (b - a)).

Definition COMPANY_ROW_SLOTS : list (string * list Z) :=
  [ ("scanio_moving", py_range 5 26);
    ("scanio_storage", py_range 33 40);
    ("sea_and_air_intl", py_range 47 57);
    ("flat_price", py_range 64 86) ].

Definition COMPANY_BURDEN_MULTIPLIER : list (string * float) :=
  [ ("scanio_moving", 1.18%float);
    ("scanio_storage", 1.24%float);
    ("sea_and_air_intl", 1.18%float);
    ("flat_price", 1.18%float) ].

(** [d[key]] on a dictionary kept as an association list in insertion
    order. *)
Fixpoint assoc {V} (key : string) (d : list (string * V)) : option V :=
  match d with
  | [] => None
  | (k, v) :: d' => if String.eqb k key then Some v else assoc key d'
  end.

Definition lookup_key {V} (key : string) (d : list (string * V)) : result V :=
  match assoc key d with
  | Some v => Ok v
  | None => Err (KeyError key)
  end.

(** [d[key]] on a dictionary. *)
Definition lookup_dict {V} (key : string) (d : gmap string V) : result V :=
  match d !! key with
  | Some v => Ok v
  | None => Err (KeyError key)
  end.

(** ** Derived formulas *)

Record SectionRows : Type := mkSectionRows {
  start_row : Z;
  end_row : Z;
  total_row : Z;
  amount_row : Z;
}.

(** [min(slots)] and [max(slots)] of a non-empty list. *)
Definition list_min (l : list Z) : Z :=
  match l with
  | [] => 0
  | x :: l' => foldl Z.min x l'
  end.
Definition list_max (l : list Z) : Z :=
  match l with
  | [] => 0
  | x :: l' => foldl Z.max x l'
  end.

(** [set_formula_cell] without a cell type. *)
Definition sfc (sheet_data : Element) (row_number : Z) (column formula : string)
  : result Element :=
  set_formula_cell sheet_data row_number column formula None.

(** The body of the section loop of [refresh_company_summary_formulas]. *)
Definition refresh_section (sheet_data : Element) (company : string)
    (rows : SectionRows) : result Element :=
  let total := total_row rows in
  let amount := amount_row rows in
  let start_text := str (start_row rows) in
  let end_text := str (end_row rows) in
  let total_text := str total in
  let amount_text := str amount in
  sheet_data ← sfc sheet_data total "D"
    ("SUM(D" +:+ start_text +:+ ":D" +:+ end_text +:+ ")");
  sheet_data ← sfc sheet_data total "M"
    ("SUM(M" +:+ start_text +:+ ":M" +:+ end_text +:+ ")");
  sheet_data ← sfc sheet_data total "O"
    ("SUM(O" +:+ start_text +:+ ":O" +:+ end_text +:+ ")");
  sheet_data ← sfc sheet_data total "Q"
    ("SUM(Q" +:+ start_text +:+ ":Q" +:+ end_text +:+ ")");
  burden ← lookup_key company COMPANY_BURDEN_MULTIPLIER;
  let burden_text := format_decimal_for_excel burden in
  sheet_data ← sfc sheet_data amount "E"
    ("E" +:+ total_text +:+ "+G" +:+ total_text);
  sheet_data ← sfc sheet_data amount "G"
    ("SUM(H" +:+ amount_text +:+ ":J" +:+ amount_text +:+ ")/" +:+ burden_text);
  sheet_data ← sfc sheet_data amount "H"
    ("H" +:+ total_text +:+ "*" +:+ burden_text);
  sheet_data ←
    (if String.eqb company "scanio_moving" then
       sheet_data ← sfc sheet_data total "L"
         ("K" +:+ total_text +:+ "/Q" +:+ total_text);
       sheet_data ← sfc sheet_data total "N"
         ("M" +:+ total_text +:+ "/Q" +:+ total_text);
       sheet_data ← sfc sheet_data total "P"
         ("O" +:+ total_text +:+ "/D" +:+ total_text);
       sheet_data ← sfc sheet_data amount "K"
         ("E" +:+ total_text +:+ "*L" +:+ total_text +:+ "*" +:+ burden_text);
       sheet_data ← sfc sheet_data amount "M"
         ("E" +:+ total_text +:+ "*N" +:+ total_text +:+ "*" +:+ burden_text);
       sfc sheet_data amount "O"
         ("E" +:+ total_text +:+ "*P" +:+ total_text +:+ "*" +:+ burden_text)
     else
       sheet_data ← sfc sheet_data amount "K"
         ("SUMPRODUCT(E" +:+ start_text +:+ ":E" +:+ end_text +:+ ",L"
            +:+ start_text +:+ ":L" +:+ end_text +:+ ")*" +:+ burden_text);
       sheet_data ← sfc sheet_data amount "M"
         ("SUMPRODUCT(E" +:+ start_text +:+ ":E" +:+ end_text +:+ ",N"
            +:+ start_text +:+ ":N" +:+ end_text +:+ ")*" +:+ burden_text);
       sfc sheet_data amount "O"
         ("SUMPRODUCT(E" +:+ start_text +:+ ":E" +:+ end_text +:+ ",P"
            +:+ start_text +:+ ":P" +:+ end_text +:+ ")*" +:+ burden_text));
  sheet_data ← sfc sheet_data amount "Q"
    ("(K" +:+ amount_text +:+ "+M" +:+ amount_text +:+ "+O" +:+ amount_text
       +:+ ")/" +:+ burden_text);
  sfc sheet_data (amount + 1) "E"
    ("G" +:+ amount_text +:+ "+Q" +:+ amount_text).

Definition section_rows_of (slots : list Z) : SectionRows :=
  let start_row := list_min slots in
  let end_row := list_max slots in
  mkSectionRows start_row end_row (end_row + 1) (end_row + 3).

(** Returns the sheet data and the reimbursement row. *)
Definition refresh_company_summary_formulas (sheet_data : Element)
    (company_slots : list (string * list Z)) : result (Element * Z) :=
  '(sheet_data, section_rows) ←
    for_each
      (fun '(sheet_data, section_rows) '(company, slots) =>
         match slots with
         | [] => Ok (sheet_data, section_rows)
         | _ =>
             let rows := section_rows_of slots in
             sheet_data ← refresh_section sheet_data company rows;
             Ok (sheet_data, <[company := rows]> section_rows)
         end)
      company_slots (sheet_data, (∅ : gmap string SectionRows));
  scanio_totals ← lookup_dict "scanio_moving" section_rows;
  storage_totals ← lookup_dict "scanio_storage" section_rows;
  sea_totals ← lookup_dict "sea_and_air_intl" section_rows;
  flat_totals ← lookup_dict "flat_price" section_rows;
  let overtime_row := total_row flat_totals + 5 in
  let due_row := total_row flat_totals + 7 in
  let reimbursement_row := total_row flat_totals + 15 in
  let total_of r := str (total_row r) in
  let amount_of r := str (amount_row r) in
  sheet_data ← sfc sheet_data overtime_row "F"
    ("F" +:+ total_of scanio_totals
       +:+ "+F" +:+ total_of storage_totals
       +:+ "+F" +:+ total_of sea_totals
       +:+ "+F" +:+ total_of flat_totals);
  sheet_data ← sfc sheet_data due_row "C"
    ("K" +:+ amount_of sea_totals +:+ "+H" +:+ amount_of sea_totals
       +:+ "-M" +:+ amount_of scanio_totals
       +:+ "-I" +:+ amount_of scanio_totals
       +:+ "-M" +:+ amount_of storage_totals
       +:+ "-I" +:+ amount_of storage_totals);
  sheet_data ← sfc sheet_data due_row "Q"
    ("Q" +:+ total_of flat_totals
       +:+ "+Q" +:+ total_of sea_totals
       +:+ "+Q" +:+ total_of storage_totals
       +:+ "+Q" +:+ total_of scanio_totals);
  sheet_data ← sfc sheet_data reimbursement_row "F"
    ("G" +:+ amount_of flat_totals
       +:+ "+G" +:+ amount_of sea_totals
       +:+ "+G" +:+ amount_of storage_totals
       +:+ "+G" +:+ amount_of scanio_totals);
  Ok (sheet_data, reimbursement_row).

(** The formula texts of an employee row, by column. *)
Definition employee_formula_D (r : string) : string :=
  "SUM(K" +:+ r +:+ ":O" +:+ r +:+ ")".
Definition employee_formula_E (r : string) : string :=
  "IF(D" +:+ r +:+ ">40,"
    +:+ "(D" +:+ r +:+ "-40)*(C" +:+ r +:+ "*1.5)+(C" +:+ r +:+ "*40),"
    +:+ "D" +:+ r +:+ "*C" +:+ r +:+ ")".
Definition employee_formula_F (r : string) : string :=
  "IF(D" +:+ r +:+ ">40,(D" +:+ r +:+ "-40)*(C" +:+ r +:+ "*0.5),0)".
Definition employee_formula_G (r : string) : string :=
  "SUM(H" +:+ r +:+ ":J" +:+ r +:+ ")".
Definition employee_formula_L (r : string) : string :=
  "IFERROR(K" +:+ r +:+ "/Q" +:+ r +:+ ",0)".
Definition employee_formula_N (r : string) : string :=
  "IFERROR(M" +:+ r +:+ "/Q" +:+ r +:+ ",0)".
Definition employee_formula_P (r : string) : string :=
  "IFERROR(O" +:+ r +:+ "/Q" +:+ r +:+ ",0)".
Definition employee_formula_Q (r : string) : string :=
  "K" +:+ r +:+ "+M" +:+ r +:+ "+O" +:+ r.

Definition set_employee_row_formulas (sheet_data : Element) (row_number : Z)
  : result Element :=
  let r := str row_number in
  sheet_data ← sfc sheet_data row_number "D" (employee_formula_D r);
  sheet_data ← sfc sheet_data row_number "E" (employee_formula_E r);
  sheet_data ← sfc sheet_data row_number "F" (employee_formula_F r);
  sheet_data ← sfc sheet_data row_number "G" (employee_formula_G r);
  sheet_data ← sfc sheet_data row_number "L" (employee_formula_L r);
  sheet_data ← sfc sheet_data row_number "N" (employee_formula_N r);
  sheet_data ← sfc sheet_data row_number "P" (employee_formula_P r);
  sfc sheet_data row_number "Q" (employee_formula_Q r).

(** ** Names *)

(** [text.split()]: the maximal runs of characters that are not
    whitespace. *)
Definition is_space (c : ascii) : bool :=
  let n := nat_of_ascii c in
  (n =? 32)%nat || ((9 <=? n)%nat && (n <=? 13)%nat)
  || ((28 <=? n)%nat && (n <=? 31)%nat).

Fixpoint py_split_from (cur : string) (s : string) : list string :=
  match s with
  | EmptyString =>
      match cur with EmptyString => [] | _ => [cur] end
  | String c s' =>
      if is_space c then
        match cur with
        | EmptyString => py_split_from EmptyString s'
        | _ => cur :: py_split_from EmptyString s'
        end
      else py_split_from (cur +:+ String c EmptyString) s'
  end.
Definition py_split (s : string) : list string := py_split_from EmptyString s.

(** [" ".join(tokens)] *)
Fixpoint join_space (tokens : list string) : string :=
  match tokens with
  | [] => EmptyString
  | [t] => t
  | t :: ts => t +:+ " " +:+ join_space ts
  end.

Fixpoint map_chars (f : ascii -> ascii) (s : string) : string :=
  match s with
  | EmptyString => EmptyString
  | String c s' => String (f c) (map_chars f s')
  end.

Fixpoint filter_chars (p : ascii -> bool) (s : string) : string :=
  match s with
  | EmptyString => EmptyString
  | String c s' =>
      if p c then String c (filter_chars p s') else filter_chars p s'
  end.

(** [text.lower()] on ASCII text. *)
Definition lower_char (c : ascii) : ascii :=
  if is_upper c then ascii_of_nat (nat_of_ascii c + 32) else c.

(** [.encode("ascii", "ignore").decode("ascii")] on UTF-8 text: the bytes
    of every character outside ASCII are dropped. *)
Definition ascii_ignore (s : string) : string :=
  filter_chars (fun c => (nat_of_ascii c <? 128)%nat) s.

(** [[^a-z0-9 ]+] *)
Definition NOT_NAME_CHARS_RE : regex :=
  Plus (Chr (fun c => negb (is_lower c || is_digit c || is_char " " c))).

Definition name_first_last (normalized_name : string) : string * string :=
  match py_split normalized_name with
  | [] => (EmptyString, EmptyString)
  | t :: ts => (t, List.last ts t)
  end.

Record RosterEntry : Type := mkRosterEntry {
  name : string;
  home_company : string;
  rate : float;
}.

Record EmployeeRow : Type := mkEmployeeRow {
  row_number : Z;
  row_elem : nat;          (* the row, as its index in the sheet data *)
  workbook_name : string;
  employee_home_company : string;
}.

(** ** The zip archive

    The members of an archive in directory order; [zin.read(name)] reads
    the member the directory maps the name to, which is the last one of
    that name. *)

Definition archive : Type := list (string * string).

Fixpoint zip_find (name : string) (z : archive) : option string :=
  match z with
  | [] => None
  | (n, data) :: z' =>
      match zip_find name z' with
      | Some d => Some d
      | None => if String.eqb n name then Some data else None
      end
  end.

Definition zip_read (z : archive) (name : string) : result string :=
  match zip_find name z with
  | Some d => Ok d
  | None => Err (KeyError name)
  end.

Definition namelist (z : archive) : list string := fst <$> z.

Definition CALC_CHAIN_REL_TYPE : string :=
  "http://schemas.openxmlformats.org/officeDocument/2006/relationships/calcChain".

Definition sheet1_path : string := "xl/worksheets/sheet1.xml".
Definition workbook_path : string := "xl/workbook.xml".
Definition workbook_rels_path : string := "xl/_rels/workbook.xml.rels".
Definition calc_chain_path : string := "xl/calcChain.xml".

(** The double quote character. *)
Definition dquote : string := String "034" EmptyString.

Definition quoted (s : string) : string := dquote +:+ s +:+ dquote.

Definition reimbursement_status_formula (due_row : Z) : string :=
  "IF(C" +:+ str due_row +:+ "=0,"
    +:+ quoted "No Scanio/SeaAir Reimbursement" +:+ ","
    +:+ "IF(C" +:+ str due_row +:+ ">0,"
    +:+ quoted "Scanio Owes Sea & Air" +:+ ","
    +:+ quoted "Sea & Air Owes Scanio" +:+ "))".

(** ** The program over its libraries

    The library functions the program calls are parameters:
    - [nfkd]: [unicodedata.normalize("NFKD", s)];
    - [ratio]: [difflib.SequenceMatcher(None, a, b).ratio()];
    - [tostring]: [ET.tostring(e, encoding="unicode")] with the main
      namespace registered as the default one;
    - [tostring_decl]: [ET.tostring(e, encoding="utf-8",
      xml_declaration=True)] with the relationships namespace registered;
    - [fromstring]: [ET.fromstring];
    - [parse_template]: the expansion [re] makes of a replacement text
      that contains a backslash, for a pattern without groups. *)

Section Program.

Variable nfkd : string -> string.
Variable ratio : string -> string -> float.
Variable tostring : Element -> string.
Variable tostring_decl : Element -> string.
Variable fromstring : string -> result Element.
Variable parse_template : string -> result string.

Definition normalize_name (name : string) : string :=
  let text := nfkd name in
  let text := ascii_ignore text in
  let text := map_chars lower_char text in
  let text := Re.sub NOT_NAME_CHARS_RE (fun _ => " ") text in
  let tokens := py_split text in
  join_space tokens.

(** *** Placing the roster *)

(** [grouped[entry["home_company"]].append(entry)] for each entry, then
    each group sorted by normalized name. *)
Definition group_roster (roster_entries : list RosterEntry)
  : gmap string (list RosterEntry) :=
  let grouped :=
    foldl (fun (grouped : gmap string (list RosterEntry)) entry =>
             <[home_company entry :=
                 default [] (grouped !! home_company entry) ++ [entry]]>
               grouped)
      ∅ roster_entries in
  (fun entries =>
     py_sorted
       (fun a b => String.ltb (normalize_name (name a))
                     (normalize_name (name b)))
       false entries) <$> grouped.

(** The state of the slot loop of [build_employee_rows_from_roster]. *)
Record SlotState : Type := mkSlotState {
  slot_sheet : Element;                  (* the sheet root *)
  insertions : list (Z * Z);
  company_slots : list (string * list Z);
}.

(** The overflow branch of the slot loop: the rows from [insert_at] on
    are shifted and the template row is cloned [overflow] times.  The
    template row is the element the program holds a reference to; it is
    read after the shift, at its index in the sheet data [sd]. *)
Definition insert_overflow_rows (sheet_root : Element) (sd : nat)
    (last_slot : Z) (insert_at overflow : Z) : result Element :=
  sheet_data ←
    match children sheet_root !! sd with
    | Some e => Ok e
    | None => Err IndexError
    end;
  '(sheet_data, template_row) ← get_or_create_row sheet_data last_slot;
  let sheet_root := set_child sd sheet_data sheet_root in
  sheet_root ← shift_rows_in_sheet sheet_root insert_at overflow;
  mutate_child sd
    (fun sheet_data =>
       match children sheet_data !! template_row with
       | Some template_row =>
           for_each
             (fun sheet_data index =>
                clone_template_row sheet_data template_row
                  (insert_at + index))
             (py_range 0 overflow) sheet_data
       | None => Err IndexError
       end)
    sheet_root.

Definition slot_step (grouped : gmap string (list RosterEntry)) (sd : nat)
    (st : SlotState) (item : string * list Z) : result SlotState :=
  let '(company, base_slots) := item in
  let slots :=
    (fun row_number => map_row_with_insertions row_number (insertions st))
    <$> base_slots in
  let overflow :=
    Z.of_nat (length (default [] (grouped !! company)))
    - Z.of_nat (length slots) in
  if 0 <? overflow then
    match last slots with
    | Some last_slot =>
        let insert_at := last_slot + 1 in
        sheet_root ←
          insert_overflow_rows (slot_sheet st) sd last_slot insert_at overflow;
        Ok (mkSlotState sheet_root
              (insertions st ++ [(insert_at, overflow)])
              (company_slots st
                 ++ [(company,
                      slots ++ ((fun index => insert_at + index)
                                <$> py_range 0 overflow))]))
    | None => Err IndexError
    end
  else
    Ok (mkSlotState (slot_sheet st) (insertions st)
          (company_slots st ++ [(company, slots)])).

(** The state of the placement loop. *)
Record PlaceState : Type := mkPlaceState {
  place_sheet : Element;                 (* the sheet data *)
  employee_rows : list EmployeeRow;
}.

Definition fill_columns : list string := ["H"; "I"; "J"; "K"; "M"; "O"].

(** The body of the placement loop for the slot [idx] of a company. *)
Definition place_row (company : string) (company_entries : list RosterEntry)
    (st : PlaceState) (slot : nat * Z) : result PlaceState :=
  let '(idx, row_number) := slot in
  '(sheet_data, ri) ← get_or_create_row (place_sheet st) row_number;
  let sheet_data :=
    update_child ri
      (fun row_elem => set_inline_string_cell row_elem row_number "A" "")
      sheet_data in
  sheet_data ← set_employee_row_formulas sheet_data row_number;
  match company_entries !! idx with
  | Some entry =>
      let sheet_data :=
        update_child ri
          (fun row_elem =>
             let row_elem :=
               set_inline_string_cell row_elem row_number "B" (name entry) in
             set_numeric_cell row_elem row_number "C" (rate entry) false)
          sheet_data in
      Ok (mkPlaceState sheet_data
            (employee_rows st
               ++ [mkEmployeeRow row_number ri (name entry) company]))
  | None =>
      let sheet_data :=
        update_child ri
          (fun row_elem =>
             let row_elem :=
               set_inline_string_cell row_elem row_number "B" "" in
             let row_elem :=
               set_numeric_cell row_elem row_number "C" 0 false in
             let row_elem :=
               foldl (fun row_elem column =>
                        set_numeric_cell row_elem row_number column 0 false)
                 row_elem fill_columns in
             set_numeric_cell row_elem row_number "G" 0 true)
          sheet_data in
      Ok (mkPlaceState sheet_data (employee_rows st))
  end.

(** [sheet_data] is the child [sd] of [sheet_root].  Returns the sheet
    root, the employee rows and the reimbursement row. *)
Definition build_employee_rows_from_roster (sheet_root : Element) (sd : nat)
    (roster_entries : list RosterEntry)
  : result (Element * list EmployeeRow * Z) :=
  let grouped := group_roster roster_entries in
  st ← for_each (slot_step grouped sd) COMPANY_ROW_SLOTS
         (mkSlotState sheet_root [] []);
  let sheet_root := slot_sheet st in
  let company_slots := company_slots st in
  sheet_data ←
    match children sheet_root !! sd with
    | Some e => Ok e
    | None => Err IndexError
    end;
  '(sheet_data, reimbursement_row) ←
    refresh_company_summary_formulas sheet_data company_slots;
  st ←
    for_each
      (fun st '(company, slots) =>
         let company_entries := default [] (grouped !! company) in
         for_each (place_row company company_entries)
           (imap (fun idx row_number => (idx, row_number)) slots) st)
      company_slots (mkPlaceState sheet_data []);
  Ok (set_child sd (place_sheet st) sheet_root,
      employee_rows st, reimbursement_row).

(** *** Identity resolution *)

(** The order of [(score, name)] tuples: the first components that differ
    decide. *)
Definition scored_lt (a b : float * string) : bool :=
  if PrimFloat.eqb (fst a) (fst b) then String.ltb (snd a) (snd b)
  else PrimFloat.ltb (fst a) (fst b).

(** The score of a candidate in the fuzzy pass. *)
Definition fuzzy_score (normalized_source : string) (workbook_name : string)
  : float :=
  let source_tokens := py_split normalized_source in
  let source_last := List.last source_tokens EmptyString in
  let source_first := List.hd EmptyString source_tokens in
  let normalized_workbook := normalize_name workbook_name in
  let workbook_tokens := py_split normalized_workbook in
  let workbook_first := List.hd EmptyString workbook_tokens in
  let workbook_last := List.last workbook_tokens EmptyString in
  let score := ratio normalized_source normalized_workbook in
  let score :=
    if negb (String.eqb source_last EmptyString)
       && String.eqb source_last workbook_last
    then (score + 0.08)%float else score in
  let score :=
    if negb (String.eqb source_first EmptyString)
       && String.eqb source_first workbook_first
    then (score + 0.05)%float else score in
  score.

(** The scored list of the fuzzy pass, before it is sorted. *)
Definition fuzzy_scored (workbook_names : list string) (used : gset string)
    (normalized_source : string) : list (float * string) :=
  (fun workbook_name => (fuzzy_score normalized_source workbook_name,
                         workbook_name))
  <$> filter (fun workbook_name => workbook_name ∉ used) workbook_names.

(** The decision of the fuzzy pass on the sorted list. *)
Definition fuzzy_gate (scored : list (float * string)) : option string :=
  match scored with
  | [] => None
  | (best_score, best_name) :: others =>
      let second_score :=
        match others with
        | (s, _) :: _ => s
        | [] => 0%float
        end in
      if PrimFloat.leb 0.78 best_score
         && PrimFloat.leb 0.03 (best_score - second_score)
      then Some best_name else None
  end.

Definition fuzzy_pass (workbook_names : list string) (used : gset string)
    (normalized_source : string) : option string :=
  fuzzy_gate
    (py_sorted scored_lt true
       (fuzzy_scored workbook_names used normalized_source)).

(** The dictionaries built from the workbook names. *)
Definition index_by {K} `{Countable K} (key : string -> K)
    (workbook_names : list string) : gmap K (list string) :=
  foldl (fun (d : gmap K (list string)) workbook_name =>
           <[key workbook_name :=
               default [] (d !! key workbook_name) ++ [workbook_name]]> d)
    ∅ workbook_names.

Definition available (used : gset string) (candidates : list string)
  : list string :=
  filter (fun candidate => candidate ∉ used) candidates.

(** The candidate chosen for a source name, if any. *)
Definition choose (workbook_names : list string)
    (normalized_to_workbook : gmap string (list string))
    (first_last_to_workbook : gmap (string * string) (list string))
    (used_workbook_names : gset string) (source_name : string)
  : option string :=
  let normalized_source := normalize_name source_name in
  let exact_matches :=
    available used_workbook_names
      (default [] (normalized_to_workbook !! normalized_source)) in
  match exact_matches with
  | [chosen] => Some chosen
  | _ =>
      let source_key := name_first_last normalized_source in
      let first_last_matches :=
        available used_workbook_names
          (default [] (first_last_to_workbook !! source_key)) in
      match first_last_matches with
      | [chosen] => Some chosen
      | _ => fuzzy_pass workbook_names used_workbook_names normalized_source
      end
  end.

Record MatchState : Type := mkMatchState {
  used_workbook_names : gset string;
  source_to_workbook : gmap string string;
  unmatched_sources : list string;
}.

Definition match_step (workbook_names : list string)
    (normalized_to_workbook : gmap string (list string))
    (first_last_to_workbook : gmap (string * string) (list string))
    (st : MatchState) (source_name : string) : MatchState :=
  match choose workbook_names normalized_to_workbook first_last_to_workbook
          (used_workbook_names st) source_name with
  | None =>
      mkMatchState (used_workbook_names st) (source_to_workbook st)
        (unmatched_sources st ++ [source_name])
  | Some chosen =>
      mkMatchState ({[chosen]} ∪ used_workbook_names st)
        (<[source_name := chosen]> (source_to_workbook st))
        (unmatched_sources st)
  end.

Definition match_loop (workbook_names source_names : list string)
  : MatchState :=
  let normalized_to_workbook := index_by normalize_name workbook_names in
  let first_last_to_workbook :=
    index_by (fun w => name_first_last (normalize_name w)) workbook_names in
  foldl (match_step workbook_names normalized_to_workbook
           first_last_to_workbook)
    (mkMatchState ∅ ∅ []) source_names.

Definition match_names (workbook_names source_names : list string)
  : gmap string string * list string :=
  let st := match_loop workbook_names source_names in
  (source_to_workbook st, unmatched_sources st).

(** *** Reassembly *)

Definition ensure_recalc_on_open (workbook_xml : Element) : Element :=
  let '(workbook_xml, ci) :=
    match find_index tag_calcPr workbook_xml with
    | Some ci => (workbook_xml, ci)
    | None =>
        (append_child (new_element tag_calcPr ∅) workbook_xml,
         length (children workbook_xml))
    end in
  update_child ci
    (fun calc =>
       set_attr "calcMode" "auto"
         (set_attr "forceFullCalc" "1" (set_attr "fullCalcOnLoad" "1" calc)))
    workbook_xml.

Definition ensure_all_rows_visible (sheet_xml : Element) : Element :=
  match find_index tag_sheetData sheet_xml with
  | None => sheet_xml
  | Some sd =>
      update_child sd
        (fun sheet_data =>
           foldl (fun sheet_data i => update_child i (pop_attr "hidden") sheet_data)
             sheet_data (findall_index tag_row sheet_data))
        sheet_xml
  end.

(** The replacement text of [pattern.subn(repl, ...)] for a text [repl]:
    taken literally when it holds no backslash, expanded otherwise. *)
Definition expand_template (repl : string) : result string :=
  if has_char (is_char "\") repl then parse_template repl else Ok repl.

Definition merge_sheet_data_into_original_xml
    (original_sheet_xml_bytes : string) (sheet_data : Element)
  : result string :=
  let original_xml := original_sheet_xml_bytes in
  let sheet_data_xml := tostring sheet_data in
  literal ← expand_template sheet_data_xml;
  let '(merged_xml, replacements) :=
    subn_first SHEET_DATA_XML_RE literal original_xml in
  if negb (replacements =? 1)
  then Err (ValueError "Could not merge updated sheetData into sheet1.xml")
  else Ok merged_xml.

Definition merge_calc_pr_into_original_workbook_xml
    (original_workbook_xml_bytes : string) (workbook_root : Element)
  : result string :=
  let original_xml := original_workbook_xml_bytes in
  match find tag_calcPr workbook_root with
  | None => Ok original_workbook_xml_bytes
  | Some calc =>
      let calc_xml := tostring calc in
      literal ← expand_template calc_xml;
      let '(merged_xml, replacements) :=
        subn_first CALC_PR_XML_RE literal original_xml in
      if negb (replacements =? 1) then Ok original_workbook_xml_bytes
      else Ok merged_xml
  end.

Definition is_calc_chain_rel (rel : Element) : bool :=
  has_tag (qname NS_REL "Relationship") rel
  && bool_decide (get_attr "Type" rel = Some CALC_CHAIN_REL_TYPE).

Definition remove_calc_chain_relationship (workbook_rels_bytes : string)
  : result (string * bool) :=
  root ← fromstring workbook_rels_bytes;
  let removed := existsb is_calc_chain_rel (children root) in
  if negb removed then Ok (workbook_rels_bytes, false)
  else
    let root :=
      set_children
        (filter (fun rel => is_calc_chain_rel rel = false) (children root))
        root in
    Ok (tostring_decl root, true).

(** The loop of [fill_workbook] that writes the output archive. *)
Definition write_member (zin : archive) (sheet1_bytes workbook_bytes : string)
    (updated_workbook_rels_bytes : option string)
    (remove_calc_chain_part : bool) (zout : archive) (item : string * string)
  : result archive :=
  let filename := fst item in
  if remove_calc_chain_part && String.eqb filename calc_chain_path
  then Ok zout
  else
    data ← zip_read zin filename;
    let data :=
      if String.eqb filename sheet1_path then sheet1_bytes
      else if String.eqb filename workbook_path then workbook_bytes
      else
        match updated_workbook_rels_bytes with
        | Some rels =>
            if String.eqb filename workbook_rels_path then rels else data
        | None => data
        end in
    Ok (zout ++ [(filename, data)]).

(** The end of [fill_workbook]: from the filled sheet and the workbook
    root to the members of the output archive.  [sd] is the index of the
    sheet data in the sheet root. *)
Definition fill_workbook_output (zin : archive) (sheet1_root : Element)
    (sd : nat) (workbook_root : Element) (reimbursement_row : Z)
  : result archive :=
  workbook_original_bytes ← zip_read zin workbook_path;
  sheet1_original_bytes ← zip_read zin sheet1_path;
  workbook_rels_bytes ←
    (if bool_decide (workbook_rels_path ∈ namelist zin)
     then d ← zip_read zin workbook_rels_path; Ok (Some d)
     else Ok None);
  let due_row := reimbursement_row - 8 in
  sheet1_root ←
    mutate_child sd
      (fun sheet_data =>
         set_formula_string_cell sheet_data reimbursement_row "B"
           (reimbursement_status_formula due_row))
      sheet1_root;
  let sheet1_root := ensure_all_rows_visible sheet1_root in
  let workbook_root := ensure_recalc_on_open workbook_root in
  sheet_data ←
    match children sheet1_root !! sd with
    | Some e => Ok e
    | None => Err IndexError
    end;
  sheet1_bytes ←
    merge_sheet_data_into_original_xml sheet1_original_bytes sheet_data;
  workbook_bytes ←
    merge_calc_pr_into_original_workbook_xml workbook_original_bytes
      workbook_root;
  '(updated_workbook_rels_bytes, remove_calc_chain_part) ←
    match workbook_rels_bytes with
    | Some rels =>
        '(updated, removed) ← remove_calc_chain_relationship rels;
        Ok (Some updated, removed)
    | None => Ok (None, false)
    end;
  for_each
    (write_member zin sheet1_bytes workbook_bytes updated_workbook_rels_bytes
       remove_calc_chain_part)
    zin [].

End Program.

(** ** Stand-ins for the library functions

    Simple concrete functions in the place of the library parameters, to
    run the program on concrete documents. *)

Module Sample.

(** The local part of a qualified tag. *)
Fixpoint local_name (t : string) : string :=
  match t with
  | EmptyString => EmptyString
  | String c t' =>
      if has_char (is_char "}") t' then local_name t'
      else if Ascii.eqb c "}" then t' else t
  end.

(** A serializer that writes tags, texts and children, and no
    attributes. *)
Fixpoint tostring (e : Element) : string :=
  let name := local_name (tag e) in
  "<" +:+ name +:+ ">" +:+ default "" (text e)
    +:+ (fix all (cs : list Element) : string :=
           match cs with
           | [] => ""
           | c :: cs' => tostring c +:+ all cs'
           end) (children e)
    +:+ "</" +:+ name +:+ ">".

Definition tostring_decl (e : Element) : string :=
  "<?xml version='1.0' encoding='utf-8'?>" +:+ tostring e.

(** A template with a backslash is rejected. *)
Definition parse_template (repl : string) : result string :=
  Err (ReError "bad escape").

(** NFKD leaves ASCII text as it is. *)
Definition nfkd (s : string) : string := s.

(** The similarity of a few pairs of normalized names, as [difflib]
    computes it; one for equal texts and one half for the other pairs. *)
Definition ratio (a b : string) : float :=
  if String.eqb a b then 1%float
  else if String.eqb a "jon smith" && String.eqb b "jonathan smith"
  then 0x1.90b21642c8591p-1%float
  else if String.eqb a "jon smith" && String.eqb b "john smith"
  then 0x1.e50d79435e50dp-1%float
  else if String.eqb a "jon smith" && String.eqb b "maria lopez"
  then 0x1.999999999999ap-4%float
  else 0.5%float.

Definition roster_names : list string := ["Maria Lopez"; "Jonathan Smith"].

Definition relationship (type target : string) : Element :=
  mkElement (qname NS_REL "Relationship")
    {[ "Type" := type; "Target" := target ]} None None [].

Definition rels_with_chain : Element :=
  mkElement (qname NS_REL "Relationships") ∅ None None
    [ relationship "worksheet" "worksheets/sheet1.xml";
      relationship CALC_CHAIN_REL_TYPE "calcChain.xml" ].

Definition rels_without_chain : Element :=
  mkElement (qname NS_REL "Relationships") ∅ None None
    [ relationship "worksheet" "worksheets/sheet1.xml" ].

(** A parser that knows two relationship documents. *)
Definition fromstring (s : string) : result Element :=
  if String.eqb s "rels-with-chain" then Ok rels_with_chain
  else if String.eqb s "rels-without-chain" then Ok rels_without_chain
  else Err (ValueError "not well-formed").

(** A small worksheet: two employee rows and a total row. *)
Definition cell (r : string) (formula value : option string) : Element :=
  mkElement tag_c {[ "r" := r; "s" := "3" ]} None None
    (match formula with
     | Some f => [mkElement tag_f ∅ (Some f) None []]
     | None => []
     end
     ++ match value with
        | Some v => [mkElement tag_v ∅ (Some v) None []]
        | None => []
        end).

Definition row (r : string) (hidden : bool) (cells : list Element) : Element :=
  mkElement tag_row
    (if hidden then {[ "r" := r; "hidden" := "1" ]} else {[ "r" := r ]})
    None None cells.

Definition sheet_data : Element :=
  mkElement tag_sheetData ∅ None None
    [ row "24" false [cell "C24" None (Some "20")];
      row "25" true
        [cell "C25" None (Some "18");
         cell "D25" (Some "SUM(K25:O25)+$A$26+A26") (Some "7")];
      row "26" false [cell "D26" (Some "SUM(D5:D25)") (Some "9")] ].

Definition worksheet : Element :=
  mkElement (main "worksheet") ∅ None None
    [ mkElement tag_dimension {[ "ref" := "A1:Q120" ]} None None [];
      sheet_data;
      mkElement tag_mergeCells ∅ None None
        [mkElement tag_mergeCell {[ "ref" := "B20:B30" ]} None None []] ].



(** A row with a formula cell and a data-table cell, whose formula
    element has a range but no text. *)
Definition table_cell (r : string) : Element :=
  mkElement tag_c {[ "r" := r ]} None None
    [ mkElement tag_f {[ "t" := "dataTable"; "ref" := "B10:B12" ]}
        None None [];
      mkElement tag_v ∅ (Some "4") None [] ].

Definition template_row : Element :=
  row "10" false
    [ cell "C10" (Some "C10*$C$10+B$9+$A11") (Some "20");
      table_cell "D10" ].

Definition template_sheet_data : Element :=
  mkElement tag_sheetData ∅ None None
    [ row "9" false []; template_row; row "16" false [] ].

Definition workbook : Element :=
  mkElement (main "workbook") ∅ None None
    [ mkElement (main "sheets") ∅ None None [] ].

Definition two_sheet_data : string :=
  "<worksheet><sheetData><row/></sheetData><x><sheetData></sheetData></x></worksheet>".

Definition workbook_without_calc : string := "<workbook><sheets/></workbook>".

(** Two archives that hold a calculation chain part; the relationships
    of the first list it, those of the second do not. *)
Definition archive_of (rels : string) : archive :=
  [ ("[Content_Types].xml", "<Types/>");
    (workbook_path, "<workbook><sheets/><calcPr/></workbook>");
    (workbook_rels_path, rels);
    (sheet1_path, "<worksheet><sheetData><row/></sheetData></worksheet>");
    ("xl/styles.xml", "<styleSheet/>");
    (calc_chain_path, "<calcChain/>") ].

Definition archive_with_chain : archive := archive_of "rels-with-chain".
Definition archive_without_rel : archive := archive_of "rels-without-chain".

(** A roster with nine employees in a section that has seven slots. *)
Definition storage_roster : list RosterEntry :=
  (fun n => mkRosterEntry n "scanio_storage" 20%float)
  <$> [ "Ada Young"; "Ben Xu"; "Cleo West"; "Dan Vega"; "Eve Usher";
        "Finn Tate"; "Gus Stone"; "Hal Reyes"; "Ivy Quinn" ].

(** The state of the slot loop on the sample sheet before the second
    section. *)
Definition storage_state : SlotState :=
  mkSlotState worksheet [] [("scanio_moving", py_range 5 26)].

End Sample.

(** ** Vocabulary of the properties *)

(** [a] is [b] with some text in front. *)
Definition extends (a b : string) : Prop := ∃ pre, a = pre +:+ b.

(** The number of matches [pattern.findall] would report. *)
Definition is_match (pc : piece) : bool :=
  match pc with PMatch _ _ => true | PChar _ => false end.

Definition occurrences (r : regex) (s : string) : nat :=
  length (filter (fun pc => is_match pc = true) (scan r s)).



(** What [ensure_all_rows_visible] does to a child of the sheet data. *)
Definition unhide (e : Element) : Element :=
  if has_tag tag_row e then pop_attr "hidden" e else e.

(** The data [fill_workbook] writes for a member of the output archive. *)
Definition member_data (zin : archive) (sheet1_bytes workbook_bytes : string)
    (updated_workbook_rels_bytes : option string) (filename : string)
  : string :=
  if String.eqb filename sheet1_path then sheet1_bytes
  else if String.eqb filename workbook_path then workbook_bytes
  else
    match updated_workbook_rels_bytes with
    | Some rels =>
        if String.eqb filename workbook_rels_path then rels
        else default "" (zip_find filename zin)
    | None => default "" (zip_find filename zin)
    end.

(** Whether [fill_workbook] drops the calculation chain part: the
    relationships part is there and lists a calculation chain. *)
Definition drops_calc_chain (fromstring : string -> result Element)
    (zin : archive) : bool :=
  match zip_find workbook_rels_path zin with
  | Some rels =>
      match fromstring rels with
      | Ok root => existsb is_calc_chain_rel (children root)
      | Err _ => false
      end
  | None => false
  end.

(** The parts [fill_workbook] rewrites or may drop. *)
Definition touched_parts : list string :=
  [sheet1_path; workbook_path; workbook_rels_path; calc_chain_path].

(** The members the loop of [fill_workbook] writes for a list of
    members of the input. *)
Definition written (zin : archive) (sheet1_bytes workbook_bytes : string)
    (rels : option string) (drop : bool) (items : archive) : archive :=
  item ← items;
  if drop && String.eqb (fst item) calc_chain_path then []
  else [(fst item, member_data zin sheet1_bytes workbook_bytes rels (fst item))].

(** The frame of the output archive [zout] of [fill_workbook] on the
    input archive [zin]. *)
Definition output_frame (fromstring : string -> result Element)
    (zin zout : archive) : Prop :=
  (∀ name, name ∉ touched_parts -> zip_find name zout = zip_find name zin)
  ∧ namelist zout
    = filter (fun n => negb (drops_calc_chain fromstring zin
                             && String.eqb n calc_chain_path) = true)
        (namelist zin)
  ∧ zip_find calc_chain_path zout
    = if drops_calc_chain fromstring zin then None
      else zip_find calc_chain_path zin.

(** What [ensure_all_rows_visible] leaves of the sheet data [sheet_data],
    child [sd] of [sheet_xml]: the rows have lost their hidden attribute
    and kept everything else, and nothing else has changed. *)
Definition rows_made_visible (sheet_xml sheet_data : Element) (sd : nat)
  : Prop :=
  ∃ sheet_data',
    children (ensure_all_rows_visible sheet_xml) !! sd = Some sheet_data'
    ∧ (∀ j, j <> sd ->
         children (ensure_all_rows_visible sheet_xml) !! j
         = children sheet_xml !! j)
    ∧ tag sheet_data' = tag sheet_data
    ∧ attrib sheet_data' = attrib sheet_data
    ∧ length (children sheet_data') = length (children sheet_data)
    ∧ (∀ i e, children sheet_data !! i = Some e ->
         has_tag tag_row e = false ->
         children sheet_data' !! i = Some e)
    ∧ (∀ i row, children sheet_data !! i = Some row ->
         has_tag tag_row row = true ->
         ∃ row', children sheet_data' !! i = Some row'
           ∧ get_attr "hidden" row' = None
           ∧ (∀ k, k <> "hidden" -> get_attr k row' = get_attr k row)
           ∧ tag row' = tag row ∧ text row' = text row
           ∧ children row' = children row).

(** The invariant of the loop of [match_names], after the source names
    [processed]. *)
Record match_inv (workbook_names processed : list string) (st : MatchState)
  : Prop := {
  inv_used : ∀ q c, source_to_workbook st !! q = Some c ->
                    c ∈ used_workbook_names st;
  inv_inj : ∀ q1 q2 c, source_to_workbook st !! q1 = Some c ->
                       source_to_workbook st !! q2 = Some c -> q1 = q2;
  inv_cand : ∀ q c, source_to_workbook st !! q = Some c ->
                    c ∈ workbook_names ∧ q ∈ processed;
  inv_cover : ∀ q, q ∈ processed ->
                   is_Some (source_to_workbook st !! q)
                   ∨ q ∈ unmatched_sources st;
  inv_unmatched : ∀ q, q ∈ unmatched_sources st -> q ∈ processed;
}.

(** *** Floats as ordered values

    A float that is a number has a place in the order of the numbers;
    [float_key] gives that place as a triple ordered lexicographically:
    the class (infinities, finite negatives, zeros, finite positives), the
    exponent and the mantissa, the last two negated for negatives. *)

Definition not_nan (x : float) : Prop := PrimFloat.eqb x x = true.

Definition sf_key (f : spec_float) : Z * Z * Z :=
  match f with
  | S754_nan => (0, 0, 0)
  | S754_infinity true => (-2, 0, 0)
  | S754_infinity false => (2, 0, 0)
  | S754_zero _ => (0, 0, 0)
  | S754_finite true m e => (-1, - e, Z.neg m)
  | S754_finite false m e => (1, e, Z.pos m)
  end.

Definition float_key (x : float) : Z * Z * Z := sf_key (Prim2SF x).


Definition key_lt (k1 k2 : Z * Z * Z) : Prop :=
  let '(a1, b1, c1) := k1 in
  let '(a2, b2, c2) := k2 in
  a1 < a2 ∨ (a1 = a2 ∧ (b1 < b2 ∨ (b1 = b2 ∧ c1 < c2))).

(** The strict order of the [(score, name)] tuples of the fuzzy pass. *)
Definition scored_before (a b : float * string) : Prop :=
  key_lt (float_key a.1) (float_key b.1)
  ∨ (float_key a.1 = float_key b.1 ∧ String.ltb a.2 b.2 = true).



(** *** Reading a reference without backtracking

    The classes of the characters of a reference ([$], capital letters,
    digits) are disjoint, so what [FORMULA_CELL_REF_RE] matches at a
    cursor is read off the text from left to right. *)

(** The longest prefix of characters of a class, and the rest. *)
Fixpoint span (p : ascii -> bool) (s : string) : string * string :=
  match s with
  | String c s' =>
      if p c then let '(a, b) := span p s' in (String c a, b)
      else (EmptyString, s)
  | EmptyString => (EmptyString, EmptyString)
  end.

(** The non-empty prefixes of characters of a class, longest first, each
    with the rest of the text. *)
Fixpoint run_splits (p : ascii -> bool) (s : string)
  : list (string * string) :=
  match s with
  | String c s' =>
      if p c
      then ((fun ab => (String c ab.1, ab.2)) <$> run_splits p s')
           ++ [(String c EmptyString, s')]
      else []
  | EmptyString => []
  end.

(** An optional [$] sign, and the rest. *)
Definition strip_dollar (s : string) : string * string :=
  match s with
  | String c s' =>
      if is_char "$" c then (String c EmptyString, s') else (EmptyString, s)
  | EmptyString => (EmptyString, EmptyString)
  end.

(** The character before the cursor once [consumed] has been read. *)
Definition prev_after (p : option ascii) (consumed : string) : option ascii :=
  match last_char consumed with
  | Some c => Some c
  | None => p
  end.

(** The part of a reference before its digits: the column sign, the
    column, the row sign, and the rest of the text. *)
Definition ref_prefix (s : string) : option (string * string * string * string) :=
  let '(col_abs, s1) := strip_dollar s in
  let '(col, s2) := span is_upper s1 in
  if (1 <=? String.length col)%nat && (String.length col <=? 3)%nat then
    let '(row_abs, s3) := strip_dollar s2 in
    Some (col_abs, col, row_abs, s3)
  else None.

(** The reference at the start of a text: its four groups and the rest
    of the text. *)
Definition ref_at (s : string) : option (list string * string) :=
  match ref_prefix s with
  | Some (col_abs, col, row_abs, s3) =>
      let '(row_text, rest) := span is_digit s3 in
      match row_text with
      | EmptyString => None
      | _ => Some ([col_abs; col; row_abs; row_text], rest)
      end
  | None => None
  end.

(** *** Formulas as tokens *)

(** A formula as the program reads it: references, and the characters
    between them. *)
Inductive ftoken : Type :=
| TChar (c : ascii)
| TRef (col_abs col row_abs : string) (row : Z).

Definition token_of_piece (pc : piece) : ftoken :=
  match pc with
  | PChar c => TChar c
  | PMatch _ [col_abs; col; row_abs; row_text] =>
      TRef col_abs col row_abs (default 0 (digits_value row_text))
  | PMatch _ _ => TRef "" "" "" 0
  end.

Definition formula_tokens (formula : string) : list ftoken :=
  token_of_piece <$> scan FORMULA_CELL_REF_RE formula.

Definition render_token (t : ftoken) : string :=
  match t with
  | TChar c => String c EmptyString
  | TRef col_abs col row_abs row => col_abs +:+ col +:+ row_abs +:+ str row
  end.

(** The text of a list of tokens; row numbers are written without
    leading zeros. *)
Definition render_tokens (ts : list ftoken) : string :=
  concat_text (render_token <$> ts).

(** Row insertion on a token: every reference to a row from [start_row]
    on moves by [delta], whatever its signs. *)
Definition insert_token (start_row delta : Z) (t : ftoken) : ftoken :=
  match t with
  | TRef col_abs col row_abs row =>
      TRef col_abs col row_abs
        (if start_row <=? row then row + delta else row)
  | TChar c => TChar c
  end.

(** Row copy on a token: a reference without a row sign moves by
    [delta]. *)
Definition copy_token (delta : Z) (t : ftoken) : ftoken :=
  match t with
  | TRef col_abs col row_abs row =>
      TRef col_abs col row_abs
        (match row_abs with
         | EmptyString => row + delta
         | _ => row
         end)
  | TChar c => TChar c
  end.

(** The rows of the references of a list of tokens are not negative. *)
Definition rows_nonneg (ts : list ftoken) : Prop :=
  ∀ col_abs col row_abs row, TRef col_abs col row_abs row ∈ ts -> 0 <= row.

(** The groups of a match of the reference pattern: two signs, a column
    and the digits of a row. *)
Definition ref_groups (gs : list string) : Prop :=
  ∃ col_abs col row_abs row_text row,
    gs = [col_abs; col; row_abs; row_text]
    ∧ digits_value row_text = Some row ∧ 0 <= row.

(** A text that is one reference, as a token. *)
Definition ref_token (part : string) : option ftoken :=
  match ref_at part with
  | Some ([col_abs; col; row_abs; row_text], EmptyString) =>
      Some (TRef col_abs col row_abs (default 0 (digits_value row_text)))
  | _ => None
  end.

(** Row insertion on a range text [a] or [a:b]: each side that is a
    reference is renumbered, any other side is kept. *)
Definition insert_range_text (start_row delta : Z) (ref_text : string)
  : string :=
  join_colon
    ((fun part =>
        match ref_token part with
        | Some t => render_token (insert_token start_row delta t)
        | None => part
        end) <$> split_colon_once ref_text).

(** *** Places in a sheet *)

(** The formula text and the range annotation of a cell. *)
Definition formula_text (cell : Element) : option string :=
  formula ← find tag_f cell; text formula.
Definition formula_ref (cell : Element) : option string :=
  formula ← find tag_f cell; get_attr "ref" formula.

(** The child [ri] of the sheet data of a sheet, and its child [ci]. *)
Definition sheet_row (sheet_root : Element) (ri : nat) : option Element :=
  sheet_data ← find tag_sheetData sheet_root; children sheet_data !! ri.
Definition sheet_cell (sheet_root : Element) (ri ci : nat) : option Element :=
  row_elem ← sheet_row sheet_root ri; children row_elem !! ci.

(** The child [i] of the merged ranges of a sheet. *)
Definition merged_range (sheet_root : Element) (i : nat) : option Element :=
  merge_cells ← find tag_mergeCells sheet_root; children merge_cells !! i.

(** What a row shift does to a sheet: the formula of every cell of every
    row is rewritten token by token, and the merged ranges and the
    dimension are renumbered. *)
Definition rows_shifted (start_row delta : Z) (sheet_root root' : Element)
  : Prop :=
  (∀ ri ci row_elem cell t,
     sheet_row sheet_root ri = Some row_elem ->
     has_tag tag_row row_elem = true ->
     children row_elem !! ci = Some cell ->
     has_tag tag_c cell = true ->
     formula_text cell = Some t -> t <> "" ->
     ∃ cell',
       sheet_cell root' ri ci = Some cell'
       ∧ formula_text cell'
         = Some (render_tokens
                   (insert_token start_row delta <$> formula_tokens t)))
  ∧ (∀ i mc ref_text,
       merged_range sheet_root i = Some mc ->
       has_tag tag_mergeCell mc = true ->
       get_attr "ref" mc = Some ref_text ->
       ∃ mc',
         merged_range root' i = Some mc'
         ∧ get_attr "ref" mc'
           = Some (insert_range_text start_row delta ref_text))
  ∧ (∀ dimension ref_text,
       find tag_dimension sheet_root = Some dimension ->
       get_attr "ref" dimension = Some ref_text ->
       ∃ dimension',
         find tag_dimension root' = Some dimension'
         ∧ get_attr "ref" dimension'
           = Some (insert_range_text start_row delta ref_text)).

(** What cloning a row gives: the clone carries the target number and
    has a cell for each cell of the template; where the template cell
    has a formula element, the first cached value of the cell is gone,
    and a formula text that is not empty is rewritten token by token and
    has lost its range annotation, while a formula element without text
    is kept as it is. *)
Definition row_cloned (target_row delta : Z)
    (template_row row_clone : Element) : Prop :=
  get_attr "r" row_clone = Some (str target_row)
  ∧ length (children row_clone) = length (children template_row)
  ∧ ∀ ci cell,
      children template_row !! ci = Some cell ->
      has_tag tag_c cell = true ->
      ∃ cell',
        children row_clone !! ci = Some cell'
        ∧ ∀ formula,
            find tag_f cell = Some formula ->
            findall tag_v cell' = drop 1 (findall tag_v cell)
            ∧ ∃ formula',
                find tag_f cell' = Some formula'
                ∧ match text formula with
                  | Some (String _ _ as t) =>
                      text formula'
                      = Some (if delta =? 0 then t
                              else render_tokens
                                     (copy_token delta <$> formula_tokens t))
                      ∧ get_attr "ref" formula' = None
                  | _ => formula' = formula
                  end.

(** *** Reading a sheet by row number and cell reference *)

(** The first element of a list that passes a test. *)
Definition first_where {A} (p : A -> bool) (l : list A) : option A :=
  i ← index_where p l; l !! i.

Definition is_row (r : Z) (c : Element) : bool :=
  has_tag tag_row c
  && match row_number_of c with
     | Ok n => n =? r
     | Err _ => false
     end.

Definition is_cell (target_ref : string) (cell : Element) : bool :=
  has_tag tag_c cell && bool_decide (get_attr "r" cell = Some target_ref).

(** The first row with a number, its first cell with a reference, and
    the formula text of the cell of a column in the row with a number. *)
Definition row_at (sheet_data : Element) (r : Z) : option Element :=
  first_where (is_row r) (children sheet_data).
Definition cell_at (row_elem : Element) (target_ref : string)
  : option Element :=
  first_where (is_cell target_ref) (children row_elem).
Definition formula_at (sheet_data : Element) (r : Z) (column : string)
  : option string :=
  row_elem ← row_at sheet_data r;
  cell ← cell_at row_elem (column +:+ str r);
  formula_text cell.

(** *** Formulas and their values

    The formulas of an employee row as expressions, with the text they
    are written as and the value a spreadsheet gives them over the
    rationals ([None] stands for an error value). *)

Inductive fexpr : Type :=
| FInt (n : Z)                          (* an integer constant *)
| FDec (whole tenth : Z)                (* a constant [whole.tenth] *)
| FRef (column : string) (row : Z)
| FAdd (a b : fexpr)
| FSub (a b : fexpr)
| FMul (a b : fexpr)
| FDiv (a b : fexpr)
| FParen (a : fexpr)
| FSum (first_column last_column : string) (row : Z)  (* [SUM] over a row *)
| FIfGt (a b t e : fexpr)               (* [IF(a>b,t,e)] *)
| FIfError (a b : fexpr).               (* [IFERROR(a,b)] *)

(** The text of an expression, followed by [rest]. *)
Fixpoint render_to (e : fexpr) (rest : string) : string :=
  match e with
  | FInt n => str n +:+ rest
  | FDec whole tenth => str whole +:+ "." +:+ str tenth +:+ rest
  | FRef column row => column +:+ str row +:+ rest
  | FAdd a b => render_to a ("+" +:+ render_to b rest)
  | FSub a b => render_to a ("-" +:+ render_to b rest)
  | FMul a b => render_to a ("*" +:+ render_to b rest)
  | FDiv a b => render_to a ("/" +:+ render_to b rest)
  | FParen a => "(" +:+ render_to a (")" +:+ rest)
  | FSum first_column last_column row =>
      "SUM(" +:+ first_column +:+ str row +:+ ":" +:+ last_column
        +:+ str row +:+ ")" +:+ rest
  | FIfGt a b t e =>
      "IF(" +:+ render_to a
                  (">" +:+ render_to b
                             ("," +:+ render_to t
                                        ("," +:+ render_to e (")" +:+ rest))))
  | FIfError a b =>
      "IFERROR(" +:+ render_to a ("," +:+ render_to b (")" +:+ rest))
  end.

Definition render (e : fexpr) : string := render_to e "".

(** The one-letter columns from one to another. *)
Definition columns_between (first_column last_column : string)
  : list string :=
  match first_column, last_column with
  | String a EmptyString, String b EmptyString =>
      (fun n => String (ascii_of_nat n) EmptyString)
      <$> seq (nat_of_ascii a) (S (nat_of_ascii b) - nat_of_ascii a)
  | _, _ => []
  end.

Definition sum_values (vs : list (option Q)) : option Q :=
  foldl (fun acc v =>
           match acc, v with
           | Some a, Some x => Some (a + x)%Q
           | _, _ => None
           end) (Some 0%Q) vs.

Fixpoint eval (env : string -> Z -> option Q) (e : fexpr) : option Q :=
  match e with
  | FInt n => Some (inject_Z n)
  | FDec whole tenth => Some (inject_Z whole + inject_Z tenth / 10)%Q
  | FRef column row => env column row
  | FAdd a b => x ← eval env a; y ← eval env b; Some (x + y)%Q
  | FSub a b => x ← eval env a; y ← eval env b; Some (x - y)%Q
  | FMul a b => x ← eval env a; y ← eval env b; Some (x * y)%Q
  | FDiv a b =>
      x ← eval env a; y ← eval env b;
      if Qeq_bool y 0 then None else Some (x / y)%Q
  | FParen a => eval env a
  | FSum first_column last_column row =>
      sum_values
        ((fun column => env column row)
         <$> columns_between first_column last_column)
  | FIfGt a b t e =>
      x ← eval env a; y ← eval env b;
      match (x ?= y)%Q with
      | Gt => eval env t
      | _ => eval env e
      end
  | FIfError a b =>
      match eval env a with
      | Some x => Some x
      | None => eval env b
      end
  end.

(** The formulas [set_employee_row_formulas] writes, as expressions. *)
Definition employee_formulas (r : Z) : list (string * fexpr) :=
  [ ("D", FSum "K" "O" r);
    ("E", FIfGt (FRef "D" r) (FInt 40)
            (FAdd
               (FMul (FParen (FSub (FRef "D" r) (FInt 40)))
                  (FParen (FMul (FRef "C" r) (FDec 1 5))))
               (FParen (FMul (FRef "C" r) (FInt 40))))
            (FMul (FRef "D" r) (FRef "C" r)));
    ("F", FIfGt (FRef "D" r) (FInt 40)
            (FMul (FParen (FSub (FRef "D" r) (FInt 40)))
               (FParen (FMul (FRef "C" r) (FDec 0 5))))
            (FInt 0));
    ("G", FSum "H" "J" r);
    ("L", FIfError (FDiv (FRef "K" r) (FRef "Q" r)) (FInt 0));
    ("N", FIfError (FDiv (FRef "M" r) (FRef "Q" r)) (FInt 0));
    ("P", FIfError (FDiv (FRef "O" r) (FRef "Q" r)) (FInt 0));
    ("Q", FAdd (FAdd (FRef "K" r) (FRef "M" r)) (FRef "O" r)) ].

(** The value of a cell of the employee row [r]: the value of its
    formula when [set_employee_row_formulas] gives it one, the value
    entered otherwise.  [fuel] bounds the depth of the references. *)
Fixpoint cell_value (fuel : nat) (entered : string -> Q) (r : Z)
    (column : string) (row : Z) : option Q :=
  match fuel with
  | O => None
  | S fuel' =>
      if row =? r then
        match assoc column (employee_formulas r) with
        | Some e => eval (cell_value fuel' entered r) e
        | None => Some (entered column)
        end
      else None
  end.

(** The hours and the rate entered in an employee row. *)
Definition entered_hours (rate scanio sea_and_air flat_price : Q)
    (column : string) : Q :=
  if String.eqb column "C" then rate
  else if String.eqb column "K" then scanio
  else if String.eqb column "M" then sea_and_air
  else if String.eqb column "O" then flat_price
  else 0%Q.

(** The writes of a list of formulas, one after the other. *)
Definition apply_writes (ws : list (Z * string * string))
    (sheet_data : Element) : result Element :=
  for_each (fun sheet_data '(r, column, formula) =>
              sfc sheet_data r column formula) ws sheet_data.

(** The last formula a list of writes gives a cell, if any. *)
Fixpoint last_write (ws : list (Z * string * string)) (r : Z)
    (column : string) : option string :=
  match ws with
  | [] => None
  | (r', column', formula) :: ws' =>
      match last_write ws' r column with
      | Some f => Some f
      | None =>
          if String.eqb column' column && (r' =? r) then Some formula
          else None
      end
  end.

(** A cell has a value, which is the rational [q]. *)
Definition value_is (v : option Q) (q : Q) : Prop :=
  match v with
  | Some x => (x == q)%Q
  | None => False
  end.

(** A share of a total, zero when the total is zero. *)
Definition fraction (part total : Q) : Q :=
  if Qeq_bool total 0 then 0%Q else (part / total)%Q.

(** The value of column D of an employee row: the hours of the three
    companies and, in between, the shares that columns L and N hold. *)
Definition total_hours_D (scanio sea_and_air flat_price : Q) : Q :=
  let total := (scanio + sea_and_air + flat_price)%Q in
  (0 + scanio + fraction scanio total + sea_and_air
   + fraction sea_and_air total + flat_price)%Q.

(** *** Overflow *)

(** Row numbers after a row shift: each row keeps its place among the
    children of the sheet data and a row numbered [start_row] or more
    is numbered [delta] more. *)
Definition rows_renumbered (start_row delta : Z)
    (sheet_data sheet_data' : Element) : Prop :=
  length (children sheet_data') = length (children sheet_data)
  ∧ ∀ i row_elem n,
      children sheet_data !! i = Some row_elem ->
      has_tag tag_row row_elem = true ->
      row_number_of row_elem = Ok n ->
      ∃ row',
        children sheet_data' !! i = Some row'
        ∧ has_tag tag_row row' = true
        ∧ row_number_of row'
          = Ok (if start_row <=? n then n + delta else n).

(** What the overflow branch does to the sheet of a section whose last
    slot is [last_slot]: the row of the last slot is looked up (and
    created when the sheet has none); the rows after it, and the
    references to them, are shifted down by [overflow]; then the sheet
    data gets exactly [overflow] new rows, numbered from [last_slot + 1]
    on, each a clone of the row of the last slot as it stands after the
    shift. *)
Definition overflow_inserted (last_slot overflow : Z) (sd : nat)
    (sheet_root root' : Element) : Prop :=
  ∃ sheet_data sheet_data0 ti root1 sheet_data1 sheet_data' template,
    children sheet_root !! sd = Some sheet_data
    ∧ get_or_create_row sheet_data last_slot = Ok (sheet_data0, ti)
    ∧ shift_rows_in_sheet (set_child sd sheet_data0 sheet_root)
        (last_slot + 1) overflow = Ok root1
    ∧ rows_shifted (last_slot + 1) overflow
        (set_child sd sheet_data0 sheet_root) root1
    ∧ children root1 !! sd = Some sheet_data1
    ∧ rows_renumbered (last_slot + 1) overflow sheet_data0 sheet_data1
    ∧ row_at sheet_data1 last_slot = Some template
    ∧ root' = set_child sd sheet_data' root1
    ∧ sublist (children sheet_data1) (children sheet_data')
    ∧ length (children sheet_data')
      = (length (children sheet_data1) + Z.to_nat overflow)%nat
    ∧ ∀ k, 0 <= k < overflow ->
           ∃ clone,
             row_at sheet_data' (last_slot + 1 + k) = Some clone
             ∧ row_cloned (last_slot + 1 + k) (1 + k) template clone.

(** By how many entries a company exceeds the capacity of its
    section. *)
Definition section_overflow (grouped : gmap string (list RosterEntry))
    (company : string) (capacity : Z) : Z :=
  Z.max 0 (Z.of_nat (length (default [] (grouped !! company))) - capacity).

(** The first and the last employee row of each section once every
    overflow has been inserted: a section starts lower by the overflow
    of the sections before it and is longer by its own. *)
Definition section_bounds (grouped : gmap string (list RosterEntry))
  : list (string * (Z * Z)) :=
  let o1 := section_overflow grouped "scanio_moving" 21 in
  let o2 := section_overflow grouped "scanio_storage" 7 in
  let o3 := section_overflow grouped "sea_and_air_intl" 10 in
  let o4 := section_overflow grouped "flat_price" 22 in
  [ ("scanio_moving", (5, 25 + o1));
    ("scanio_storage", (33 + o1, 39 + o1 + o2));
    ("sea_and_air_intl", (47 + o1 + o2, 56 + o1 + o2 + o3));
    ("flat_price", (64 + o1 + o2 + o3, 85 + o1 + o2 + o3 + o4)) ].

Definition section_layout (grouped : gmap string (list RosterEntry))
  : list (string * list Z) :=
  (fun section : string * (Z * Z) =>
     (section.1, py_range section.2.1 (section.2.2 + 1)))
  <$> section_bounds grouped.

(** The insertions so far move every row from [bound] on by [offset]. *)
Definition offset_after (insertions : list (Z * Z)) (bound offset : Z)
  : Prop :=
  ∀ x, bound <= x -> map_row_with_insertions x insertions = x + offset.

(** The formulas [refresh_company_summary_formulas] writes for a
    section, in order: the row, the column and the text of each. *)
Definition section_writes (company : string) (rows : SectionRows)
    (burden_text : string) : list (Z * string * string) :=
  let total := total_row rows in
  let amount := amount_row rows in
  let start_text := str (start_row rows) in
  let end_text := str (end_row rows) in
  let total_text := str total in
  let amount_text := str amount in
  [ (total, "D", "SUM(D" +:+ start_text +:+ ":D" +:+ end_text +:+ ")");
    (total, "M", "SUM(M" +:+ start_text +:+ ":M" +:+ end_text +:+ ")");
    (total, "O", "SUM(O" +:+ start_text +:+ ":O" +:+ end_text +:+ ")");
    (total, "Q", "SUM(Q" +:+ start_text +:+ ":Q" +:+ end_text +:+ ")");
    (amount, "E", "E" +:+ total_text +:+ "+G" +:+ total_text);
    (amount, "G",
     "SUM(H" +:+ amount_text +:+ ":J" +:+ amount_text +:+ ")/"
       +:+ burden_text);
    (amount, "H", "H" +:+ total_text +:+ "*" +:+ burden_text) ]
  ++ (if String.eqb company "scanio_moving" then
        [ (total, "L", "K" +:+ total_text +:+ "/Q" +:+ total_text);
          (total, "N", "M" +:+ total_text +:+ "/Q" +:+ total_text);
          (total, "P", "O" +:+ total_text +:+ "/D" +:+ total_text);
          (amount, "K",
           "E" +:+ total_text +:+ "*L" +:+ total_text +:+ "*"
             +:+ burden_text);
          (amount, "M",
           "E" +:+ total_text +:+ "*N" +:+ total_text +:+ "*"
             +:+ burden_text);
          (amount, "O",
           "E" +:+ total_text +:+ "*P" +:+ total_text +:+ "*"
             +:+ burden_text) ]
      else
        [ (amount, "K",
           "SUMPRODUCT(E" +:+ start_text +:+ ":E" +:+ end_text +:+ ",L"
             +:+ start_text +:+ ":L" +:+ end_text +:+ ")*" +:+ burden_text);
          (amount, "M",
           "SUMPRODUCT(E" +:+ start_text +:+ ":E" +:+ end_text +:+ ",N"
             +:+ start_text +:+ ":N" +:+ end_text +:+ ")*" +:+ burden_text);
          (amount, "O",
           "SUMPRODUCT(E" +:+ start_text +:+ ":E" +:+ end_text +:+ ",P"
             +:+ start_text +:+ ":P" +:+ end_text +:+ ")*" +:+ burden_text) ])
  ++ [ (amount, "Q",
        "(K" +:+ amount_text +:+ "+M" +:+ amount_text +:+ "+O"
          +:+ amount_text +:+ ")/" +:+ burden_text);
       (amount + 1, "E", "G" +:+ amount_text +:+ "+Q" +:+ amount_text) ].

(** The rows a list of writes touches. *)
Definition write_rows (ws : list (Z * string * string)) : list Z :=
  (fun w : Z * string * string => w.1.1) <$> ws.

(** The formulas [refresh_company_summary_formulas] writes across the
    sections, for the rows of the four sections. *)
Definition cross_writes
    (scanio_totals storage_totals sea_totals flat_totals : SectionRows)
  : list (Z * string * string) :=
  let total_of r := str (total_row r) in
  let amount_of r := str (amount_row r) in
  [ (total_row flat_totals + 5, "F",
     "F" +:+ total_of scanio_totals
       +:+ "+F" +:+ total_of storage_totals
       +:+ "+F" +:+ total_of sea_totals
       +:+ "+F" +:+ total_of flat_totals);
    (total_row flat_totals + 7, "C",
     "K" +:+ amount_of sea_totals +:+ "+H" +:+ amount_of sea_totals
       +:+ "-M" +:+ amount_of scanio_totals
       +:+ "-I" +:+ amount_of scanio_totals
       +:+ "-M" +:+ amount_of storage_totals
       +:+ "-I" +:+ amount_of storage_totals);
    (total_row flat_totals + 7, "Q",
     "Q" +:+ total_of flat_totals
       +:+ "+Q" +:+ total_of sea_totals
       +:+ "+Q" +:+ total_of storage_totals
       +:+ "+Q" +:+ total_of scanio_totals);
    (total_row flat_totals + 15, "F",
     "G" +:+ amount_of flat_totals
       +:+ "+G" +:+ amount_of sea_totals
       +:+ "+G" +:+ amount_of storage_totals
       +:+ "+G" +:+ amount_of scanio_totals) ].

(** The rows of a section with given bounds. *)
Definition bounds_rows (bounds : Z * Z) : SectionRows :=
  mkSectionRows bounds.1 bounds.2 (bounds.2 + 1) (bounds.2 + 3).

(** The text of the burden multiplier of a company. *)
Definition burden_text (company : string) : string :=
  match assoc company COMPANY_BURDEN_MULTIPLIER with
  | Some burden => format_decimal_for_excel burden
  | None => EmptyString
  end.

(** The formulas of the section of a company with given bounds. *)
Definition bounds_writes (section : string * (Z * Z))
  : list (Z * string * string) :=
  section_writes section.1 (bounds_rows section.2) (burden_text section.1).

(** All the summary formulas, in the order in which the program writes
    them, for the bounds of the four sections. *)
Definition summary_writes (bounds : list (string * (Z * Z)))
  : list (Z * string * string) :=
  match bounds with
  | [s1; s2; s3; s4] =>
      bounds_writes s1 ++ bounds_writes s2 ++ bounds_writes s3
      ++ bounds_writes s4
      ++ cross_writes (bounds_rows s1.2) (bounds_rows s2.2)
           (bounds_rows s3.2) (bounds_rows s4.2)
  | _ => []
  end.

(** The summary formulas of the section of a company whose employee
    rows run from [lo] to [hi]: the totals are sums over these rows,
    and so are the derived amounts of a company that is not the first. *)
Definition section_formulas (sheet_data : Element) (company : string)
    (lo hi : Z) : Prop :=
  formula_at sheet_data (hi + 1) "D"
  = Some ("SUM(D" +:+ str lo +:+ ":D" +:+ str hi +:+ ")")
  ∧ formula_at sheet_data (hi + 1) "M"
    = Some ("SUM(M" +:+ str lo +:+ ":M" +:+ str hi +:+ ")")
  ∧ formula_at sheet_data (hi + 1) "O"
    = Some ("SUM(O" +:+ str lo +:+ ":O" +:+ str hi +:+ ")")
  ∧ formula_at sheet_data (hi + 1) "Q"
    = Some ("SUM(Q" +:+ str lo +:+ ":Q" +:+ str hi +:+ ")")
  ∧ (String.eqb company "scanio_moving" = false ->
     formula_at sheet_data (hi + 3) "K"
     = Some ("SUMPRODUCT(E" +:+ str lo +:+ ":E" +:+ str hi +:+ ",L"
               +:+ str lo +:+ ":L" +:+ str hi +:+ ")*"
               +:+ burden_text company)
     ∧ formula_at sheet_data (hi + 3) "M"
       = Some ("SUMPRODUCT(E" +:+ str lo +:+ ":E" +:+ str hi +:+ ",N"
                 +:+ str lo +:+ ":N" +:+ str hi +:+ ")*"
                 +:+ burden_text company)
     ∧ formula_at sheet_data (hi + 3) "O"
       = Some ("SUMPRODUCT(E" +:+ str lo +:+ ":E" +:+ str hi +:+ ",P"
                 +:+ str lo +:+ ":P" +:+ str hi +:+ ")*"
                 +:+ burden_text company)).

(** ** Vocabulary of the properties of the accessors *)


(** The column index [insert_cell_in_order] reads from a child of a row:
    the child is a cell and its reference matches [CELL_REF_RE]; any other
    child is passed over. *)
Definition cell_column (c : Element) : option Z :=
  if has_tag tag_c c then
    match fullmatch CELL_REF_RE (get_attr_default "r" "" c) with
    | Some (col :: _) => Some (column_index col)
    | _ => None
    end
  else None.

Definition row_columns (row_elem : Element) : list Z :=
  omap cell_column (children row_elem).

(** The number [insert_row_in_order] and [get_or_create_row] read from a
    child of the sheet data that is a row. *)
Definition row_number_opt (c : Element) : option Z :=
  if has_tag tag_row c then
    match row_number_of c with
    | Ok n => Some n
    | Err _ => None
    end
  else None.

Definition row_numbers (sheet_data : Element) : list Z :=
  omap row_number_opt (children sheet_data).


(** The order of column names in a sheet: a shorter name comes first, and
    names of one length come in alphabetical order. *)
Definition column_before (a b : string) : Prop :=
  (String.length a < String.length b)%nat
  ∨ String.length a = String.length b ∧ String.ltb a b = true.

(** The cell a setter works on: the first cell of the row with the
    reference, or a new cell that carries the reference only. *)
Definition target_cell (row_elem : Element) (target_ref : string) : Element :=
  default (new_element tag_c {[ "r" := target_ref ]})
    (cell_at row_elem target_ref).

(** What a setter makes of its target cell: the type attribute is set or
    removed, the value, formula and inline string children are removed,
    the new content is the last child, and the rest of the cell is
    kept. *)
Definition cell_written (old new : Element) (cell_type : option string)
    (content : Element) : Prop :=
  tag new = tag old
  ∧ text new = text old
  ∧ attrib new
    = match cell_type with
      | Some t => <["t" := t]> (attrib old)
      | None => delete "t" (attrib old)
      end
  ∧ children new
    = filter (fun c => is_content_tag c = false) (children old) ++ [content].

(** The row a sheet-level setter works on: the first row with the
    number, or a new row that carries the number only. *)
Definition target_row_of (sheet_data : Element) (r : Z) : Element :=
  default (new_element tag_row {[ "r" := str r ]}) (row_at sheet_data r).

(** The type attribute a formula cell gets: a type that is not the empty
    text, or none. *)
Definition formula_cell_type (cell_type : option string) : option string :=
  match cell_type with
  | Some (String _ _ as t) => Some t
  | _ => None
  end.

(** A reference token as a formula writes it: optional [$] signs, a
    column of one to three capital letters and a row number that is not
    negative. *)
Definition ref_well_formed (t : ftoken) : Prop :=
  match t with
  | TRef col_abs col row_abs row =>
      (col_abs = "" ∨ col_abs = "$") ∧ (row_abs = "" ∨ row_abs = "$")
      ∧ all_chars is_upper col = true
      ∧ (1 <= String.length col <= 3)%nat
      ∧ 0 <= row
  | TChar _ => False
  end.

(** The attributes [ensure_recalc_on_open] sets on the calculation
    properties. *)
Definition recalc_attributes (a : gmap string string) : gmap string string :=
  <["calcMode" := "auto"]>
    (<["forceFullCalc" := "1"]> (<["fullCalcOnLoad" := "1"]> a)).

(** A token of a normalized name: lowercase letters and digits, at least
    one. *)
Definition name_token (t : string) : Prop :=
  t <> "" ∧ all_chars (fun c => is_lower c || is_digit c) t = true.

(** ASCII text. *)
Definition is_ascii (s : string) : bool :=
  all_chars (fun c => (nat_of_ascii c <? 128)%nat) s.

(** The companies that have a section in the sheet. *)
Definition section_companies : list string := fst <$> COMPANY_ROW_SLOTS.

(** An employee row without the reference to its row element: the row
    number, the name and the company. *)
Definition employee_triple (er : EmployeeRow) : Z * string * string :=
  (row_number er, workbook_name er, employee_home_company er).

(** The employee rows of a grouped roster: section by section, the
    entries of the company paired with the rows of the section, first
    entry with first row. *)
Definition placed_rows (grouped : gmap string (list RosterEntry))
  : list (Z * string * string) :=
  section_layout grouped
  ≫= (fun section : string * list Z =>
        zip_with (fun row_number entry => (row_number, name entry, section.1))
          section.2 (default [] (grouped !! section.1))).

(** The rows inserted in all: the overflow of the four sections. *)
Definition total_overflow (grouped : gmap string (list RosterEntry)) : Z :=
  section_overflow grouped "scanio_moving" 21
  + section_overflow grouped "scanio_storage" 7
  + section_overflow grouped "sea_and_air_intl" 10
  + section_overflow grouped "flat_price" 22.

(** The formulas across the sections, for the bounds of the four
    sections of a grouped roster. *)
Definition summary_cross_writes (grouped : gmap string (list RosterEntry))
  : list (Z * string * string) :=
  match section_bounds grouped with
  | [s1; s2; s3; s4] =>
      cross_writes (bounds_rows s1.2) (bounds_rows s2.2)
        (bounds_rows s3.2) (bounds_rows s4.2)
  | _ => []
  end.

(** * Properties *)

(** ** Text facts *)

Section TextFacts.
Import Text.

Lemma append_nil_r (s : string) : s +:+ "" = s.
Proof. induction s; simpl; congruence. Qed.

Lemma append_assoc (a b c : string) : (a +:+ b) +:+ c = a +:+ (b +:+ c).
Proof. induction a; simpl; congruence. Qed.



Lemma has_char_app (p : ascii -> bool) (a b : string) :
  has_char p (a +:+ b) = has_char p a || has_char p b.
Proof. induction a as [|c a IH]; simpl; [done|]. by rewrite IH, orb_assoc. Qed.

Lemma all_chars_app (p : ascii -> bool) (a b : string) :
  all_chars p (a +:+ b) = all_chars p a && all_chars p b.
Proof. induction a as [|c a IH]; simpl; [done|]. by rewrite IH, andb_assoc. Qed.

Lemma all_chars_impl (p q : ascii -> bool) (s : string) :
  (∀ c, p c = true -> q c = true) ->
  all_chars p s = true -> all_chars q s = true.
Proof.
  intros Hpq. induction s as [|c s IH]; simpl; [done|].
  intros [Hc Hs]%andb_true_iff. rewrite (Hpq _ Hc). auto.
Qed.

Lemma all_chars_no_char (p q : ascii -> bool) (s : string) :
  (∀ c, p c = true -> q c = false) ->
  all_chars p s = true -> has_char q s = false.
Proof.
  intros Hpq. induction s as [|c s IH]; simpl; [done|].
  intros [Hc Hs]%andb_true_iff. rewrite (Hpq _ Hc). auto.
Qed.







End TextFacts.

(** ** Decimal text *)

Section DecimalFacts.
Import Text.

Lemma string_of_uint_digits (d : Decimal.uint) :
  all_chars is_digit (NilEmpty.string_of_uint d) = true.
Proof. induction d; simpl; auto. Qed.

Lemma str_nonneg_digits (n : Z) :
  0 <= n -> all_chars is_digit (str n) = true.
Proof.
  intros Hn. unfold str.
  destruct n as [|p|p]; [done| |lia].
  simpl. unfold NilZero.string_of_uint.
  destruct (Pos.to_uint p) eqn:E; try apply (string_of_uint_digits (_ _)).
  done.
Qed.




End DecimalFacts.

(** ** Numeric cell text *)

Section NumericText.
Import Text PyFloat.









End NumericText.

(** ** Element tree facts *)

Section ElementFacts.
Import ET.

Lemma set_children_children (cs : list Element) (e : Element) :
  children (set_children cs e) = cs.
Proof. done. Qed.

Lemma set_children_id (e : Element) : set_children (children e) e = e.
Proof. by destruct e. Qed.

Lemma set_children_twice (cs cs' : list Element) (e : Element) :
  set_children cs (set_children cs' e) = set_children cs e.
Proof. done. Qed.

Lemma update_child_children (i : nat) (f : Element -> Element) (e : Element) :
  children (update_child i f e) = alter f i (children e).
Proof.
  unfold update_child. destruct (children e !! i) as [c|] eqn:E; simpl.
  - apply list_eq. intros j. destruct (decide (i = j)) as [<-|Hne].
    + rewrite list_lookup_insert_eq by eauto using lookup_lt_Some.
      by rewrite list_lookup_alter_eq, E.
    + by rewrite list_lookup_insert_ne, list_lookup_alter_ne.
  - symmetry. apply list_eq. intros j. destruct (decide (i = j)) as [<-|Hne].
    + by rewrite list_lookup_alter_eq, E.
    + by rewrite list_lookup_alter_ne.
Qed.

Lemma update_child_set (i : nat) (f : Element -> Element) (e : Element) :
  update_child i f e = set_children (alter f i (children e)) e.
Proof.
  rewrite <- update_child_children. unfold update_child.
  destruct (children e !! i); simpl; [done|]. by destruct e.
Qed.

Lemma update_child_ext (i : nat) (f g : Element -> Element) (e : Element) :
  (∀ c, f c = g c) -> update_child i f e = update_child i g e.
Proof.
  intros Hfg. unfold update_child. destruct (children e !! i); [|done].
  by rewrite Hfg.
Qed.

Lemma indices_where_from_app {A} (p : A -> bool) (k : nat) (l1 l2 : list A) :
  indices_where_from p k (l1 ++ l2)
  = indices_where_from p k l1 ++ indices_where_from p (k + length l1) l2.
Proof.
  revert k. induction l1 as [|x l1 IH]; intros k; simpl.
  - by rewrite Nat.add_0_r.
  - rewrite IH, <- Nat.add_succ_comm. by destruct (p x).
Qed.

(** Updating, one after the other, the children at the indices of those
    that pass a test updates exactly those children. *)
Lemma foldl_update_where (p : Element -> bool) (f : Element -> Element)
    (pre l : list Element) (e : Element) :
  children e = pre ++ l ->
  foldl (fun e i => update_child i f e) e
    (indices_where_from p (length pre) l)
  = set_children (pre ++ ((fun c => if p c then f c else c) <$> l)) e.
Proof.
  revert pre e. induction l as [|x l IH]; intros pre e He; simpl.
  - rewrite <- He. by rewrite set_children_id.
  - destruct (p x) eqn:Hx.
    + simpl. rewrite update_child_set, He.
      replace (alter f (length pre) (pre ++ x :: l))
        with ((pre ++ [f x]) ++ l).
      2:{ rewrite alter_app_r_alt by lia. rewrite Nat.sub_diag. simpl.
          by rewrite <- app_assoc. }
      replace (S (length pre)) with (length (pre ++ [f x]))
        by (rewrite length_app; simpl; lia).
      rewrite IH by done. rewrite set_children_twice.
      by rewrite <- app_assoc.
    + replace (S (length pre)) with (length (pre ++ [x]))
        by (rewrite length_app; simpl; lia).
      rewrite IH by (by rewrite He, <- app_assoc).
      by rewrite <- app_assoc.
Qed.

Lemma foldl_update_findall (t : string) (f : Element -> Element)
    (e : Element) :
  foldl (fun e i => update_child i f e) e (findall_index t e)
  = set_children ((fun c => if has_tag t c then f c else c) <$> children e) e.
Proof. apply (foldl_update_where (has_tag t) f [] (children e) e). done. Qed.

Lemma index_where_Some {A} (p : A -> bool) (l : list A) (i : nat) :
  index_where p l = Some i ->
  ∃ x, l !! i = Some x ∧ p x = true
       ∧ ∀ j y, (j < i)%nat -> l !! j = Some y -> p y = false.
Proof.
  revert i. induction l as [|x l IH]; intros i; simpl; [done|].
  destruct (p x) eqn:Hx.
  - intros [= <-]. exists x. repeat split; [done|]. intros; lia.
  - destruct (index_where p l) as [k|] eqn:E; simpl; [|done].
    intros [= <-]. destruct (IH k eq_refl) as (y & Hy & Hpy & Hlt).
    exists y. repeat split; [done..|].
    intros [|j] z Hj; simpl; [by intros [= <-]|].
    apply Hlt. lia.
Qed.

Lemma index_where_None {A} (p : A -> bool) (l : list A) :
  index_where p l = None -> ∀ x, x ∈ l -> p x = false.
Proof.
  induction l as [|x l IH]; simpl; [by intros _ y ?%elem_of_nil|].
  destruct (p x) eqn:Hx; [done|].
  destruct (index_where p l) eqn:E; simpl; [done|].
  intros _ y [->|Hy]%elem_of_cons; auto.
Qed.

End ElementFacts.

(** ** Forced row visibility *)

Section Visibility.
Import ET.

Lemma ensure_all_rows_visible_eq (sheet_xml : Element) :
  ensure_all_rows_visible sheet_xml
  = match find_index tag_sheetData sheet_xml with
    | None => sheet_xml
    | Some sd =>
        update_child sd
          (fun sheet_data =>
             set_children (unhide <$> children sheet_data) sheet_data)
          sheet_xml
    end.
Proof.
  unfold ensure_all_rows_visible.
  destruct (find_index tag_sheetData sheet_xml) as [sd|]; [|done].
  apply update_child_ext. intros c. by rewrite foldl_update_findall.
Qed.

(** C10: in the sheet that [ensure_all_rows_visible] returns, every row
    of the sheet data has lost its hidden attribute and kept every other
    attribute, its tag, its text and its cells; nothing else in the sheet
    has changed. *)
Theorem ensure_all_rows_visible_rows (sheet_xml sheet_data : Element)
    (sd : nat) :
  find_index tag_sheetData sheet_xml = Some sd ->
  children sheet_xml !! sd = Some sheet_data ->
  rows_made_visible sheet_xml sheet_data sd.
Proof.
  intros Hsd Hc. unfold rows_made_visible.
  rewrite ensure_all_rows_visible_eq, Hsd.
  rewrite update_child_children.
  exists (set_children (unhide <$> children sheet_data) sheet_data).
  split; [by rewrite list_lookup_alter_eq, Hc|].
  split; [by intros j Hj; rewrite list_lookup_alter_ne|].
  repeat split; simpl.
  - by rewrite length_fmap.
  - intros i e He Ht. rewrite list_lookup_fmap, He. simpl.
    unfold unhide. by rewrite Ht.
  - intros i row Hr Ht. exists (pop_attr "hidden" row).
    split; [rewrite list_lookup_fmap, Hr; simpl; unfold unhide; by rewrite Ht|].
    unfold get_attr, pop_attr; simpl.
    split; [apply lookup_delete_eq|].
    split; [by intros k Hk; rewrite lookup_delete_ne|done].
Qed.

(** C10, witness. *)
Lemma ensure_all_rows_visible_rows_witness :
  find_index tag_sheetData Sample.worksheet = Some 1%nat
  ∧ children Sample.worksheet !! 1%nat = Some Sample.sheet_data
  ∧ rows_made_visible Sample.worksheet Sample.sheet_data 1.
Proof.
  split; [by vm_compute|]. split; [by vm_compute|].
  apply ensure_all_rows_visible_rows; by vm_compute.
Defined.

End Visibility.

(** ** Matcher facts *)

Section MatcherFacts.
Import Text Re.

Lemma extends_refl (a : string) : extends a a.
Proof. by exists "". Qed.

Lemma extends_trans (a b c : string) :
  extends a b -> extends b c -> extends a c.
Proof.
  intros [p ->] [q ->]. exists (p +:+ q). by rewrite append_assoc.
Qed.

Lemma length_app (a b : string) :
  String.length (a +:+ b) = (String.length a + String.length b)%nat.
Proof. induction a; simpl; congruence. Qed.

Lemma str_take_app (a b : string) :
  str_take (String.length a) (a +:+ b) = a.
Proof.
  unfold str_take. induction a as [|c a IH]; simpl.
  - by destruct b.
  - by rewrite IH.
Qed.

(** The text a match consumed, recovered from the lengths. *)
Lemma str_take_extends (s r : string) :
  extends s r ->
  s = str_take (String.length s - String.length r) s +:+ r.
Proof.
  intros [pre ->]. rewrite length_app.
  replace (String.length pre + String.length r - String.length r)%nat
    with (String.length pre) by lia.
  by rewrite str_take_app.
Qed.

Lemma star_iter_extends (step : mstate -> list mstate) (g : bool) (n : nat) :
  (∀ st st', st' ∈ step st -> extends (rest st) (rest st')) ->
  ∀ st st', st' ∈ star_iter step g n st -> extends (rest st) (rest st').
Proof.
  intros Hstep. induction n as [|n IH]; intros st st'; simpl.
  - intros ->%list_elem_of_singleton. apply extends_refl.
  - assert (∀ x, x ∈ (st1 ← step st;
               if (String.length (rest st1) <? String.length (rest st))%nat
               then star_iter step g n st1 else [])
             -> extends (rest st) (rest x)) as Hmore.
    { intros x (st1 & Hx & H1)%list_elem_of_bind.
      destruct (_ <? _)%nat; [|by apply elem_of_nil in Hx].
      eapply extends_trans; [by apply Hstep | by apply IH]. }
    destruct g.
    + intros [?| ->%list_elem_of_singleton]%elem_of_app;
        [auto | apply extends_refl].
    + intros [->|?]%elem_of_cons; [apply extends_refl | auto].
Qed.

(** A match attempt only moves the cursor forward. *)
Lemma exec_extends (r : regex) (st st' : mstate) :
  st' ∈ exec r st -> extends (rest st) (rest st').
Proof.
  revert st st'. induction r as [p| |r1 IH1 r2 IH2|r1 IH1 r2 IH2|g r IH| |r IH];
    intros st st'; simpl.
  - destruct (rest st) as [|c s'] eqn:E; [by intros ?%elem_of_nil|].
    destruct (p c); [|by intros ?%elem_of_nil].
    intros ->%list_elem_of_singleton. simpl. by exists (String c "").
  - intros ->%list_elem_of_singleton. apply extends_refl.
  - intros (st1 & H2 & H1)%list_elem_of_bind.
    eapply extends_trans; eauto.
  - intros [?|?]%elem_of_app; eauto.
  - by apply star_iter_extends.
  - destruct (xorb _ _); [|by intros ?%elem_of_nil].
    intros ->%list_elem_of_singleton. apply extends_refl.
  - intros (st1 & -> & H1)%list_elem_of_fmap. simpl. eauto.
Qed.

Lemma match_at_extends (r : regex) (p : option ascii) (s : string)
    (st : mstate) :
  match_at r p s = Some st -> extends s (rest st).
Proof.
  unfold match_at. intros H%head_Some_elem_of.
  by apply exec_extends in H.
Qed.

Lemma search_from_hit (r : regex) (p : option ascii) (before s : string)
    (st : mstate) :
  match_at r p s = Some st ->
  search_from r p before s
  = Some (before, str_take (String.length s - String.length (rest st)) s,
          rest st).
Proof. intros E. destruct s; simpl; by rewrite E. Qed.

Lemma search_from_miss (r : regex) (p : option ascii) (before : string)
    (c : ascii) (s : string) :
  match_at r p (String c s) = None ->
  search_from r p before (String c s)
  = search_from r (Some c) (before +:+ String c "") s.
Proof. intros E. simpl. by rewrite E. Qed.

Lemma search_from_end (r : regex) (p : option ascii) (before : string) :
  match_at r p "" = None -> search_from r p before "" = None.
Proof. intros E. simpl. by rewrite E. Qed.

Lemma search_from_sound (r : regex) (s : string) :
  ∀ p before x m a,
    search_from r p before s = Some (x, m, a) ->
    before +:+ s = x +:+ m +:+ a
    ∧ ∃ p' s', s = s' +:+ m +:+ a ∧ x = before +:+ s'
               ∧ is_Some (match_at r p' (m +:+ a)).
Proof.
  induction s as [|c s IH]; intros p before x m a;
    [destruct (match_at r p "") as [st|] eqn:E
    |destruct (match_at r p (String c s)) as [st|] eqn:E].
  1,3: rewrite (search_from_hit _ _ _ _ _ E); intros [= <- <- <-];
       pose proof (str_take_extends _ _ (match_at_extends _ _ _ _ E)) as Hx;
       simpl String.length in Hx; rewrite <- Hx; (split; [done|]);
       exists p, ""; rewrite E, !append_nil_r; eauto.
  - by rewrite (search_from_end _ _ _ E).
  - rewrite (search_from_miss _ _ _ _ _ E).
    intros H. apply IH in H as (H1 & p' & s' & -> & -> & Hm).
    rewrite append_assoc in H1. split; [done|].
    exists p', (String c s'). rewrite append_assoc. by simpl.
Qed.

(** A successful search cuts the text in three: what precedes the match,
    the match and what follows it. *)
Lemma search_sound (r : regex) (s x m a : string) :
  search r s = Some (x, m, a) -> s = x +:+ m +:+ a.
Proof. intros H. by apply search_from_sound in H as [H _]. Qed.

Lemma scan_from_hit (r : regex) (p : option ascii) (s : string)
    (st : mstate) (fuel : nat) :
  match_at r p s = Some st ->
  ∃ t tl, scan_from (S fuel) r p s = PMatch t (groups st) :: tl.
Proof.
  intros E. simpl. rewrite E. destruct s; [eauto|].
  destruct (_ - _)%nat; eauto.
Qed.

Lemma scan_from_miss (r : regex) (p : option ascii) (c : ascii) (s : string)
    (fuel : nat) :
  match_at r p (String c s) = None ->
  scan_from (S fuel) r p (String c s)
  = PChar c :: scan_from fuel r (Some c) s.
Proof. intros E. simpl. by rewrite E. Qed.

Lemma scan_from_end (r : regex) (p : option ascii) (fuel : nat) :
  match_at r p "" = None -> scan_from (S fuel) r p "" = [].
Proof. intros E. simpl. by rewrite E. Qed.

Lemma search_from_none (r : regex) (s : string) :
  ∀ p before,
    search_from r p before s = None
    <-> filter (fun pc => is_match pc = true)
          (scan_from (S (String.length s)) r p s) = [].
Proof.
  induction s as [|c s IH]; intros p before;
    [destruct (match_at r p "") as [st|] eqn:E
    |destruct (match_at r p (String c s)) as [st|] eqn:E].
  1,3: rewrite (search_from_hit _ _ _ _ _ E);
       match goal with
       | |- context [scan_from (S ?f) _ _ _] =>
           destruct (scan_from_hit _ _ _ _ f E) as (t & tl & ->)
       end;
       by rewrite filter_cons_True by done.
  - by rewrite (search_from_end _ _ _ E), (scan_from_end _ _ _ E).
  - rewrite (search_from_miss _ _ _ _ _ E).
    cbn [String.length]. rewrite (scan_from_miss _ _ _ _ _ E).
    rewrite filter_cons_False by done. apply IH.
Qed.

(** The search fails exactly when the pattern does not occur. *)
Lemma search_none (r : regex) (s : string) :
  search r s = None <-> occurrences r s = 0%nat.
Proof.
  unfold search, occurrences, scan. rewrite search_from_none.
  by rewrite length_zero_iff_nil.
Qed.

End MatcherFacts.

(** ** Reassembly *)

Section Reassembly.
Import Text Re ET.

Variable tostring : Element -> string.
Variable parse_template : string -> result string.

Lemma subn_first_search (r : regex) (literal s : string) :
  subn_first r literal s
  = match search r s with
    | Some (before, _, after) => (before +:+ literal +:+ after, 1)
    | None => (s, 0)
    end.
Proof. done. Qed.

(** C5, as amended: each merge replaces the first occurrence of its
    pattern by the serialised fragment and leaves the text around it as
    it is; when the pattern does not occur, the sheet data merge raises
    ValueError and the calculation properties merge returns the original
    text. *)
Theorem merge_replaces_first_occurrence
    (original_sheet original_workbook : string)
    (sheet_data workbook_root calc : Element) (sheet_literal calc_literal : string) :
  expand_template parse_template (tostring sheet_data) = Ok sheet_literal ->
  find tag_calcPr workbook_root = Some calc ->
  expand_template parse_template (tostring calc) = Ok calc_literal ->
  match search SHEET_DATA_XML_RE original_sheet with
  | Some (before, m, after) =>
      original_sheet = before +:+ m +:+ after
      ∧ occurrences SHEET_DATA_XML_RE original_sheet <> 0%nat
      ∧ merge_sheet_data_into_original_xml tostring parse_template
          original_sheet sheet_data
        = Ok (before +:+ sheet_literal +:+ after)
  | None =>
      occurrences SHEET_DATA_XML_RE original_sheet = 0%nat
      ∧ merge_sheet_data_into_original_xml tostring parse_template
          original_sheet sheet_data
        = Err (ValueError "Could not merge updated sheetData into sheet1.xml")
  end
  ∧ match search CALC_PR_XML_RE original_workbook with
    | Some (before, m, after) =>
        original_workbook = before +:+ m +:+ after
        ∧ occurrences CALC_PR_XML_RE original_workbook <> 0%nat
        ∧ merge_calc_pr_into_original_workbook_xml tostring parse_template
            original_workbook workbook_root
          = Ok (before +:+ calc_literal +:+ after)
    | None =>
        occurrences CALC_PR_XML_RE original_workbook = 0%nat
        ∧ merge_calc_pr_into_original_workbook_xml tostring parse_template
            original_workbook workbook_root
          = Ok original_workbook
    end.
Proof.
  intros Hs Hc Hcl. split.
  - unfold merge_sheet_data_into_original_xml. rewrite Hs. simpl.
    rewrite subn_first_search.
    destruct (search SHEET_DATA_XML_RE original_sheet)
      as [[[before m] after]|] eqn:E.
    + split; [by apply search_sound in E|].
      split; [|done]. intros H%search_none. congruence.
    + split; [by apply search_none|done].
  - unfold merge_calc_pr_into_original_workbook_xml. rewrite Hc, Hcl. simpl.
    rewrite subn_first_search.
    destruct (search CALC_PR_XML_RE original_workbook)
      as [[[before m] after]|] eqn:E.
    + split; [by apply search_sound in E|].
      split; [|done]. intros H%search_none. congruence.
    + split; [by apply search_none|done].
Qed.

End Reassembly.

Section ReassemblyExamples.
Import Text Re ET Sample.

(** C5, witness. *)
Lemma merge_replaces_first_occurrence_witness :
  expand_template Sample.parse_template (Sample.tostring Sample.sheet_data)
  = Ok (Sample.tostring Sample.sheet_data)
  ∧ find tag_calcPr (ensure_recalc_on_open Sample.workbook)
    = Some (mkElement tag_calcPr
              {[ "fullCalcOnLoad" := "1"; "forceFullCalc" := "1";
                 "calcMode" := "auto" ]} None None [])
  ∧ merge_sheet_data_into_original_xml Sample.tostring Sample.parse_template
      two_sheet_data Sample.sheet_data
    = Ok ("<worksheet>" +:+ Sample.tostring Sample.sheet_data
            +:+ "<x><sheetData></sheetData></x></worksheet>")
  ∧ merge_calc_pr_into_original_workbook_xml Sample.tostring
      Sample.parse_template workbook_without_calc
      (ensure_recalc_on_open Sample.workbook)
    = Ok workbook_without_calc.
Proof.
  assert (expand_template Sample.parse_template
            (Sample.tostring Sample.sheet_data)
          = Ok (Sample.tostring Sample.sheet_data)) as H1 by (by vm_compute).
  assert (find tag_calcPr (ensure_recalc_on_open Sample.workbook)
          = Some (mkElement tag_calcPr
                    {[ "fullCalcOnLoad" := "1"; "forceFullCalc" := "1";
                       "calcMode" := "auto" ]} None None [])) as H2
    by (by vm_compute).
  assert (expand_template Sample.parse_template
            (Sample.tostring
               (mkElement tag_calcPr
                  {[ "fullCalcOnLoad" := "1"; "forceFullCalc" := "1";
                     "calcMode" := "auto" ]} None None []))
          = Ok "<calcPr></calcPr>") as H3 by (by vm_compute).
  pose proof (merge_replaces_first_occurrence Sample.tostring
                Sample.parse_template two_sheet_data workbook_without_calc
                _ _ _ _ _ H1 H2 H3) as [Hs Hc].
  split; [exact H1|]. split; [exact H2|].
  split.
  - revert Hs.
    replace (search SHEET_DATA_XML_RE two_sheet_data)
      with (Some ("<worksheet>", "<sheetData><row/></sheetData>",
                  "<x><sheetData></sheetData></x></worksheet>"))
      by (by vm_compute).
    intros (_ & _ & Hs). exact Hs.
  - revert Hc.
    replace (search CALC_PR_XML_RE workbook_without_calc)
      with (@None (string * string * string)) by (by vm_compute).
    intros (_ & Hc). exact Hc.
Defined.

(** C5, counterexample: a text in which the sheet data pattern occurs
    twice is merged without an error, the first occurrence alone being
    replaced; and a workbook text in which the calculation properties
    pattern does not occur is returned as it is, without an error. *)
Lemma merge_not_exactly_once_counterexample :
  occurrences SHEET_DATA_XML_RE two_sheet_data = 2%nat
  ∧ merge_sheet_data_into_original_xml Sample.tostring Sample.parse_template
      two_sheet_data (mkElement tag_sheetData ∅ None None [])
    = Ok "<worksheet><sheetData></sheetData><x><sheetData></sheetData></x></worksheet>"
  ∧ occurrences CALC_PR_XML_RE workbook_without_calc = 0%nat
  ∧ merge_calc_pr_into_original_workbook_xml Sample.tostring
      Sample.parse_template workbook_without_calc
      (ensure_recalc_on_open Sample.workbook)
    = Ok workbook_without_calc.
Proof. repeat split; by vm_compute. Qed.

End ReassemblyExamples.

(** ** The output archive *)

Section Archive.
Import Text Re ET.

Variable tostring : Element -> string.
Variable tostring_decl : Element -> string.
Variable fromstring : string -> result Element.
Variable parse_template : string -> result string.

Lemma zip_find_app (name : string) (a b : archive) :
  zip_find name (a ++ b)
  = match zip_find name b with
    | Some d => Some d
    | None => zip_find name a
    end.
Proof.
  induction a as [|[n d] a IH]; simpl.
  - by destruct (zip_find name b).
  - rewrite IH. by destruct (zip_find name b).
Qed.

Lemma zip_find_namelist (name : string) (z : archive) :
  name ∈ namelist z -> is_Some (zip_find name z).
Proof.
  induction z as [|[n d] z IH]; simpl; [by intros ?%elem_of_nil|].
  intros [->|H]%elem_of_cons.
  - destruct (zip_find n z); [eauto|]. rewrite String.eqb_refl. eauto.
  - destruct (IH H) as [x ->]. eauto.
Qed.

Lemma zip_find_not_namelist (name : string) (z : archive) :
  name ∉ namelist z -> zip_find name z = None.
Proof.
  induction z as [|[n d] z IH]; simpl; [done|].
  intros [Hne Hn]%not_elem_of_cons. rewrite (IH Hn).
  destruct (String.eqb_spec n name); congruence.
Qed.

Lemma write_member_eq (zin : archive) (s w : string) (rels : option string)
    (drop : bool) (zout : archive) (n d : string) :
  n ∈ namelist zin ->
  write_member zin s w rels drop zout (n, d)
  = Ok (zout ++ if drop && String.eqb n calc_chain_path then []
                else [(n, member_data zin s w rels n)]).
Proof.
  intros Hn. unfold write_member. simpl.
  destruct (drop && String.eqb n calc_chain_path); [by rewrite app_nil_r|].
  destruct (zip_find_namelist n zin Hn) as [x Hx].
  unfold zip_read, member_data. rewrite Hx. simpl. by destruct rels.
Qed.

Lemma write_loop (zin : archive) (s w : string) (rels : option string)
    (drop : bool) (items zout : archive) :
  namelist items ⊆ namelist zin ->
  for_each (write_member zin s w rels drop) items zout
  = Ok (zout ++ written zin s w rels drop items).
Proof.
  revert zout. induction items as [|[n d] items IH]; intros zout Hsub.
  - simpl. by rewrite app_nil_r.
  - assert (namelist items ⊆ namelist zin) as Hsub'.
    { intros x Hx. apply Hsub. simpl. by apply elem_of_cons; right. }
    cbn [for_each]. rewrite write_member_eq.
    2:{ apply Hsub. simpl. by apply elem_of_cons; left. }
    simpl. rewrite IH by done. by rewrite <- app_assoc.
Qed.

Lemma zip_find_written (zin : archive) (s w : string) (rels : option string)
    (drop : bool) (name : string) (items : archive) :
  zip_find name (written zin s w rels drop items)
  = if drop && String.eqb name calc_chain_path then None
    else match zip_find name items with
         | Some _ => Some (member_data zin s w rels name)
         | None => None
         end.
Proof.
  induction items as [|[n d] items IH]; simpl.
  - by destruct (_ && _).
  - change (written zin s w rels drop ((n, d) :: items))
      with ((if drop && String.eqb n calc_chain_path then []
             else [(n, member_data zin s w rels n)])
            ++ written zin s w rels drop items).
    rewrite zip_find_app, IH.
    destruct (drop && String.eqb name calc_chain_path) eqn:Hd.
    + destruct (String.eqb_spec n name) as [->|Hne].
      * by rewrite Hd.
      * destruct (drop && String.eqb n calc_chain_path); simpl; [done|].
        by destruct (String.eqb_spec n name).
    + destruct (zip_find name items); [done|].
      destruct (String.eqb_spec n name) as [->|Hne].
      * rewrite Hd. simpl. by rewrite String.eqb_refl.
      * destruct (drop && String.eqb n calc_chain_path); simpl; [done|].
        by destruct (String.eqb_spec n name).
Qed.

Lemma namelist_written (zin : archive) (s w : string) (rels : option string)
    (drop : bool) (items : archive) :
  namelist (written zin s w rels drop items)
  = filter (fun n => negb (drop && String.eqb n calc_chain_path) = true)
      (namelist items).
Proof.
  induction items as [|[n d] items IH]; simpl; [done|].
  change (written zin s w rels drop ((n, d) :: items))
    with ((if drop && String.eqb n calc_chain_path then []
           else [(n, member_data zin s w rels n)])
          ++ written zin s w rels drop items).
  unfold namelist in *. rewrite fmap_app, IH.
  destruct (drop && String.eqb n calc_chain_path) eqn:Hd; simpl.
  - by rewrite filter_cons_False by (by rewrite Hd).
  - by rewrite filter_cons_True by (by rewrite Hd).
Qed.

Lemma member_data_untouched (zin : archive) (s w : string)
    (rels : option string) (name : string) :
  name ∉ touched_parts ->
  member_data zin s w rels name = default "" (zip_find name zin).
Proof.
  unfold touched_parts. rewrite !not_elem_of_cons. intros (H1 & H2 & H3 & _).
  unfold member_data.
  destruct (String.eqb_spec name sheet1_path); [done|].
  destruct (String.eqb_spec name workbook_path); [done|].
  destruct rels; [|done].
  by destruct (String.eqb_spec name workbook_rels_path).
Qed.

Lemma member_data_calc_chain (zin : archive) (s w : string)
    (rels : option string) :
  member_data zin s w rels calc_chain_path
  = default "" (zip_find calc_chain_path zin).
Proof. unfold member_data. by destruct rels. Qed.

(** What [fill_workbook] makes of the relationships part. *)
Lemma remove_calc_chain_relationship_removed (rels out : string) (b : bool) :
  remove_calc_chain_relationship tostring_decl fromstring rels = Ok (out, b) ->
  ∃ root, fromstring rels = Ok root
          ∧ b = existsb is_calc_chain_rel (children root).
Proof.
  unfold remove_calc_chain_relationship.
  destruct (fromstring rels) as [root|e]; simpl; [|done].
  destruct (existsb is_calc_chain_rel (children root)) eqn:E; simpl;
    intros [= <- <-]; eauto.
Qed.

(** C6, as amended: when [fill_workbook] writes its output, every part
    other than the worksheet, the workbook, the workbook relationships
    and the calculation chain is in the output with the bytes it has in
    the input; the parts of the output are those of the input, in the
    same order, less the calculation chain when it is dropped; and the
    calculation chain is dropped exactly when the relationships part is
    there and lists a calculation chain, and is otherwise kept with its
    bytes. *)
Theorem fill_workbook_output_frame (zin zout : archive)
    (sheet1_root workbook_root : Element) (sd : nat) (reimbursement_row : Z) :
  fill_workbook_output tostring tostring_decl fromstring parse_template
    zin sheet1_root sd workbook_root reimbursement_row = Ok zout ->
  output_frame fromstring zin zout.
Proof.
  unfold fill_workbook_output, output_frame.
  destruct (zip_read zin workbook_path) as [wb|]; simpl; [|done].
  destruct (zip_read zin sheet1_path) as [sh|]; simpl; [|done].
  set (rels_read := if bool_decide (workbook_rels_path ∈ namelist zin)
                    then _ else _).
  assert (∃ o, rels_read = Ok o ∧ o = zip_find workbook_rels_path zin)
    as (rels & -> & Hrels).
  { subst rels_read. case_bool_decide as Hin.
    - destruct (zip_find_namelist _ _ Hin) as [x Hx].
      unfold zip_read. rewrite Hx. simpl. eauto.
    - rewrite (zip_find_not_namelist _ _ Hin). eauto. }
  simpl.
  destruct (mutate_child sd _ sheet1_root) as [root1|]; simpl; [|done].
  destruct (children (ensure_all_rows_visible root1) !! sd) as [sdata|];
    simpl; [|done].
  destruct (merge_sheet_data_into_original_xml _ _ sh sdata) as [s1|];
    simpl; [|done].
  destruct (merge_calc_pr_into_original_workbook_xml _ _ wb _) as [w1|];
    simpl; [|done].
  set (upd := match rels with Some _ => _ | None => _ end).
  assert (∃ u, upd = Ok (u, drops_calc_chain fromstring zin) ∨ ∃ e, upd = Err e)
    as (u & Hupd).
  { subst upd. unfold drops_calc_chain. rewrite <- Hrels.
    destruct rels as [r|]; [|eauto].
    destruct (remove_calc_chain_relationship _ _ r) as [[out b]|e] eqn:E;
      simpl; [|exists None; eauto].
    apply remove_calc_chain_relationship_removed in E as (root & -> & ->).
    eauto. }
  destruct Hupd as [-> | [e ->]]; simpl; [|done].
  rewrite write_loop by done. simpl. intros [= <-].
  split; [|split].
  - intros name Hname. rewrite zip_find_written.
    assert (String.eqb name calc_chain_path = false) as ->.
    { apply String.eqb_neq. intros ->. apply Hname.
      unfold touched_parts. set_solver. }
    rewrite andb_false_r, member_data_untouched by done.
    by destruct (zip_find name zin).
  - apply namelist_written.
  - rewrite zip_find_written, String.eqb_refl, andb_true_r.
    destruct (drops_calc_chain fromstring zin); [done|].
    destruct (zip_find calc_chain_path zin) eqn:E; [|done].
    rewrite member_data_calc_chain, E; done.
Qed.

End Archive.

Section ArchiveExamples.
Import Text Re ET.

(** C6, witness. *)
Lemma fill_workbook_output_frame_witness :
  ∃ zout,
    fill_workbook_output Sample.tostring Sample.tostring_decl
      Sample.fromstring Sample.parse_template Sample.archive_with_chain
      Sample.worksheet 1 Sample.workbook 101 = Ok zout
    ∧ output_frame Sample.fromstring Sample.archive_with_chain zout.
Proof.
  eexists. split; [by vm_compute|].
  apply (fill_workbook_output_frame Sample.tostring Sample.tostring_decl
           Sample.fromstring Sample.parse_template
           Sample.archive_with_chain _ Sample.worksheet Sample.workbook
           1 101).
  by vm_compute.
Defined.

(** C6, counterexample: the input holds a calculation chain part that
    its relationships do not list, and the output still holds it. *)
Lemma calc_chain_kept_counterexample :
  zip_find calc_chain_path Sample.archive_without_rel = Some "<calcChain/>"
  ∧ ∃ zout,
      fill_workbook_output Sample.tostring Sample.tostring_decl
        Sample.fromstring Sample.parse_template Sample.archive_without_rel
        Sample.worksheet 1 Sample.workbook 101 = Ok zout
      ∧ zip_find calc_chain_path zout = Some "<calcChain/>".
Proof.
  split; [by vm_compute|]. eexists. split; by vm_compute.
Qed.

End ArchiveExamples.

(** ** Sorting facts *)

Section SortFacts.
Context {A : Type} (lt : A -> A -> bool).

Lemma insert_sorted_perm (x : A) (l : list A) :
  insert_sorted lt x l ≡ₚ x :: l.
Proof.
  induction l as [|y l IH]; simpl; [done|].
  destruct (lt x y); [done|]. rewrite IH. apply Permutation_swap.
Qed.

Lemma stable_sort_perm (l : list A) : stable_sort lt l ≡ₚ l.
Proof.
  induction l as [|x l IH]; simpl; [done|].
  unfold stable_sort in *. simpl. by rewrite insert_sorted_perm, IH.
Qed.

Lemma py_sorted_perm (reverse : bool) (l : list A) :
  py_sorted lt reverse l ≡ₚ l.
Proof.
  unfold py_sorted. destruct reverse; [|apply stable_sort_perm].
  by rewrite <- Permutation_rev, stable_sort_perm, <- Permutation_rev.
Qed.

Lemma py_sorted_elem_of (reverse : bool) (l : list A) (x : A) :
  x ∈ py_sorted lt reverse l <-> x ∈ l.
Proof. by rewrite py_sorted_perm. Qed.

End SortFacts.

(** ** Identity resolution: the partition *)

Section Matching.
Import Text Re ET.

Variable nfkd : string -> string.
Variable ratio : string -> string -> float.

(** The dictionary maps a key to the workbook names that have it, in
    their order. *)
Lemma index_by_lookup {K} `{Countable K} (key : string -> K)
    (workbook_names : list string) (k : K) :
  default [] (index_by key workbook_names !! k)
  = filter (fun w => key w = k) workbook_names.
Proof.
  unfold index_by.
  induction workbook_names as [|w ws IH] using rev_ind; [done|].
  rewrite foldl_app, filter_app. simpl.
  destruct (decide (key w = k)) as [<-|Hne].
  - rewrite lookup_insert_eq. simpl. rewrite IH.
    by rewrite (filter_cons_True _ w []).
  - rewrite lookup_insert_ne by done. rewrite IH.
    rewrite (filter_cons_False _ w []) by done. by rewrite app_nil_r.
Qed.

Lemma available_elem_of (used : gset string) (l : list string) (c : string) :
  c ∈ available used l <-> c ∉ used ∧ c ∈ l.
Proof. unfold available. by rewrite list_elem_of_filter. Qed.

Lemma fuzzy_gate_elem_of (scored : list (float * string)) (c : string) :
  fuzzy_gate scored = Some c -> ∃ s, (s, c) ∈ scored.
Proof.
  destruct scored as [|[s b] others]; simpl; [done|].
  destruct (_ && _); [|done]. intros [= <-]. exists s. by left.
Qed.

Lemma fuzzy_pass_available (workbook_names : list string) (used : gset string)
    (source : string) (c : string) :
  fuzzy_pass nfkd ratio workbook_names used source = Some c ->
  c ∉ used ∧ c ∈ workbook_names.
Proof.
  unfold fuzzy_pass.
  intros (s & Hs%py_sorted_elem_of)%fuzzy_gate_elem_of.
  unfold fuzzy_scored in Hs.
  apply list_elem_of_fmap in Hs as (w & [= _ ->] & Hw).
  by apply list_elem_of_filter in Hw.
Qed.

(** A chosen candidate is a workbook name that no earlier source name
    has claimed. *)
Lemma choose_available (workbook_names : list string) (used : gset string)
    (source_name c : string) :
  choose nfkd ratio workbook_names
    (index_by (normalize_name nfkd) workbook_names)
    (index_by (fun w => name_first_last (normalize_name nfkd w))
       workbook_names)
    used source_name = Some c ->
  c ∉ used ∧ c ∈ workbook_names.
Proof.
  unfold choose. rewrite !index_by_lookup.
  set (exact := available used _). set (fl := available used _).
  assert (∀ x, x ∈ exact -> x ∉ used ∧ x ∈ workbook_names) as Hexact.
  { intros x [? Hx%list_elem_of_filter]%available_elem_of. tauto. }
  assert (∀ x, x ∈ fl -> x ∉ used ∧ x ∈ workbook_names) as Hfl.
  { intros x [? Hx%list_elem_of_filter]%available_elem_of. tauto. }
  assert (∀ l : list string,
            (∀ x, x ∈ l -> x ∉ used ∧ x ∈ workbook_names) ->
            ∀ (o : option string),
              (o = Some c -> c ∉ used ∧ c ∈ workbook_names) ->
              match l with [chosen] => Some chosen | _ => o end = Some c ->
              c ∉ used ∧ c ∈ workbook_names) as Hone.
  { intros [|x [|y l]] Hl o Ho; auto.
    intros [= <-]. apply Hl. by left. }
  apply Hone; [done|]. apply Hone; [done|].
  apply fuzzy_pass_available.
Qed.

Lemma match_inv_init (workbook_names : list string) :
  match_inv workbook_names [] (mkMatchState ∅ ∅ []).
Proof.
  split; simpl; try (intros; simplify_map_eq; done);
    by intros q ?%elem_of_nil.
Qed.

Lemma match_inv_step (workbook_names processed : list string)
    (st : MatchState) (q : string) :
  match_inv workbook_names processed st ->
  match_inv workbook_names (processed ++ [q])
    (match_step nfkd ratio workbook_names
       (index_by (normalize_name nfkd) workbook_names)
       (index_by (fun w => name_first_last (normalize_name nfkd w))
          workbook_names) st q).
Proof.
  intros [Hused Hinj Hcand Hcover Hun].
  unfold match_step.
  destruct (choose nfkd ratio _ _ _ _ q) as [c|] eqn:E.
  - apply choose_available in E as [Hfresh Hc].
    split; simpl.
    + intros q' c'. destruct (decide (q = q')) as [<-|Hne].
      * rewrite lookup_insert_eq. intros [= <-]. set_solver.
      * rewrite lookup_insert_ne by done. intros ?%Hused. set_solver.
    + intros q1 q2 c'.
      destruct (decide (q = q1)) as [<-|Hne1];
        destruct (decide (q = q2)) as [<-|Hne2];
        rewrite ?lookup_insert_eq, ?lookup_insert_ne by done; [done|..].
      * intros [= <-] Hq2. by apply Hused in Hq2.
      * intros Hq1 [= <-]. by apply Hused in Hq1.
      * apply Hinj.
    + intros q' c'. destruct (decide (q = q')) as [<-|Hne].
      * rewrite lookup_insert_eq. intros [= <-]. split; [done|].
        apply elem_of_app. right. by left.
      * rewrite lookup_insert_ne by done. intros Hq'.
        apply Hcand in Hq' as [? ?].
        split; [done|]. apply elem_of_app. by left.
    + intros q' [Hq'| ->%list_elem_of_singleton]%elem_of_app.
      * destruct (decide (q = q')) as [<-|Hne].
        -- left. rewrite lookup_insert_eq. eauto.
        -- rewrite lookup_insert_ne by done. auto.
      * left. rewrite lookup_insert_eq. eauto.
    + intros q' ?%Hun. apply elem_of_app. by left.
  - split; simpl; [done|done|..].
    + intros q' c' Hq'. apply Hcand in Hq' as [? ?].
      split; [done|]. apply elem_of_app. by left.
    + intros q' [Hq'| ->%list_elem_of_singleton]%elem_of_app.
      * destruct (Hcover q' Hq'); [by left|]. right. apply elem_of_app. by left.
      * right. apply elem_of_app. right. by left.
    + intros q' [?%Hun| ->%list_elem_of_singleton]%elem_of_app;
        apply elem_of_app; [by left | right; by left].
Qed.

Lemma match_inv_loop (workbook_names qs processed : list string)
    (st : MatchState) :
  match_inv workbook_names processed st ->
  match_inv workbook_names (processed ++ qs)
    (foldl (match_step nfkd ratio workbook_names
       (index_by (normalize_name nfkd) workbook_names)
              (index_by (fun w => name_first_last (normalize_name nfkd w))
                 workbook_names)) st qs).
Proof.
  revert processed st. induction qs as [|q qs IH]; intros processed st Hst.
  - simpl. by rewrite app_nil_r.
  - simpl. replace (processed ++ q :: qs) with ((processed ++ [q]) ++ qs)
      by (by rewrite <- app_assoc).
    apply IH. by apply match_inv_step.
Qed.

(** Later source names leave the claims of earlier ones as they are. *)
Lemma match_loop_later (workbook_names post : list string) (st : MatchState) :
  let st' :=
    foldl (match_step nfkd ratio workbook_names
       (index_by (normalize_name nfkd) workbook_names)
             (index_by (fun w => name_first_last (normalize_name nfkd w))
                workbook_names)) st post in
  (∀ q, q ∉ post -> source_to_workbook st' !! q = source_to_workbook st !! q)
  ∧ unmatched_sources st `prefix_of` unmatched_sources st'
  ∧ used_workbook_names st ⊆ used_workbook_names st'.
Proof.
  revert st. induction post as [|p post IH]; intros st; simpl.
  - done.
  - destruct (IH (match_step nfkd ratio workbook_names
                    (index_by (normalize_name nfkd) workbook_names)
                    (index_by (fun w => name_first_last (normalize_name nfkd w))
                       workbook_names) st p)) as (H1 & H2 & H3).
    split; [|split].
    + intros q [Hqp Hq]%not_elem_of_cons. rewrite H1 by done.
      unfold match_step.
      destruct (choose nfkd ratio _ _ _ _ p); simpl; [|done].
      by rewrite lookup_insert_ne.
    + etrans; [|apply H2].
      unfold match_step.
      destruct (choose nfkd ratio _ _ _ _ p); simpl; [done|].
      by apply prefix_app_r.
    + etrans; [|apply H3].
      unfold match_step.
      destruct (choose nfkd ratio _ _ _ _ p); simpl; [|done]. set_solver.
Qed.

(** C8: in the result of [match_names] no candidate is mapped to by two
    source names; every mapped pair is a source name and a workbook
    name; every source name is a key of the mapping or is in the
    unmatched list, which holds source names only; and the claims are
    made in input order, the source names that come later leaving the
    mapping of the earlier ones and the unmatched list so far as they
    are. *)
Theorem match_names_partition (workbook_names source_names : list string) :
  let result := match_names nfkd ratio workbook_names source_names in
  (∀ q1 q2 c, result.1 !! q1 = Some c -> result.1 !! q2 = Some c -> q1 = q2)
  ∧ (∀ q c, result.1 !! q = Some c -> c ∈ workbook_names ∧ q ∈ source_names)
  ∧ (∀ q, q ∈ source_names -> is_Some (result.1 !! q) ∨ q ∈ result.2)
  ∧ (∀ q, q ∈ result.2 -> q ∈ source_names)
  ∧ (∀ earlier later, source_names = earlier ++ later ->
       let first := match_names nfkd ratio workbook_names earlier in
       (∀ q, q ∉ later -> result.1 !! q = first.1 !! q)
       ∧ first.2 `prefix_of` result.2).
Proof.
  intros result. subst result. unfold match_names. simpl.
  pose proof (match_inv_loop workbook_names source_names [] _
                (match_inv_init workbook_names)) as [Hused Hinj Hcand Hcover Hun].
  simpl in *. repeat split.
  - apply Hinj.
  - by eapply Hcand.
  - by eapply Hcand.
  - apply Hcover.
  - apply Hun.
  - intros q Hq. subst source_names. unfold match_loop.
    rewrite foldl_app. by apply match_loop_later.
  - subst source_names. unfold match_loop.
    rewrite foldl_app. by apply match_loop_later.
Qed.

End Matching.

(** ** The order of floats *)

Section FloatOrder.






Lemma key_lt_total (k1 k2 : Z * Z * Z) :
  key_lt k1 k2 ∨ k1 = k2 ∨ key_lt k2 k1.
Proof.
  destruct k1 as [[a1 b1] c1], k2 as [[a2 b2] c2]. simpl.
  destruct (Z.lt_total a1 a2) as [?|[->|?]]; [lia| |lia].
  destruct (Z.lt_total b1 b2) as [?|[->|?]]; [lia| |lia].
  destruct (Z.lt_total c1 c2) as [?|[->|?]]; [lia|auto|lia].
Qed.







Lemma leb_not_nan_l (x y : float) : PrimFloat.leb x y = true -> not_nan x.
Proof.
  unfold not_nan. rewrite FloatAxioms.leb_spec, FloatAxioms.eqb_spec. unfold SFleb, SFeqb.
  destruct (Prim2SF x) as [s|s| |s m e]; try done.
  - by destruct s.
  - simpl. destruct s; rewrite Z.compare_refl, Pos.compare_cont_refl; done.
Qed.




End FloatOrder.

(** ** The order of the scored candidates *)

Section ScoredOrder.

Lemma string_compare_refl (a : string) : String.compare a a = Eq.
Proof.
  pose proof (String.compare_antisym a a) as H.
  by destruct (String.compare a a).
Qed.

Lemma string_ltb_le (a b : string) :
  String.ltb a b = true <-> String.le a b ∧ a <> b.
Proof.
  unfold String.ltb, String.le, String.leb.
  destruct (String.compare a b) eqn:E; split; try done.
  - intros [_ H]. by apply String.compare_eq_iff in E.
  - intros _. split; [done|]. intros ->. by rewrite string_compare_refl in E.
  - by intros [[] _].
Qed.

Lemma string_ltb_irrefl (a : string) : String.ltb a a = false.
Proof. unfold String.ltb. by rewrite string_compare_refl. Qed.

Lemma string_ltb_trans (a b c : string) :
  String.ltb a b = true -> String.ltb b c = true -> String.ltb a c = true.
Proof.
  rewrite !string_ltb_le. intros [Hab Hne] [Hbc Hne']. split.
  - by etrans.
  - intros ->. apply Hne. by apply (anti_symm String.le).
Qed.

Lemma string_ltb_total (a b : string) :
  String.ltb a b = true ∨ a = b ∨ String.ltb b a = true.
Proof.
  unfold String.ltb. rewrite (String.compare_antisym b a).
  destruct (String.compare a b) eqn:E; simpl; auto.
  apply String.compare_eq_iff in E. auto.
Qed.



(** Two candidates are in order one way or the other, or have equal
    scores and the same name. *)
Lemma scored_before_total (a b : float * string) :
  scored_before a b
  ∨ (float_key a.1 = float_key b.1 ∧ a.2 = b.2)
  ∨ scored_before b a.
Proof.
  unfold scored_before.
  destruct (key_lt_total (float_key a.1) (float_key b.1)) as [?|[E|?]];
    [auto| |auto].
  destruct (string_ltb_total a.2 b.2) as [?|[?|?]]; auto.
Qed.



End ScoredOrder.

(** ** Sorted results *)

Section SortSorted.
Context {A : Type} (lt : A -> A -> bool) (P : A -> Prop)
  (R : A -> A -> Prop).
Hypothesis lt_spec : ∀ x y, P x -> P y -> (lt x y = true <-> R x y).
Hypothesis R_irrefl : ∀ x, ¬ R x x.
Hypothesis R_trans : ∀ x y z, R x y -> R y z -> R x z.

Lemma insert_sorted_sorted (x : A) (l : list A) :
  P x -> Forall P l ->
  StronglySorted (fun a b => ¬ R b a) l ->
  StronglySorted (fun a b => ¬ R b a) (insert_sorted lt x l).
Proof.
  intros Hx. induction l as [|y l IH]; intros HP Hs; simpl.
  - repeat constructor.
  - apply Forall_cons in HP as [Hy HP].
    apply StronglySorted_cons in Hs as [Hyl Hs].
    destruct (lt x y) eqn:E.
    + apply lt_spec in E; [|done..].
      apply StronglySorted_cons. split; [|by apply StronglySorted_cons].
      apply Forall_cons. split; [intros H; by eapply R_irrefl, R_trans|].
      eapply Forall_impl; [exact Hyl|]. intros z Hz Hzx. simpl in Hz.
      apply Hz. by eapply R_trans.
    + apply StronglySorted_cons. split; [|by apply IH].
      rewrite insert_sorted_perm. apply Forall_cons. split; [|done].
      intros H. apply lt_spec in H; [|done..]. congruence.
Qed.

Lemma stable_sort_sorted (l : list A) :
  Forall P l -> StronglySorted (fun a b => ¬ R b a) (stable_sort lt l).
Proof.
  induction l as [|x l IH]; intros HP; [constructor|].
  apply Forall_cons in HP as [Hx HP]. unfold stable_sort in *. simpl.
  apply insert_sorted_sorted; [done| |by apply IH].
  by rewrite (stable_sort_perm lt l).
Qed.



End SortSorted.

(** ** The dual gate of the fuzzy pass *)

Section FuzzyGate.



End FuzzyGate.

Section FuzzyPass.

Variable nfkd : string -> string.
Variable ratio : string -> string -> float.


End FuzzyPass.

Section FuzzyExamples.

(** The scenario of the specification: Jon Smith is matched to Jonathan
    Smith by the fuzzy pass. *)
Example fuzzy_accept_scenario :
  match_names Sample.nfkd Sample.ratio Sample.roster_names ["Jon Smith"]
  = ({[ "Jon Smith" := "Jonathan Smith" ]}, []).
Proof. by vm_compute. Qed.


End FuzzyExamples.

(** ** Matching character classes *)

Section ClassMatching.
Import Text Re.

Lemma span_app (p : ascii -> bool) (s : string) :
  s = (span p s).1 +:+ (span p s).2.
Proof.
  induction s as [|c s IH]; simpl; [done|].
  destruct (p c); [|done]. destruct (span p s) as [a b]. simpl in *.
  by rewrite <- IH.
Qed.

Lemma span_all (p : ascii -> bool) (s : string) :
  all_chars p (span p s).1 = true.
Proof.
  induction s as [|c s IH]; simpl; [done|].
  destruct (p c) eqn:E; [|done]. destruct (span p s) as [a b]. simpl in *.
  by rewrite E.
Qed.

(** The rest of a span does not start with a character of the class. *)
Lemma span_rest (p : ascii -> bool) (s : string) (c : ascii) (r : string) :
  (span p s).2 = String c r -> p c = false.
Proof.
  induction s as [|x s IH]; simpl; [done|].
  destruct (p x) eqn:E.
  - destruct (span p s) as [a b]. simpl in *. auto.
  - simpl. by intros [= <- <-].
Qed.

Lemma run_splits_app (p : ascii -> bool) (s a b : string) :
  (a, b) ∈ run_splits p s -> s = a +:+ b ∧ a <> "".
Proof.
  revert a b. induction s as [|c s IH]; intros a b; simpl.
  - by intros ?%elem_of_nil.
  - destruct (p c); [|by intros ?%elem_of_nil].
    intros [([a' b'] & [= -> ->] & H)%list_elem_of_fmap
           |[= -> ->]%list_elem_of_singleton]%elem_of_app.
    + apply IH in H as [-> _]. done.
    + done.
Qed.

Lemma run_splits_head (p : ascii -> bool) (s : string) :
  head (run_splits p s)
  = match (span p s).1 with
    | EmptyString => None
    | _ => Some (span p s)
    end.
Proof.
  induction s as [|c s IH]; simpl; [done|].
  destruct (p c) eqn:E; [|done].
  destruct (run_splits p s) as [|[a b] l] eqn:El; simpl in *.
  - destruct (span p s) as [[|x a'] b'] eqn:Es; simpl in *; [|done].
    f_equal. f_equal. pose proof (span_app p s) as H. rewrite Es in H.
    done.
  - destruct (span p s) as [[|x a'] b'] eqn:Es; simpl in *; [done|].
    by simplify_eq.
Qed.

Lemma filter_full_fmap (c : ascii) (l : list (string * string)) :
  filter (fun ab : string * string => ab.2 = "")
    ((fun ab => (String c ab.1, ab.2)) <$> l)
  = (fun ab => (String c ab.1, ab.2))
    <$> filter (fun ab : string * string => ab.2 = "") l.
Proof.
  induction l as [|[a b] l IH]; [done|]. rewrite fmap_cons.
  destruct (decide (b = "")) as [->|Hb].
  - rewrite !filter_cons_True by done. by rewrite fmap_cons, IH.
  - by rewrite !filter_cons_False by done.
Qed.

(** The only split that can leave nothing is the longest one. *)
Lemma run_splits_full (p : ascii -> bool) (s : string) :
  filter (fun ab : string * string => ab.2 = "") (run_splits p s)
  = match span p s with
    | (String c a, EmptyString) => [(String c a, "")]
    | _ => []
    end.
Proof.
  induction s as [|c s IH]; simpl; [done|].
  destruct (p c) eqn:E; [|done].
  rewrite filter_app, filter_full_fmap, IH.
  pose proof (span_app p s) as Happ.
  destruct (span p s) as [[|y a] [|z b]] eqn:Es; simpl in *.
  - subst s. by rewrite filter_cons_True by done.
  - subst s. by rewrite filter_cons_False by done.
  - subst s. by rewrite filter_cons_False by done.
  - subst s. by rewrite filter_cons_False by done.
Qed.

(** The greedy repetition of a class stops after each prefix of the
    longest run, the longest first, and at last where it started. *)
Lemma star_iter_class (p : ascii -> bool) (n : nat) :
  ∀ (q : option ascii) (s : string) (g : list string),
    (String.length s <= n)%nat ->
    star_iter (exec (Chr p)) true n (MState q s g)
    = ((fun ab => MState (last_char ab.1) ab.2 g) <$> run_splits p s)
      ++ [MState q s g].
Proof.
  induction n as [|n IH]; intros q s g Hn.
  - destruct s; [done|]. simpl in Hn. lia.
  - destruct s as [|c s]; [done|]. cbn [star_iter exec rest groups].
    destruct (p c) eqn:E; [|by cbn; rewrite E].
    cbn. rewrite E. cbn. rewrite Nat.leb_refl.
    rewrite app_nil_r, IH by (simpl in Hn; lia).
    rewrite fmap_app, <- list_fmap_compose. simpl. f_equal. f_equal.
    apply list_fmap_ext. intros i [a b] Hab%list_elem_of_lookup_2.
    apply run_splits_app in Hab as [_ Ha]. simpl. by destruct a.
Qed.

Lemma exec_seq (r1 r2 : regex) (st : mstate) :
  exec (Seq r1 r2) st = exec r1 st ≫= exec r2.
Proof. done. Qed.

Lemma exec_alt (r1 r2 : regex) (st : mstate) :
  exec (Alt r1 r2) st = exec r1 st ++ exec r2 st.
Proof. done. Qed.

Lemma exec_star (g : bool) (r : regex) (st : mstate) :
  exec (Star g r) st = star_iter (exec r) g (String.length (rest st)) st.
Proof. done. Qed.

Lemma exec_chr_cons (p : ascii -> bool) (q : option ascii) (c : ascii)
    (s : string) (g : list string) :
  exec (Chr p) (MState q (String c s) g)
  = if p c then [MState (Some c) s g] else [].
Proof. done. Qed.

Lemma exec_chr_nil (p : ascii -> bool) (q : option ascii) (g : list string) :
  exec (Chr p) (MState q "" g) = [].
Proof. done. Qed.

Lemma exec_group (r : regex) (st : mstate) :
  exec (Group r) st
  = (fun st' =>
       MState (prev st') (rest st')
         (groups st'
            ++ [str_take (String.length (rest st) - String.length (rest st'))
                  (rest st)]))
    <$> exec r st.
Proof. done. Qed.

(** [class+]: a non-empty run of a class. *)
Lemma exec_plus (p : ascii -> bool) (q : option ascii) (s : string)
    (g : list string) :
  exec (Plus (Chr p)) (MState q s g)
  = (fun ab => MState (last_char ab.1) ab.2 g) <$> run_splits p s.
Proof.
  unfold Plus. rewrite exec_seq.
  destruct s as [|c s]; [done|]. rewrite exec_chr_cons.
  cbn [run_splits]. destruct (p c) eqn:E; [|done].
  change ([MState (Some c) s g] ≫= exec (Star true (Chr p)))
    with (exec (Star true (Chr p)) (MState (Some c) s g) ++ []).
  rewrite app_nil_r, exec_star. cbn [rest].
  rewrite star_iter_class by done.
  rewrite fmap_app, <- list_fmap_compose. f_equal.
  apply list_fmap_ext. intros i [a b] Hab%list_elem_of_lookup_2.
  apply run_splits_app in Hab as [_ Ha]. simpl. by destruct a.
Qed.

(** [(class+)]: a group that takes a non-empty run of a class. *)
Lemma exec_group_plus (p : ascii -> bool) (q : option ascii) (s : string)
    (g : list string) :
  exec (Group (Plus (Chr p))) (MState q s g)
  = (fun ab => MState (last_char ab.1) ab.2 (g ++ [ab.1])) <$> run_splits p s.
Proof.
  rewrite exec_group, exec_plus, <- list_fmap_compose.
  apply list_fmap_ext. intros i [a b] Hab%list_elem_of_lookup_2.
  apply run_splits_app in Hab as [-> Ha]. cbn [compose rest groups prev fst snd].
  f_equal. f_equal. f_equal. rewrite length_app.
  replace (String.length a + String.length b - String.length b)%nat
    with (String.length a) by lia.
  apply str_take_app.
Qed.

End ClassMatching.

(** ** What the reference pattern matches *)

Section ReferencePattern.
Import Text Re.

Lemma dollar_is (c : ascii) : is_char "$" c = true -> c = "$"%char.
Proof. unfold is_char. by intros ?%Ascii.eqb_eq. Qed.

Lemma upper_not_digit (c : ascii) : is_upper c = true -> is_digit c = false.
Proof.
  unfold is_upper, is_digit.
  intros [?%Nat.leb_le ?%Nat.leb_le]%andb_true_iff.
  apply andb_false_iff. right. apply Nat.leb_gt. lia.
Qed.

Lemma upper_not_dollar (c : ascii) :
  is_upper c = true -> is_char "$" c = false.
Proof.
  intros H. destruct (is_char "$" c) eqn:E; [|done].
  apply dollar_is in E. by subst.
Qed.

Lemma digit_not_upper (c : ascii) : is_digit c = true -> is_upper c = false.
Proof.
  intros H. destruct (is_upper c) eqn:E; [|done].
  apply upper_not_digit in E. congruence.
Qed.

Lemma digit_not_dollar (c : ascii) :
  is_digit c = true -> is_char "$" c = false.
Proof.
  intros H. destruct (is_char "$" c) eqn:E; [|done].
  apply dollar_is in E. by subst.
Qed.

(** A split of a run either is the longest one or leaves a text that
    starts with a character of the class. *)
Lemma run_splits_rest (p : ascii -> bool) (s a b : string) :
  (a, b) ∈ run_splits p s ->
  (a, b) = span p s ∨ ∃ c r, b = String c r ∧ p c = true.
Proof.
  revert a b. induction s as [|c s IH]; intros a b; simpl.
  - by intros ?%elem_of_nil.
  - destruct (p c) eqn:E; [|by intros ?%elem_of_nil].
    intros [([a' b'] & [= -> ->] & H)%list_elem_of_fmap
           |[= -> ->]%list_elem_of_singleton]%elem_of_app.
    + apply IH in H as [H|H]; [left|by right].
      simpl in H. by rewrite <- H.
    + destruct s as [|x s]; [by left|]. simpl.
      destruct (p x) eqn:Ex; [right; eauto|by left].
Qed.

(** Continuing after the splits of a run with a continuation that fails
    on a text that starts with a character of the class: only the longest
    split is continued. *)
Lemma bind_run_splits {B} (p : ascii -> bool) (ok : string -> bool)
    (k : string * string -> list B) (s : string) :
  (∀ a c r, p c = true -> k (a, String c r) = []) ->
  filter (fun ab => ok ab.1 = true) (run_splits p s) ≫= k
  = match span p s with
    | (String x a, b) => if ok (String x a) then k (String x a, b) else []
    | _ => []
    end.
Proof.
  intros Hk. revert ok k Hk. induction s as [|c s IH]; intros ok k Hk.
  - done.
  - cbn [run_splits span]. destruct (p c) eqn:E; [|done].
    rewrite filter_app, bind_app.
    assert (filter (fun ab : string * string => ok ab.1 = true)
              ((fun ab => (String c ab.1, ab.2)) <$> run_splits p s)
            = (fun ab => (String c ab.1, ab.2))
              <$> filter (fun ab : string * string =>
                            ok (String c ab.1) = true) (run_splits p s)) as ->.
    { generalize (run_splits p s). intros l.
      induction l as [|[a b] l IHl]; [done|]. rewrite fmap_cons.
      destruct (ok (String c a)) eqn:Eo.
      - rewrite !filter_cons_True by done. by rewrite fmap_cons, IHl.
      - rewrite !filter_cons_False by (simpl; congruence). done. }
    rewrite list_fmap_bind.
    rewrite (IH (fun a => ok (String c a))
               (k ∘ (fun ab => (String c ab.1, ab.2)))).
    2:{ intros a x r Hx. simpl. by apply Hk. }
    destruct (span p s) as [[|x a] b] eqn:Es.
    + pose proof (span_app p s) as Happ. rewrite Es in Happ. simpl in Happ.
      subst b. simpl.
      destruct (ok (String c "")) eqn:Eo.
      * rewrite filter_cons_True by done. simpl. by rewrite app_nil_r.
      * by rewrite filter_cons_False by (simpl; congruence).
    + assert (∃ y r, s = String y r ∧ p y = true) as (y & r & -> & Hy).
      { destruct s as [|y r]; [done|]. simpl in Es.
        destruct (p y) eqn:Ey; [eauto|done]. }
      assert (filter (fun ab : string * string => ok ab.1 = true)
                [(String c "", String y r)] ≫= k = []) as ->.
      { destruct (ok (String c "")) eqn:Eo.
        - rewrite filter_cons_True by done. simpl. by rewrite Hk.
        - by rewrite filter_cons_False by (simpl; congruence). }
      by rewrite app_nil_r.
Qed.

(** [class{1,3}]: the splits of a run of at most three characters. *)
Lemma exec_rep1to3 (p : ascii -> bool) (q : option ascii) (s : string)
    (g : list string) :
  exec (Rep1to3 (Chr p)) (MState q s g)
  = (fun ab => MState (last_char ab.1) ab.2 g)
    <$> filter (fun ab => (String.length ab.1 <=? 3)%nat = true)
          (run_splits p s).
Proof.
  assert (∀ (c1 c2 c3 : ascii) (l : list (string * string)),
            filter (fun ab : string * string =>
                      (String.length ab.1 <=? 3)%nat = true)
              ((fun ab => (String c1 ab.1, ab.2))
               <$> ((fun ab => (String c2 ab.1, ab.2))
                    <$> ((fun ab => (String c3 ab.1, ab.2)) <$> l)))
            = (fun ab => (String c1 ab.1, ab.2))
              <$> ((fun ab => (String c2 ab.1, ab.2))
                   <$> ((fun ab => (String c3 ab.1, ab.2))
                        <$> filter (fun ab : string * string => ab.1 = "") l)))
    as Hdeep.
  { intros c1 c2 c3 l. induction l as [|[a b] l IHl]; [done|].
    rewrite !fmap_cons. destruct a as [|x a].
    - rewrite !filter_cons_True by done. by rewrite !fmap_cons, IHl.
    - rewrite !filter_cons_False by done. done. }
  assert (∀ l : list (string * string),
            (∀ ab, ab ∈ l -> ab.1 <> "") ->
            filter (fun ab : string * string => ab.1 = "") l = []) as Hnone.
  { intros l Hl. induction l as [|ab l IHl]; [done|].
    rewrite filter_cons_False by (apply Hl; by left).
    apply IHl. intros x Hx. apply Hl. by right. }
  unfold Rep1to3, Opt.
  destruct s as [|c1 s1]; [done|].
  rewrite exec_seq, exec_chr_cons. cbn [run_splits].
  destruct (p c1) eqn:E1; [|done].
  change ([MState (Some c1) s1 g] ≫= ?f) with (f (MState (Some c1) s1 g) ++ []).
  rewrite app_nil_r, exec_alt.
  destruct s1 as [|c2 s2].
  { done. }
  rewrite exec_seq, exec_chr_cons. cbn [run_splits].
  destruct (p c2) eqn:E2; [|done].
  change ([MState (Some c2) s2 g] ≫= ?f) with (f (MState (Some c2) s2 g) ++ []).
  rewrite app_nil_r, exec_alt.
  destruct s2 as [|c3 s3].
  { done. }
  rewrite exec_chr_cons. cbn [run_splits].
  destruct (p c3) eqn:E3; [|done].
  rewrite !fmap_app, !filter_app, Hdeep, Hnone.
  2:{ intros [a b] Hab. by apply run_splits_app in Hab as [_ ?]. }
  done.
Qed.

(** A group around splits records the text taken. *)
Lemma exec_group_splits (r : regex) (q : option ascii) (s : string)
    (g : list string) (splits : list (string * string)) :
  (∀ a b, (a, b) ∈ splits -> s = a +:+ b) ->
  exec r (MState q s g)
  = (fun ab => MState (last_char ab.1) ab.2 g) <$> splits ->
  exec (Group r) (MState q s g)
  = (fun ab => MState (last_char ab.1) ab.2 (g ++ [ab.1])) <$> splits.
Proof.
  intros Hs Hr. rewrite exec_group, Hr, <- list_fmap_compose.
  apply list_fmap_ext. intros i [a b] Hab%list_elem_of_lookup_2.
  apply Hs in Hab as ->. cbn [compose rest groups prev fst snd].
  f_equal. f_equal. f_equal. rewrite length_app.
  replace (String.length a + String.length b - String.length b)%nat
    with (String.length a) by lia.
  apply str_take_app.
Qed.

End ReferencePattern.

Section ReferenceExec.
Import Text Re.

Lemma str_take_zero (s : string) : str_take 0 s = "".
Proof. by destruct s. Qed.

Lemma str_take_one (c : ascii) (s : string) :
  str_take 1 (String c s) = String c "".
Proof. unfold str_take. simpl. by destruct s. Qed.

Lemma exec_opt_dollar (q : option ascii) (s : string) (g : list string) :
  exec (Group (Opt (Chr (is_char "$")))) (MState q s g)
  = match s with
    | String c s' =>
        if is_char "$" c
        then [MState (Some c) s' (g ++ [String c ""]); MState q s (g ++ [""])]
        else [MState q s (g ++ [""])]
    | EmptyString => [MState q "" (g ++ [""])]
    end.
Proof.
  rewrite exec_group. unfold Opt. rewrite exec_alt.
  destruct s as [|c s]; [done|].
  rewrite exec_chr_cons. destruct (is_char "$" c) eqn:E.
  - cbn [app fmap list_fmap exec rest groups prev].
    replace (String.length (String c s) - String.length s)%nat with 1%nat
      by (simpl; lia).
    by rewrite Nat.sub_diag, str_take_one, str_take_zero.
  - cbn [app fmap list_fmap exec rest groups prev].
    by rewrite Nat.sub_diag, str_take_zero.
Qed.

(** The row sign and the digits. *)
Lemma exec_sign_digits (q : option ascii) (s : string) (g : list string) :
  exec (Seq (Group (Opt (Chr (is_char "$")))) (Group (Plus (Chr is_digit))))
    (MState q s g)
  = (fun ab => MState (last_char ab.1) ab.2
                 (g ++ [(strip_dollar s).1; ab.1]))
    <$> run_splits is_digit (strip_dollar s).2.
Proof.
  rewrite exec_seq, exec_opt_dollar.
  assert (∀ x : string, g ++ [x] = g ++ [x]) as _ by done.
  destruct s as [|c s].
  - done.
  - cbn [strip_dollar]. destruct (is_char "$" c) eqn:E.
    + cbn [mbind list_bind]. rewrite !exec_group_plus.
      apply dollar_is in E as ->. cbn [run_splits]. 
      change (is_digit "$") with false. cbn [fmap list_fmap].
      rewrite !app_nil_r. cbn [fst snd].
      apply list_fmap_ext. intros i [a b] _. cbn [fst snd].
      by rewrite <- app_assoc.
    + cbn [mbind list_bind]. rewrite !exec_group_plus, app_nil_r.
      cbn [fst snd].
      apply list_fmap_ext. intros i [a b] _. cbn [fst snd].
      by rewrite <- app_assoc.
Qed.

(** The column, the row sign and the digits. *)
Lemma exec_column_sign_digits (q : option ascii) (s : string)
    (g : list string) :
  exec (Seq (Group (Rep1to3 (Chr is_upper)))
          (Seq (Group (Opt (Chr (is_char "$"))))
             (Group (Plus (Chr is_digit)))))
    (MState q s g)
  = match span is_upper s with
    | (String x a, s2) =>
        if (String.length (String x a) <=? 3)%nat
        then (fun ab => MState (last_char ab.1) ab.2
                          (g ++ [String x a; (strip_dollar s2).1; ab.1]))
             <$> run_splits is_digit (strip_dollar s2).2
        else []
    | _ => []
    end.
Proof.
  rewrite exec_seq.
  rewrite (exec_group_splits _ _ _ _
             (filter (fun ab : string * string =>
                        (String.length ab.1 <=? 3)%nat = true)
                (run_splits is_upper s))).
  2:{ intros a b [_ H]%list_elem_of_filter.
      by apply run_splits_app in H as [? _]. }
  2:{ apply exec_rep1to3. }
  rewrite list_fmap_bind.
  rewrite (bind_run_splits is_upper (fun a => (String.length a <=? 3)%nat)).
  2:{ intros a c r Hc. cbn [compose fst snd]. rewrite exec_sign_digits.
      cbn [strip_dollar]. rewrite (upper_not_dollar c Hc).
      cbn [run_splits snd]. by rewrite (upper_not_digit c Hc). }
  destruct (span is_upper s) as [[|x a] s2]; [done|].
  destruct (String.length (String x a) <=? 3)%nat; [|done].
  cbn [compose fst snd]. rewrite exec_sign_digits.
  apply list_fmap_ext. intros i [u v] _. cbn [fst snd].
  by rewrite <- app_assoc.
Qed.

(** What the reference pattern matches at a cursor: the ways to end the
    digits of the reference that starts there, the longest first. *)
Lemma exec_reference (q : option ascii) (s : string) (g : list string) :
  exec FORMULA_CELL_REF_RE (MState q s g)
  = match ref_prefix s with
    | Some (col_abs, col, row_abs, s3) =>
        (fun ab => MState (last_char ab.1) ab.2
                     (g ++ [col_abs; col; row_abs; ab.1]))
        <$> run_splits is_digit s3
    | None => []
    end.
Proof.
  unfold FORMULA_CELL_REF_RE. rewrite exec_seq, exec_opt_dollar.
  unfold ref_prefix.
  assert (∀ (q' : option ascii) (s1 : string) (d : string),
            exec (Seq (Group (Rep1to3 (Chr is_upper)))
                    (Seq (Group (Opt (Chr (is_char "$"))))
                       (Group (Plus (Chr is_digit)))))
              (MState q' s1 (g ++ [d]))
            = (let '(col, s2) := span is_upper s1 in
               if (1 <=? String.length col)%nat
                  && (String.length col <=? 3)%nat
               then let '(row_abs, s3) := strip_dollar s2 in
                    (fun ab => MState (last_char ab.1) ab.2
                                 (g ++ [d; col; row_abs; ab.1]))
                    <$> run_splits is_digit s3
               else [])) as Hrest.
  { intros q' s1 d. rewrite exec_column_sign_digits.
    destruct (span is_upper s1) as [[|x a] s2]; [done|].
    change (1 <=? String.length (String x a))%nat with true.
    cbn [andb].
    destruct (String.length (String x a) <=? 3)%nat; [|done].
    destruct (strip_dollar s2) as [ra s3]. cbn [fst snd].
    apply list_fmap_ext. intros i [u v] _. cbn [fst snd].
    by rewrite <- app_assoc. }
  assert (∀ (q' : option ascii) (c : ascii) (s1 : string) (d : string),
            is_char "$" c = true ->
            exec (Seq (Group (Rep1to3 (Chr is_upper)))
                    (Seq (Group (Opt (Chr (is_char "$"))))
                       (Group (Plus (Chr is_digit)))))
              (MState q' (String c s1) (g ++ [d])) = []) as Hkill.
  { intros q' c s1 d ->%dollar_is. by rewrite exec_column_sign_digits. }
  destruct s as [|c s].
  - done.
  - cbn [strip_dollar]. destruct (is_char "$" c) eqn:E.
    + cbn [mbind list_bind]. rewrite Hkill by done. rewrite Hrest.
      rewrite !app_nil_r.
      destruct (span is_upper s) as [col s2].
      destruct ((1 <=? String.length col)%nat
                && (String.length col <=? 3)%nat); [|done].
      by destruct (strip_dollar s2) as [ra s3].
    + cbn [mbind list_bind]. rewrite Hrest, app_nil_r.
      destruct (span is_upper (String c s)) as [col s2].
      destruct ((1 <=? String.length col)%nat
                && (String.length col <=? 3)%nat); [|done].
      by destruct (strip_dollar s2) as [ra s3].
Qed.

(** The first match at a cursor is the reference read from left to
    right. *)
Lemma match_at_reference (q : option ascii) (s : string) :
  match_at FORMULA_CELL_REF_RE q s
  = (fun gr : list string * string =>
       MState (last_char (default "" (last gr.1))) gr.2 gr.1) <$> ref_at s.
Proof.
  unfold match_at, ref_at. rewrite exec_reference.
  destruct (ref_prefix s) as [[[[ca col] ra] s3]|]; [|done].
  pose proof (run_splits_head is_digit s3) as Hh.
  destruct (run_splits is_digit s3) as [|[a b] l];
    destruct (span is_digit s3) as [[|x a'] b']; simpl in *; try done.
  by simplify_eq.
Qed.

End ReferenceExec.

(** ** Formulas as the program reads them *)

Section FormulaTokens.
Import Text Re.

Lemma uint_of_string_digits (s : string) :
  all_chars is_digit s = true -> is_Some (NilEmpty.uint_of_string s).
Proof.
  induction s as [|c s IH]; simpl; [done|].
  intros [Hc Hs]%andb_true_iff. destruct (IH Hs) as [d ->].
  destruct c as [[] [] [] [] [] [] [] []]; done.
Qed.

Lemma digits_value_digits (s : string) :
  s <> "" -> all_chars is_digit s = true ->
  ∃ n, digits_value s = Some n ∧ 0 <= n.
Proof.
  intros Hs Hd. destruct (uint_of_string_digits s Hd) as [d Hu].
  exists (Z.of_uint d). split.
  - destruct s; [done|]. unfold digits_value. by rewrite Hu.
  - unfold Z.of_uint. lia.
Qed.

Lemma ref_at_groups (s : string) (gs : list string) (r : string) :
  ref_at s = Some (gs, r) -> ref_groups gs.
Proof.
  unfold ref_at. destruct (ref_prefix s) as [[[[ca col] ra] s3]|]; [|done].
  pose proof (span_all is_digit s3) as Hd.
  destruct (span is_digit s3) as [[|x d] b]; [done|]. intros [= <- <-].
  destruct (digits_value_digits (String x d)) as (n & Hn & H0); [done..|].
  by exists ca, col, ra, (String x d), n.
Qed.

Lemma match_at_groups (q : option ascii) (s : string) (st : mstate) :
  match_at FORMULA_CELL_REF_RE q s = Some st -> ref_groups (groups st).
Proof.
  rewrite match_at_reference.
  destruct (ref_at s) as [[gs r]|] eqn:E; [|done]. intros [= <-].
  by eapply ref_at_groups.
Qed.

Lemma scan_from_groups (fuel : nat) :
  ∀ (q : option ascii) (s : string) (t : string) (gs : list string),
    PMatch t gs ∈ scan_from fuel FORMULA_CELL_REF_RE q s -> ref_groups gs.
Proof.
  induction fuel as [|fuel IH]; intros q s t gs; cbn [scan_from].
  - by intros ?%elem_of_nil.
  - destruct (match_at FORMULA_CELL_REF_RE q s) as [st|] eqn:E.
    + apply match_at_groups in E. destruct s as [|c s].
      * by intros [= _ ->]%list_elem_of_singleton.
      * destruct (_ - _)%nat.
        -- intros [[= _ ->]|[?|H]%elem_of_cons]%elem_of_cons; [done..|].
           by eapply IH.
        -- intros [[= _ ->]|H]%elem_of_cons; [done|]. by eapply IH.
    + destruct s as [|c s]; [by intros ?%elem_of_nil|].
      intros [?|H]%elem_of_cons; [done|]. by eapply IH.
Qed.

Lemma concat_text_ext {A} (f g : A -> string) (l : list A) :
  (∀ x, x ∈ l -> f x = g x) ->
  concat_text (f <$> l) = concat_text (g <$> l).
Proof.
  induction l as [|x l IH]; intros H; [done|]. rewrite !fmap_cons. simpl.
  rewrite (H x) by by left. rewrite IH; [done|].
  intros y Hy. apply H. by right.
Qed.

(** A substitution on references, as a rewriting of tokens. *)
Lemma sub_tokens (repl : list string -> string) (f : ftoken -> ftoken)
    (formula : string) :
  (∀ col_abs col row_abs row_text row,
     digits_value row_text = Some row ->
     repl [col_abs; col; row_abs; row_text]
     = render_token (f (TRef col_abs col row_abs row))) ->
  (∀ c, f (TChar c) = TChar c) ->
  Re.sub FORMULA_CELL_REF_RE repl formula
  = render_tokens (f <$> formula_tokens formula).
Proof.
  intros Hrepl Hchar. unfold Re.sub, render_tokens, formula_tokens.
  rewrite <- !list_fmap_compose. apply concat_text_ext.
  intros [c|t gs] Hpc; cbn [compose token_of_piece].
  - by rewrite Hchar.
  - apply scan_from_groups in Hpc as (ca & col & ra & d & n & -> & Hn & _).
    rewrite Hn. by apply Hrepl.
Qed.

Lemma formula_tokens_nonneg (formula : string) :
  rows_nonneg (formula_tokens formula).
Proof.
  intros ca col ra row ([c|t gs] & Ht & Hpc)%list_elem_of_fmap; [done|].
  apply scan_from_groups in Hpc as (ca' & col' & ra' & d & n & -> & Hn & H0).
  cbn [token_of_piece] in Ht. rewrite Hn in Ht. by simplify_eq.
Qed.

Lemma shift_formula_for_row_insert_tokens (formula : string)
    (start_row delta : Z) :
  formula <> "" -> delta <> 0 ->
  shift_formula_for_row_insert formula start_row delta
  = render_tokens (insert_token start_row delta <$> formula_tokens formula).
Proof.
  intros Hf Hd. unfold shift_formula_for_row_insert.
  destruct formula as [|c s]; [done|].
  destruct (Z.eqb_spec delta 0) as [|_]; [done|].
  apply sub_tokens; [|done].
  intros ca col ra d n Hn. cbn [row_insert_repl]. by rewrite Hn.
Qed.

Lemma shift_formula_for_row_copy_tokens (formula : string) (delta : Z) :
  formula <> "" -> delta <> 0 ->
  shift_formula_for_row_copy formula delta
  = render_tokens (copy_token delta <$> formula_tokens formula).
Proof.
  intros Hf Hd. unfold shift_formula_for_row_copy.
  destruct formula as [|c s]; [done|].
  destruct (Z.eqb_spec delta 0) as [|_]; [done|].
  apply sub_tokens; [|done].
  intros ca col ra d n Hn. cbn [row_copy_repl]. rewrite Hn.
  cbn [copy_token render_token]. by destruct ra.
Qed.

End FormulaTokens.

(** ** Ranges *)

Section RangeText.
Import Text Re.

Lemma filter_fmap_rest (F : string * string -> mstate)
    (l : list (string * string)) :
  (∀ ab, rest (F ab) = ab.2) ->
  filter (fun st => rest st = "") (F <$> l)
  = F <$> filter (fun ab : string * string => ab.2 = "") l.
Proof.
  intros HF. induction l as [|ab l IH]; [done|]. rewrite fmap_cons.
  destruct (decide (ab.2 = "")) as [Hab|Hab].
  - rewrite !filter_cons_True by (by rewrite ?HF). by rewrite fmap_cons, IH.
  - by rewrite !filter_cons_False by (by rewrite ?HF).
Qed.

(** The pattern matches a whole text when the reference read from its
    start leaves nothing. *)
Lemma fullmatch_reference (s : string) :
  fullmatch FORMULA_CELL_REF_RE s
  = match ref_at s with
    | Some (gs, EmptyString) => Some gs
    | _ => None
    end.
Proof.
  unfold fullmatch, ref_at. rewrite exec_reference.
  destruct (ref_prefix s) as [[[[ca col] ra] s3]|]; [|done].
  rewrite filter_fmap_rest by done. rewrite run_splits_full.
  by destruct (span is_digit s3) as [[|x d] [|y b]].
Qed.

Lemma shift_ref_part_token (start_row delta : Z) (part : string) :
  shift_ref_part start_row delta part
  = match ref_token part with
    | Some t => render_token (insert_token start_row delta t)
    | None => part
    end.
Proof.
  unfold shift_ref_part, ref_token. rewrite fullmatch_reference.
  destruct (ref_at part) as [[gs r]|] eqn:E; [|done].
  destruct (ref_at_groups _ _ _ E) as (ca & col & ra & d & n & -> & Hn & _).
  destruct r; [|done]. by rewrite Hn.
Qed.

Lemma shift_ref_rows_text (ref_text : string) (start_row delta : Z) :
  delta <> 0 ->
  shift_ref_rows ref_text start_row delta
  = insert_range_text start_row delta ref_text.
Proof.
  intros Hd. unfold shift_ref_rows, insert_range_text.
  destruct ref_text as [|c s]; [done|].
  destruct (Z.eqb_spec delta 0) as [|_]; [done|].
  f_equal. apply list_fmap_ext. intros i part _.
  apply shift_ref_part_token.
Qed.

End RangeText.

(** ** Loops over the children of an element *)

Section ChildLoops.
Import ET.

Lemma bind_Ok {A B} (m : result A) (k : A -> result B) (b : B) :
  m ≫= k = Ok b -> ∃ a, m = Ok a ∧ k a = Ok b.
Proof. destruct m as [a|e]; [eauto|done]. Qed.

Lemma indices_where_from_elem {A} (p : A -> bool) (l : list A) :
  ∀ k i, i ∈ indices_where_from p k l
         <-> (k <= i)%nat ∧ ∃ x, l !! (i - k)%nat = Some x ∧ p x = true.
Proof.
  induction l as [|x l IH]; intros k i; simpl.
  - split; [by intros ?%elem_of_nil|]. by intros (_ & y & ? & _).
  - assert (i ∈ indices_where_from p (S k) l
            <-> (k < i)%nat
                ∧ ∃ y, (x :: l) !! (i - k)%nat = Some y ∧ p y = true)
      as Htail.
    { rewrite IH. split.
      - intros (Hk & y & Hy & Hp). split; [lia|]. exists y. split; [|done].
        by replace (i - k)%nat with (S (i - S k)) by lia.
      - intros (Hk & y & Hy & Hp). split; [lia|]. exists y. split; [|done].
        by replace (i - k)%nat with (S (i - S k)) in Hy by lia. }
    destruct (p x) eqn:Hx.
    + rewrite elem_of_cons, Htail. split.
      * intros [->|[Hk H]].
        -- split; [lia|]. exists x. by rewrite Nat.sub_diag.
        -- split; [lia|done].
      * intros (Hk & y & Hy & Hp).
        destruct (decide (i = k)) as [->|]; [by left|].
        right. split; [lia|]. eauto.
    + rewrite Htail. split.
      * intros [Hk H]. split; [lia|done].
      * intros (Hk & y & Hy & Hp). destruct (decide (i = k)) as [->|].
        -- rewrite Nat.sub_diag in Hy. simpl in Hy. congruence.
        -- split; [lia|eauto].
Qed.

Lemma indices_where_from_NoDup {A} (p : A -> bool) (l : list A) :
  ∀ k, NoDup (indices_where_from p k l).
Proof.
  induction l as [|x l IH]; intros k; simpl; [constructor|].
  destruct (p x); [|done]. constructor; [|done].
  rewrite indices_where_from_elem. lia.
Qed.

Lemma findall_index_elem (t : string) (e : Element) (i : nat) :
  i ∈ findall_index t e
  <-> ∃ c, children e !! i = Some c ∧ has_tag t c = true.
Proof.
  unfold findall_index, indices_where. rewrite indices_where_from_elem.
  rewrite Nat.sub_0_r. split; [by intros [_ ?]|]. intros H. split; [lia|done].
Qed.

Lemma findall_index_NoDup (t : string) (e : Element) :
  NoDup (findall_index t e).
Proof. apply indices_where_from_NoDup. Qed.

Lemma mutate_child_Ok (i : nat) (f : Element -> result Element)
    (e e' : Element) :
  mutate_child i f e = Ok e' ->
  match children e !! i with
  | Some c => ∃ c', f c = Ok c' ∧ e' = set_child i c' e
  | None => e' = e
  end.
Proof.
  unfold mutate_child. destruct (children e !! i) as [c|]; [|by intros [= <-]].
  intros (c' & Hc & [= <-])%bind_Ok. eauto.
Qed.

(** A loop that mutates the children at distinct indices: each of them
    is mutated once, the others are kept. *)
Lemma for_each_mutate (f : Element -> result Element) (idxs : list nat) :
  ∀ e e', NoDup idxs ->
    for_each (fun e i => mutate_child i f e) idxs e = Ok e' ->
    ∃ cs', e' = set_children cs' e
      ∧ length cs' = length (children e)
      ∧ ∀ i c, children e !! i = Some c ->
          (i ∈ idxs -> ∃ c', f c = Ok c' ∧ cs' !! i = Some c')
          ∧ (i ∉ idxs -> cs' !! i = Some c).
Proof.
  induction idxs as [|x idxs IH]; intros e e' Hnd H.
  - simpl in H. injection H as <-. exists (children e).
    split; [by rewrite set_children_id|]. split; [done|].
    intros i c Hc. split; [by intros ?%elem_of_nil|done].
  - apply NoDup_cons in Hnd as [Hx Hnd]. cbn [for_each] in H.
    apply bind_Ok in H as (e1 & H1 & H).
    apply mutate_child_Ok in H1.
    destruct (IH e1 e' Hnd H) as (cs' & -> & Hlen & Hcs).
    destruct (children e !! x) as [cx|] eqn:Ex.
    + destruct H1 as (cx' & Hfx & ->). exists cs'.
      split; [done|]. split.
      { rewrite Hlen. unfold set_child. simpl. by rewrite length_insert. }
      intros i c Hc. destruct (decide (i = x)) as [->|Hne].
      * assert (cs' !! x = Some cx') as Hx'.
        { apply (Hcs x cx'); [|done]. unfold set_child. simpl.
          apply list_lookup_insert_eq. by eapply lookup_lt_Some. }
        rewrite Ex in Hc. injection Hc as <-.
        split; [eauto|]. intros Hn. exfalso. apply Hn. by left.
      * assert (children (set_child x cx' e) !! i = Some c) as Hc'.
        { unfold set_child. simpl. by rewrite list_lookup_insert_ne. }
        destruct (Hcs i c Hc') as [Hin Hout]. split.
        -- intros [?|?]%elem_of_cons; [done|auto].
        -- intros Hn. apply Hout. intros ?. apply Hn. by right.
    + subst e1. exists cs'. split; [done|]. split; [done|].
      intros i c Hc. destruct (Hcs i c Hc) as [Hin Hout].
      assert (i <> x) as Hne by congruence. split.
      * intros [?|?]%elem_of_cons; [done|auto].
      * intros Hn. apply Hout. intros ?. apply Hn. by right.
Qed.

Lemma index_where_alter {A} (p : A -> bool) (g : A -> A) (i : nat)
    (l : list A) :
  (∀ x, l !! i = Some x -> p (g x) = p x) ->
  index_where p (alter g i l) = index_where p l.
Proof.
  revert i. induction l as [|x l IH]; intros [|i] Hg; try done.
  - cbn. by rewrite Hg.
  - cbn. change (list_alter g i l) with (alter g i l). by rewrite IH.
Qed.

(** The first child with a tag, after a mutation that keeps the tag of
    the child it is applied to. *)
Lemma find_update_child (t : string) (i : nat) (g : Element -> Element)
    (e : Element) :
  (∀ c, children e !! i = Some c -> tag (g c) = tag c) ->
  find t (update_child i g e)
  = (fun c => if decide (find_index t e = Some i) then g c else c)
    <$> find t e.
Proof.
  intros Hg. unfold find, find_index. rewrite update_child_children.
  rewrite index_where_alter
    by (intros c Hc; unfold has_tag; by rewrite Hg).
  destruct (index_where (has_tag t) (children e)) as [j|]; [|done].
  simpl. destruct (decide (Some j = Some i)) as [[= ->]|Hne].
  - rewrite list_lookup_alter_eq. by destruct (children e !! i).
  - rewrite list_lookup_alter_ne by congruence.
    by destruct (children e !! j).
Qed.

Lemma find_index_lookup (t : string) (e : Element) (i : nat) :
  find_index t e = Some i ->
  ∃ c, children e !! i = Some c ∧ has_tag t c = true ∧ find t e = Some c.
Proof.
  intros H. unfold find. rewrite H. simpl.
  apply index_where_Some in H as (c & Hc & Hp & _). eauto.
Qed.

Lemma find_Some (t : string) (e c : Element) :
  find t e = Some c ->
  ∃ i, find_index t e = Some i ∧ children e !! i = Some c
       ∧ has_tag t c = true.
Proof.
  unfold find. destruct (find_index t e) as [i|] eqn:E; [|done]. simpl.
  intros Hc. exists i. split; [done|]. split; [done|].
  apply find_index_lookup in E as (c' & Hc' & Hp & _). congruence.
Qed.

Lemma has_tag_eq (t : string) (c c' : Element) :
  tag c' = tag c -> has_tag t c' = has_tag t c.
Proof. unfold has_tag. by intros ->. Qed.

Lemma has_tag_inj (t t' : string) (c : Element) :
  has_tag t c = true -> has_tag t' c = true -> t = t'.
Proof.
  unfold has_tag. intros ?%String.eqb_eq ?%String.eqb_eq. congruence.
Qed.

(** The first child with a tag, when the children are replaced by
    children with the same tags. *)
Lemma index_where_same {A} (p : A -> bool) (l l' : list A) :
  length l' = length l ->
  (∀ i x, l !! i = Some x -> ∃ x', l' !! i = Some x' ∧ p x' = p x) ->
  index_where p l' = index_where p l.
Proof.
  revert l'. induction l as [|x l IH]; intros [|x' l'] Hlen H; try done.
  destruct (H O x eq_refl) as (y & [= <-] & Hp). simpl. rewrite Hp.
  rewrite (IH l'); [done|by simpl in Hlen; lia|].
  intros i z Hz. apply (H (S i) z Hz).
Qed.

(** Mutating the first child with the tag [t], if there is one: what
    the first child with a tag [t'] then is. *)
Lemma find_update_first (t t' : string) (g : Element -> Element)
    (e : Element) :
  (∀ c, tag (g c) = tag c) ->
  find t' (match find_index t e with
           | Some i => update_child i g e
           | None => e
           end)
  = (fun c => if decide (t' = t) then g c else c) <$> find t' e.
Proof.
  intros Hg. destruct (find_index t e) as [i|] eqn:E.
  - rewrite find_update_child by auto.
    destruct (find t' e) as [c|] eqn:Ec; [|done]. simpl. f_equal.
    destruct (decide (t' = t)) as [->|Hne].
    + by rewrite decide_True.
    + rewrite decide_False; [done|]. intros E'.
      apply find_index_lookup in E as (c1 & Hc1 & Ht1 & _).
      apply find_index_lookup in E' as (c2 & Hc2 & Ht2 & _).
      assert (c2 = c1) as -> by congruence.
      apply Hne. by eapply has_tag_inj.
  - destruct (decide (t' = t)) as [->|Hne].
    + unfold find. by rewrite E.
    + by destruct (find t' e).
Qed.

(** Replacing the first child with the tag [t] by an element with the
    same tag. *)
Lemma find_set_child (t t' : string) (i : nat) (c c' : Element)
    (e : Element) :
  find_index t e = Some i -> children e !! i = Some c -> tag c' = tag c ->
  find t' (set_child i c' e)
  = if decide (t' = t) then Some c' else find t' e.
Proof.
  intros Hi Hc Ht.
  assert (set_child i c' e = update_child i (fun _ => c') e) as ->.
  { unfold update_child. by rewrite Hc. }
  rewrite find_update_child by (intros ? ?; congruence).
  destruct (decide (t' = t)) as [->|Hne].
  - unfold find. rewrite Hi. simpl. rewrite Hc. simpl.
    by rewrite decide_True.
  - destruct (find t' e) as [x|] eqn:Ex; [|done]. simpl. f_equal.
    rewrite decide_False; [done|]. intros E'.
    apply find_index_lookup in Hi as (c1 & Hc1 & Ht1 & _).
    apply find_index_lookup in E' as (c2 & Hc2 & Ht2 & _).
    assert (c2 = c1) as -> by congruence.
    apply Hne. by eapply has_tag_inj.
Qed.

Lemma find_index_update_child (t : string) (i : nat)
    (g : Element -> Element) (e : Element) :
  (∀ c, children e !! i = Some c -> tag (g c) = tag c) ->
  find_index t (update_child i g e) = find_index t e.
Proof.
  intros Hg. unfold find_index. rewrite update_child_children.
  apply index_where_alter. intros c Hc. unfold has_tag. by rewrite Hg.
Qed.

Lemma find_index_update_first (t t' : string) (g : Element -> Element)
    (e : Element) :
  (∀ c, tag (g c) = tag c) ->
  find_index t' (match find_index t e with
                 | Some i => update_child i g e
                 | None => e
                 end)
  = find_index t' e.
Proof.
  intros Hg. destruct (find_index t e); [|done].
  apply find_index_update_child. auto.
Qed.

Lemma find_index_set_child (t : string) (i : nat) (c c' : Element)
    (e : Element) :
  children e !! i = Some c -> tag c' = tag c ->
  find_index t (set_child i c' e) = find_index t e.
Proof.
  intros Hc Ht.
  assert (set_child i c' e = update_child i (fun _ => c') e) as ->.
  { unfold update_child. by rewrite Hc. }
  apply find_index_update_child. intros ? ?. congruence.
Qed.

End ChildLoops.

(** ** Row insertion in a sheet *)

Section RowShift.
Import ET Text.

Lemma renumber_cell_Ok (start_row delta : Z) (cell cell1 : Element) :
  match get_attr "r" cell with
  | Some (String _ _ as ref) =>
      '(col, cell_row) ← parse_cell_ref ref;
      Ok (if start_row <=? cell_row
          then set_attr "r" (col +:+ str (cell_row + delta)) cell
          else cell)
  | _ => Ok cell
  end = Ok cell1 ->
  tag cell1 = tag cell ∧ children cell1 = children cell.
Proof.
  destruct (get_attr "r" cell) as [[|c s]|]; try by intros [= <-].
  intros ([col row] & _ & H)%bind_Ok. simpl in H.
  destruct (start_row <=? row); by injection H as <-.
Qed.

Lemma shift_cell_spec (start_row delta : Z) (cell cell' : Element) :
  shift_cell start_row delta cell = Ok cell' ->
  tag cell' = tag cell
  ∧ ∀ t, formula_text cell = Some t -> t <> "" ->
         formula_text cell'
         = Some (shift_formula_for_row_insert t start_row delta).
Proof.
  unfold shift_cell. intros (cell1 & H1 & H)%bind_Ok.
  apply renumber_cell_Ok in H1 as [Ht Hc].
  assert (∀ t', find_index t' cell1 = find_index t' cell) as Hfi.
  { intros t'. unfold find_index. by rewrite Hc. }
  assert (∀ t', find t' cell1 = find t' cell) as Hf.
  { intros t'. unfold find. by rewrite Hfi, Hc. }
  destruct (find_index tag_f cell1) as [fi|] eqn:Efi.
  - injection H as <-. split.
    { rewrite update_child_set. simpl. done. }
    intros t Hft Hne. unfold formula_text in *.
    rewrite find_update_child.
    2:{ intros c _. destruct (text c) as [[|]|];
          by destruct (get_attr "ref" _) as [[|]|]. }
    rewrite Hf. destruct (find tag_f cell) as [formula|]; [|done].
    simpl in *. rewrite decide_True by done. rewrite Hft.
    destruct t as [|x t]; [done|].
    by destruct (get_attr "ref" _) as [[|]|].
  - injection H as <-. split; [done|]. intros t Hft _.
    unfold formula_text in Hft. unfold find in Hft.
    rewrite <- Hfi, Efi in Hft. done.
Qed.

Lemma shift_row_spec (start_row delta : Z) (row_elem row' : Element) :
  shift_row start_row delta row_elem = Ok row' ->
  tag row' = tag row_elem
  ∧ length (children row') = length (children row_elem)
  ∧ (∃ n, row_number_of row_elem = Ok n
          ∧ attrib row'
            = if start_row <=? n
              then <["r" := str (n + delta)]> (attrib row_elem)
              else attrib row_elem)
  ∧ ∀ ci cell,
      children row_elem !! ci = Some cell ->
      if has_tag tag_c cell
      then ∃ cell', shift_cell start_row delta cell = Ok cell'
                    ∧ children row' !! ci = Some cell'
      else children row' !! ci = Some cell.
Proof.
  unfold shift_row. intros (n & Hn & H)%bind_Ok.
  set (row1 := if start_row <=? n
               then set_attr "r" (str (n + delta)) row_elem
               else row_elem) in H.
  assert (children row1 = children row_elem) as Hc
    by (unfold row1; by destruct (start_row <=? n)).
  assert (tag row1 = tag row_elem) as Ht
    by (unfold row1; by destruct (start_row <=? n)).
  apply for_each_mutate in H as (cs' & -> & Hlen & Hcs);
    [|apply findall_index_NoDup].
  split; [done|]. split; [by rewrite <- Hc|]. split.
  { exists n. split; [done|]. simpl. unfold row1.
    by destruct (start_row <=? n). }
  intros ci cell Hcell. rewrite <- Hc in Hcell.
  destruct (Hcs ci cell Hcell) as [Hin Hout].
  destruct (has_tag tag_c cell) eqn:Etag.
  - apply Hin, findall_index_elem. eauto.
  - apply Hout. rewrite findall_index_elem. intros (c & Hc' & Ht').
    congruence.
Qed.

Lemma map_result_keyed {K} (g : Element -> result K) (l : list Element)
    (rows : list nat) (keyed : list (K * nat)) :
  map_result
    (fun i => match l !! i with
              | Some node => k ← g node; Ok (k, i)
              | None => Err IndexError
              end) rows = Ok keyed ->
  keyed.*2 = rows.
Proof.
  revert keyed. induction rows as [|i rows IH]; intros keyed; simpl.
  - by intros [= <-].
  - intros (y & Hy & (ys & Hys & [= <-])%bind_Ok)%bind_Ok.
    rewrite fmap_cons, (IH ys Hys). f_equal.
    destruct (l !! i); [|done].
    by apply bind_Ok in Hy as (k & _ & [= <-]).
Qed.

(** The row loop of [shift_rows_in_sheet]. *)
Lemma shift_rows_loop (start_row delta : Z) (sheet_data sheet_data' : Element) :
  (let rows := findall_index tag_row sheet_data in
   keyed ←
     map_result
       (fun i =>
          match children sheet_data !! i with
          | Some node => k ← row_number_of node; Ok (k, i)
          | None => Err IndexError
          end) rows;
   let rows_sorted :=
     snd <$> py_sorted (fun a b => fst a <? fst b) (0 <? delta) keyed in
   for_each
     (fun sheet_data i =>
        mutate_child i (shift_row start_row delta) sheet_data)
     rows_sorted sheet_data) = Ok sheet_data' ->
  tag sheet_data' = tag sheet_data
  ∧ attrib sheet_data' = attrib sheet_data
  ∧ length (children sheet_data') = length (children sheet_data)
  ∧ ∀ ri row_elem,
      children sheet_data !! ri = Some row_elem ->
      if has_tag tag_row row_elem
      then ∃ row', shift_row start_row delta row_elem = Ok row'
                   ∧ children sheet_data' !! ri = Some row'
      else children sheet_data' !! ri = Some row_elem.
Proof.
  cbv zeta. intros (keyed & Hk & H)%bind_Ok.
  apply map_result_keyed in Hk.
  assert (snd <$> py_sorted (fun a b : Z * nat => a.1 <? b.1) (0 <? delta) keyed
          ≡ₚ findall_index tag_row sheet_data) as Hperm.
  { rewrite <- Hk. apply fmap_Permutation, py_sorted_perm. }
  apply for_each_mutate in H as (cs' & -> & Hlen & Hcs).
  2:{ rewrite Hperm. apply findall_index_NoDup. }
  split; [done|]. split; [done|]. split; [done|].
  intros ri row_elem Hrow. destruct (Hcs ri row_elem Hrow) as [Hin Hout].
  destruct (has_tag tag_row row_elem) eqn:Etag.
  - apply Hin. rewrite Hperm. apply findall_index_elem. eauto.
  - apply Hout. rewrite Hperm, findall_index_elem.
    intros (c & Hc' & Ht'). congruence.
Qed.

Lemma shift_ref_attr_tag (start_row delta : Z) (e : Element) :
  tag (shift_ref_attr start_row delta e) = tag e.
Proof. unfold shift_ref_attr. by destruct (get_attr "ref" e) as [[|]|]. Qed.

Lemma shift_ref_attr_ref (start_row delta : Z) (e : Element)
    (ref_text : string) :
  delta <> 0 ->
  get_attr "ref" e = Some ref_text ->
  get_attr "ref" (shift_ref_attr start_row delta e)
  = Some (insert_range_text start_row delta ref_text).
Proof.
  intros Hd He. unfold shift_ref_attr. rewrite He.
  destruct ref_text as [|c s]; [done|].
  rewrite shift_ref_rows_text by done.
  unfold get_attr, set_attr. cbn [attrib set_attrib].
  by rewrite lookup_insert_eq.
Qed.

Lemma foldl_update_tag (g : Element -> Element) (idxs : list nat)
    (e : Element) :
  tag (foldl (fun mc i => update_child i g mc) e idxs) = tag e.
Proof.
  revert e. induction idxs as [|i idxs IH]; intros e; [done|].
  simpl. rewrite IH. by rewrite update_child_set.
Qed.

End RowShift.

Section RowShiftSheet.
Import ET Text.

Lemma tag_sheetData_mergeCells : tag_sheetData <> tag_mergeCells.
Proof. apply String.eqb_neq. by vm_compute. Qed.
Lemma tag_sheetData_dimension : tag_sheetData <> tag_dimension.
Proof. apply String.eqb_neq. by vm_compute. Qed.
Lemma tag_mergeCells_dimension : tag_mergeCells <> tag_dimension.
Proof. apply String.eqb_neq. by vm_compute. Qed.

Lemma insert_range_text_empty (start_row delta : Z) :
  insert_range_text start_row delta "" = "".
Proof. done. Qed.

(** The three parts of a sheet after a row shift. *)
Lemma shift_rows_in_sheet_parts (sheet_root root' sheet_data : Element)
    (start_row delta : Z) :
  find tag_sheetData sheet_root = Some sheet_data ->
  delta <> 0 ->
  shift_rows_in_sheet sheet_root start_row delta = Ok root' ->
  (∃ sheet_data',
     find tag_sheetData root' = Some sheet_data'
     ∧ tag sheet_data' = tag sheet_data
     ∧ attrib sheet_data' = attrib sheet_data
     ∧ length (children sheet_data') = length (children sheet_data)
     ∧ ∀ ri row_elem,
         children sheet_data !! ri = Some row_elem ->
         if has_tag tag_row row_elem
         then ∃ row', shift_row start_row delta row_elem = Ok row'
                      ∧ children sheet_data' !! ri = Some row'
         else children sheet_data' !! ri = Some row_elem)
  ∧ find tag_mergeCells root'
    = (fun mcs =>
         set_children
           ((fun c => if has_tag tag_mergeCell c
                      then shift_ref_attr start_row delta c else c)
            <$> children mcs) mcs) <$> find tag_mergeCells sheet_root
  ∧ find tag_dimension root'
    = shift_ref_attr start_row delta <$> find tag_dimension sheet_root.
Proof.
  intros Hsd Hd H. unfold shift_rows_in_sheet in H.
  destruct (Z.eqb_spec delta 0); [done|].
  apply find_Some in Hsd as (sd & Hsdi & Hsdc & Hsdt). rewrite Hsdi in H.
  apply bind_Ok in H as (root1 & H1 & H). apply mutate_child_Ok in H1.
  rewrite Hsdc in H1. destruct H1 as (sheet_data' & HF & ->).
  apply shift_rows_loop in HF as (Htag & Hattr & Hlen & Hrows).
  cbv zeta in H. injection H as <-.
  assert (∀ c, tag (foldl (fun mc i =>
                             update_child i (shift_ref_attr start_row delta) mc)
                      c (findall_index tag_mergeCell c)) = tag c) as Hmt.
  { intros c. apply foldl_update_tag. }
  split; [|split].
  - exists sheet_data'. split; [|done].
    rewrite (find_update_first tag_dimension tag_sheetData)
      by apply shift_ref_attr_tag.
    rewrite (find_update_first tag_mergeCells tag_sheetData) by apply Hmt.
    rewrite (find_set_child tag_sheetData tag_sheetData sd sheet_data)
      by done.
    rewrite decide_True by reflexivity. cbn [fmap option_fmap option_map].
    rewrite decide_False by apply tag_sheetData_dimension.
    by rewrite decide_False by apply tag_sheetData_mergeCells.
  - rewrite (find_update_first tag_dimension tag_mergeCells)
      by apply shift_ref_attr_tag.
    rewrite (find_update_first tag_mergeCells tag_mergeCells) by apply Hmt.
    rewrite (find_set_child tag_sheetData tag_mergeCells sd sheet_data)
      by done.
    rewrite decide_False by (intros ?; by apply tag_sheetData_mergeCells).
    destruct (find tag_mergeCells sheet_root) as [mcs|]; [|reflexivity].
    cbn [fmap option_fmap option_map].
    rewrite (decide_True (P := tag_mergeCells = tag_mergeCells))
      by reflexivity.
    rewrite decide_False by apply tag_mergeCells_dimension.
    by rewrite foldl_update_findall.
  - rewrite (find_update_first tag_dimension tag_dimension)
      by apply shift_ref_attr_tag.
    rewrite (find_update_first tag_mergeCells tag_dimension) by apply Hmt.
    rewrite (find_set_child tag_sheetData tag_dimension sd sheet_data)
      by done.
    rewrite decide_False by (intros ?; by apply tag_sheetData_dimension).
    destruct (find tag_dimension sheet_root) as [dim|]; [|reflexivity].
    cbn [fmap option_fmap option_map].
    rewrite (decide_True (P := tag_dimension = tag_dimension))
      by reflexivity.
    rewrite decide_False; [done|].
    intros ?. by apply tag_mergeCells_dimension.
Qed.

(** A row shift keeps every child of the sheet at its place. *)
Lemma shift_rows_in_sheet_index (sheet_root root' : Element)
    (start_row delta : Z) (t : string) :
  shift_rows_in_sheet sheet_root start_row delta = Ok root' ->
  find_index t root' = find_index t sheet_root.
Proof.
  unfold shift_rows_in_sheet. destruct (delta =? 0); [by intros [= <-]|].
  destruct (find_index tag_sheetData sheet_root) as [sd|] eqn:Esd;
    [|by intros [= <-]].
  intros (root1 & H1 & H)%bind_Ok. apply mutate_child_Ok in H1.
  apply find_index_lookup in Esd as (sheet_data & Hsdc & _ & _).
  rewrite Hsdc in H1. destruct H1 as (sheet_data' & HF & ->).
  apply shift_rows_loop in HF as (Htag & _ & _ & _).
  cbv zeta in H. injection H as <-.
  rewrite find_index_update_first by apply shift_ref_attr_tag.
  rewrite find_index_update_first by (intros c; apply foldl_update_tag).
  by apply (find_index_set_child _ _ sheet_data).
Qed.

(** What a row shift does to the formulas, the merged ranges and the
    dimension of a sheet. *)
Lemma shift_rows_in_sheet_shifted (sheet_root root' : Element)
    (start_row delta : Z) :
  is_Some (find tag_sheetData sheet_root) ->
  delta <> 0 ->
  shift_rows_in_sheet sheet_root start_row delta = Ok root' ->
  rows_shifted start_row delta sheet_root root'.
Proof.
  intros [sheet_data Hsd] Hd H.
  destruct (shift_rows_in_sheet_parts _ _ _ _ _ Hsd Hd H)
    as ((sheet_data' & Hsd' & _ & _ & _ & Hrows) & Hmerge & Hdim).
  split; [|split].
  - intros ri ci row_elem cell t Hrow Htag Hcell Hctag Ht Hne.
    unfold sheet_row in Hrow. rewrite Hsd in Hrow. simpl in Hrow.
    specialize (Hrows ri row_elem Hrow). rewrite Htag in Hrows.
    destruct Hrows as (row' & Hshift & Hrow').
    apply shift_row_spec in Hshift as (_ & _ & _ & Hcells).
    specialize (Hcells ci cell Hcell). rewrite Hctag in Hcells.
    destruct Hcells as (cell' & Hcs & Hcell').
    apply shift_cell_spec in Hcs as [_ Hft].
    exists cell'. split.
    + unfold sheet_cell, sheet_row. rewrite Hsd'. simpl.
      rewrite Hrow'. done.
    + rewrite (Hft t Ht Hne).
      by rewrite shift_formula_for_row_insert_tokens.
  - intros i mc ref_text Hmc Htag Href. unfold merged_range in *.
    rewrite Hmerge.
    destruct (find tag_mergeCells sheet_root) as [mcs|]; [|done].
    simpl in *. rewrite list_lookup_fmap, Hmc. simpl. rewrite Htag.
    eexists. split; [done|]. by apply shift_ref_attr_ref.
  - intros dim ref_text Hdim' Href. rewrite Hdim, Hdim'. simpl.
    eexists. split; [done|]. by apply shift_ref_attr_ref.
Qed.




End RowShiftSheet.

(** ** Cloning a row *)

Section FirstChild.
Import ET.

Lemma find_head (t : string) (e : Element) : find t e = head (findall t e).
Proof.
  unfold find, find_index, findall.
  induction (children e) as [|x l IH]; [done|]. simpl.
  destruct (has_tag t x) eqn:E.
  - by rewrite filter_cons_True by done.
  - rewrite filter_cons_False by congruence. rewrite <- IH.
    by destruct (index_where (has_tag t) l).
Qed.

Lemma filter_delete_first {A} (p : A -> bool) (l : list A) (i : nat) :
  index_where p l = Some i ->
  filter (fun x => p x = true) (delete i l)
  = drop 1 (filter (fun x => p x = true) l).
Proof.
  revert i. induction l as [|x l IH]; intros i; simpl; [done|].
  destruct (p x) eqn:E.
  - intros [= <-]. by rewrite filter_cons_True by done.
  - destruct (index_where p l) as [j|]; [|done]. intros [= <-].
    cbn [delete list_delete]. rewrite !filter_cons_False by congruence.
    by apply IH.
Qed.

Lemma filter_delete_other {A} (q : A -> bool) (l : list A) (i : nat)
    (x : A) :
  l !! i = Some x -> q x = false ->
  filter (fun x => q x = true) (delete i l) = filter (fun x => q x = true) l.
Proof.
  revert i. induction l as [|y l IH]; intros [|i]; simpl; try done.
  - intros [= ->] Hq. by rewrite filter_cons_False by congruence.
  - intros Hi Hq. cbn [delete list_delete].
    destruct (q y) eqn:E.
    + rewrite !filter_cons_True by done. f_equal. by eapply IH.
    + rewrite !filter_cons_False by congruence. by eapply IH.
Qed.

Lemma filter_alter_other {A} (q : A -> bool) (g : A -> A) (l : list A)
    (i : nat) :
  (∀ x, l !! i = Some x -> q x = false ∧ q (g x) = false) ->
  filter (fun x => q x = true) (alter g i l) = filter (fun x => q x = true) l.
Proof.
  revert i. induction l as [|y l IH]; intros [|i] H; try done.
  - destruct (H y eq_refl) as [H1 H2]. cbn [alter list_alter].
    by rewrite !filter_cons_False by congruence.
  - cbn [alter list_alter]. change (list_alter g i l) with (alter g i l).
    destruct (q y) eqn:E.
    + rewrite !filter_cons_True by done. f_equal. by apply IH.
    + rewrite !filter_cons_False by congruence. by apply IH.
Qed.

Lemma index_where_filter_nil {A} (p : A -> bool) (l : list A) :
  index_where p l = None -> filter (fun x => p x = true) l = [].
Proof.
  induction l as [|x l IH]; simpl; [done|].
  destruct (p x) eqn:E; [done|].
  destruct (index_where p l); [done|]. intros _.
  rewrite filter_cons_False by congruence. by apply IH.
Qed.

End FirstChild.

Section RowClone.
Import ET Text.

Lemma tag_f_v : tag_f <> tag_v.
Proof. apply String.eqb_neq. by vm_compute. Qed.

Lemma has_tag_other (t t' : string) (c : Element) :
  t <> t' -> has_tag t c = true -> has_tag t' c = false.
Proof.
  intros Hne Ht. destruct (has_tag t' c) eqn:E; [|done].
  destruct Hne. by eapply has_tag_inj.
Qed.

Lemma clone_formula_tag (delta : Z) (formula : Element) :
  tag (clone_formula delta formula) = tag formula.
Proof. unfold clone_formula. by destruct (text formula) as [[|]|]. Qed.

Lemma shift_formula_for_row_copy_text (t : string) (delta : Z) :
  t <> "" ->
  shift_formula_for_row_copy t delta
  = if delta =? 0 then t
    else render_tokens (copy_token delta <$> formula_tokens t).
Proof.
  intros Ht. destruct (Z.eqb_spec delta 0) as [->|Hd].
  - by destruct t.
  - by apply shift_formula_for_row_copy_tokens.
Qed.

Lemma clone_formula_spec (delta : Z) (formula : Element) :
  match text formula with
  | Some (String _ _ as t) =>
      text (clone_formula delta formula)
      = Some (if delta =? 0 then t
              else render_tokens (copy_token delta <$> formula_tokens t))
      ∧ get_attr "ref" (clone_formula delta formula) = None
  | _ => clone_formula delta formula = formula
  end.
Proof.
  unfold clone_formula. destruct (text formula) as [[|c t]|]; [done| |done].
  split.
  - cbn [text pop_attr set_attrib set_text].
    by rewrite shift_formula_for_row_copy_text.
  - unfold get_attr, pop_attr. cbn [attrib set_attrib set_text].
    apply lookup_delete_eq.
Qed.

Lemma clone_renumber_Ok (target_row : Z) (cell cell1 : Element) :
  match get_attr "r" cell with
  | Some (String _ _ as ref) =>
      '(col, _) ← parse_cell_ref ref;
      Ok (set_attr "r" (col +:+ str target_row) cell)
  | _ => Ok cell
  end = Ok cell1 ->
  tag cell1 = tag cell ∧ children cell1 = children cell.
Proof.
  destruct (get_attr "r" cell) as [[|c s]|]; try by intros [= <-].
  intros ([col row] & _ & H)%bind_Ok. simpl in H. by injection H as <-.
Qed.

Lemma clone_cell_spec (target_row delta : Z) (cell cell' : Element) :
  clone_cell target_row delta cell = Ok cell' ->
  tag cell' = tag cell
  ∧ ∀ formula,
      find tag_f cell = Some formula ->
      find tag_f cell' = Some (clone_formula delta formula)
      ∧ findall tag_v cell' = drop 1 (findall tag_v cell).
Proof.
  unfold clone_cell. intros (cell1 & H1 & H)%bind_Ok.
  apply clone_renumber_Ok in H1 as [Ht Hc]. cbv zeta in H.
  assert (∀ t', find t' cell1 = find t' cell) as Hf.
  { intros t'. unfold find, find_index. by rewrite Hc. }
  assert (findall tag_v cell1 = findall tag_v cell) as Hv.
  { unfold findall. by rewrite Hc. }
  set (cell2 := match find_index tag_f cell1 with
                | Some fi => update_child fi (clone_formula delta) cell1
                | None => cell1
                end) in H.
  assert (find tag_f cell2 = clone_formula delta <$> find tag_f cell) as Hf2.
  { unfold cell2. rewrite find_update_first by apply clone_formula_tag.
    rewrite Hf. destruct (find tag_f cell); [|reflexivity].
    cbn [fmap option_fmap option_map].
    by rewrite decide_True by reflexivity. }
  assert (findall tag_v cell2 = findall tag_v cell) as Hv2.
  { rewrite <- Hv. unfold cell2.
    destruct (find_index tag_f cell1) as [fi|] eqn:Efi; [|done].
    unfold findall. rewrite update_child_children.
    apply filter_alter_other. intros x Hx.
    apply find_index_lookup in Efi as (c & Hc' & Htag & _).
    assert (x = c) as -> by congruence.
    split; [by apply (has_tag_other tag_f); [apply tag_f_v|]|].
    apply (has_tag_other tag_f); [apply tag_f_v|].
    by rewrite (has_tag_eq _ c) by apply clone_formula_tag. }
  assert (tag cell2 = tag cell) as Ht2.
  { unfold cell2. destruct (find_index tag_f cell1); [|done].
    by rewrite update_child_set. }
  destruct (find_index tag_f cell1) as [fi|] eqn:Efi.
  - destruct (find_index tag_v cell2) as [vi|] eqn:Evi.
    + injection H as <-. split; [done|]. intros formula Hformula.
      rewrite Hformula in Hf2. cbn [fmap option_fmap option_map] in Hf2.
      split.
      * rewrite find_head. unfold findall, remove_child.
        cbn [children set_children].
        apply find_index_lookup in Evi as (v & Hv' & Htag & _).
        rewrite (filter_delete_other _ _ _ v Hv').
        2:{ apply (has_tag_other tag_v); [|done].
            intros ?. by apply tag_f_v. }
        by rewrite <- Hf2, find_head.
      * rewrite <- Hv2. unfold findall, remove_child.
        cbn [children set_children]. by apply filter_delete_first.
    + injection H as <-. split; [done|]. intros formula Hformula.
      rewrite Hformula in Hf2. cbn [fmap option_fmap option_map] in Hf2.
      split; [done|].
      rewrite <- Hv2. unfold findall.
      by rewrite (index_where_filter_nil _ _ Evi).
  - injection H as <-. split; [done|]. intros formula Hformula.
    rewrite <- Hf in Hformula. unfold find in Hformula.
    by rewrite Efi in Hformula.
Qed.

Lemma insert_row_in_order_Ok (sheet_data row_elem sheet_data' : Element) :
  insert_row_in_order sheet_data row_elem = Ok sheet_data' ->
  ∃ pos, (pos <= length (children sheet_data))%nat
         ∧ sheet_data'
           = set_children (take pos (children sheet_data)
                           ++ row_elem :: drop pos (children sheet_data))
               sheet_data.
Proof.
  unfold insert_row_in_order.
  intros (target & _ & (pos & Hpos & H)%bind_Ok)%bind_Ok.
  destruct pos as [i|]; injection H as <-.
  - destruct (decide (i <= length (children sheet_data))%nat) as [Hi|Hi].
    + by exists i.
    + exists (length (children sheet_data)). split; [done|].
      unfold insert_child. f_equal.
      rewrite !take_ge, !drop_ge by lia. done.
  - exists (length (children sheet_data)). split; [done|].
    unfold append_child. by rewrite take_ge, drop_ge by lia.
Qed.

(** What [clone_template_row] puts into the sheet data. *)
Lemma clone_template_row_spec
    (sheet_data template_row sheet_data' : Element)
    (target_row source_row : Z) :
  row_number_of template_row = Ok source_row ->
  clone_template_row sheet_data template_row target_row = Ok sheet_data' ->
  ∃ pos row_clone,
    (pos <= length (children sheet_data))%nat
    ∧ sheet_data'
      = set_children (take pos (children sheet_data)
                      ++ row_clone :: drop pos (children sheet_data))
          sheet_data
    ∧ tag row_clone = tag template_row
    ∧ row_cloned target_row (target_row - source_row) template_row row_clone.
Proof.
  intros Hsrc. unfold clone_template_row. rewrite Hsrc. simpl.
  intros (row_clone & Hloop & Hins)%bind_Ok.
  apply insert_row_in_order_Ok in Hins as (pos & Hpos & ->).
  exists pos, row_clone. split; [done|]. split; [done|].
  apply for_each_mutate in Hloop as (cs' & -> & Hlen & Hcs);
    [|apply findall_index_NoDup].
  split; [done|]. split; [|split].
  - unfold get_attr, set_attr. cbn [attrib set_attrib set_children].
    apply lookup_insert_eq.
  - done.
  - intros ci cell Hcell Htag.
    destruct (Hcs ci cell Hcell) as [Hin _].
    destruct Hin as (cell' & Hclone & Hcell').
    { apply findall_index_elem. eauto. }
    exists cell'. split; [done|]. intros formula Hformula.
    apply clone_cell_spec in Hclone as [_ Hclone].
    destruct (Hclone formula Hformula) as [Hf Hv]. split; [done|].
    exists (clone_formula (target_row - source_row) formula).
    split; [done|]. apply clone_formula_spec.
Qed.




End RowClone.

(** ** Numbers as text *)

Section NumberText.
Import Text.

Lemma string_of_uint_nonempty (d : Decimal.uint) :
  d <> Decimal.Nil -> NilEmpty.string_of_uint d <> "".
Proof. by destruct d. Qed.

Lemma digits_value_string_of_uint (d : Decimal.uint) :
  d <> Decimal.Nil ->
  digits_value (NilEmpty.string_of_uint d) = Some (Z.of_uint d).
Proof.
  intros Hd. unfold digits_value. rewrite NilEmpty.usu.
  by destruct d.
Qed.

Lemma py_int_digits (d : Decimal.uint) :
  d <> Decimal.Nil ->
  py_int (NilEmpty.string_of_uint d) = Ok (Z.of_uint d).
Proof.
  intros Hd. pose proof (digits_value_string_of_uint d Hd) as H.
  destruct d; try done; unfold py_int; cbn [NilEmpty.string_of_uint] in *;
    by rewrite H.
Qed.

Lemma pos_to_uint_not_nil (p : positive) : Pos.to_uint p <> Decimal.Nil.
Proof.
  intros H. pose proof (DecimalPos.Unsigned.of_to p) as Hp.
  rewrite H in Hp. done.
Qed.

Lemma of_uint_to_uint (p : positive) : Z.of_uint (Pos.to_uint p) = Z.pos p.
Proof.
  unfold Z.of_uint. by rewrite DecimalPos.Unsigned.of_to.
Qed.

(** [int(str(n)) = n] *)
Lemma py_int_str (n : Z) : py_int (str n) = Ok n.
Proof.
  unfold str. destruct n as [|p|p]; [done| |].
  - cbn [Z.to_int NilZero.string_of_int]. unfold NilZero.string_of_uint.
    pose proof (pos_to_uint_not_nil p) as Hp.
    pose proof (py_int_digits _ Hp) as H. rewrite of_uint_to_uint in H.
    by destruct (Pos.to_uint p).
  - cbn [Z.to_int NilZero.string_of_int]. unfold NilZero.string_of_uint.
    pose proof (pos_to_uint_not_nil p) as Hp.
    pose proof (digits_value_string_of_uint _ Hp) as H.
    rewrite of_uint_to_uint in H.
    unfold py_int. destruct (Pos.to_uint p); try done; by rewrite H.
Qed.

End NumberText.

(** ** The first element that passes a test *)

Section FirstWhere.
Import ET.
Context {A : Type}.
Implicit Types (p : A -> bool) (l : list A).

Lemma first_where_head p l :
  first_where p l = head (filter (fun x => p x = true) l).
Proof.
  unfold first_where. induction l as [|x l IH]; [done|]. simpl.
  destruct (p x) eqn:E.
  - by rewrite filter_cons_True by done.
  - rewrite filter_cons_False by congruence. rewrite <- IH.
    by destruct (index_where p l).
Qed.

Lemma index_where_app_hit p l1 x l2 :
  (∀ y, y ∈ l1 -> p y = false) -> p x = true ->
  index_where p (l1 ++ x :: l2) = Some (length l1).
Proof.
  intros H Hx. induction l1 as [|y l1 IH]; simpl.
  - by rewrite Hx.
  - rewrite (H y) by by left. rewrite IH; [done|].
    intros z Hz. apply H. by right.
Qed.

Lemma first_where_insert_miss p l x (n : nat) :
  p x = false ->
  first_where p (take n l ++ x :: drop n l) = first_where p l.
Proof.
  intros Hx. rewrite !first_where_head, filter_app.
  rewrite filter_cons_False by congruence.
  by rewrite <- filter_app, take_drop.
Qed.

Lemma first_where_alter_hit p (g : A -> A) l (i : nat) x :
  index_where p l = Some i -> l !! i = Some x -> p (g x) = true ->
  first_where p (alter g i l) = Some (g x).
Proof.
  intros Hi Hx Hg. unfold first_where.
  rewrite index_where_alter.
  2:{ intros y Hy. assert (y = x) as -> by congruence.
      apply index_where_Some in Hi as (z & Hz & Hp & _).
      assert (z = x) as -> by congruence. congruence. }
  rewrite Hi. simpl. by rewrite list_lookup_alter_eq, Hx.
Qed.

Lemma first_where_alter_miss p (g : A -> A) l (i : nat) :
  (∀ x, l !! i = Some x -> p x = false ∧ p (g x) = false) ->
  first_where p (alter g i l) = first_where p l.
Proof.
  intros H. rewrite !first_where_head. f_equal.
  by apply filter_alter_other.
Qed.

Lemma first_where_None p l :
  index_where p l = None -> first_where p l = None.
Proof. unfold first_where. by intros ->. Qed.

Lemma first_where_Some p l (i : nat) :
  index_where p l = Some i -> first_where p l = l !! i.
Proof. unfold first_where. by intros ->. Qed.

End FirstWhere.

(** ** Rows and cells by number and reference *)

Section Access.
Import ET Text.

Lemma has_tag_refl (t : string) (a : gmap string string) :
  has_tag t (new_element t a) = true.
Proof. unfold has_tag. simpl. apply String.eqb_refl. Qed.

Lemma is_row_new (r : Z) :
  is_row r (new_element tag_row {[ "r" := str r ]}) = true.
Proof.
  unfold is_row. rewrite has_tag_refl. simpl.
  unfold row_number_of, get_attr_default. cbn [attrib new_element].
  rewrite lookup_singleton_eq. simpl. rewrite py_int_str.
  apply Z.eqb_refl.
Qed.

Lemma is_row_other (r r' : Z) (c : Element) :
  is_row r c = true -> r' <> r -> is_row r' c = false.
Proof.
  unfold is_row. intros [Ht Hn]%andb_true_iff Hne. rewrite Ht. simpl.
  destruct (row_number_of c) as [n|]; [|done].
  apply Z.eqb_eq in Hn as ->. by apply Z.eqb_neq.
Qed.

Lemma is_row_number (r : Z) (c : Element) :
  is_row r c = true -> has_tag tag_row c = true ∧ row_number_of c = Ok r.
Proof.
  unfold is_row. intros [Ht Hn]%andb_true_iff. split; [done|].
  destruct (row_number_of c) as [n|]; [|done].
  by apply Z.eqb_eq in Hn as ->.
Qed.

Lemma is_row_same (r : Z) (c c' : Element) :
  tag c' = tag c -> attrib c' = attrib c -> is_row r c' = is_row r c.
Proof.
  intros Ht Ha. unfold is_row, row_number_of, get_attr_default, has_tag.
  by rewrite Ht, Ha.
Qed.

Lemma find_row_index_Some (r : Z) (cs : list Element) :
  ∀ k i, find_row_index r cs k = Ok (Some i) ->
         ∃ j, i = (k + j)%nat ∧ index_where (is_row r) cs = Some j.
Proof.
  induction cs as [|c cs IH]; intros k i; simpl; [done|].
  unfold is_row at 1. destruct (has_tag tag_row c); simpl.
  - intros (n & Hn & H)%bind_Ok. rewrite Hn.
    destruct (n =? r).
    + injection H as <-. exists O. split; [lia|done].
    + apply IH in H as (j & -> & ->). exists (S j). split; [lia|done].
  - intros (j & -> & ->)%IH. exists (S j). split; [lia|done].
Qed.

Lemma find_row_index_None (r : Z) (cs : list Element) :
  ∀ k, find_row_index r cs k = Ok None -> index_where (is_row r) cs = None.
Proof.
  induction cs as [|c cs IH]; intros k; simpl; [done|].
  unfold is_row at 1. destruct (has_tag tag_row c); simpl.
  - intros (n & Hn & H)%bind_Ok. rewrite Hn.
    destruct (n =? r); [done|]. by rewrite (IH _ H).
  - intros H. by rewrite (IH _ H).
Qed.

Lemma new_row_position_bound (r : Z) (cs : list Element) :
  ∀ k i, new_row_position r cs k = Some i -> (i < k + length cs)%nat.
Proof.
  induction cs as [|c cs IH]; intros k i; simpl; [done|].
  destruct (negb (has_tag tag_row c)).
  - intros ?%IH. lia.
  - destruct (row_number_of c) as [n|].
    + destruct (r <? n); [intros [= <-]; lia|]. intros ?%IH. lia.
    + intros ?%IH. lia.
Qed.

(** [get_or_create_row]: the row is the first with its number in the
    sheet data returned, which is the sheet data given, or the sheet
    data given with one new, empty row put in, when it had no row with
    the number. *)
Lemma get_or_create_row_spec (sheet_data sheet_data1 : Element) (r : Z)
    (ri : nat) :
  get_or_create_row sheet_data r = Ok (sheet_data1, ri) ->
  index_where (is_row r) (children sheet_data1) = Some ri
  ∧ (sheet_data1 = sheet_data
     ∨ index_where (is_row r) (children sheet_data) = None
       ∧ (ri <= length (children sheet_data))%nat
       ∧ sheet_data1
         = set_children
             (take ri (children sheet_data)
              ++ new_element tag_row {[ "r" := str r ]}
                 :: drop ri (children sheet_data)) sheet_data).
Proof.
  unfold get_or_create_row. intros ([i|] & Hfound & H)%bind_Ok.
  - injection H as <- <-.
    apply find_row_index_Some in Hfound as (j & -> & Hj). auto.
  - apply find_row_index_None in Hfound.
    assert (∀ pos, (pos <= length (children sheet_data))%nat ->
              index_where (is_row r)
                (take pos (children sheet_data)
                 ++ new_element tag_row {[ "r" := str r ]}
                    :: drop pos (children sheet_data)) = Some pos) as Hpos.
    { intros pos Hle.
      rewrite index_where_app_hit; [by rewrite length_take_le| |].
      - intros y Hy%subseteq_take. by eapply index_where_None.
      - apply is_row_new. }
    destruct (new_row_position r (children sheet_data) 0) as [pos|] eqn:E;
      injection H as <- <-.
    + apply new_row_position_bound in E.
      split; [apply Hpos; lia|]. right. split; [done|]. split; [lia|done].
    + split.
      * unfold append_child. cbn [children set_children].
        rewrite <- (Hpos (length (children sheet_data))) by done.
        by rewrite take_ge, drop_ge by lia.
      * right. split; [done|]. split; [done|]. unfold append_child.
        by rewrite take_ge, drop_ge by lia.
Qed.

Lemma get_or_create_row_other (sheet_data sheet_data1 : Element) (r r' : Z)
    (ri : nat) :
  get_or_create_row sheet_data r = Ok (sheet_data1, ri) -> r' <> r ->
  row_at sheet_data1 r' = row_at sheet_data r'.
Proof.
  intros [_ [->|(_ & _ & ->)]]%get_or_create_row_spec Hne; [done|].
  unfold row_at. cbn [children set_children].
  apply first_where_insert_miss.
  apply (is_row_other r); [apply is_row_new|done].
Qed.

Lemma get_or_create_row_tag (sheet_data sheet_data1 : Element) (r : Z)
    (ri : nat) :
  get_or_create_row sheet_data r = Ok (sheet_data1, ri) ->
  tag sheet_data1 = tag sheet_data ∧ attrib sheet_data1 = attrib sheet_data.
Proof. by intros [_ [->|(_ & _ & ->)]]%get_or_create_row_spec. Qed.

(** *** Cells *)

Lemma is_cell_new (ref : string) :
  is_cell ref (new_element tag_c {[ "r" := ref ]}) = true.
Proof.
  unfold is_cell. rewrite has_tag_refl. simpl.
  apply bool_decide_eq_true. unfold get_attr. cbn [attrib new_element].
  apply lookup_singleton_eq.
Qed.

Lemma is_cell_other (ref ref' : string) (c : Element) :
  is_cell ref c = true -> ref' <> ref -> is_cell ref' c = false.
Proof.
  unfold is_cell. intros [Ht Hr%bool_decide_eq_true]%andb_true_iff Hne.
  rewrite Ht. simpl. apply bool_decide_eq_false. congruence.
Qed.

Lemma is_cell_same (ref : string) (c c' : Element) :
  tag c' = tag c -> get_attr "r" c' = get_attr "r" c ->
  is_cell ref c' = is_cell ref c.
Proof. intros Ht Ha. unfold is_cell, has_tag. by rewrite Ht, Ha. Qed.

Lemma cell_insert_position_bound (target : Z) (cs : list Element) :
  ∀ k i, cell_insert_position target cs k = Some i -> (i < k + length cs)%nat.
Proof.
  induction cs as [|c cs IH]; intros k i; simpl; [done|].
  destruct (negb (has_tag tag_c c)).
  - intros ?%IH. lia.
  - destruct (Re.fullmatch CELL_REF_RE _) as [[|col gs]|].
    + intros ?%IH. lia.
    + destruct (target <? column_index col); [intros [= <-]; lia|].
      intros ?%IH. lia.
    + intros ?%IH. lia.
Qed.

(** [find_or_create_cell]: the cell is the first with its reference in
    the row returned, which is the row given, or the row given with one
    new, empty cell put in, when it had no cell with the reference. *)
Lemma find_or_create_cell_spec (row_elem row1 : Element)
    (target_ref column : string) (ci : nat) :
  find_or_create_cell row_elem target_ref column = (row1, ci) ->
  index_where (is_cell target_ref) (children row1) = Some ci
  ∧ (row1 = row_elem
     ∨ index_where (is_cell target_ref) (children row_elem) = None
       ∧ (ci <= length (children row_elem))%nat
       ∧ row1
         = set_children
             (take ci (children row_elem)
              ++ new_element tag_c {[ "r" := target_ref ]}
                 :: drop ci (children row_elem)) row_elem).
Proof.
  unfold find_or_create_cell, find_cell_index.
  change (fun cell : Element =>
            has_tag tag_c cell
            && bool_decide (get_attr "r" cell = Some target_ref))
    with (is_cell target_ref).
  destruct (index_where (is_cell target_ref) (children row_elem)) as [i|]
    eqn:Efound.
  - intros [= <- <-]. auto.
  - assert (∀ pos, (pos <= length (children row_elem))%nat ->
              index_where (is_cell target_ref)
                (take pos (children row_elem)
                 ++ new_element tag_c {[ "r" := target_ref ]}
                    :: drop pos (children row_elem)) = Some pos) as Hpos.
    { intros pos Hle.
      rewrite index_where_app_hit; [by rewrite length_take_le| |].
      - intros y Hy%subseteq_take. by eapply index_where_None.
      - apply is_cell_new. }
    unfold insert_cell_in_order.
    destruct (cell_insert_position _ _ _) as [pos|] eqn:E;
      intros [= <- <-].
    + apply cell_insert_position_bound in E.
      split; [apply Hpos; lia|]. right. split; [done|]. split; [lia|done].
    + split.
      * unfold append_child. cbn [children set_children].
        rewrite <- (Hpos (length (children row_elem))) by done.
        by rewrite take_ge, drop_ge by lia.
      * right. split; [done|]. split; [done|]. unfold append_child.
        by rewrite take_ge, drop_ge by lia.
Qed.

End Access.

(** ** Writing a formula *)

Section FormulaWrite.
Import ET Text.

Lemma filter_formula_cleared (cs : list Element) :
  filter (fun c => has_tag tag_f c = true)
    (filter (fun c => is_content_tag c = false) cs) = [].
Proof.
  induction cs as [|c cs IH]; [done|].
  destruct (is_content_tag c) eqn:E.
  - by rewrite (filter_cons_False _ c) by congruence.
  - rewrite (filter_cons_True _ c) by done.
    rewrite filter_cons_False; [done|].
    unfold is_content_tag in E.
    apply orb_false_iff in E as [[_ E]%orb_false_iff _]. congruence.
Qed.

Lemma write_formula_spec (cell_type : option string) (formula : string)
    (cell : Element) :
  tag (write_formula cell_type formula cell) = tag cell
  ∧ get_attr "r" (write_formula cell_type formula cell) = get_attr "r" cell
  ∧ formula_text (write_formula cell_type formula cell) = Some formula.
Proof.
  unfold write_formula. split; [|split].
  - by destruct cell_type as [[|]|].
  - unfold get_attr, append_child, clear_content.
    cbn [attrib set_children].
    destruct cell_type as [[|]|]; unfold pop_attr, set_attr;
      cbn [attrib set_attrib];
      by rewrite ?lookup_delete_ne, ?lookup_insert_ne by done.
  - unfold formula_text. rewrite find_head. unfold findall, append_child.
    cbn [children set_children]. unfold clear_content.
    cbn [children set_children].
    rewrite filter_app, filter_formula_cleared.
    rewrite filter_cons_True by (apply has_tag_refl). done.
Qed.

Lemma append_inj_r (a b s : string) : a +:+ s = b +:+ s -> a = b.
Proof.
  revert b. induction a as [|x a IH]; intros [|y b] H; try done.
  - exfalso. apply (f_equal String.length) in H.
    rewrite !length_app in H. simpl in H. lia.
  - exfalso. apply (f_equal String.length) in H.
    rewrite !length_app in H. simpl in H. lia.
  - simpl in H. injection H as -> H. f_equal. by apply IH.
Qed.

(** What [set_formula_in_row] does to a row: the cell of the column
    holds the formula, the other cells are as they were. *)
Lemma set_formula_in_row_spec (r : Z) (column formula : string)
    (cell_type : option string) (row_elem : Element) :
  let row' := set_formula_in_row r column formula cell_type row_elem in
  tag row' = tag row_elem
  ∧ attrib row' = attrib row_elem
  ∧ cell_at row' (column +:+ str r) ≫= formula_text = Some formula
  ∧ ∀ ref', ref' <> column +:+ str r ->
            cell_at row' ref' = cell_at row_elem ref'.
Proof.
  cbv zeta. unfold set_formula_in_row.
  destruct (find_or_create_cell row_elem (column +:+ str r) column)
    as [row1 ci] eqn:E.
  apply find_or_create_cell_spec in E as [Hci Hrow1].
  destruct (index_where_Some _ _ _ Hci) as (cell & Hcell & Hp & _).
  destruct (write_formula_spec cell_type formula cell) as (Wt & Wr & Wf).
  assert (tag row1 = tag row_elem ∧ attrib row1 = attrib row_elem) as [Ht Ha].
  { by destruct Hrow1 as [->|(_ & _ & ->)]. }
  rewrite update_child_set. cbn [tag attrib set_children].
  split; [done|]. split; [done|]. split.
  - unfold cell_at. cbn [children set_children].
    rewrite (first_where_alter_hit _ _ _ _ cell Hci Hcell).
    + done.
    + by rewrite (is_cell_same _ cell (write_formula _ _ cell)).
  - intros ref' Hne. unfold cell_at. cbn [children set_children].
    rewrite first_where_alter_miss.
    2:{ intros x Hx. assert (x = cell) as -> by congruence.
        rewrite (is_cell_same ref' cell (write_formula _ _ cell)) by done.
        split; by apply (is_cell_other (column +:+ str r)). }
    destruct Hrow1 as [->|(_ & _ & ->)]; [done|].
    cbn [children set_children]. apply first_where_insert_miss.
    apply (is_cell_other (column +:+ str r)); [apply is_cell_new|done].
Qed.

Lemma set_formula_cell_tag (sheet_data sheet_data' : Element) (r : Z)
    (column formula : string) (cell_type : option string) :
  set_formula_cell sheet_data r column formula cell_type = Ok sheet_data' ->
  tag sheet_data' = tag sheet_data ∧ attrib sheet_data' = attrib sheet_data.
Proof.
  unfold set_formula_cell. intros ([sd1 ri] & Hrow & [= <-])%bind_Ok.
  apply get_or_create_row_tag in Hrow as [Ht Ha].
  by rewrite update_child_set.
Qed.

(** After [set_formula_cell] the cell holds the formula. *)
Lemma set_formula_cell_read (sheet_data sheet_data' : Element) (r : Z)
    (column formula : string) (cell_type : option string) :
  set_formula_cell sheet_data r column formula cell_type = Ok sheet_data' ->
  formula_at sheet_data' r column = Some formula.
Proof.
  unfold set_formula_cell. intros ([sd1 ri] & Hrow & [= <-])%bind_Ok.
  apply get_or_create_row_spec in Hrow as [Hri _].
  destruct (index_where_Some _ _ _ Hri) as (row_elem & Hrow & Hp & _).
  destruct (set_formula_in_row_spec r column formula cell_type row_elem)
    as (Ht & Ha & Hread & _).
  unfold formula_at, row_at. rewrite update_child_children.
  rewrite (first_where_alter_hit _ _ _ _ row_elem Hri Hrow).
  - simpl. simpl in Hread. done.
  - by rewrite (is_row_same _ row_elem (set_formula_in_row _ _ _ _ row_elem)).
Qed.

(** [set_formula_cell] leaves the other cells as they were. *)
Lemma set_formula_cell_frame (sheet_data sheet_data' : Element) (r r' : Z)
    (column column' formula : string) (cell_type : option string) :
  set_formula_cell sheet_data r column formula cell_type = Ok sheet_data' ->
  r' <> r ∨ column' <> column ->
  formula_at sheet_data' r' column' = formula_at sheet_data r' column'.
Proof.
  unfold set_formula_cell. intros ([sd1 ri] & Hget & [= <-])%bind_Ok Hne.
  pose proof (get_or_create_row_spec _ _ _ _ Hget) as [Hri Hsd1].
  destruct (index_where_Some _ _ _ Hri) as (row_elem & Hrow & Hp & _).
  destruct (set_formula_in_row_spec r column formula cell_type row_elem)
    as (Ht & Ha & _ & Hframe).
  destruct (decide (r' = r)) as [->|Hr].
  - destruct Hne as [?|Hcol]; [done|].
    unfold formula_at, row_at. rewrite update_child_children.
    rewrite (first_where_alter_hit _ _ _ _ row_elem Hri Hrow)
      by by rewrite (is_row_same _ row_elem
                       (set_formula_in_row _ _ _ _ row_elem)).
    cbn [mbind option_bind]. rewrite Hframe.
    2:{ intros ?%append_inj_r. done. }
    destruct Hsd1 as [->|(Hnone & Hle & ->)].
    + by rewrite (first_where_Some _ _ _ Hri), Hrow.
    + rewrite (first_where_None _ _ Hnone).
      cbn [children set_children] in Hrow.
      rewrite lookup_app_r in Hrow by (rewrite length_take_le; lia).
      rewrite length_take_le, Nat.sub_diag in Hrow by lia.
      by injection Hrow as <-.
  - unfold formula_at. f_equal.
    rewrite <- (get_or_create_row_other _ _ _ _ _ Hget Hr).
    unfold row_at. rewrite update_child_children.
    apply first_where_alter_miss. intros x Hx.
    assert (x = row_elem) as -> by congruence.
    rewrite (is_row_same r' row_elem (set_formula_in_row _ _ _ _ row_elem))
      by done.
    split; by apply (is_row_other r).
Qed.

End FormulaWrite.

(** ** Lists of writes *)

Section Writes.
Import ET Text.

Lemma bind_ret_r {A} (m : result A) : m ≫= Ok = m.
Proof. by destruct m. Qed.

(** After a list of writes a cell holds the last formula written to it,
    or what it held before when none was. *)
Lemma apply_writes_last (ws : list (Z * string * string)) :
  ∀ sheet_data sheet_data',
    apply_writes ws sheet_data = Ok sheet_data' ->
    ∀ r column,
      formula_at sheet_data' r column
      = match last_write ws r column with
        | Some f => Some f
        | None => formula_at sheet_data r column
        end.
Proof.
  induction ws as [|[[r' column'] f] ws IH]; intros sd sd' H r column.
  - by injection H as <-.
  - unfold apply_writes in H. cbn [for_each] in H.
    apply bind_Ok in H as (sd1 & H1 & H).
    rewrite (IH sd1 sd' H r column). cbn [last_write].
    destruct (last_write ws r column); [done|].
    destruct (String.eqb_spec column' column) as [->|Hc]; cbn [andb].
    + destruct (Z.eqb_spec r' r) as [->|Hr].
      * by eapply set_formula_cell_read.
      * eapply set_formula_cell_frame; [done|]. left. congruence.
    + eapply set_formula_cell_frame; [done|]. right. congruence.
Qed.

Lemma apply_writes_app (ws1 ws2 : list (Z * string * string))
    (sheet_data : Element) :
  apply_writes (ws1 ++ ws2) sheet_data
  = apply_writes ws1 sheet_data ≫= apply_writes ws2.
Proof.
  revert sheet_data. induction ws1 as [|w ws1 IH]; intros sd; [done|].
  unfold apply_writes in *. cbn [for_each app].
  destruct (let '(r, column, formula) := w in sfc sd r column formula);
    [|done].
  apply IH.
Qed.

Lemma apply_writes_tag (ws : list (Z * string * string)) :
  ∀ sheet_data sheet_data',
    apply_writes ws sheet_data = Ok sheet_data' ->
    tag sheet_data' = tag sheet_data.
Proof.
  induction ws as [|[[r' column'] f] ws IH]; intros sd sd' H.
  - by injection H as <-.
  - unfold apply_writes in H. cbn [for_each] in H.
    apply bind_Ok in H as (sd1 & H1 & H).
    rewrite (IH sd1 sd' H). by apply set_formula_cell_tag in H1 as [? _].
Qed.

End Writes.

(** ** Rows that a write leaves alone *)

Section RowFrames.
Import ET Text.

Lemma row_at_update_other (sheet_data : Element) (ri : nat) (rn r : Z)
    (g : Element -> Element) :
  index_where (is_row rn) (children sheet_data) = Some ri ->
  (∀ row_elem, tag (g row_elem) = tag row_elem
               ∧ attrib (g row_elem) = attrib row_elem) ->
  r <> rn ->
  row_at (update_child ri g sheet_data) r = row_at sheet_data r.
Proof.
  intros Hri Hg Hne. unfold row_at. rewrite update_child_children.
  apply first_where_alter_miss. intros x Hx.
  destruct (index_where_Some _ _ _ Hri) as (y & Hy & Hp & _).
  assert (y = x) as -> by congruence.
  destruct (Hg x) as [Ht Ha].
  rewrite (is_row_same r x (g x)) by done.
  split; by apply (is_row_other rn).
Qed.

Lemma index_where_update_same (sheet_data : Element) (ri : nat) (rn : Z)
    (g : Element -> Element) :
  index_where (is_row rn) (children sheet_data) = Some ri ->
  (∀ row_elem, tag (g row_elem) = tag row_elem
               ∧ attrib (g row_elem) = attrib row_elem) ->
  index_where (is_row rn) (children (update_child ri g sheet_data))
  = Some ri.
Proof.
  intros Hri Hg. rewrite update_child_children.
  rewrite index_where_alter; [done|].
  intros x _. destruct (Hg x) as [Ht Ha]. by apply is_row_same.
Qed.

Lemma set_formula_in_row_same (r : Z) (column formula : string)
    (cell_type : option string) (row_elem : Element) :
  tag (set_formula_in_row r column formula cell_type row_elem) = tag row_elem
  ∧ attrib (set_formula_in_row r column formula cell_type row_elem)
    = attrib row_elem.
Proof.
  destruct (set_formula_in_row_spec r column formula cell_type row_elem)
    as (Ht & Ha & _). done.
Qed.

(** [set_formula_cell] leaves the rows with another number as they
    were. *)
Lemma set_formula_cell_rows (sheet_data sheet_data' : Element) (r r' : Z)
    (column formula : string) (cell_type : option string) :
  set_formula_cell sheet_data r column formula cell_type = Ok sheet_data' ->
  r' <> r ->
  row_at sheet_data' r' = row_at sheet_data r'.
Proof.
  unfold set_formula_cell. intros ([sd1 ri] & Hget & [= <-])%bind_Ok Hne.
  pose proof (get_or_create_row_spec _ _ _ _ Hget) as [Hri _].
  rewrite (row_at_update_other _ _ r) by
    (done || apply set_formula_in_row_same).
  by eapply get_or_create_row_other.
Qed.

Lemma apply_writes_rows (ws : list (Z * string * string)) :
  ∀ sheet_data sheet_data',
    apply_writes ws sheet_data = Ok sheet_data' ->
    ∀ r, r ∉ write_rows ws -> row_at sheet_data' r = row_at sheet_data r.
Proof.
  induction ws as [|[[r' column'] f] ws IH]; intros sd sd' H r Hr.
  - by injection H as <-.
  - unfold apply_writes in H. cbn [for_each] in H.
    apply bind_Ok in H as (sd1 & H1 & H).
    unfold write_rows in Hr. rewrite fmap_cons in Hr.
    apply not_elem_of_cons in Hr as [Hne Hr].
    rewrite (IH sd1 sd' H r Hr).
    by eapply set_formula_cell_rows.
Qed.

Lemma formula_at_row (sheet_data sheet_data' : Element) (r : Z)
    (column : string) :
  row_at sheet_data' r = row_at sheet_data r ->
  formula_at sheet_data' r column = formula_at sheet_data r column.
Proof. unfold formula_at. by intros ->. Qed.

End RowFrames.

(** ** The formulas of an employee row *)

Section EmployeeFormulas.
Import ET Text.

(** The texts the program writes are the texts of the expressions. *)
Lemma employee_formulas_render (r : Z) :
  [ ("D", employee_formula_D (str r)); ("E", employee_formula_E (str r));
    ("F", employee_formula_F (str r)); ("G", employee_formula_G (str r));
    ("L", employee_formula_L (str r)); ("N", employee_formula_N (str r));
    ("P", employee_formula_P (str r)); ("Q", employee_formula_Q (str r)) ]
  = (fun ce : string * fexpr => (ce.1, render ce.2)) <$> employee_formulas r.
Proof.
  unfold employee_formulas, render. cbn [fmap list_fmap fst snd render_to].
  unfold employee_formula_D, employee_formula_E, employee_formula_F,
    employee_formula_G, employee_formula_L, employee_formula_N,
    employee_formula_P, employee_formula_Q.
  by rewrite (append_nil_r (str r)).
Qed.

Lemma set_employee_row_formulas_writes (sheet_data : Element) (r : Z) :
  set_employee_row_formulas sheet_data r
  = apply_writes
      ((fun ce : string * fexpr => (r, ce.1, render ce.2))
       <$> employee_formulas r) sheet_data.
Proof.
  pose proof (employee_formulas_render r) as H.
  apply (f_equal (fmap (fun ct : string * string => (r, ct.1, ct.2)))) in H.
  rewrite <- list_fmap_compose in H.
  change ((fun ct : string * string => (r, ct.1, ct.2))
          ∘ (fun ce : string * fexpr => (ce.1, render ce.2)))
    with (fun ce : string * fexpr => (r, ce.1, render ce.2)) in H.
  rewrite <- H. unfold set_employee_row_formulas, apply_writes.
  cbn [fmap list_fmap for_each fst snd]. cbv zeta.
  repeat match goal with
         | |- context [sfc ?a ?b ?c ?d] =>
             destruct (sfc a b c d); cbn [mbind result_bind]; try done
         end.
Qed.

Lemma last_write_row (r : Z) (l : list (string * string)) (column : string) :
  NoDup l.*1 ->
  last_write ((fun ct : string * string => (r, ct.1, ct.2)) <$> l) r column
  = assoc column l.
Proof.
  induction l as [|[c t] l IH]; [done|]. intros [Hc Hnd]%NoDup_cons.
  cbn [fmap list_fmap last_write assoc fst snd]. rewrite (IH Hnd).
  rewrite Z.eqb_refl, andb_true_r.
  destruct (String.eqb_spec c column) as [->|Hne];
    [|by destruct (assoc column l)].
  destruct (assoc column l) as [t'|] eqn:E; [|done].
  exfalso. apply Hc. clear -E.
  induction l as [|[c' t''] l IH]; [done|]. simpl in *.
  destruct (String.eqb_spec c' column) as [->|_]; [by left|].
  right. by apply IH.
Qed.

Lemma assoc_fmap {A B} (f : A -> B) (l : list (string * A))
    (column : string) :
  assoc column ((fun ca : string * A => (ca.1, f ca.2)) <$> l)
  = f <$> assoc column l.
Proof.
  induction l as [|[c a] l IH]; [done|].
  cbn [fmap list_fmap assoc fst snd]. by destruct (String.eqb c column).
Qed.

(** After [set_employee_row_formulas] each of the eight cells holds the
    text of its expression. *)
Lemma set_employee_row_formulas_cells (sheet_data sheet_data' : Element)
    (r : Z) (column : string) (e : fexpr) :
  set_employee_row_formulas sheet_data r = Ok sheet_data' ->
  assoc column (employee_formulas r) = Some e ->
  formula_at sheet_data' r column = Some (render e).
Proof.
  rewrite set_employee_row_formulas_writes. intros H He.
  rewrite (apply_writes_last _ _ _ H).
  assert ((fun ce : string * fexpr => (r, ce.1, render ce.2))
          <$> employee_formulas r
          = (fun ct : string * string => (r, ct.1, ct.2))
            <$> ((fun ce : string * fexpr => (ce.1, render ce.2))
                 <$> employee_formulas r)) as ->.
  { by rewrite <- list_fmap_compose. }
  rewrite last_write_row.
  - by rewrite assoc_fmap, He.
  - rewrite <- list_fmap_compose. cbn.
    repeat (apply NoDup_cons; split;
            [rewrite ?elem_of_cons, elem_of_nil; intros Hin;
             by repeat destruct Hin as [Hin|Hin]|]).
    apply NoDup_nil_2.
Qed.

End EmployeeFormulas.

(** ** The values of an employee row *)

Section EmployeeValues.
Import ET Text.

Variables (rate scanio sea_and_air flat_price : Q) (r : Z).


Lemma cell_value_step (n : nat) (column : string) :
  cell_value (S n) (entered_hours rate scanio sea_and_air flat_price) r column r
  = match assoc column (employee_formulas r) with
    | Some e => eval (cell_value n (entered_hours rate scanio sea_and_air flat_price) r) e
    | None => Some ((entered_hours rate scanio sea_and_air flat_price) column)
    end.
Proof. cbn [cell_value]. by rewrite Z.eqb_refl. Qed.

Lemma value_C (n : nat) : cell_value (S n) (entered_hours rate scanio sea_and_air flat_price) r "C" r = Some rate.
Proof. by rewrite cell_value_step. Qed.
Lemma value_K (n : nat) : cell_value (S n) (entered_hours rate scanio sea_and_air flat_price) r "K" r = Some scanio.
Proof. by rewrite cell_value_step. Qed.
Lemma value_M (n : nat) :
  cell_value (S n) (entered_hours rate scanio sea_and_air flat_price) r "M" r = Some sea_and_air.
Proof. by rewrite cell_value_step. Qed.
Lemma value_O (n : nat) :
  cell_value (S n) (entered_hours rate scanio sea_and_air flat_price) r "O" r = Some flat_price.
Proof. by rewrite cell_value_step. Qed.

Lemma value_Q (n : nat) :
  cell_value (S (S n)) (entered_hours rate scanio sea_and_air flat_price) r "Q" r = Some (scanio + sea_and_air + flat_price)%Q.
Proof.
  rewrite cell_value_step.
  change (assoc "Q" (employee_formulas r))
    with (Some (FAdd (FAdd (FRef "K" r) (FRef "M" r)) (FRef "O" r))).
  cbn [eval]. by rewrite value_K, value_M, value_O.
Qed.

Lemma eval_fraction (env : string -> Z -> option Q) (column : string)
    (part : Q) :
  env column r = Some part -> env "Q" r = Some (scanio + sea_and_air + flat_price)%Q ->
  eval env (FIfError (FDiv (FRef column r) (FRef "Q" r)) (FInt 0))
  = Some (fraction part (scanio + sea_and_air + flat_price)%Q).
Proof.
  intros Hp Ht. cbn [eval]. rewrite Hp, Ht. cbn [mbind option_bind].
  unfold fraction. by destruct (Qeq_bool (scanio + sea_and_air + flat_price)%Q 0).
Qed.

Lemma value_L (n : nat) :
  cell_value (S (S (S n))) (entered_hours rate scanio sea_and_air flat_price) r "L" r = Some (fraction scanio (scanio + sea_and_air + flat_price)%Q).
Proof.
  rewrite cell_value_step.
  apply eval_fraction; [apply value_K|apply value_Q].
Qed.

Lemma value_N (n : nat) :
  cell_value (S (S (S n))) (entered_hours rate scanio sea_and_air flat_price) r "N" r
  = Some (fraction sea_and_air (scanio + sea_and_air + flat_price)%Q).
Proof.
  rewrite cell_value_step.
  apply eval_fraction; [apply value_M|apply value_Q].
Qed.

Lemma value_P (n : nat) :
  cell_value (S (S (S n))) (entered_hours rate scanio sea_and_air flat_price) r "P" r
  = Some (fraction flat_price (scanio + sea_and_air + flat_price)%Q).
Proof.
  rewrite cell_value_step.
  apply eval_fraction; [apply value_O|apply value_Q].
Qed.


Lemma value_D (n : nat) :
  cell_value (S (S (S (S n)))) (entered_hours rate scanio sea_and_air flat_price) r "D" r = Some (total_hours_D scanio sea_and_air flat_price).
Proof.
  rewrite cell_value_step.
  change (assoc "D" (employee_formulas r)) with (Some (FSum "K" "O" r)).
  cbn [eval].
  change (columns_between "K" "O") with ["K"; "L"; "M"; "N"; "O"].
  cbn [fmap list_fmap].
  by rewrite value_K, value_L, value_M, value_N, value_O.
Qed.

Lemma value_E (n : nat) :
  cell_value (S (S (S (S (S n))))) (entered_hours rate scanio sea_and_air flat_price) r "E" r
  = Some (match ((total_hours_D scanio sea_and_air flat_price) ?= 40)%Q with
          | Gt => (((total_hours_D scanio sea_and_air flat_price) - 40) * (rate * (1 + 5 / 10)) + rate * 40)%Q
          | _ => ((total_hours_D scanio sea_and_air flat_price) * rate)%Q
          end).
Proof.
  rewrite cell_value_step.
  change (assoc "E" (employee_formulas r))
    with (Some (FIfGt (FRef "D" r) (FInt 40)
                  (FAdd
                     (FMul (FParen (FSub (FRef "D" r) (FInt 40)))
                        (FParen (FMul (FRef "C" r) (FDec 1 5))))
                     (FParen (FMul (FRef "C" r) (FInt 40))))
                  (FMul (FRef "D" r) (FRef "C" r)))).
  cbn [eval]. rewrite value_D, value_C. cbn [mbind option_bind].
  unfold inject_Z. by destruct ((total_hours_D scanio sea_and_air flat_price) ?= 40)%Q.
Qed.

Lemma value_F (n : nat) :
  cell_value (S (S (S (S (S n))))) (entered_hours rate scanio sea_and_air flat_price) r "F" r
  = Some (match ((total_hours_D scanio sea_and_air flat_price) ?= 40)%Q with
          | Gt => (((total_hours_D scanio sea_and_air flat_price) - 40) * (rate * (0 + 5 / 10)))%Q
          | _ => 0%Q
          end).
Proof.
  rewrite cell_value_step.
  change (assoc "F" (employee_formulas r))
    with (Some (FIfGt (FRef "D" r) (FInt 40)
                  (FMul (FParen (FSub (FRef "D" r) (FInt 40)))
                     (FParen (FMul (FRef "C" r) (FDec 0 5))))
                  (FInt 0))).
  cbn [eval]. rewrite value_D, value_C. cbn [mbind option_bind].
  unfold inject_Z. by destruct ((total_hours_D scanio sea_and_air flat_price) ?= 40)%Q.
Qed.

End EmployeeValues.

Section EmployeeRowCheck.
Import ET Text.

(** C4, at an input where the code departs from it: row 25 of the sample
    sheet, with a rate of 20, ten hours for the first company and none
    for the others.  [set_employee_row_formulas] writes [SUM(K25:O25)]
    into D25 and [K25+M25+O25] into Q25; columns L and N, which lie in
    the range of the sum, hold the hour shares the same call writes, so
    the value of D25 is 11 where the hours of the companies add up to
    10 (the value of Q25), and the gross pay of E25 is 220 instead of
    200. *)
Theorem employee_total_hours_include_shares :
  ∃ sheet_data',
    set_employee_row_formulas Sample.sheet_data 25 = Ok sheet_data'
    ∧ formula_at sheet_data' 25 "D" = Some "SUM(K25:O25)"
    ∧ formula_at sheet_data' 25 "Q" = Some "K25+M25+O25"
    ∧ formula_at sheet_data' 25 "L" = Some "IFERROR(K25/Q25,0)"
    ∧ formula_at sheet_data' 25 "N" = Some "IFERROR(M25/Q25,0)"
    ∧ render (FSum "K" "O" 25) = "SUM(K25:O25)"
    ∧ columns_between "K" "O" = ["K"; "L"; "M"; "N"; "O"]
    ∧ (let v := cell_value 5 (entered_hours 20 10 0 0) 25 in
       value_is (v "K" 25) 10 ∧ value_is (v "M" 25) 0
       ∧ value_is (v "O" 25) 0 ∧ value_is (v "Q" 25) 10
       ∧ value_is (v "L" 25) 1 ∧ value_is (v "N" 25) 0
       ∧ value_is (v "D" 25) 11 ∧ ¬ value_is (v "D" 25) 10
       ∧ value_is (v "E" 25) 220 ∧ ¬ value_is (v "E" 25) 200).
Proof.
  destruct (set_employee_row_formulas Sample.sheet_data 25)
    as [sheet_data'|] eqn:E; [|by vm_compute in E].
  exists sheet_data'. split; [done|].
  pose proof (fun column e =>
                set_employee_row_formulas_cells _ _ _ column e E) as Hcells.
  split; [by apply (Hcells "D" (FSum "K" "O" 25))|].
  split.
  { by apply (Hcells "Q"
                (FAdd (FAdd (FRef "K" 25) (FRef "M" 25)) (FRef "O" 25))). }
  split.
  { by apply (Hcells "L"
                (FIfError (FDiv (FRef "K" 25) (FRef "Q" 25)) (FInt 0))). }
  split.
  { by apply (Hcells "N"
                (FIfError (FDiv (FRef "M" 25) (FRef "Q" 25)) (FInt 0))). }
  split; [done|]. split; [done|].
  cbv zeta. repeat split; by vm_compute.
Qed.

End EmployeeRowCheck.

(** ** Row numbers after a shift *)

Section RowNumbers.
Import ET Text.

Lemma index_where_intro {A} (p : A -> bool) (l : list A) (i : nat) (x : A) :
  l !! i = Some x -> p x = true ->
  (∀ j y, (j < i)%nat -> l !! j = Some y -> p y = false) ->
  index_where p l = Some i.
Proof.
  revert i. induction l as [|y l IH]; intros [|i] Hx Hp Hlt; try done.
  - simpl in *. injection Hx as ->. by rewrite Hp.
  - simpl in *. rewrite (Hlt O y) by (done || lia).
    rewrite (IH i); [done..|].
    intros j z Hj Hz. apply (Hlt (S j) z); [lia|done].
Qed.

Lemma shift_row_number (start_row delta : Z) (row_elem row' : Element) :
  shift_row start_row delta row_elem = Ok row' ->
  tag row' = tag row_elem
  ∧ ∃ n, row_number_of row_elem = Ok n
         ∧ row_number_of row'
           = Ok (if start_row <=? n then n + delta else n).
Proof.
  intros (Ht & _ & (n & Hn & Ha) & _)%shift_row_spec. split; [done|].
  exists n. split; [done|].
  unfold row_number_of, get_attr_default in *. rewrite Ha.
  destruct (start_row <=? n); [|done].
  rewrite lookup_insert_eq. simpl. apply py_int_str.
Qed.

Lemma is_row_of_number (r n : Z) (c : Element) :
  has_tag tag_row c = true -> row_number_of c = Ok n ->
  is_row r c = (n =? r).
Proof. intros Ht Hn. unfold is_row. by rewrite Ht, Hn. Qed.

Lemma is_row_not_row (r : Z) (c : Element) :
  has_tag tag_row c = false -> is_row r c = false.
Proof. intros Ht. unfold is_row. by rewrite Ht. Qed.

End RowNumbers.

Section ShiftedRows.
Import ET Text.

Variables (start_row delta : Z) (sheet_data sheet_data' : Element).
Hypothesis Hdelta : 0 < delta.
Hypothesis Hlen : length (children sheet_data') = length (children sheet_data).
Hypothesis Hrows :
  ∀ ri row_elem,
    children sheet_data !! ri = Some row_elem ->
    if has_tag tag_row row_elem
    then ∃ row', shift_row start_row delta row_elem = Ok row'
                 ∧ children sheet_data' !! ri = Some row'
    else children sheet_data' !! ri = Some row_elem.

Lemma shifted_rows_renumbered :
  rows_renumbered start_row delta sheet_data sheet_data'.
Proof.
  split; [done|]. intros i row_elem n Hrow Htag Hn.
  specialize (Hrows i row_elem Hrow). rewrite Htag in Hrows.
  destruct Hrows as (row' & Hshift & Hrow').
  apply shift_row_number in Hshift as (Ht & n' & Hn' & Hnum).
  assert (n' = n) as -> by congruence.
  exists row'. split; [done|]. split; [|done].
  by rewrite (has_tag_eq _ row_elem).
Qed.

(** After the shift no row is numbered in the gap. *)
Lemma shifted_rows_gap (c' : Element) (r : Z) :
  c' ∈ children sheet_data' ->
  start_row <= r < start_row + delta ->
  is_row r c' = false.
Proof.
  intros (i & Hi)%list_elem_of_lookup_1 Hr.
  destruct (children sheet_data !! i) as [c|] eqn:Ec.
  2:{ apply lookup_ge_None in Ec. apply lookup_lt_Some in Hi. lia. }
  specialize (Hrows i c Ec). destruct (has_tag tag_row c) eqn:Etag.
  - destruct Hrows as (row' & Hshift & Hrow').
    assert (row' = c') as -> by congruence.
    apply shift_row_number in Hshift as (Ht & n & Hn & Hnum).
    rewrite (is_row_of_number r _ c' ) by
      (by rewrite ?(has_tag_eq _ c)).
    apply Z.eqb_neq. destruct (Z.leb_spec start_row n); lia.
  - assert (c = c') as -> by congruence. by apply is_row_not_row.
Qed.

(** A row numbered before the start keeps its number and its rank. *)
Lemma shifted_rows_before (r : Z) (ti : nat) :
  r < start_row ->
  index_where (is_row r) (children sheet_data) = Some ti ->
  index_where (is_row r) (children sheet_data') = Some ti.
Proof.
  intros Hr (c & Hc & Hp & Hbefore)%index_where_Some.
  apply is_row_number in Hp as [Htag Hnum].
  pose proof (Hrows ti c Hc) as Hti. rewrite Htag in Hti.
  destruct Hti as (c' & Hshift & Hc').
  apply shift_row_number in Hshift as (Ht & n & Hn & Hnum').
  assert (n = r) as -> by congruence.
  apply (index_where_intro _ _ _ c' Hc').
  - rewrite (is_row_of_number r (if start_row <=? r then r + delta else r))
      by (by rewrite ?(has_tag_eq _ c)).
    destruct (Z.leb_spec start_row r); [lia|]. apply Z.eqb_refl.
  - intros j y' Hj Hy'.
    destruct (children sheet_data !! j) as [y|] eqn:Ey.
    2:{ apply lookup_ge_None in Ey. apply lookup_lt_Some in Hy'. lia. }
    pose proof (Hbefore j y Hj Ey) as Hfalse.
    pose proof (Hrows j y Ey) as Hj'.
    destruct (has_tag tag_row y) eqn:Etag.
    + destruct Hj' as (row' & Hshift & Hrow').
      assert (row' = y') as -> by congruence.
      apply shift_row_number in Hshift as (Hty & m & Hm & Hnumy).
      rewrite (is_row_of_number r m y) in Hfalse by done.
      apply Z.eqb_neq in Hfalse.
      rewrite (is_row_of_number r _ y') by (by rewrite ?(has_tag_eq _ y)).
      apply Z.eqb_neq. destruct (Z.leb_spec start_row m); lia.
    + assert (y = y') as -> by congruence. done.
Qed.

End ShiftedRows.

(** ** The clones of the template row *)

Section CloneLoop.
Import ET Text.

Variables (template : Element) (source insert_at : Z).
Hypothesis Hsource : row_number_of template = Ok source.
Hypothesis Htemplate : has_tag tag_row template = true.

Lemma row_cloned_is_row (target_row delta r : Z) (row_clone : Element) :
  tag row_clone = tag template ->
  row_cloned target_row delta template row_clone ->
  is_row r row_clone = (target_row =? r).
Proof.
  intros Ht (Hr & _). apply is_row_of_number.
  - by rewrite (has_tag_eq _ template).
  - unfold row_number_of, get_attr_default. unfold get_attr in Hr.
    rewrite Hr. simpl. apply py_int_str.
Qed.

Lemma elem_of_inserted {A} (l : list A) (x y : A) (pos : nat) :
  y ∈ take pos l ++ x :: drop pos l -> y = x ∨ y ∈ l.
Proof.
  intros [H|[->|H]%elem_of_cons]%elem_of_app.
  - right. by eapply subseteq_take.
  - by left.
  - right. by eapply subseteq_drop.
Qed.

Lemma sublist_inserted {A} (l : list A) (x : A) (pos : nat) :
  sublist l (take pos l ++ x :: drop pos l).
Proof.
  rewrite <- (take_drop pos l) at 1.
  apply sublist_app; [done|]. by apply sublist_cons.
Qed.

Lemma clone_loop_spec (ks : list Z) :
  ∀ sheet_data sheet_data',
    for_each
      (fun sheet_data index =>
         clone_template_row sheet_data template (insert_at + index))
      ks sheet_data = Ok sheet_data' ->
    NoDup ks ->
    (∀ c k, c ∈ children sheet_data -> k ∈ ks ->
            is_row (insert_at + k) c = false) ->
    tag sheet_data' = tag sheet_data
    ∧ sublist (children sheet_data) (children sheet_data')
    ∧ length (children sheet_data')
      = (length (children sheet_data) + length ks)%nat
    ∧ (∀ k, k ∈ ks ->
            ∃ clone,
              row_at sheet_data' (insert_at + k) = Some clone
              ∧ row_cloned (insert_at + k) (insert_at + k - source)
                  template clone)
    ∧ (∀ r, (∀ k, k ∈ ks -> r <> insert_at + k) ->
            row_at sheet_data' r = row_at sheet_data r).
Proof.
  induction ks as [|k ks IH]; intros sd sd' H Hnd Hfree.
  - injection H as <-. split; [done|]. split; [done|].
    split; [simpl; lia|]. split; [by intros k ?%elem_of_nil|done].
  - apply NoDup_cons in Hnd as [Hk Hnd]. cbn [for_each] in H.
    apply bind_Ok in H as (sd1 & H1 & H).
    destruct (clone_template_row_spec _ _ _ _ _ Hsource H1)
      as (pos & clone & Hpos & -> & Hctag & Hclone).
    pose proof (fun r => row_cloned_is_row _ _ r _ Hctag Hclone) as Hnum.
    destruct (IH _ _ H Hnd) as (Htag & Hsub & Hlen & Hclones & Hothers).
    { intros c k' [->|Hc]%elem_of_inserted Hk'.
      - rewrite Hnum. apply Z.eqb_neq. intros ?.
        assert (k = k') as -> by lia. done.
      - apply Hfree; [done|]. by right. }
    cbn [children set_children] in *.
    split; [done|]. split.
    { etrans; [|exact Hsub]. apply sublist_inserted. }
    split.
    { rewrite Hlen, List.length_app, length_take_le by done. simpl.
      rewrite length_drop. lia. }
    split.
    + intros k' [->|Hk']%elem_of_cons; [|by apply Hclones].
      exists clone. split; [|done]. rewrite Hothers.
      2:{ intros k' Hk' ?. assert (k = k') as -> by lia. done. }
      unfold row_at. cbn [children set_children].
      rewrite (first_where_Some _ _ pos).
      * rewrite lookup_app_r by (rewrite length_take_le; lia).
        by rewrite length_take_le, Nat.sub_diag by lia.
      * rewrite index_where_app_hit; [by rewrite length_take_le| |].
        -- intros y Hy%subseteq_take. apply Hfree; [done|]. by left.
        -- rewrite Hnum. apply Z.eqb_refl.
    + intros r Hr. rewrite Hothers by (intros k' Hk'; apply Hr; by right).
      unfold row_at. cbn [children set_children].
      apply first_where_insert_miss. rewrite Hnum.
      apply Z.eqb_neq. intros ?. by apply (Hr k); [left|].
Qed.

End CloneLoop.

(** ** The overflow branch *)

Section Overflow.
Import ET Text.

Lemma elem_of_py_range (a b k : Z) : k ∈ py_range a b <-> a <= k < b.
Proof.
  unfold py_range. rewrite list_elem_of_fmap. split.
  - intros (i & -> & Hi%elem_of_seq). lia.
  - intros Hk. exists (Z.to_nat (k - a)). split; [lia|].
    apply elem_of_seq. lia.
Qed.

Lemma py_range_NoDup (a b : Z) : NoDup (py_range a b).
Proof.
  unfold py_range. apply NoDup_fmap_2; [|apply NoDup_seq].
  intros i j ?. lia.
Qed.

Lemma py_range_length (a b : Z) : length (py_range a b) = Z.to_nat (b - a).
Proof. unfold py_range. by rewrite length_fmap, length_seq. Qed.

Lemma insert_overflow_rows_spec (sheet_root root' : Element) (sd : nat)
    (last_slot overflow : Z) :
  find_index tag_sheetData sheet_root = Some sd ->
  0 < overflow ->
  insert_overflow_rows sheet_root sd last_slot (last_slot + 1) overflow
  = Ok root' ->
  overflow_inserted last_slot overflow sd sheet_root root'
  ∧ ∀ t, find_index t root' = find_index t sheet_root.
Proof.
  intros Hsd Hov. unfold insert_overflow_rows.
  destruct (children sheet_root !! sd) as [sheet_data|] eqn:Esd; [|done].
  cbn [mbind result_bind].
  intros ([sd0 ti] & Hget & H)%bind_Ok. cbv zeta in H.
  apply bind_Ok in H as (root1 & Hshift & Hclones).
  pose proof (get_or_create_row_tag _ _ _ _ Hget) as [Htag0 _].
  pose proof (get_or_create_row_spec _ _ _ _ Hget) as [Hti _].
  assert (find tag_sheetData (set_child sd sd0 sheet_root) = Some sd0)
    as Hfind0.
  { rewrite (find_set_child tag_sheetData tag_sheetData sd sheet_data)
      by done.
    by rewrite decide_True by reflexivity. }
  assert (overflow <> 0) as Hne by lia.
  destruct (shift_rows_in_sheet_parts _ _ _ _ _ Hfind0 Hne Hshift)
    as ((sd1 & Hfind1 & Htag1 & _ & Hlen & Hrows) & _ & _).
  assert (children root1 !! sd = Some sd1) as Hsd1.
  { apply find_Some in Hfind1 as (i & Hi & Hc & _).
    rewrite (shift_rows_in_sheet_index _ _ _ _ _ Hshift) in Hi.
    rewrite (find_index_set_child _ _ sheet_data) in Hi by done.
    congruence. }
  apply mutate_child_Ok in Hclones. rewrite Hsd1 in Hclones.
  destruct Hclones as (sd' & Hloop & ->).
  assert (last_slot < last_slot + 1) as Hlt by lia.
  pose proof (shifted_rows_before _ _ _ _ Hov Hlen Hrows _ _ Hlt Hti)
    as Hti1.
  destruct (index_where_Some _ _ _ Hti1) as (template & Ht & Hp & _).
  rewrite Ht in Hloop.
  apply is_row_number in Hp as [Httag Htnum].
  destruct (clone_loop_spec template last_slot (last_slot + 1) Htnum Httag
              _ _ _ Hloop (py_range_NoDup _ _))
    as (Htag' & Hsub & Hlen' & Hcl & _).
  { intros c k Hc Hk%elem_of_py_range.
    apply (shifted_rows_gap _ _ _ _ Hlen Hrows); [done|lia]. }
  split.
  2:{ intros t. rewrite (find_index_set_child _ _ sd1) by done.
      rewrite (shift_rows_in_sheet_index _ _ _ _ _ Hshift).
      by apply (find_index_set_child _ _ sheet_data). }
  exists sheet_data, sd0, ti, root1, sd1, sd', template.
  split; [done|]. split; [done|]. split; [done|]. split.
  { by apply shift_rows_in_sheet_shifted. }
  split; [done|]. split.
  { by apply shifted_rows_renumbered. }
  split.
  { unfold row_at. by rewrite (first_where_Some _ _ _ Hti1). }
  split; [done|]. split; [done|]. split.
  { rewrite Hlen', py_range_length. f_equal. lia. }
  intros k Hk. destruct (Hcl k) as (clone & Hrow & Hclone).
  { apply elem_of_py_range. lia. }
  exists clone. split; [done|].
  by replace (1 + k) with (last_slot + 1 + k - last_slot) by lia.
Qed.

End Overflow.

Section SlotStep.
Import ET Text.

Lemma py_range_shift (a n : Z) :
  (fun index => a + index) <$> py_range 0 n = py_range a (a + n).
Proof.
  unfold py_range. rewrite <- list_fmap_compose.
  replace (a + n - a) with (n - 0) by lia.
  apply list_fmap_ext. intros i x _. simpl. lia.
Qed.

(** The loop body for a section that overflows. *)
Lemma slot_step_overflow (grouped : gmap string (list RosterEntry))
    (sd : nat) (st st' : SlotState) (company : string)
    (base_slots : list Z) :
  let slots :=
    (fun row_number => map_row_with_insertions row_number (insertions st))
    <$> base_slots in
  let overflow :=
    Z.of_nat (length (default [] (grouped !! company)))
    - Z.of_nat (length slots) in
  find_index tag_sheetData (slot_sheet st) = Some sd ->
  0 < overflow ->
  slot_step grouped sd st (company, base_slots) = Ok st' ->
  ∃ last_slot,
    last slots = Some last_slot
    ∧ insertions st' = insertions st ++ [(last_slot + 1, overflow)]
    ∧ company_slots st'
      = company_slots st
        ++ [(company,
             slots ++ py_range (last_slot + 1) (last_slot + 1 + overflow))]
    ∧ overflow_inserted last_slot overflow sd (slot_sheet st) (slot_sheet st')
    ∧ find_index tag_sheetData (slot_sheet st') = Some sd.
Proof.
  cbv zeta. intros Hsd Hov. unfold slot_step.
  destruct (Z.ltb_spec 0
              (Z.of_nat (length (default [] (grouped !! company)))
               - Z.of_nat
                   (length
                      ((fun row_number =>
                          map_row_with_insertions row_number (insertions st))
                       <$> base_slots)))) as [_|?]; [|lia].
  destruct (last _) as [last_slot|]; [|done].
  intros (root' & Hins & [= <-])%bind_Ok. exists last_slot.
  destruct (insert_overflow_rows_spec _ _ _ _ _ Hsd Hov Hins) as [Hspec Hidx].
  split; [done|]. split; [done|]. split.
  { cbn [company_slots]. by rewrite py_range_shift. }
  split; [done|]. cbn [slot_sheet]. by rewrite Hidx.
Qed.

(** The loop body for a section that fits. *)
Lemma slot_step_fit (grouped : gmap string (list RosterEntry))
    (sd : nat) (st st' : SlotState) (company : string)
    (base_slots : list Z) :
  let slots :=
    (fun row_number => map_row_with_insertions row_number (insertions st))
    <$> base_slots in
  let overflow :=
    Z.of_nat (length (default [] (grouped !! company)))
    - Z.of_nat (length slots) in
  overflow <= 0 ->
  slot_step grouped sd st (company, base_slots) = Ok st' ->
  st' = mkSlotState (slot_sheet st) (insertions st)
          (company_slots st ++ [(company, slots)]).
Proof.
  cbv zeta. intros Hov. unfold slot_step.
  destruct (Z.ltb_spec 0
              (Z.of_nat (length (default [] (grouped !! company)))
               - Z.of_nat
                   (length
                      ((fun row_number =>
                          map_row_with_insertions row_number (insertions st))
                       <$> base_slots)))) as [?|_]; [lia|].
  by intros [= <-].
Qed.

End SlotStep.

(** ** The layout of the sections *)

Section Layout.
Import ET Text.

Lemma py_range_app (a b c : Z) :
  a <= b -> b <= c -> py_range a b ++ py_range b c = py_range a c.
Proof.
  intros Hab Hbc. unfold py_range.
  replace (Z.to_nat (c - a)) with (Z.to_nat (b - a) + Z.to_nat (c - b))%nat
    by lia.
  rewrite seq_app, fmap_app. f_equal.
  replace (seq (0 + Z.to_nat (b - a)) (Z.to_nat (c - b)))
    with (Nat.add (Z.to_nat (b - a)) <$> seq 0 (Z.to_nat (c - b)))
    by (rewrite fmap_add_seq; f_equal; lia).
  rewrite <- list_fmap_compose.
  apply list_fmap_ext. intros i x _. simpl. lia.
Qed.

Lemma py_range_offset (a b off : Z) :
  (fun x => x + off) <$> py_range a b = py_range (a + off) (b + off).
Proof.
  unfold py_range. rewrite <- list_fmap_compose.
  replace (b + off - (a + off)) with (b - a) by lia.
  apply list_fmap_ext. intros i x _. simpl. lia.
Qed.

Lemma py_range_last (a b : Z) : a < b -> last (py_range a b) = Some (b - 1).
Proof.
  intros Hab. rewrite <- (py_range_app a (b - 1) b) by lia.
  assert (py_range (b - 1) b = [b - 1]) as ->.
  { unfold py_range. replace (b - (b - 1)) with 1 by lia. simpl.
    f_equal. lia. }
  apply last_snoc.
Qed.

Lemma map_row_with_insertions_app (x : Z) (ins1 ins2 : list (Z * Z)) :
  map_row_with_insertions x (ins1 ++ ins2)
  = map_row_with_insertions (map_row_with_insertions x ins1) ins2.
Proof. unfold map_row_with_insertions. apply foldl_app. Qed.

Lemma slot_step_range (grouped : gmap string (list RosterEntry))
    (sd : nat) (st st' : SlotState) (company : string) (b e1 off : Z) :
  offset_after (insertions st) b off ->
  b < e1 ->
  find_index tag_sheetData (slot_sheet st) = Some sd ->
  slot_step grouped sd st (company, py_range b e1) = Ok st' ->
  let ov := section_overflow grouped company (e1 - b) in
  company_slots st'
  = company_slots st ++ [(company, py_range (b + off) (e1 + off + ov))]
  ∧ offset_after (insertions st') e1 (off + ov)
  ∧ find_index tag_sheetData (slot_sheet st') = Some sd.
Proof.
  intros Hoff Hbe Hsd H. cbv zeta.
  assert ((fun row_number =>
             map_row_with_insertions row_number (insertions st))
          <$> py_range b e1 = py_range (b + off) (e1 + off)) as Hslots.
  { rewrite <- py_range_offset. apply list_fmap_ext.
    intros i x Hx%list_elem_of_lookup_2%elem_of_py_range.
    apply Hoff. lia. }
  unfold section_overflow.
  set (n := Z.of_nat (length (default [] (grouped !! company)))).
  destruct (Z.lt_ge_cases 0 (n - (e1 - b))) as [Hov|Hov].
  - destruct (slot_step_overflow grouped sd st st' company (py_range b e1))
      as (last_slot & Hlast & Hins & Hcs & _ & Hsd'); [done| |done|].
    { rewrite Hslots, py_range_length. fold n. lia. }
    rewrite Hslots, py_range_length in Hins, Hcs. fold n in Hins, Hcs.
    rewrite Hslots, py_range_last in Hlast by lia.
    injection Hlast as <-.
    replace (e1 + off - (b + off)) with (e1 - b) in Hins, Hcs by lia.
    rewrite Z2Nat.id in Hins, Hcs by lia.
    rewrite Z.max_r by lia. split; [|split; [|done]].
    + rewrite Hcs. do 3 f_equal.
      replace (e1 + off - 1 + 1) with (e1 + off) by lia.
      apply py_range_app; lia.
    + intros x Hx. rewrite Hins, map_row_with_insertions_app.
      rewrite Hoff by lia. cbn.
      destruct (Z.leb_spec (e1 + off - 1 + 1) (x + off)); lia.
  - pose proof (slot_step_fit grouped sd st st' company (py_range b e1))
      as Hfit. cbv zeta in Hfit.
    rewrite Hslots, py_range_length in Hfit. fold n in Hfit.
    rewrite Hfit; [|lia|done]. cbn [company_slots insertions slot_sheet].
    rewrite Z.max_l by lia. split; [|split; [|done]].
    + do 4 f_equal. lia.
    + intros x Hx. rewrite Hoff by lia. lia.
Qed.

(** The slot loop gives every section its bounds. *)
Lemma slot_loop_layout (grouped : gmap string (list RosterEntry))
    (sd : nat) (sheet_root : Element) (st : SlotState) :
  find_index tag_sheetData sheet_root = Some sd ->
  for_each (slot_step grouped sd) COMPANY_ROW_SLOTS
    (mkSlotState sheet_root [] []) = Ok st ->
  company_slots st = section_layout grouped
  ∧ find_index tag_sheetData (slot_sheet st) = Some sd.
Proof.
  intros Hsd. unfold COMPANY_ROW_SLOTS. cbn [for_each].
  intros (st1 & H1 & H)%bind_Ok.
  apply (slot_step_range _ _ _ _ _ _ _ 0) in H1 as (C1 & O1 & S1);
    [|by intros x _; cbn; lia|lia|done].
  set (o1 := section_overflow grouped "scanio_moving" (26 - 5)) in *.
  apply bind_Ok in H as (st2 & H2 & H).
  apply (slot_step_range _ _ _ _ _ _ _ (0 + o1)) in H2 as (C2 & O2 & S2);
    [|intros x Hx; apply O1; lia|lia|done].
  set (o2 := section_overflow grouped "scanio_storage" (40 - 33)) in *.
  apply bind_Ok in H as (st3 & H3 & H).
  apply (slot_step_range _ _ _ _ _ _ _ (0 + o1 + o2)) in H3
    as (C3 & O3 & S3); [|intros x Hx; apply O2; lia|lia|done].
  set (o3 := section_overflow grouped "sea_and_air_intl" (57 - 47)) in *.
  apply bind_Ok in H as (st4 & H4 & H).
  apply (slot_step_range _ _ _ _ _ _ _ (0 + o1 + o2 + o3)) in H4
    as (C4 & O4 & S4); [|intros x Hx; apply O3; lia|lia|done].
  set (o4 := section_overflow grouped "flat_price" (86 - 64)) in *.
  injection H as <-.
  split; [|done]. rewrite C4, C3, C2, C1. cbn [company_slots app].
  unfold section_layout, section_bounds. cbn [fmap list_fmap fst snd].
  change (section_overflow grouped "scanio_moving" 21) with o1.
  change (section_overflow grouped "scanio_storage" 7) with o2.
  change (section_overflow grouped "sea_and_air_intl" 10) with o3.
  change (section_overflow grouped "flat_price" 22) with o4.
  repeat match goal with
         | |- _ :: _ = _ :: _ => f_equal
         | |- (_, _) = (_, _) => f_equal
         | |- py_range _ _ = py_range _ _ => f_equal; lia
         end.
Qed.

End Layout.

(** ** The summary formulas of a section *)

Section SectionRows.
Import ET Text PyFloat.

Lemma foldl_min_spec (l : list Z) :
  ∀ x, foldl Z.min x l ∈ x :: l ∧ ∀ y, y ∈ x :: l -> foldl Z.min x l <= y.
Proof.
  induction l as [|a l IH]; intros x; simpl.
  - split; [by left|]. intros y ->%list_elem_of_singleton. lia.
  - destruct (IH (Z.min x a)) as [Hin Hle]. split.
    + apply elem_of_cons in Hin as [->|Hin].
      * destruct (Z.min_spec x a) as [[_ ->]|[_ ->]];
          [by left|by right; left].
      * by do 2 right.
    + intros y [->|[->|Hy]%elem_of_cons]%elem_of_cons.
      * pose proof (Hle (Z.min x a)) as H. specialize (H ltac:(by left)). lia.
      * pose proof (Hle (Z.min x a)) as H. specialize (H ltac:(by left)). lia.
      * apply Hle. by right.
Qed.

Lemma foldl_max_spec (l : list Z) :
  ∀ x, foldl Z.max x l ∈ x :: l ∧ ∀ y, y ∈ x :: l -> y <= foldl Z.max x l.
Proof.
  induction l as [|a l IH]; intros x; simpl.
  - split; [by left|]. intros y ->%list_elem_of_singleton. lia.
  - destruct (IH (Z.max x a)) as [Hin Hle]. split.
    + apply elem_of_cons in Hin as [->|Hin].
      * destruct (Z.max_spec x a) as [[_ ->]|[_ ->]];
          [by right; left|by left].
      * by do 2 right.
    + intros y [->|[->|Hy]%elem_of_cons]%elem_of_cons.
      * pose proof (Hle (Z.max x a)) as H. specialize (H ltac:(by left)). lia.
      * pose proof (Hle (Z.max x a)) as H. specialize (H ltac:(by left)). lia.
      * apply Hle. by right.
Qed.

Lemma py_range_cons (a b : Z) :
  a < b -> py_range a b = a :: py_range (a + 1) b.
Proof.
  intros Hab. rewrite <- (py_range_app a (a + 1) b) by lia.
  unfold py_range at 1. replace (a + 1 - a) with 1 by lia. simpl.
  f_equal. lia.
Qed.

Lemma section_rows_of_range (lo hi : Z) :
  lo <= hi ->
  section_rows_of (py_range lo (hi + 1))
  = mkSectionRows lo hi (hi + 1) (hi + 3).
Proof.
  intros Hle. unfold section_rows_of.
  assert (list_min (py_range lo (hi + 1)) = lo) as ->.
  { rewrite py_range_cons by lia. unfold list_min.
    destruct (foldl_min_spec (py_range (lo + 1) (hi + 1)) lo) as [Hin Hmin].
    rewrite <- py_range_cons in Hin by lia.
    apply elem_of_py_range in Hin.
    specialize (Hmin lo ltac:(by left)). lia. }
  assert (list_max (py_range lo (hi + 1)) = hi) as ->.
  { rewrite py_range_cons by lia. unfold list_max.
    destruct (foldl_max_spec (py_range (lo + 1) (hi + 1)) lo) as [Hin Hmax].
    rewrite <- py_range_cons in Hin, Hmax by lia.
    apply elem_of_py_range in Hin.
    specialize (Hmax hi ltac:(apply elem_of_py_range; lia)). lia. }
  done.
Qed.

Lemma refresh_section_writes (sheet_data : Element) (company : string)
    (rows : SectionRows) (burden : float) :
  lookup_key company COMPANY_BURDEN_MULTIPLIER = Ok burden ->
  refresh_section sheet_data company rows
  = apply_writes
      (section_writes company rows (format_decimal_for_excel burden))
      sheet_data.
Proof.
  intros Hb. unfold refresh_section, section_writes, apply_writes.
  rewrite Hb. cbv zeta.
  destruct (String.eqb company "scanio_moving");
    cbn [app for_each];
    repeat match goal with
           | |- context [sfc ?a ?b ?c ?d] =>
               destruct (sfc a b c d); cbn [mbind result_bind]; try done
           end.
Qed.

End SectionRows.

Section Refresh.
Import ET Text PyFloat.

Lemma section_overflow_nonneg (grouped : gmap string (list RosterEntry))
    (company : string) (capacity : Z) :
  0 <= section_overflow grouped company capacity.
Proof. unfold section_overflow. lia. Qed.

Lemma refresh_step (sheet_data : Element)
    (section_rows : gmap string SectionRows) (company : string)
    (lo hi : Z) (burden : float)
    (rest : list (string * list Z)) (out : Element * gmap string SectionRows) :
  lo <= hi ->
  lookup_key company COMPANY_BURDEN_MULTIPLIER = Ok burden ->
  for_each
    (fun '(sheet_data, section_rows) '(company, slots) =>
       match slots with
       | [] => Ok (sheet_data, section_rows)
       | _ =>
           let rows := section_rows_of slots in
           sheet_data ← refresh_section sheet_data company rows;
           Ok (sheet_data, <[company := rows]> section_rows)
       end)
    ((company, py_range lo (hi + 1)) :: rest) (sheet_data, section_rows)
  = Ok out ->
  ∃ sheet_data1,
    apply_writes (bounds_writes (company, (lo, hi))) sheet_data
    = Ok sheet_data1
    ∧ for_each
        (fun '(sheet_data, section_rows) '(company, slots) =>
           match slots with
           | [] => Ok (sheet_data, section_rows)
           | _ =>
               let rows := section_rows_of slots in
               sheet_data ← refresh_section sheet_data company rows;
               Ok (sheet_data, <[company := rows]> section_rows)
           end)
        rest
        (sheet_data1, <[company := bounds_rows (lo, hi)]> section_rows)
      = Ok out.
Proof.
  intros Hle Hb. cbn [for_each].
  intros ([sd1 rows1] & H1 & H)%bind_Ok.
  pose proof (section_rows_of_range lo hi Hle) as Hrows.
  rewrite (py_range_cons lo (hi + 1)) in H1, Hrows by lia.
  cbv zeta in H1. rewrite Hrows in H1.
  apply bind_Ok in H1 as (sd1' & H1 & [= <- <-]).
  rewrite (refresh_section_writes _ _ _ burden Hb) in H1.
  exists sd1'. split; [|done].
  unfold bounds_writes, burden_text. cbn [fst snd].
  unfold lookup_key in Hb.
  destruct (assoc company COMPANY_BURDEN_MULTIPLIER); [|done].
  by injection Hb as ->.
Qed.

Lemma refresh_layout_writes (grouped : gmap string (list RosterEntry))
    (sheet_data sheet_data' : Element) (reimbursement_row : Z) :
  refresh_company_summary_formulas sheet_data (section_layout grouped)
  = Ok (sheet_data', reimbursement_row) ->
  apply_writes (summary_writes (section_bounds grouped)) sheet_data
  = Ok sheet_data'.
Proof.
  unfold refresh_company_summary_formulas.
  intros ([sdx rowsx] & Hloop & H)%bind_Ok.
  unfold section_layout, section_bounds in Hloop. cbv zeta in Hloop.
  cbn [fmap list_fmap fst snd] in Hloop.
  unfold section_bounds, summary_writes. cbv zeta.
  pose proof (section_overflow_nonneg grouped "scanio_moving" 21) as N1.
  pose proof (section_overflow_nonneg grouped "scanio_storage" 7) as N2.
  pose proof (section_overflow_nonneg grouped "sea_and_air_intl" 10) as N3.
  pose proof (section_overflow_nonneg grouped "flat_price" 22) as N4.
  set (o1 := section_overflow grouped "scanio_moving" 21) in *.
  set (o2 := section_overflow grouped "scanio_storage" 7) in *.
  set (o3 := section_overflow grouped "sea_and_air_intl" 10) in *.
  set (o4 := section_overflow grouped "flat_price" 22) in *.
  apply (refresh_step _ _ _ _ _ 1.18%float) in Hloop
    as (s1 & W1 & Hloop); [|lia|reflexivity].
  apply (refresh_step _ _ _ _ _ 1.24%float) in Hloop
    as (s2 & W2 & Hloop); [|lia|reflexivity].
  apply (refresh_step _ _ _ _ _ 1.18%float) in Hloop
    as (s3 & W3 & Hloop); [|lia|reflexivity].
  apply (refresh_step _ _ _ _ _ 1.18%float) in Hloop
    as (s4 & W4 & Hloop); [|lia|reflexivity].
  injection Hloop as <- <-.
  unfold lookup_dict in H.
  match type of H with
  | context [?m !! "scanio_moving"] =>
      assert (m !! "scanio_moving" = Some (bounds_rows (5, 25 + o1))) as L1
        by (by rewrite !lookup_insert_ne, lookup_insert_eq by done);
      assert (m !! "scanio_storage"
              = Some (bounds_rows (33 + o1, 39 + o1 + o2))) as L2
        by (by rewrite !lookup_insert_ne, lookup_insert_eq by done);
      assert (m !! "sea_and_air_intl"
              = Some (bounds_rows (47 + o1 + o2, 56 + o1 + o2 + o3))) as L3
        by (by rewrite !lookup_insert_ne, lookup_insert_eq by done);
      assert (m !! "flat_price"
              = Some (bounds_rows
                        (64 + o1 + o2 + o3, 85 + o1 + o2 + o3 + o4))) as L4
        by (by rewrite lookup_insert_eq)
  end.
  rewrite L1, L2, L3, L4 in H. cbn [mbind result_bind] in H.
  cbv zeta in H.
  rewrite apply_writes_app, W1. cbn [mbind result_bind].
  rewrite apply_writes_app, W2. cbn [mbind result_bind].
  rewrite apply_writes_app, W3. cbn [mbind result_bind].
  rewrite apply_writes_app, W4. cbn [mbind result_bind].
  unfold cross_writes, apply_writes. cbn [for_each fst snd].
  repeat match type of H with
         | context [sfc ?a ?b ?c ?d] =>
             destruct (sfc a b c d); cbn [mbind result_bind] in H |- *;
             try done
         end.
  by injection H as <- _.
Qed.

End Refresh.

(** ** Reading the summary formulas *)

Section SummaryReads.
Import ET Text PyFloat.

Lemma last_write_app (ws1 ws2 : list (Z * string * string)) (r : Z)
    (column : string) :
  last_write (ws1 ++ ws2) r column
  = match last_write ws2 r column with
    | Some f => Some f
    | None => last_write ws1 r column
    end.
Proof.
  induction ws1 as [|[[r' c'] f] ws1 IH]; simpl.
  - by destruct (last_write ws2 r column).
  - rewrite IH. by destruct (last_write ws2 r column).
Qed.

Lemma last_write_None (ws : list (Z * string * string)) (r : Z)
    (column : string) :
  r ∉ write_rows ws -> last_write ws r column = None.
Proof.
  induction ws as [|[[r' c'] f] ws IH]; [done|].
  unfold write_rows. rewrite fmap_cons.
  intros [Hne Hr]%not_elem_of_cons. cbn [last_write].
  rewrite (IH Hr). simpl in Hne.
  rewrite (proj2 (Z.eqb_neq r' r)) by done. by rewrite andb_false_r.
Qed.

Lemma last_write_rows (ws : list (Z * string * string)) (r : Z)
    (column f : string) :
  last_write ws r column = Some f -> r ∈ write_rows ws.
Proof.
  intros H. destruct (decide (r ∈ write_rows ws)) as [|Hn]; [done|].
  by rewrite (last_write_None _ _ _ Hn) in H.
Qed.

Lemma write_rows_bounds (company : string) (lo hi r : Z) :
  r ∈ write_rows (bounds_writes (company, (lo, hi))) ->
  r = hi + 1 ∨ r = hi + 3 ∨ r = hi + 4.
Proof.
  unfold bounds_writes, section_writes, bounds_rows, write_rows.
  cbn [fst snd total_row amount_row start_row end_row].
  destruct (String.eqb company "scanio_moving");
    cbn [app fmap list_fmap fst snd];
    rewrite ?elem_of_cons, elem_of_nil; intros H;
    repeat destruct H as [H|H]; try done; lia.
Qed.

Lemma write_rows_cross (r1 r2 r3 : SectionRows) (lo hi r : Z) :
  r ∈ write_rows (cross_writes r1 r2 r3 (bounds_rows (lo, hi))) ->
  r = hi + 6 ∨ r = hi + 8 ∨ r = hi + 16.
Proof.
  unfold cross_writes, bounds_rows, write_rows.
  cbn [fst snd total_row amount_row fmap list_fmap].
  rewrite ?elem_of_cons, elem_of_nil; intros H;
    repeat destruct H as [H|H]; try done; lia.
Qed.

(** A formula of a section is not overwritten by the formulas of the
    other sections. *)
Lemma summary_last_write (grouped : gmap string (list RosterEntry))
    (company : string) (lo hi r : Z) (column f : string) :
  (company, (lo, hi)) ∈ section_bounds grouped ->
  last_write (bounds_writes (company, (lo, hi))) r column = Some f ->
  last_write (summary_writes (section_bounds grouped)) r column = Some f.
Proof.
  unfold section_bounds. cbv zeta.
  pose proof (section_overflow_nonneg grouped "scanio_moving" 21) as N1.
  pose proof (section_overflow_nonneg grouped "scanio_storage" 7) as N2.
  pose proof (section_overflow_nonneg grouped "sea_and_air_intl" 10) as N3.
  pose proof (section_overflow_nonneg grouped "flat_price" 22) as N4.
  set (o1 := section_overflow grouped "scanio_moving" 21) in *.
  set (o2 := section_overflow grouped "scanio_storage" 7) in *.
  set (o3 := section_overflow grouped "sea_and_air_intl" 10) in *.
  set (o4 := section_overflow grouped "flat_price" 22) in *.
  intros Hin Hw.
  pose proof (write_rows_bounds _ _ _ _ (last_write_rows _ _ _ _ Hw)) as Hr.
  unfold summary_writes. cbn [fst snd].
  set (w1 := bounds_writes ("scanio_moving", (5, 25 + o1))) in *.
  set (w2 := bounds_writes ("scanio_storage", (33 + o1, 39 + o1 + o2))) in *.
  set (w3 := bounds_writes
               ("sea_and_air_intl",
                (47 + o1 + o2, 56 + o1 + o2 + o3))) in *.
  set (w4 := bounds_writes
               ("flat_price",
                (64 + o1 + o2 + o3, 85 + o1 + o2 + o3 + o4))) in *.
  rewrite !last_write_app.
  rewrite (last_write_None (cross_writes _ _ _ _))
    by (intros [?|[?|?]]%write_rows_cross;
        rewrite !elem_of_cons, elem_of_nil in Hin;
        destruct Hin as [Hin|[Hin|[Hin|[Hin|[]]]]];
        injection Hin as -> -> ->; lia).
  rewrite !elem_of_cons, elem_of_nil in Hin.
  destruct Hin as [Hin|[Hin|[Hin|[Hin|[]]]]]; injection Hin as -> -> ->.
  - rewrite (last_write_None w4)
      by (intros [?|[?|?]]%write_rows_bounds; lia).
    rewrite (last_write_None w3)
      by (intros [?|[?|?]]%write_rows_bounds; lia).
    rewrite (last_write_None w2)
      by (intros [?|[?|?]]%write_rows_bounds; lia).
    fold w1 in Hw. by rewrite Hw.
  - rewrite (last_write_None w4)
      by (intros [?|[?|?]]%write_rows_bounds; lia).
    rewrite (last_write_None w3)
      by (intros [?|[?|?]]%write_rows_bounds; lia).
    fold w2 in Hw. by rewrite Hw.
  - rewrite (last_write_None w4)
      by (intros [?|[?|?]]%write_rows_bounds; lia).
    fold w3 in Hw. by rewrite Hw.
  - fold w4 in Hw. by rewrite Hw.
Qed.

Ltac last_write_here :=
  unfold bounds_writes, section_writes, bounds_rows;
  cbn [fst snd total_row amount_row start_row end_row];
  match goal with
  | |- context [String.eqb ?c "scanio_moving"] =>
      destruct (String.eqb c "scanio_moving")
  end;
  cbn [app last_write String.eqb Ascii.eqb Bool.eqb andb];
  rewrite ?Z.eqb_refl;
  repeat match goal with
         | |- context [?a =? ?b] => rewrite (proj2 (Z.eqb_neq a b)) by lia
         end;
  try done.

Lemma total_writes (company : string) (lo hi : Z) :
  last_write (bounds_writes (company, (lo, hi))) (hi + 1) "D"
  = Some ("SUM(D" +:+ str lo +:+ ":D" +:+ str hi +:+ ")")
  ∧ last_write (bounds_writes (company, (lo, hi))) (hi + 1) "M"
    = Some ("SUM(M" +:+ str lo +:+ ":M" +:+ str hi +:+ ")")
  ∧ last_write (bounds_writes (company, (lo, hi))) (hi + 1) "O"
    = Some ("SUM(O" +:+ str lo +:+ ":O" +:+ str hi +:+ ")")
  ∧ last_write (bounds_writes (company, (lo, hi))) (hi + 1) "Q"
    = Some ("SUM(Q" +:+ str lo +:+ ":Q" +:+ str hi +:+ ")").
Proof. repeat split; last_write_here. Qed.

Lemma amount_writes (company : string) (lo hi : Z) :
  String.eqb company "scanio_moving" = false ->
  last_write (bounds_writes (company, (lo, hi))) (hi + 3) "K"
  = Some ("SUMPRODUCT(E" +:+ str lo +:+ ":E" +:+ str hi +:+ ",L"
            +:+ str lo +:+ ":L" +:+ str hi +:+ ")*" +:+ burden_text company)
  ∧ last_write (bounds_writes (company, (lo, hi))) (hi + 3) "M"
    = Some ("SUMPRODUCT(E" +:+ str lo +:+ ":E" +:+ str hi +:+ ",N"
              +:+ str lo +:+ ":N" +:+ str hi +:+ ")*" +:+ burden_text company)
  ∧ last_write (bounds_writes (company, (lo, hi))) (hi + 3) "O"
    = Some ("SUMPRODUCT(E" +:+ str lo +:+ ":E" +:+ str hi +:+ ",P"
              +:+ str lo +:+ ":P" +:+ str hi +:+ ")*" +:+ burden_text company).
Proof.
  intros Hc. unfold bounds_writes, section_writes, bounds_rows.
  cbn [fst snd total_row amount_row start_row end_row]. rewrite Hc.
  repeat split;
    cbn [app last_write String.eqb Ascii.eqb Bool.eqb andb];
    rewrite ?Z.eqb_refl;
    repeat match goal with
           | |- context [?a =? ?b] => rewrite (proj2 (Z.eqb_neq a b)) by lia
           end;
    done.
Qed.

(** After the summary formulas have been written, every section holds
    the formulas over its bounds. *)
Lemma summary_section_formulas (grouped : gmap string (list RosterEntry))
    (sheet_data sheet_data' : Element) (company : string) (lo hi : Z) :
  apply_writes (summary_writes (section_bounds grouped)) sheet_data
  = Ok sheet_data' ->
  (company, (lo, hi)) ∈ section_bounds grouped ->
  section_formulas sheet_data' company lo hi.
Proof.
  intros H Hin.
  pose proof (fun r column f Hw =>
                eq_trans (apply_writes_last _ _ _ H r column)
                  (f_equal (fun o => match o with
                                     | Some f => Some f
                                     | None => formula_at sheet_data r column
                                     end)
                     (summary_last_write grouped company lo hi r column f
                        Hin Hw))) as Hread.
  cbn in Hread.
  destruct (total_writes company lo hi) as (HD & HM & HO & HQ).
  unfold section_formulas.
  rewrite (Hread _ _ _ HD), (Hread _ _ _ HM), (Hread _ _ _ HO),
    (Hread _ _ _ HQ).
  repeat split; try done;
    destruct (amount_writes company lo hi H0) as (HK & HM' & HO');
    by rewrite (Hread _ _ _ HK) || by rewrite (Hread _ _ _ HM')
    || by rewrite (Hread _ _ _ HO').
Qed.

End SummaryReads.

(** ** The placement loop leaves the summary rows alone *)

Section Placement.
Import ET Text PyFloat.

Lemma find_or_create_cell_same (row_elem row1 : Element)
    (target_ref column : string) (ci : nat) :
  find_or_create_cell row_elem target_ref column = (row1, ci) ->
  tag row1 = tag row_elem ∧ attrib row1 = attrib row_elem.
Proof. by intros [_ [->|(_ & _ & ->)]]%find_or_create_cell_spec. Qed.

Lemma set_inline_string_cell_same (row_elem : Element) (r : Z)
    (column value : string) :
  tag (set_inline_string_cell row_elem r column value) = tag row_elem
  ∧ attrib (set_inline_string_cell row_elem r column value)
    = attrib row_elem.
Proof.
  unfold set_inline_string_cell.
  destruct (find_or_create_cell _ _ _) as [row1 ci] eqn:E.
  apply find_or_create_cell_same in E as [Ht Ha].
  by rewrite update_child_set.
Qed.

Lemma set_numeric_cell_same (row_elem : Element) (r : Z) (column : string)
    (value : float) (preserve_formula : bool) :
  tag (set_numeric_cell row_elem r column value preserve_formula)
  = tag row_elem
  ∧ attrib (set_numeric_cell row_elem r column value preserve_formula)
    = attrib row_elem.
Proof.
  unfold set_numeric_cell.
  destruct (preserve_formula && _); [done|].
  destruct (find_or_create_cell _ _ _) as [row1 ci] eqn:E.
  apply find_or_create_cell_same in E as [Ht Ha].
  by rewrite update_child_set.
Qed.

Lemma foldl_numeric_same (r : Z) (columns : list string) :
  ∀ row_elem,
    tag (foldl (fun row_elem column =>
                  set_numeric_cell row_elem r column 0 false)
           row_elem columns) = tag row_elem
    ∧ attrib (foldl (fun row_elem column =>
                       set_numeric_cell row_elem r column 0 false)
                row_elem columns) = attrib row_elem.
Proof.
  induction columns as [|c columns IH]; intros row_elem; [done|].
  simpl. destruct (IH (set_numeric_cell row_elem r c 0 false)) as [-> ->].
  apply set_numeric_cell_same.
Qed.

Lemma set_formula_cell_index (sheet_data sheet_data' : Element) (r : Z)
    (column formula : string) (cell_type : option string) (ri : nat) :
  index_where (is_row r) (children sheet_data) = Some ri ->
  set_formula_cell sheet_data r column formula cell_type = Ok sheet_data' ->
  index_where (is_row r) (children sheet_data') = Some ri.
Proof.
  intros Hri. unfold set_formula_cell.
  intros ([sd1 ri'] & Hget & [= <-])%bind_Ok.
  apply get_or_create_row_spec in Hget as [Hri' [->|(Hnone & _)]];
    [|congruence].
  assert (ri' = ri) as -> by congruence.
  apply index_where_update_same; [done|]. apply set_formula_in_row_same.
Qed.

Lemma apply_writes_index (ws : list (Z * string * string)) (r : Z)
    (ri : nat) :
  (∀ w, w ∈ ws -> w.1.1 = r) ->
  ∀ sheet_data sheet_data',
    index_where (is_row r) (children sheet_data) = Some ri ->
    apply_writes ws sheet_data = Ok sheet_data' ->
    index_where (is_row r) (children sheet_data') = Some ri.
Proof.
  induction ws as [|[[r' c'] f] ws IH]; intros Hws sd sd' Hri H.
  - by injection H as <-.
  - unfold apply_writes in H. cbn [for_each] in H.
    apply bind_Ok in H as (sd1 & H1 & H).
    assert (r' = r) as -> by (apply (Hws (r', c', f)); by left).
    apply (IH (fun w Hw => Hws w ltac:(by right)) sd1 sd'); [|done].
    by eapply set_formula_cell_index.
Qed.

(** The body of the placement loop touches the row of its slot only. *)
Lemma place_row_rows (company : string) (company_entries : list RosterEntry)
    (st st' : PlaceState) (idx : nat) (row_number r : Z) :
  place_row company company_entries st (idx, row_number) = Ok st' ->
  r <> row_number ->
  row_at (place_sheet st') r = row_at (place_sheet st) r.
Proof.
  unfold place_row. intros ([sd1 ri] & Hget & H)%bind_Ok Hne.
  cbv zeta in H. apply bind_Ok in H as (sd3 & Hformulas & H).
  pose proof (get_or_create_row_spec _ _ _ _ Hget) as [Hri _].
  pose proof (get_or_create_row_other _ _ _ _ _ Hget Hne) as Hrow1.
  set (sd2 := update_child ri
                (fun row_elem =>
                   set_inline_string_cell row_elem row_number "A" "") sd1)
    in *.
  assert (index_where (is_row row_number) (children sd2) = Some ri) as Hri2.
  { apply index_where_update_same; [done|].
    intros row_elem. apply set_inline_string_cell_same. }
  assert (row_at sd2 r = row_at sd1 r) as Hrow2.
  { apply (row_at_update_other _ _ row_number); [done| |done].
    intros row_elem. apply set_inline_string_cell_same. }
  rewrite set_employee_row_formulas_writes in Hformulas.
  assert (∀ w, w ∈ (fun ce : string * fexpr =>
                      (row_number, ce.1, render ce.2))
                   <$> employee_formulas row_number ->
               w.1.1 = row_number) as Hws.
  { intros w ([c e] & -> & _)%list_elem_of_fmap. done. }
  pose proof (apply_writes_index _ _ _ Hws _ _ Hri2 Hformulas) as Hri3.
  assert (row_at sd3 r = row_at sd2 r) as Hrow3.
  { apply (apply_writes_rows _ _ _ Hformulas).
    intros (w & Hw & Hin)%list_elem_of_fmap. apply Hws in Hin. congruence. }
  destruct (company_entries !! idx) as [entry|]; injection H as <-;
    cbn [place_sheet];
    rewrite (row_at_update_other _ _ row_number) by
      (done || intros row_elem;
       repeat match goal with
              | |- context [set_numeric_cell ?a ?b ?c ?d ?e] =>
                  destruct (set_numeric_cell_same a b c d e) as [-> ->]
              | |- context [foldl _ ?a fill_columns] =>
                  destruct (foldl_numeric_same row_number fill_columns a)
                    as [-> ->]
              end;
       apply set_inline_string_cell_same);
    congruence.
Qed.

End Placement.

Section PlacementLoop.
Import ET Text PyFloat.

Lemma place_slots_rows (company : string)
    (company_entries : list RosterEntry) (items : list (nat * Z)) :
  ∀ st st',
    for_each (place_row company company_entries) items st = Ok st' ->
    ∀ r, (∀ idx rn, (idx, rn) ∈ items -> r <> rn) ->
         row_at (place_sheet st') r = row_at (place_sheet st) r.
Proof.
  induction items as [|[idx rn] items IH]; intros st st' H r Hr.
  - by injection H as <-.
  - cbn [for_each] in H. apply bind_Ok in H as (st1 & H1 & H).
    rewrite (IH _ _ H r) by (intros idx' rn' Hin; apply (Hr idx'); by right).
    apply (place_row_rows _ _ _ _ _ _ _ H1). apply (Hr idx). by left.
Qed.

Lemma place_loop_rows (grouped : gmap string (list RosterEntry))
    (company_slots : list (string * list Z)) :
  ∀ st st',
    for_each
      (fun st '(company, slots) =>
         let company_entries := default [] (grouped !! company) in
         for_each (place_row company company_entries)
           (imap (fun idx row_number => (idx, row_number)) slots) st)
      company_slots st = Ok st' ->
    ∀ r, (∀ company slots, (company, slots) ∈ company_slots -> r ∉ slots) ->
         row_at (place_sheet st') r = row_at (place_sheet st) r.
Proof.
  induction company_slots as [|[company slots] cs IH]; intros st st' H r Hr.
  - by injection H as <-.
  - cbn [for_each] in H. apply bind_Ok in H as (st1 & H1 & H).
    rewrite (IH _ _ H r)
      by (intros c' s' Hin; apply (Hr c'); by right).
    apply (place_slots_rows _ _ _ _ _ H1).
    intros idx rn (i & x & [= -> ->] & Hx)%elem_of_lookup_imap ->.
    apply (Hr company slots); [by left|].
    by eapply list_elem_of_lookup_2.
Qed.

(** The summary rows of a section are employee rows of none. *)
Lemma summary_rows_outside (grouped : gmap string (list RosterEntry))
    (company company' : string) (lo hi : Z) (slots : list Z) :
  (company, (lo, hi)) ∈ section_bounds grouped ->
  (company', slots) ∈ section_layout grouped ->
  hi + 1 ∉ slots ∧ hi + 3 ∉ slots.
Proof.
  unfold section_layout, section_bounds. cbv zeta.
  cbn [fmap list_fmap fst snd].
  pose proof (section_overflow_nonneg grouped "scanio_moving" 21) as N1.
  pose proof (section_overflow_nonneg grouped "scanio_storage" 7) as N2.
  pose proof (section_overflow_nonneg grouped "sea_and_air_intl" 10) as N3.
  pose proof (section_overflow_nonneg grouped "flat_price" 22) as N4.
  set (o1 := section_overflow grouped "scanio_moving" 21) in *.
  set (o2 := section_overflow grouped "scanio_storage" 7) in *.
  set (o3 := section_overflow grouped "sea_and_air_intl" 10) in *.
  set (o4 := section_overflow grouped "flat_price" 22) in *.
  rewrite !elem_of_cons, !elem_of_nil.
  intros [H|[H|[H|[H|[]]]]] [H'|[H'|[H'|[H'|[]]]]];
    injection H as -> -> ->; injection H' as -> ->;
    rewrite !elem_of_py_range; lia.
Qed.

End PlacementLoop.

(** ** Overflow *)

Section OverflowHandling.
Import ET Text PyFloat.

Variable nfkd : string -> string.

(** The summary formulas in the sheet [build_employee_rows_from_roster]
    returns are those of the bounds of the sections. *)
Lemma build_section_formulas (sheet_root root' : Element) (sd : nat)
    (roster_entries : list RosterEntry) (employee_rows : list EmployeeRow)
    (reimbursement_row : Z) :
  find_index tag_sheetData sheet_root = Some sd ->
  build_employee_rows_from_roster nfkd sheet_root sd roster_entries
  = Ok (root', employee_rows, reimbursement_row) ->
  ∃ st sheet_data',
    for_each (slot_step (group_roster nfkd roster_entries) sd)
      COMPANY_ROW_SLOTS (mkSlotState sheet_root [] []) = Ok st
    ∧ company_slots st = section_layout (group_roster nfkd roster_entries)
    ∧ children root' !! sd = Some sheet_data'
    ∧ ∀ company lo hi,
        (company, (lo, hi))
        ∈ section_bounds (group_roster nfkd roster_entries) ->
        section_formulas sheet_data' company lo hi.
Proof.
  intros Hsd. unfold build_employee_rows_from_roster. cbv zeta.
  set (grouped := group_roster nfkd roster_entries).
  intros (st & Hslots & H)%bind_Ok.
  destruct (slot_loop_layout _ _ _ _ Hsd Hslots) as [Hlayout Hsd'].
  destruct (children (slot_sheet st) !! sd) as [sheet_data|] eqn:Ec;
    [|done].
  cbn [mbind result_bind] in H.
  apply bind_Ok in H as ([sd_r rr] & Hrefresh & H).
  apply bind_Ok in H as (pst & Hplace & [= <- _ _]).
  rewrite Hlayout in Hrefresh, Hplace.
  apply refresh_layout_writes in Hrefresh.
  exists st, (place_sheet pst). split; [done|]. split; [done|]. split.
  { unfold set_child. cbn [children set_children].
    apply list_lookup_insert_eq. by eapply lookup_lt_Some. }
  intros company lo hi Hin.
  pose proof (summary_section_formulas _ _ _ _ _ _ Hrefresh Hin)
    as (HD & HM & HO & HQ & Hamount).
  assert (∀ r, r = hi + 1 ∨ r = hi + 3 ->
               row_at (place_sheet pst) r = row_at sd_r r) as Hrows.
  { intros r Hr.
    apply (place_loop_rows _ _ _ _ Hplace r).
    intros company' slots Hin'.
    destruct (summary_rows_outside _ _ _ _ _ _ Hin Hin') as [H1 H3].
    by destruct Hr as [->| ->]. }
  unfold section_formulas.
  rewrite !(formula_at_row sd_r (place_sheet pst) (hi + 1))
    by (apply Hrows; by left).
  rewrite !(formula_at_row sd_r (place_sheet pst) (hi + 3))
    by (apply Hrows; by right).
  done.
Qed.

(** C3: first, the loop body for a section with more entries than
    slots: the list of the section is its mapped slots followed by
    [overflow] new row numbers, which start right after its last slot;
    the insertion is recorded; and the sheet is shifted from there on
    and gets exactly [overflow] new rows with these numbers, each a
    clone of the row of the last slot.  Second, the whole function: the
    lists the placement works with are the extended ones, and in the
    sheet returned the section totals and the derived amounts of every
    section are sums over the rows from its first to its last employee
    row, the inserted ones included. *)
Theorem overflow_handling :
  (∀ (grouped : gmap string (list RosterEntry)) (sd : nat)
     (st st' : SlotState) (company : string) (base_slots : list Z),
     let slots :=
       (fun row_number =>
          map_row_with_insertions row_number (insertions st))
       <$> base_slots in
     let overflow :=
       Z.of_nat (length (default [] (grouped !! company)))
       - Z.of_nat (length slots) in
     find_index tag_sheetData (slot_sheet st) = Some sd ->
     0 < overflow ->
     slot_step grouped sd st (company, base_slots) = Ok st' ->
     ∃ last_slot,
       last slots = Some last_slot
       ∧ insertions st' = insertions st ++ [(last_slot + 1, overflow)]
       ∧ company_slots st'
         = company_slots st
           ++ [(company,
                slots
                ++ py_range (last_slot + 1) (last_slot + 1 + overflow))]
       ∧ overflow_inserted last_slot overflow sd
           (slot_sheet st) (slot_sheet st'))
  ∧ (∀ (sheet_root root' : Element) (sd : nat)
       (roster_entries : list RosterEntry)
       (employee_rows : list EmployeeRow) (reimbursement_row : Z),
       find_index tag_sheetData sheet_root = Some sd ->
       build_employee_rows_from_roster nfkd sheet_root sd roster_entries
       = Ok (root', employee_rows, reimbursement_row) ->
       ∃ st sheet_data',
         for_each (slot_step (group_roster nfkd roster_entries) sd)
           COMPANY_ROW_SLOTS (mkSlotState sheet_root [] []) = Ok st
         ∧ company_slots st
           = section_layout (group_roster nfkd roster_entries)
         ∧ children root' !! sd = Some sheet_data'
         ∧ ∀ company lo hi,
             (company, (lo, hi))
             ∈ section_bounds (group_roster nfkd roster_entries) ->
             section_formulas sheet_data' company lo hi).
Proof.
  split.
  - intros grouped sd st st' company base_slots slots overflow Hsd Hov H.
    destruct (slot_step_overflow grouped sd st st' company base_slots
                Hsd Hov H) as (last_slot & H1 & H2 & H3 & H4 & _).
    by exists last_slot.
  - intros. by eapply build_section_formulas.
Qed.

End OverflowHandling.

Section OverflowSample.
Import ET Text PyFloat.

(** C3, witness: nine employees in the section of seven slots, on the
    sample sheet. *)
Lemma overflow_handling_witness :
  (∃ st',
     slot_step (group_roster Sample.nfkd Sample.storage_roster) 1
       Sample.storage_state ("scanio_storage", py_range 33 40) = Ok st'
     ∧ overflow_inserted 39 2 1 Sample.worksheet (slot_sheet st'))
  ∧ (∃ root' employee_rows reimbursement_row sheet_data',
       build_employee_rows_from_roster Sample.nfkd Sample.worksheet 1
         Sample.storage_roster
       = Ok (root', employee_rows, reimbursement_row)
       ∧ children root' !! 1%nat = Some sheet_data'
       ∧ section_formulas sheet_data' "scanio_storage" 33 41).
Proof.
  destruct (overflow_handling Sample.nfkd) as [Hstep Hbuild].
  split.
  - assert (is_ok (slot_step
                     (group_roster Sample.nfkd Sample.storage_roster) 1
                     Sample.storage_state
                     ("scanio_storage", py_range 33 40)) = true) as Hok
      by (vm_compute; reflexivity).
    destruct (slot_step (group_roster Sample.nfkd Sample.storage_roster) 1
                Sample.storage_state ("scanio_storage", py_range 33 40))
      as [st'|] eqn:E; [|discriminate Hok].
    destruct (Hstep (group_roster Sample.nfkd Sample.storage_roster) 1%nat
                Sample.storage_state st' "scanio_storage" (py_range 33 40))
      as (last_slot & Hlast & _ & _ & Hov);
      [vm_compute; reflexivity|vm_compute; reflexivity|exact E|].
    vm_compute in Hlast. injection Hlast as <-.
    match type of Hov with
    | overflow_inserted _ ?o _ _ _ =>
        assert (o = 2) as Ho by (vm_compute; reflexivity);
        rewrite Ho in Hov
    end.
    exists st'. split; [reflexivity|exact Hov].
  - assert (is_ok (build_employee_rows_from_roster Sample.nfkd
                     Sample.worksheet 1 Sample.storage_roster) = true)
      as Hok by (vm_compute; reflexivity).
    destruct (build_employee_rows_from_roster Sample.nfkd Sample.worksheet 1
                Sample.storage_roster) as [[[root' rows] rr]|] eqn:E;
      [|discriminate Hok].
    destruct (Hbuild Sample.worksheet root' 1%nat Sample.storage_roster
                rows rr) as (st & sd' & _ & _ & Hc & Hf);
      [vm_compute; reflexivity|exact E|].
    exists root', rows, rr, sd'. split; [reflexivity|]. split; [exact Hc|].
    apply Hf. vm_compute. apply elem_of_cons. right.
    apply elem_of_cons. by left.
Defined.

End OverflowSample.

(** ** Cell references and columns *)

Section CellReferences.
Import Text Re ET.

Lemma span_app_stop (p : ascii -> bool) (a b : string) :
  all_chars p a = true ->
  (∀ c r, b = String c r -> p c = false) ->
  span p (a +:+ b) = (a, b).
Proof.
  intros Ha Hb. induction a as [|x a IH].
  - destruct b as [|c r]; [done|]. simpl. by rewrite (Hb c r).
  - simpl in *. apply andb_true_iff in Ha as [-> Ha]. by rewrite IH.
Qed.

Lemma span_whole (p : ascii -> bool) (a : string) :
  all_chars p a = true -> span p a = (a, "").
Proof.
  intros Ha. rewrite <- (append_nil_r a) at 1.
  by apply span_app_stop.
Qed.

(** What [CELL_REF_RE] matches at a cursor: the column is the whole run
    of capital letters, and the digits end in any of the ways of
    [run_splits]. *)
Lemma exec_cell_ref (q : option ascii) (s : string) (g : list string) :
  exec CELL_REF_RE (MState q s g)
  = match span is_upper s with
    | (String x a, s2) =>
        (fun ab => MState (last_char ab.1) ab.2 (g ++ [String x a; ab.1]))
        <$> run_splits is_digit s2
    | _ => []
    end.
Proof.
  unfold CELL_REF_RE. rewrite exec_seq, exec_group_plus.
  rewrite list_fmap_bind.
  pose proof (bind_run_splits is_upper (fun _ => true)
                (exec (Group (Plus (Chr is_digit)))
                 ∘ (fun ab : string * string =>
                      MState (last_char ab.1) ab.2 (g ++ [ab.1])))
                s) as H.
  assert (∀ l : list (string * string),
            filter (fun ab : string * string => true = true) l = l) as Hall.
  { induction l as [|ab l IH]; [done|].
    by rewrite filter_cons_True, IH by done. }
  rewrite Hall in H. rewrite H; clear H Hall.
  - destruct (span is_upper s) as [[|x a] s2]; [done|].
    cbn [compose fst snd]. rewrite exec_group_plus.
    apply list_fmap_ext. intros i [u v] _. cbn [fst snd].
    by rewrite <- app_assoc.
  - intros a c r Hc. cbn [compose fst snd]. rewrite exec_group_plus.
    cbn [run_splits]. by rewrite (upper_not_digit c Hc).
Qed.

(** The pattern matches a whole text when the text is a run of capital
    letters followed by a run of digits. *)
Lemma fullmatch_cell_ref (s : string) :
  fullmatch CELL_REF_RE s
  = match span is_upper s with
    | (String x a, s2) =>
        match span is_digit s2 with
        | (String d ds, EmptyString) => Some [String x a; String d ds]
        | _ => None
        end
    | _ => None
    end.
Proof.
  unfold fullmatch. rewrite exec_cell_ref.
  destruct (span is_upper s) as [[|x a] s2]; [done|].
  rewrite filter_fmap_rest by done. rewrite run_splits_full.
  by destruct (span is_digit s2) as [[|d ds] [|y b]].
Qed.

Lemma fullmatch_cell_ref_shape (col row_text : string) :
  col <> "" -> all_chars is_upper col = true ->
  row_text <> "" -> all_chars is_digit row_text = true ->
  fullmatch CELL_REF_RE (col +:+ row_text) = Some [col; row_text].
Proof.
  intros Hc Hu Hr Hd. rewrite fullmatch_cell_ref.
  rewrite (span_app_stop is_upper col row_text Hu).
  2:{ intros c r ->. simpl in Hd. apply andb_true_iff in Hd as [Hd _].
      by apply digit_not_upper. }
  destruct col as [|x a]; [done|].
  rewrite (span_whole is_digit row_text Hd).
  by destruct row_text.
Qed.


Lemma py_int_digits_text (row_text : string) :
  row_text <> "" -> all_chars is_digit row_text = true ->
  ∃ n, py_int row_text = Ok n ∧ digits_value row_text = Some n ∧ 0 <= n.
Proof.
  intros Hr Hd. destruct (digits_value_digits row_text Hr Hd) as (n & Hn & H0).
  exists n. split; [|done].
  destruct row_text as [|c r]; [done|].
  unfold py_int. rewrite Hn.
  simpl in Hd. apply andb_true_iff in Hd as [Hc _].
  destruct (Ascii.eqb_spec c "-") as [->|_]; [done|].
  destruct (Ascii.eqb_spec c "+") as [->|_]; [done|].
  destruct c as [[] [] [] [] [] [] [] []]; done.
Qed.

Lemma str_nonempty (n : Z) : 0 <= n -> str n <> "".
Proof.
  intros Hn. unfold str. destruct n as [|p|p]; [done| |lia].
  simpl. unfold NilZero.string_of_uint.
  pose proof (pos_to_uint_not_nil p) as Hp.
  destruct (Pos.to_uint p) eqn:E; try done;
    apply (string_of_uint_nonempty (_ _)); done.
Qed.

(** X1: a reference written as capital letters followed by the decimal
    text of a row number that is not negative is parsed back into its
    column and its row number. *)
Theorem parse_cell_ref_round_trip (col : string) (n : Z) :
  col <> "" -> all_chars is_upper col = true -> 0 <= n ->
  parse_cell_ref (col +:+ str n) = Ok (col, n).
Proof.
  intros Hc Hu Hn. unfold parse_cell_ref.
  rewrite (fullmatch_cell_ref_shape col (str n)); try done.
  - by rewrite py_int_str.
  - by apply str_nonempty.
  - by apply str_nonneg_digits.
Qed.

(** X1, witness: the reference AB120. *)
Lemma parse_cell_ref_round_trip_witness :
  parse_cell_ref "AB120" = Ok ("AB", 120).
Proof.
  apply (parse_cell_ref_round_trip "AB" 120); [done|reflexivity|lia].
Defined.


End CellReferences.

(** ** Column indexes *)

Section ColumnIndex.
Import Text Re ET.

Lemma column_index_from_acc (column : string) :
  ∀ value,
    column_index_from value column
    = value * 26 ^ Z.of_nat (String.length column)
      + column_index_from 0 column.
Proof.
  induction column as [|c s IH]; intros value.
  - simpl. lia.
  - cbn [column_index_from String.length].
    rewrite (IH (value * 26 + _)), (IH (0 * 26 + _)).
    rewrite Nat2Z.inj_succ, Z.pow_succ_r by lia. lia.
Qed.

Lemma column_index_cons (c : ascii) (s : string) :
  column_index (String c s)
  = (Z.of_nat (nat_of_ascii c) - 65 + 1) * 26 ^ Z.of_nat (String.length s)
    + column_index s.
Proof.
  unfold column_index. cbn [column_index_from].
  rewrite column_index_from_acc. lia.
Qed.

Lemma upper_digit (c : ascii) :
  is_upper c = true -> 1 <= Z.of_nat (nat_of_ascii c) - 65 + 1 <= 26.
Proof.
  unfold is_upper. intros [H1 H2]%andb_true_iff.
  apply Nat.leb_le in H1, H2. lia.
Qed.

Lemma column_index_bounds (s : string) :
  all_chars is_upper s = true ->
  26 ^ Z.of_nat (String.length s) - 1 <= 25 * column_index s
  ∧ 25 * column_index s <= 26 * (26 ^ Z.of_nat (String.length s) - 1).
Proof.
  induction s as [|c s IH]; intros Hs.
  - by vm_compute.
  - simpl in Hs. apply andb_true_iff in Hs as [Hc Hs].
    destruct (IH Hs) as [IH1 IH2].
    rewrite column_index_cons. cbn [String.length].
    rewrite Nat2Z.inj_succ, Z.pow_succ_r by lia.
    pose proof (upper_digit c Hc) as Hd.
    assert (0 < 26 ^ Z.of_nat (String.length s)) as Hp
      by (apply Z.pow_pos_nonneg; lia).
    nia.
Qed.

Lemma column_index_shorter (a b : string) :
  all_chars is_upper a = true -> all_chars is_upper b = true ->
  (String.length a < String.length b)%nat ->
  column_index a < column_index b.
Proof.
  intros Ha Hb Hl.
  destruct (column_index_bounds a Ha) as [_ H1].
  destruct (column_index_bounds b Hb) as [H2 _].
  assert (26 * 26 ^ Z.of_nat (String.length a)
          <= 26 ^ Z.of_nat (String.length b)) as Hp.
  { rewrite <- Z.pow_succ_r by lia. apply Z.pow_le_mono_r; lia. }
  lia.
Qed.

Lemma ascii_compare_nat (c1 c2 : ascii) :
  Ascii.compare c1 c2 = (nat_of_ascii c1 ?= nat_of_ascii c2)%nat.
Proof.
  unfold Ascii.compare, nat_of_ascii.
  by rewrite N2Nat.inj_compare.
Qed.

Lemma column_index_same_length (a : string) :
  ∀ b, all_chars is_upper a = true -> all_chars is_upper b = true ->
       String.length a = String.length b ->
       (column_index a ?= column_index b) = String.compare a b.
Proof.
  induction a as [|c1 a IH]; intros [|c2 b] Ha Hb Hl; try done.
  simpl in Ha, Hb. apply andb_true_iff in Ha as [Hc1 Ha].
  apply andb_true_iff in Hb as [Hc2 Hb].
  injection Hl as Hl.
  rewrite !column_index_cons, Hl. cbn [String.compare].
  rewrite ascii_compare_nat.
  pose proof (upper_digit c1 Hc1) as Hd1.
  pose proof (upper_digit c2 Hc2) as Hd2.
  destruct (column_index_bounds a Ha) as [A1 A2].
  destruct (column_index_bounds b Hb) as [B1 B2].
  rewrite Hl in A1, A2.
  assert (0 < 26 ^ Z.of_nat (String.length b)) as Hp
    by (apply Z.pow_pos_nonneg; lia).
  destruct (Nat.compare_spec (nat_of_ascii c1) (nat_of_ascii c2)) as [E|E|E].
  - rewrite E, Z.add_compare_mono_l. by apply IH.
  - apply Z.compare_lt_iff. nia.
  - apply Z.compare_gt_iff. nia.
Qed.

(** X3: two different column names made of capital letters have
    different column indexes. *)
Theorem column_index_distinct (a b : string) :
  all_chars is_upper a = true -> all_chars is_upper b = true ->
  a <> b -> column_index a <> column_index b.
Proof.
  intros Ha Hb Hab Heq.
  destruct (Nat.lt_total (String.length a) (String.length b)) as [Hl|[Hl|Hl]].
  - pose proof (column_index_shorter a b Ha Hb Hl). lia.
  - pose proof (column_index_same_length a b Ha Hb Hl) as Hc.
    rewrite Heq, Z.compare_refl in Hc. symmetry in Hc.
    by apply String.compare_eq_iff in Hc.
  - pose proof (column_index_shorter b a Hb Ha Hl). lia.
Qed.

(** X3, witness: the columns AZ and BA. *)
Lemma column_index_distinct_witness : column_index "AZ" <> column_index "BA".
Proof. apply column_index_distinct; [reflexivity|reflexivity|done]. Defined.

(** X4: [column_index] orders column names of capital letters as a sheet
    orders its columns: a shorter name has the smaller index, and names
    of one length are ordered alphabetically. *)
Theorem column_index_order (a b : string) :
  all_chars is_upper a = true -> all_chars is_upper b = true ->
  column_index a < column_index b <-> column_before a b.
Proof.
  intros Ha Hb. unfold column_before, String.ltb.
  destruct (Nat.lt_total (String.length a) (String.length b)) as [Hl|[Hl|Hl]].
  - pose proof (column_index_shorter a b Ha Hb Hl). split; [by left|done].
  - pose proof (column_index_same_length a b Ha Hb Hl) as Hc.
    rewrite <- Hc. rewrite <- Z.compare_lt_iff.
    split.
    + intros ->. by right.
    + intros [?|[_ H]]; [lia|]. by destruct (column_index a ?= column_index b).
  - pose proof (column_index_shorter b a Hb Ha Hl).
    split; [lia|]. intros [?|[? _]]; lia.
Qed.

(** X4, witness: column Z comes before column AA. *)
Lemma column_index_order_witness :
  column_index "Z" < column_index "AA" <-> column_before "Z" "AA".
Proof. apply column_index_order; reflexivity. Defined.

End ColumnIndex.

(** ** Insertion in order *)

Section OrderedInsert.
Import Text Re ET.

Variable key : Element -> option Z.

(** Inserting an element with key [t] at a position where every key
    before is at most [t] and the element there, if any, has a greater
    key, keeps the keys in order. *)
Lemma ordered_insert (cs : list Element) (j : nat) (new : Element) (t : Z) :
  key new = Some t ->
  Forall (fun y => y <= t) (omap key (take j cs)) ->
  (j = length cs ∨ ∃ c x, cs !! j = Some c ∧ key c = Some x ∧ t < x) ->
  (StronglySorted Z.le (omap key cs) ->
   StronglySorted Z.le (omap key (take j cs ++ new :: drop j cs)))
  ∧ (t ∉ omap key cs -> StronglySorted Z.lt (omap key cs) ->
     StronglySorted Z.lt (omap key (take j cs ++ new :: drop j cs))).
Proof.
  intros Hnew Hbefore Hat.
  rewrite <- (take_drop j cs) at 1 4 5.
  rewrite !omap_app. cbn [omap list_omap]. rewrite Hnew.
  rewrite Forall_forall in Hbefore.
  set (l1 := omap key (take j cs)) in *.
  set (l2 := omap key (drop j cs)) in *.
  assert (∀ R : relation Z,
            (∀ x y, t < x -> R x y -> R t y) -> (∀ x, t < x -> R t x) ->
            StronglySorted R l2 -> Forall (R t) l2) as Hafter.
  { intros R HR1 HR2 Hs. destruct Hat as [->|(c & x & Hc & Hx & Ht)].
    - subst l2. by rewrite drop_all.
    - subst l2. rewrite (drop_S _ _ _ Hc) in *. cbn [omap list_omap] in *.
      rewrite Hx in *. apply StronglySorted_cons in Hs as [Hs _].
      constructor; [by apply HR2|].
      eapply Forall_impl; [exact Hs|]. intros y Hy. by apply (HR1 x). }
  split.
  - intros (H12 & H1 & H2)%StronglySorted_app.
    apply StronglySorted_app_2; [|done|].
    + intros x1 x2 Hx1 [->|Hx2]%elem_of_cons; [by apply Hbefore|by apply H12].
    + apply StronglySorted_cons. split; [|done].
      apply Hafter; [intros; lia|intros; lia|done].
  - intros Hnot (H12 & H1 & H2)%StronglySorted_app.
    apply StronglySorted_app_2; [|done|].
    + intros x1 x2 Hx1 [->|Hx2]%elem_of_cons; [|by apply H12].
      pose proof (Hbefore x1 Hx1).
      assert (x1 <> t); [|lia].
      intros ->. apply Hnot. apply elem_of_app. by left.
    + apply StronglySorted_cons. split; [|done].
      apply Hafter; [intros; lia|intros; lia|done].
Qed.

End OrderedInsert.

Section CellOrder.
Import Text Re ET.

(** The position [insert_cell_in_order] finds. *)
Lemma cell_insert_position_spec (target_idx : Z) (cs : list Element) :
  ∀ k,
    match cell_insert_position target_idx cs k with
    | Some i =>
        ∃ j, i = (k + j)%nat
             ∧ Forall (fun y => y <= target_idx) (omap cell_column (take j cs))
             ∧ ∃ c x, cs !! j = Some c ∧ cell_column c = Some x
                      ∧ target_idx < x
    | None => Forall (fun y => y <= target_idx) (omap cell_column cs)
    end.
Proof.
  induction cs as [|c cs IH]; intros k; [by constructor|].
  cbn [cell_insert_position].
  assert (match cell_insert_position target_idx cs (S k) with
          | Some i =>
              ∃ j, i = (k + j)%nat
                   ∧ Forall (fun y => y <= target_idx)
                       (omap cell_column (take j (c :: cs)))
                   ∧ ∃ c' x, (c :: cs) !! j = Some c'
                             ∧ cell_column c' = Some x ∧ target_idx < x
          | None => Forall (fun y => y <= target_idx)
                      (omap cell_column (c :: cs))
          end
          ∨ ∃ x, cell_column c = Some x ∧ target_idx < x) as Hskip.
  { destruct (cell_column c) as [x|] eqn:Ec.
    - destruct (decide (target_idx < x)) as [Hx|Hx]; [right; eauto|left].
      specialize (IH (S k)).
      destruct (cell_insert_position target_idx cs (S k)) as [i|].
      + destruct IH as (j & -> & Hb & Hc). exists (S j).
        split; [lia|]. cbn [take omap list_omap lookup list_lookup].
        rewrite Ec. split; [|done]. constructor; [lia|done].
      + cbn [omap list_omap]. rewrite Ec. constructor; [lia|done].
    - left. specialize (IH (S k)).
      destruct (cell_insert_position target_idx cs (S k)) as [i|].
      + destruct IH as (j & -> & Hb & Hc). exists (S j).
        split; [lia|]. cbn [take omap list_omap lookup list_lookup].
        by rewrite Ec.
      + cbn [omap list_omap]. by rewrite Ec. }
  unfold cell_column in Hskip.
  destruct (has_tag tag_c c) eqn:Et; cbn [negb].
  2:{ destruct Hskip as [H|(x & ? & _)]; done. }
  destruct (fullmatch CELL_REF_RE (get_attr_default "r" "" c))
    as [[|col gs]|] eqn:Em.
  - destruct Hskip as [H|(x & ? & _)]; done.
  - destruct (target_idx <? column_index col) eqn:El.
    + apply Z.ltb_lt in El. exists O. split; [lia|]. split; [by constructor|].
      exists c, (column_index col). unfold cell_column. rewrite Et, Em.
      done.
    + apply Z.ltb_ge in El.
      destruct Hskip as [H|(x & [= <-] & ?)]; [done|lia].
  - destruct Hskip as [H|(x & ? & _)]; done.
Qed.

(** X5: [insert_cell_in_order] puts the new cell among the children of
    the row without losing or moving any of them, and when the cells of
    the row stand in column order, they still do with the new cell;
    when moreover no cell of the row is in the target column, the order
    stays strict. *)
Theorem insert_cell_in_order_sorted (row_elem new_cell row' : Element)
    (target_column : string) (ci : nat) :
  cell_column new_cell = Some (column_index target_column) ->
  insert_cell_in_order row_elem new_cell target_column = (row', ci) ->
  children row'
  = take ci (children row_elem) ++ new_cell :: drop ci (children row_elem)
  ∧ (ci <= length (children row_elem))%nat
  ∧ (StronglySorted Z.le (row_columns row_elem) ->
     StronglySorted Z.le (row_columns row'))
  ∧ (column_index target_column ∉ row_columns row_elem ->
     StronglySorted Z.lt (row_columns row_elem) ->
     StronglySorted Z.lt (row_columns row')).
Proof.
  intros Hnew. unfold insert_cell_in_order, row_columns.
  pose proof (cell_insert_position_spec (column_index target_column)
                (children row_elem) O) as Hpos.
  destruct (cell_insert_position (column_index target_column)
              (children row_elem) O) as [i|].
  - destruct Hpos as (j & -> & Hb & c & x & Hc & Hx & Hlt).
    intros [= <- <-]. cbn [insert_child set_children children Nat.add].
    split; [done|]. split; [apply lookup_lt_Some in Hc; lia|].
    apply (ordered_insert cell_column); [done|done|].
    right. by exists c, x.
  - intros [= <- <-]. cbn [append_child set_children children].
    rewrite firstn_all, drop_all. split; [done|]. split; [done|].
    pose proof (ordered_insert cell_column (children row_elem)
                  (length (children row_elem)) new_cell
                  (column_index target_column) Hnew) as H.
    rewrite firstn_all, drop_all in H. apply H; [done|by left].
Qed.

(** X5, witness: a cell for column A put into the sample row, whose
    cells are in columns C and D. *)
Lemma insert_cell_in_order_sorted_witness :
  ∃ row',
    insert_cell_in_order Sample.template_row
      (new_element tag_c {[ "r" := "A10" ]}) "A" = (row', O)
    ∧ children row'
      = new_element tag_c {[ "r" := "A10" ]} :: children Sample.template_row
    ∧ row_columns Sample.template_row = [3; 4]
    ∧ StronglySorted Z.lt (row_columns row').
Proof.
  destruct (insert_cell_in_order Sample.template_row
              (new_element tag_c {[ "r" := "A10" ]}) "A") as [row' ci] eqn:E.
  assert (ci = O) as -> by (by vm_compute in E; injection E as _ <-).
  assert (row_columns Sample.template_row = [3; 4]) as Hcols
    by (vm_compute; reflexivity).
  destruct (insert_cell_in_order_sorted Sample.template_row
              (new_element tag_c {[ "r" := "A10" ]}) row' "A" O)
    as (Hc & _ & _ & Hs); [vm_compute; reflexivity|exact E|].
  exists row'. split; [reflexivity|]. split; [exact Hc|].
  split; [exact Hcols|]. apply Hs.
  - rewrite Hcols.
    intros [H|[H|H%elem_of_nil]%elem_of_cons]%elem_of_cons;
      [discriminate H|discriminate H|exact H].
  - rewrite Hcols. repeat constructor.
Defined.

End CellOrder.

(** ** Rows in order *)

Section RowOrder.
Import Text Re ET.

(** The position [insert_row_in_order] finds. *)
Lemma row_insert_position_spec (target_row : Z) (cs : list Element) :
  ∀ k pos,
    row_insert_position target_row cs k = Ok pos ->
    match pos with
    | Some i =>
        ∃ j, i = (k + j)%nat
             ∧ Forall (fun y => y <= target_row)
                 (omap row_number_opt (take j cs))
             ∧ ∃ c x, cs !! j = Some c ∧ row_number_opt c = Some x
                      ∧ target_row < x
    | None => Forall (fun y => y <= target_row) (omap row_number_opt cs)
    end.
Proof.
  induction cs as [|c cs IH]; intros k pos.
  - intros [= <-]. constructor.
  - cbn [row_insert_position].
    destruct (has_tag tag_row c) eqn:Et; cbn [negb].
    + destruct (row_number_of c) as [n|e] eqn:En; [|done].
      assert (row_number_opt c = Some n) as Hopt
        by (unfold row_number_opt; by rewrite Et, En).
      cbn [mbind result_bind].
      destruct (target_row <? n) eqn:El.
      * intros [= <-]. apply Z.ltb_lt in El. exists O.
        split; [lia|]. split; [constructor|]. by exists c, n.
      * apply Z.ltb_ge in El. intros H. specialize (IH _ _ H).
        destruct pos as [i|].
        -- destruct IH as (j & -> & Hb & Hc). exists (S j).
           split; [lia|]. cbn [take omap list_omap lookup list_lookup].
           rewrite Hopt. split; [|done]. constructor; [lia|done].
        -- cbn [omap list_omap]. rewrite Hopt. constructor; [lia|done].
    + assert (row_number_opt c = None) as Hopt
        by (unfold row_number_opt; by rewrite Et).
      intros H. specialize (IH _ _ H).
      destruct pos as [i|].
      * destruct IH as (j & -> & Hb & Hc). exists (S j).
        split; [lia|]. cbn [take omap list_omap lookup list_lookup].
        by rewrite Hopt.
      * cbn [omap list_omap]. by rewrite Hopt.
Qed.

(** X6: [insert_row_in_order] puts the row among the children of the
    sheet data without losing or moving any of them, and when the rows
    stand in the order of their numbers, they still do with the new row;
    when moreover no row carries the number of the new row, the order
    stays strict. *)
Theorem insert_row_in_order_sorted (sheet_data row_elem sheet_data' : Element) :
  has_tag tag_row row_elem = true ->
  insert_row_in_order sheet_data row_elem = Ok sheet_data' ->
  ∃ pos target_row,
    row_number_of row_elem = Ok target_row
    ∧ (pos <= length (children sheet_data))%nat
    ∧ children sheet_data'
      = take pos (children sheet_data)
        ++ row_elem :: drop pos (children sheet_data)
    ∧ (StronglySorted Z.le (row_numbers sheet_data) ->
       StronglySorted Z.le (row_numbers sheet_data'))
    ∧ (target_row ∉ row_numbers sheet_data ->
       StronglySorted Z.lt (row_numbers sheet_data) ->
       StronglySorted Z.lt (row_numbers sheet_data')).
Proof.
  intros Ht. unfold insert_row_in_order, row_numbers.
  destruct (row_number_of row_elem) as [target_row|] eqn:En; [|done].
  cbn [mbind result_bind].
  destruct (row_insert_position target_row (children sheet_data) O)
    as [pos|] eqn:Ep; [|done].
  cbn [mbind result_bind].
  assert (row_number_opt row_elem = Some target_row) as Hnew
    by (unfold row_number_opt; by rewrite Ht, En).
  apply row_insert_position_spec in Ep.
  destruct pos as [i|]; intros [= <-].
  - destruct Ep as (j & -> & Hb & c & x & Hc & Hx & Hlt).
    exists j, target_row. cbn [insert_child set_children children Nat.add].
    split; [done|]. split; [apply lookup_lt_Some in Hc; lia|].
    split; [done|].
    apply (ordered_insert row_number_opt); [done|done|].
    right. by exists c, x.
  - exists (length (children sheet_data)), target_row.
    cbn [append_child set_children children].
    rewrite firstn_all, drop_all. split; [done|]. split; [done|].
    split; [done|].
    pose proof (ordered_insert row_number_opt (children sheet_data)
                  (length (children sheet_data)) row_elem target_row Hnew)
      as H.
    rewrite firstn_all, drop_all in H. apply H; [done|by left].
Qed.

(** X6, witness: a row numbered 12 put into the sample sheet data, whose
    rows are numbered 9, 10 and 16. *)
Lemma insert_row_in_order_sorted_witness :
  ∃ sheet_data',
    insert_row_in_order Sample.template_sheet_data (Sample.row "12" false [])
    = Ok sheet_data'
    ∧ row_numbers Sample.template_sheet_data = [9; 10; 16]
    ∧ row_numbers sheet_data' = [9; 10; 12; 16]
    ∧ StronglySorted Z.lt (row_numbers sheet_data').
Proof.
  destruct (insert_row_in_order Sample.template_sheet_data
              (Sample.row "12" false [])) as [sheet_data'|] eqn:E;
    [|by vm_compute in E].
  assert (row_numbers Sample.template_sheet_data = [9; 10; 16]) as Hrows
    by (vm_compute; reflexivity).
  destruct (insert_row_in_order_sorted Sample.template_sheet_data
              (Sample.row "12" false []) sheet_data')
    as (pos & n & Hn & _ & _ & _ & Hs); [vm_compute; reflexivity|exact E|].
  assert (n = 12) as -> by (vm_compute in Hn; by injection Hn as <-).
  exists sheet_data'. split; [reflexivity|]. split; [exact Hrows|].
  split; [vm_compute in E; injection E as <-; vm_compute; reflexivity|].
  apply Hs.
  - rewrite Hrows.
    intros [H|[H|[H|H%elem_of_nil]%elem_of_cons]%elem_of_cons]%elem_of_cons;
      [discriminate H|discriminate H|discriminate H|exact H].
  - rewrite Hrows. repeat constructor.
Defined.

End RowOrder.

(** ** Rows by number *)

Section RowAccess.
Import Text Re ET.

Lemma find_row_index_app (r : Z) (l1 l2 : list Element) :
  ∀ k,
    find_row_index r (l1 ++ l2) k
    = match find_row_index r l1 k with
      | Ok None => find_row_index r l2 (k + length l1)
      | found => found
      end.
Proof.
  induction l1 as [|c l1 IH]; intros k.
  - simpl. by rewrite Nat.add_0_r.
  - cbn [app find_row_index length].
    replace (k + S (length l1))%nat with (S k + length l1)%nat by lia.
    destruct (has_tag tag_row c); [|apply IH].
    destruct (row_number_of c) as [n|e]; [|done].
    cbn [mbind result_bind]. destruct (n =? r); [done|apply IH].
Qed.

Lemma find_row_index_None_rows (r : Z) (cs : list Element) :
  ∀ k, find_row_index r cs k = Ok None ->
       ∀ c, c ∈ cs -> has_tag tag_row c = true ->
            ∃ n, row_number_of c = Ok n ∧ n <> r.
Proof.
  induction cs as [|x cs IH]; intros k H c Hc Ht.
  - by apply elem_of_nil in Hc.
  - cbn [find_row_index] in H.
    apply elem_of_cons in Hc as [->|Hc].
    + rewrite Ht in H. destruct (row_number_of x) as [n|e]; [|done].
      cbn [mbind result_bind] in H.
      destruct (n =? r) eqn:E; [done|]. apply Z.eqb_neq in E. eauto.
    + destruct (has_tag tag_row x); [|by eapply IH].
      destruct (row_number_of x) as [n|e]; [|done].
      cbn [mbind result_bind] in H.
      destruct (n =? r); [done|by eapply IH].
Qed.

Lemma find_row_index_None_numbers (r : Z) (cs : list Element) (k : nat) :
  find_row_index r cs k = Ok None -> r ∉ omap row_number_opt cs.
Proof.
  intros H (c & Hc & Hn)%list_elem_of_omap.
  unfold row_number_opt in Hn.
  destruct (has_tag tag_row c) eqn:Et; [|done].
  destruct (find_row_index_None_rows r cs k H c Hc Et) as (n & En & Hne).
  rewrite En in Hn. congruence.
Qed.

(** The position [get_or_create_row] finds for a new row. *)
Lemma new_row_position_spec (r : Z) (cs : list Element) :
  ∀ k,
    match new_row_position r cs k with
    | Some i =>
        ∃ j, i = (k + j)%nat
             ∧ Forall (fun y => y <= r) (omap row_number_opt (take j cs))
             ∧ ∃ c x, cs !! j = Some c ∧ row_number_opt c = Some x ∧ r < x
    | None => Forall (fun y => y <= r) (omap row_number_opt cs)
    end.
Proof.
  induction cs as [|c cs IH]; intros k; [by constructor|].
  cbn [new_row_position].
  assert (∀ o, row_number_opt c = o ->
            (∀ x, o = Some x -> x <= r) ->
            match new_row_position r cs (S k) with
            | Some i =>
                ∃ j, i = (k + j)%nat
                     ∧ Forall (fun y => y <= r)
                         (omap row_number_opt (take j (c :: cs)))
                     ∧ ∃ c' x, (c :: cs) !! j = Some c'
                               ∧ row_number_opt c' = Some x ∧ r < x
            | None => Forall (fun y => y <= r) (omap row_number_opt (c :: cs))
            end) as Hskip.
  { intros o Ho Hle. specialize (IH (S k)).
    destruct (new_row_position r cs (S k)) as [i|].
    - destruct IH as (j & -> & Hb & Hc). exists (S j).
      split; [lia|]. cbn [take omap list_omap lookup list_lookup].
      rewrite Ho. split; [|done].
      destruct o as [x|]; [constructor; [by apply Hle|done]|done].
    - cbn [omap list_omap]. rewrite Ho.
      destruct o as [x|]; [constructor; [by apply Hle|done]|done]. }
  destruct (has_tag tag_row c) eqn:Et; cbn [negb].
  2:{ apply (Hskip None); [unfold row_number_opt; by rewrite Et|done]. }
  destruct (row_number_of c) as [n|e] eqn:En.
  2:{ apply (Hskip None); [unfold row_number_opt; by rewrite Et, En|done]. }
  assert (row_number_opt c = Some n) as Hopt
    by (unfold row_number_opt; by rewrite Et, En).
  destruct (r <? n) eqn:El.
  - apply Z.ltb_lt in El. exists O. split; [lia|]. split; [constructor|].
    by exists c, n.
  - apply Z.ltb_ge in El. apply (Hskip (Some n) Hopt). by intros x [= <-].
Qed.

Lemma lookup_inserted {A} (l : list A) (i : nat) (x : A) :
  (i <= length l)%nat -> (take i l ++ x :: drop i l) !! i = Some x.
Proof.
  intros Hi. rewrite lookup_app_r by (rewrite length_take_le; lia).
  by rewrite length_take_le, Nat.sub_diag by lia.
Qed.

(** The row [get_or_create_row] returns, and what it makes of the sheet
    data. *)
Lemma get_or_create_row_target (sheet_data sheet_data1 : Element)
    (r : Z) (ri : nat) :
  get_or_create_row sheet_data r = Ok (sheet_data1, ri) ->
  children sheet_data1 !! ri = Some (target_row_of sheet_data r)
  ∧ row_at sheet_data1 r = Some (target_row_of sheet_data r)
  ∧ match row_at sheet_data r with
    | Some _ => sheet_data1 = sheet_data
    | None =>
        (ri <= length (children sheet_data))%nat
        ∧ sheet_data1
          = insert_child ri (new_element tag_row {[ "r" := str r ]})
              sheet_data
    end.
Proof.
  intros H. apply get_or_create_row_spec in H as [Hri Hsd1].
  assert (row_at sheet_data1 r = children sheet_data1 !! ri) as Hat
    by apply (first_where_Some _ _ _ Hri).
  rewrite Hat. unfold target_row_of.
  destruct Hsd1 as [->|(Hnone & Hle & ->)].
  - rewrite Hat.
    destruct (index_where_Some _ _ _ Hri) as (row_elem & -> & _).
    done.
  - assert (row_at sheet_data r = None) as ->
      by apply (first_where_None _ _ Hnone).
    cbn [children set_children default].
    by rewrite lookup_inserted.
Qed.

(** X7: the row [get_or_create_row] returns is the first row of the
    sheet data with the number, when there is one, and the sheet data is
    then left as it is; otherwise it is a new row that carries the
    number and nothing else, put among the children of the sheet data at
    the index returned. *)
Theorem get_or_create_row_returns (sheet_data sheet_data1 : Element)
    (r : Z) (ri : nat) :
  get_or_create_row sheet_data r = Ok (sheet_data1, ri) ->
  children sheet_data1 !! ri = Some (target_row_of sheet_data r)
  ∧ row_at sheet_data1 r = Some (target_row_of sheet_data r)
  ∧ match row_at sheet_data r with
    | Some _ => sheet_data1 = sheet_data
    | None =>
        (ri <= length (children sheet_data))%nat
        ∧ sheet_data1
          = insert_child ri (new_element tag_row {[ "r" := str r ]})
              sheet_data
    end.
Proof. apply get_or_create_row_target. Qed.

(** X7, witness: row 12 of the sample sheet data, which has rows 9, 10
    and 16, is created between the rows 10 and 16; row 10 is found. *)
Lemma get_or_create_row_returns_witness :
  get_or_create_row Sample.template_sheet_data 12
  = Ok (insert_child 2 (new_element tag_row {[ "r" := "12" ]})
          Sample.template_sheet_data, 2%nat)
  ∧ row_at (insert_child 2 (new_element tag_row {[ "r" := "12" ]})
              Sample.template_sheet_data) 12
    = Some (new_element tag_row {[ "r" := "12" ]})
  ∧ get_or_create_row Sample.template_sheet_data 10
    = Ok (Sample.template_sheet_data, 1%nat).
Proof.
  assert (get_or_create_row Sample.template_sheet_data 12
          = Ok (insert_child 2 (new_element tag_row {[ "r" := "12" ]})
                  Sample.template_sheet_data, 2%nat)) as H
    by (vm_compute; reflexivity).
  split; [exact H|]. split; [|vm_compute; reflexivity].
  destruct (get_or_create_row_returns _ _ _ _ H) as (_ & Hrow & _).
  exact Hrow.
Defined.

(** X8: when the rows of the sheet data stand in the strict order of
    their numbers, they still do after [get_or_create_row]. *)
Theorem get_or_create_row_sorted (sheet_data sheet_data1 : Element)
    (r : Z) (ri : nat) :
  StronglySorted Z.lt (row_numbers sheet_data) ->
  get_or_create_row sheet_data r = Ok (sheet_data1, ri) ->
  StronglySorted Z.lt (row_numbers sheet_data1).
Proof.
  intros Hs. unfold get_or_create_row, row_numbers in *.
  destruct (find_row_index r (children sheet_data) O) as [found|] eqn:Ef;
    [|done].
  cbn [mbind result_bind]. destruct found as [i|]; [by intros [= <- <-]|].
  apply find_row_index_None_numbers in Ef.
  assert (row_number_opt (new_element tag_row {[ "r" := str r ]}) = Some r)
    as Hnew.
  { destruct (is_row_number r _ (is_row_new r)) as [Ht En].
    unfold row_number_opt. by rewrite Ht, En. }
  pose proof (new_row_position_spec r (children sheet_data) O) as Hpos.
  destruct (new_row_position r (children sheet_data) O) as [i|].
  - destruct Hpos as (j & -> & Hb & c & x & Hc & Hx & Hlt).
    intros [= <- <-]. cbn [insert_child set_children children Nat.add].
    apply (ordered_insert row_number_opt (children sheet_data) j _ r);
      [done|done| |done|done].
    right. by exists c, x.
  - intros [= <- <-]. cbn [append_child set_children children].
    pose proof (ordered_insert row_number_opt (children sheet_data)
                  (length (children sheet_data)) _ r Hnew) as H.
    rewrite firstn_all, drop_all in H. apply H; [done|by left|done|done].
Qed.

(** X8, witness: row 12 created in the sample sheet data. *)
Lemma get_or_create_row_sorted_witness :
  row_numbers Sample.template_sheet_data = [9; 10; 16]
  ∧ StronglySorted Z.lt
      (row_numbers (insert_child 2 (new_element tag_row {[ "r" := "12" ]})
                      Sample.template_sheet_data)).
Proof.
  assert (row_numbers Sample.template_sheet_data = [9; 10; 16]) as Hrows
    by (vm_compute; reflexivity).
  split; [exact Hrows|].
  apply (get_or_create_row_sorted Sample.template_sheet_data _ 12 2).
  - rewrite Hrows. repeat constructor.
  - vm_compute. reflexivity.
Defined.

(** X9: asking again for the row that [get_or_create_row] has returned
    gives the same row and changes nothing. *)
Theorem get_or_create_row_again (sheet_data sheet_data1 : Element)
    (r : Z) (ri : nat) :
  get_or_create_row sheet_data r = Ok (sheet_data1, ri) ->
  get_or_create_row sheet_data1 r = Ok (sheet_data1, ri).
Proof.
  intros H. pose proof H as H0. revert H. unfold get_or_create_row at 1.
  destruct (find_row_index r (children sheet_data) O) as [found|] eqn:Ef;
    [|done].
  cbn [mbind result_bind]. destruct found as [i|].
  { intros [= <- <-]. exact H0. }
  intros _.
  destruct (get_or_create_row_target _ _ _ _ H0) as (_ & _ & Hsd1).
  assert (row_at sheet_data r = None) as Hnone.
  { apply first_where_None. by apply find_row_index_None in Ef. }
  rewrite Hnone in Hsd1. destruct Hsd1 as [Hle ->].
  unfold get_or_create_row. cbn [insert_child children set_children].
  rewrite find_row_index_app.
  assert (find_row_index r (take ri (children sheet_data)) O = Ok None)
    as ->.
  { rewrite <- (take_drop ri (children sheet_data)) in Ef.
    rewrite find_row_index_app in Ef.
    by destruct (find_row_index r (take ri (children sheet_data)) O)
      as [[|]|]. }
  destruct (is_row_number r _ (is_row_new r)) as [Ht En].
  cbn [find_row_index]. rewrite Ht, En. cbn [mbind result_bind].
  rewrite Z.eqb_refl, length_take_le by lia. done.
Qed.

(** X9, witness: row 12 of the sample sheet data, created and asked for
    again. *)
Lemma get_or_create_row_again_witness :
  get_or_create_row Sample.template_sheet_data 12
  = Ok (insert_child 2 (new_element tag_row {[ "r" := "12" ]})
          Sample.template_sheet_data, 2%nat)
  ∧ get_or_create_row
      (insert_child 2 (new_element tag_row {[ "r" := "12" ]})
         Sample.template_sheet_data) 12
    = Ok (insert_child 2 (new_element tag_row {[ "r" := "12" ]})
            Sample.template_sheet_data, 2%nat).
Proof.
  assert (get_or_create_row Sample.template_sheet_data 12
          = Ok (insert_child 2 (new_element tag_row {[ "r" := "12" ]})
                  Sample.template_sheet_data, 2%nat)) as H
    by (vm_compute; reflexivity).
  split; [exact H|]. exact (get_or_create_row_again _ _ _ _ H).
Defined.




End RowAccess.

(** ** The setters *)

Section Setters.
Import Text Re ET PyFloat.

(** A change made to the target cell of a row: the cell found or created
    is changed and every other cell is as it was. *)
Lemma update_target_cell (row_elem row1 : Element)
    (target_ref column : string) (ci : nat) (g : Element -> Element) :
  (∀ c, tag (g c) = tag c ∧ get_attr "r" (g c) = get_attr "r" c) ->
  find_or_create_cell row_elem target_ref column = (row1, ci) ->
  let row' := update_child ci g row1 in
  tag row' = tag row_elem
  ∧ attrib row' = attrib row_elem
  ∧ cell_at row' target_ref = Some (g (target_cell row_elem target_ref))
  ∧ ∀ ref', ref' <> target_ref -> cell_at row' ref' = cell_at row_elem ref'.
Proof.
  intros Hg E. cbv zeta.
  apply find_or_create_cell_spec in E as [Hci Hrow1].
  destruct (index_where_Some _ _ _ Hci) as (cell & Hcell & Hp & _).
  destruct (Hg cell) as [Gt Gr].
  assert (tag row1 = tag row_elem ∧ attrib row1 = attrib row_elem) as [Ht Ha].
  { by destruct Hrow1 as [->|(_ & _ & ->)]. }
  assert (target_cell row_elem target_ref = cell) as Htarget.
  { unfold target_cell, cell_at.
    destruct Hrow1 as [->|(Hnone & Hle & ->)].
    - by rewrite (first_where_Some _ _ _ Hci), Hcell.
    - rewrite (first_where_None _ _ Hnone).
      cbn [children set_children] in Hcell.
      rewrite lookup_inserted in Hcell by done. by injection Hcell as <-. }
  rewrite update_child_set. cbn [tag attrib set_children].
  split; [done|]. split; [done|]. split.
  - unfold cell_at. cbn [children set_children].
    rewrite (first_where_alter_hit _ _ _ _ cell Hci Hcell).
    + by rewrite Htarget.
    + by rewrite (is_cell_same _ cell (g cell)).
  - intros ref' Hne. unfold cell_at. cbn [children set_children].
    rewrite first_where_alter_miss.
    2:{ intros x Hx. assert (x = cell) as -> by congruence.
        rewrite (is_cell_same ref' cell (g cell)) by done.
        split; by apply (is_cell_other target_ref). }
    destruct Hrow1 as [->|(_ & _ & ->)]; [done|].
    cbn [children set_children]. apply first_where_insert_miss.
    apply (is_cell_other target_ref); [apply is_cell_new|done].
Qed.

Lemma write_formula_written (cell_type : option string) (formula : string)
    (cell : Element) :
  cell_written cell (write_formula cell_type formula cell)
    (formula_cell_type cell_type) (mkElement tag_f ∅ (Some formula) None []).
Proof. unfold cell_written, write_formula. by destruct cell_type as [[|]|]. Qed.

(** X11: after [set_numeric_cell] without [preserve_formula], the cell of
    the column in the row is the cell that was there (or a new cell with
    the reference) without its type attribute and without its value,
    formula and inline string children, and with one new value child
    that holds the text of the number; every cell with another reference
    is as it was, and so are the tag and the attributes of the row. *)
Theorem set_numeric_cell_writes (row_elem : Element) (row_number : Z)
    (column : string) (value : float) :
  let target_ref := column +:+ str row_number in
  let row' := set_numeric_cell row_elem row_number column value false in
  tag row' = tag row_elem
  ∧ attrib row' = attrib row_elem
  ∧ (∃ cell',
       cell_at row' target_ref = Some cell'
       ∧ cell_written (target_cell row_elem target_ref) cell' None
           (mkElement tag_v ∅ (Some (format_decimal_for_excel value))
              None []))
  ∧ ∀ ref', ref' <> target_ref -> cell_at row' ref' = cell_at row_elem ref'.
Proof.
  cbv zeta. unfold set_numeric_cell. cbn [andb].
  destruct (find_or_create_cell row_elem (column +:+ str row_number) column)
    as [row1 ci] eqn:E.
  eapply update_target_cell in E as (Ht & Ha & Hc & Hf).
  - split; [exact Ht|]. split; [exact Ha|]. split; [|exact Hf].
    eexists. split; [exact Hc|]. done.
  - intros c. split; [done|].
    unfold get_attr, append_child, clear_content, pop_attr.
    cbn [attrib set_children set_attrib]. by rewrite lookup_delete_ne.
Qed.


(** X13: after [set_inline_string_cell], the cell of the column in the
    row is the cell that was there (or a new cell with the reference)
    with the type [inlineStr], without its value, formula and inline
    string children, and with one new inline string child that holds the
    text; every cell with another reference is as it was, and so are the
    tag and the attributes of the row. *)
Theorem set_inline_string_cell_writes (row_elem : Element) (row_number : Z)
    (column value : string) :
  let target_ref := column +:+ str row_number in
  let row' := set_inline_string_cell row_elem row_number column value in
  tag row' = tag row_elem
  ∧ attrib row' = attrib row_elem
  ∧ (∃ cell',
       cell_at row' target_ref = Some cell'
       ∧ cell_written (target_cell row_elem target_ref) cell'
           (Some "inlineStr")
           (mkElement tag_is ∅ None None
              [mkElement tag_t ∅ (Some value) None []]))
  ∧ ∀ ref', ref' <> target_ref -> cell_at row' ref' = cell_at row_elem ref'.
Proof.
  cbv zeta. unfold set_inline_string_cell.
  destruct (find_or_create_cell row_elem (column +:+ str row_number) column)
    as [row1 ci] eqn:E.
  eapply update_target_cell in E as (Ht & Ha & Hc & Hf).
  - split; [exact Ht|]. split; [exact Ha|]. split; [|exact Hf].
    eexists. split; [exact Hc|]. done.
  - intros c. split; [done|].
    unfold get_attr, append_child, clear_content, set_attr.
    cbn [attrib set_children set_attrib]. by rewrite lookup_insert_ne.
Qed.

(** A change made to the target row of a sheet data: the row found or
    created is changed and every other row is as it was. *)
Lemma update_target_row (sheet_data sheet_data1 : Element) (r : Z)
    (ri : nat) (g : Element -> Element) :
  (∀ c, tag (g c) = tag c ∧ attrib (g c) = attrib c) ->
  get_or_create_row sheet_data r = Ok (sheet_data1, ri) ->
  let sheet_data' := update_child ri g sheet_data1 in
  tag sheet_data' = tag sheet_data
  ∧ attrib sheet_data' = attrib sheet_data
  ∧ row_at sheet_data' r = Some (g (target_row_of sheet_data r))
  ∧ ∀ r', r' <> r -> row_at sheet_data' r' = row_at sheet_data r'.
Proof.
  intros Hg H. cbv zeta.
  destruct (get_or_create_row_tag _ _ _ _ H) as [Ht Ha].
  pose proof (get_or_create_row_spec _ _ _ _ H) as [Hri _].
  destruct (get_or_create_row_target _ _ _ _ H) as (Hrow & _ & _).
  rewrite update_child_set. cbn [tag attrib set_children].
  split; [done|]. split; [done|]. split.
  - unfold row_at. cbn [children set_children].
    rewrite (first_where_alter_hit _ _ _ _ _ Hri Hrow); [done|].
    destruct (Hg (target_row_of sheet_data r)) as [Gt Ga].
    rewrite (is_row_same r (target_row_of sheet_data r)) by done.
    by destruct (index_where_Some _ _ _ Hri) as (x & Hx & Hp & _);
      rewrite Hrow in Hx; injection Hx as <-.
  - intros r' Hr. rewrite <- (get_or_create_row_other _ _ _ _ _ H Hr).
    rewrite <- update_child_set. apply row_at_update_other with r; try done.
Qed.

(** X14: after [set_formula_cell], the cell of the column in the row with
    the number is the cell that was there (or a new cell with the
    reference, in a new row when there was none) with the type given, or
    without a type attribute when none or an empty one is given, without
    its value, formula and inline string children, and with one new
    formula child that holds the formula; reading the formula of the cell
    gives the formula written. *)
Theorem set_formula_cell_writes (sheet_data sheet_data' : Element) (r : Z)
    (column formula : string) (cell_type : option string) :
  set_formula_cell sheet_data r column formula cell_type = Ok sheet_data' ->
  formula_at sheet_data' r column = Some formula
  ∧ ∃ row' cell',
      row_at sheet_data' r = Some row'
      ∧ cell_at row' (column +:+ str r) = Some cell'
      ∧ cell_written
          (target_cell (target_row_of sheet_data r) (column +:+ str r))
          cell' (formula_cell_type cell_type)
          (mkElement tag_f ∅ (Some formula) None []).
Proof.
  intros H. split; [by eapply set_formula_cell_read|].
  revert H. unfold set_formula_cell.
  intros ([sd1 ri] & Hget & [= <-])%bind_Ok.
  eapply update_target_row in Hget as (_ & _ & Hrow & _).
  2:{ intros c. apply set_formula_in_row_same. }
  eexists _, _. split; [exact Hrow|].
  unfold set_formula_in_row.
  destruct (find_or_create_cell (target_row_of sheet_data r)
              (column +:+ str r) column) as [row1 ci] eqn:E.
  eapply update_target_cell in E as (_ & _ & Hc & _).
  - split; [exact Hc|]. apply write_formula_written.
  - intros c. destruct (write_formula_spec cell_type formula c) as (? & ? & _).
    done.
Qed.

(** X14, witness: a formula written into F12 of the sample sheet data,
    which has no row 12. *)
Lemma set_formula_cell_writes_witness :
  ∃ sheet_data',
    set_formula_cell Sample.template_sheet_data 12 "F" "SUM(F9:F10)" None
    = Ok sheet_data'
    ∧ row_at Sample.template_sheet_data 12 = None
    ∧ formula_at sheet_data' 12 "F" = Some "SUM(F9:F10)".
Proof.
  destruct (set_formula_cell Sample.template_sheet_data 12 "F" "SUM(F9:F10)"
              None) as [sheet_data'|] eqn:E; [|by vm_compute in E].
  exists sheet_data'. split; [reflexivity|].
  split; [vm_compute; reflexivity|].
  by destruct (set_formula_cell_writes _ _ _ _ _ _ E) as [H _].
Defined.

(** X15: [set_formula_cell] changes one cell: every row with another
    number is as it was, in the row with the number every cell with
    another reference is as it was, and so are the tag and the
    attributes of that row and of the sheet data. *)
Theorem set_formula_cell_frame_cells (sheet_data sheet_data' : Element)
    (r : Z) (column formula : string) (cell_type : option string) :
  set_formula_cell sheet_data r column formula cell_type = Ok sheet_data' ->
  tag sheet_data' = tag sheet_data
  ∧ attrib sheet_data' = attrib sheet_data
  ∧ (∀ r', r' <> r -> row_at sheet_data' r' = row_at sheet_data r')
  ∧ ∃ row',
      row_at sheet_data' r = Some row'
      ∧ tag row' = tag (target_row_of sheet_data r)
      ∧ attrib row' = attrib (target_row_of sheet_data r)
      ∧ ∀ ref', ref' <> column +:+ str r ->
                cell_at row' ref' = cell_at (target_row_of sheet_data r) ref'.
Proof.
  unfold set_formula_cell.
  intros ([sd1 ri] & Hget & [= <-])%bind_Ok.
  eapply update_target_row in Hget as (Ht & Ha & Hrow & Hother).
  2:{ intros c. apply set_formula_in_row_same. }
  split; [exact Ht|]. split; [exact Ha|]. split; [exact Hother|].
  eexists. split; [exact Hrow|].
  destruct (set_formula_in_row_spec r column formula cell_type
              (target_row_of sheet_data r)) as (Rt & Ra & _ & Rf).
  done.
Qed.

(** X15, witness: a formula written into D10 of the sample sheet data
    leaves the formula of C10 and row 9 as they are. *)
Lemma set_formula_cell_frame_cells_witness :
  ∃ sheet_data' row',
    set_formula_cell Sample.template_sheet_data 10 "D" "C10*2" None
    = Ok sheet_data'
    ∧ row_at sheet_data' 9 = row_at Sample.template_sheet_data 9
    ∧ row_at sheet_data' 10 = Some row'
    ∧ cell_at row' "C10" = cell_at Sample.template_row "C10".
Proof.
  destruct (set_formula_cell Sample.template_sheet_data 10 "D" "C10*2"
              None) as [sheet_data'|] eqn:E; [|by vm_compute in E].
  destruct (set_formula_cell_frame_cells _ _ _ _ _ _ E)
    as (_ & _ & Hrows & row' & Hrow & _ & _ & Hcells).
  exists sheet_data', row'. split; [reflexivity|].
  split; [by apply Hrows|]. split; [exact Hrow|].
  by apply (Hcells "C10").
Defined.

End Setters.

(** ** Rows after insertions *)

Section RowMapping.
Import Text Re ET.

Lemma map_row_with_insertions_cons (r start_row delta : Z)
    (insertions : list (Z * Z)) :
  map_row_with_insertions r ((start_row, delta) :: insertions)
  = map_row_with_insertions
      (if start_row <=? r then r + delta else r) insertions.
Proof. done. Qed.

(** X16: when no insertion has a negative count,
    [map_row_with_insertions] keeps the strict order of rows, moves no
    row up, and moves a row down by at most the number of rows
    inserted. *)
Theorem map_row_with_insertions_monotone (insertions : list (Z * Z))
    (r1 r2 : Z) :
  Forall (fun insertion => 0 <= insertion.2) insertions ->
  r1 < r2 ->
  map_row_with_insertions r1 insertions
  < map_row_with_insertions r2 insertions
  ∧ r1 <= map_row_with_insertions r1 insertions
           <= r1 + foldr Z.add 0 (snd <$> insertions).
Proof.
  intros Hd. revert r1 r2.
  induction Hd as [|[s d] l Hd _ IH]; intros r1 r2 Hr.
  - simpl. lia.
  - rewrite !map_row_with_insertions_cons. cbn [fmap list_fmap foldr snd].
    simpl in Hd.
    assert ((if s <=? r1 then r1 + d else r1)
            < (if s <=? r2 then r2 + d else r2)) as Hstep.
    { destruct (Z.leb_spec s r1), (Z.leb_spec s r2); lia. }
    destruct (IH _ _ Hstep) as [IH1 IH2].
    split; [done|]. destruct (Z.leb_spec s r1); lia.
Qed.

(** X16, witness: rows 39 and 47 after two rows inserted at row 26 and
    two at row 42. *)
Lemma map_row_with_insertions_monotone_witness :
  map_row_with_insertions 39 [(26, 2); (42, 2)] = 41
  ∧ map_row_with_insertions 47 [(26, 2); (42, 2)] = 51
  ∧ map_row_with_insertions 39 [(26, 2); (42, 2)]
    < map_row_with_insertions 47 [(26, 2); (42, 2)].
Proof.
  split; [reflexivity|]. split; [reflexivity|].
  apply (map_row_with_insertions_monotone [(26, 2); (42, 2)] 39 47);
    [repeat constructor; simpl; lia|lia].
Defined.

End RowMapping.

(** ** Ranges *)

Section Ranges.
Import Text Re ET.

Lemma strip_dollar_sign (sign s : string) :
  (sign = "" ∨ sign = "$") ->
  (∀ c r, s = String c r -> is_char "$" c = false) ->
  strip_dollar (sign +:+ s) = (sign, s).
Proof.
  intros [->| ->] Hs.
  - destruct s as [|c r]; [done|]. simpl. by rewrite (Hs c r).
  - done.
Qed.

Lemma digits_value_str (n : Z) : 0 <= n -> digits_value (str n) = Some n.
Proof.
  intros Hn. pose proof (py_int_str n) as H.
  pose proof (str_nonempty n Hn) as Hne.
  pose proof (str_nonneg_digits n Hn) as Hd.
  destruct (py_int_digits_text (str n) Hne Hd) as (m & Hm & Hv & _).
  congruence.
Qed.

(** Reading back a reference that has been written. *)
Lemma ref_at_render (t : ftoken) (rest : string) :
  ref_well_formed t ->
  (∀ c r, rest = String c r -> is_digit c = false) ->
  ref_at (render_token t +:+ rest)
  = match t with
    | TRef col_abs col row_abs row =>
        Some ([col_abs; col; row_abs; str row], rest)
    | TChar _ => None
    end.
Proof.
  destruct t as [|ca col ra n]; [done|].
  intros (Hca & Hra & Hu & Hl & Hn) Hrest.
  pose proof (str_nonempty n Hn) as Hne.
  pose proof (str_nonneg_digits n Hn) as Hd.
  unfold ref_at, ref_prefix. cbn [render_token].
  rewrite !append_assoc.
  assert (∃ x a, col = String x a ∧ is_upper x = true) as (x & a & Hcol & Hx).
  { destruct col as [|x a]; [simpl in Hl; lia|].
    simpl in Hu. apply andb_true_iff in Hu as [Hx _]. eauto. }
  assert (∃ d ds, str n = String d ds ∧ is_digit d = true)
    as (d & ds & Hstr & Hdig).
  { destruct (str n) as [|d ds]; [done|].
    simpl in Hd. apply andb_true_iff in Hd as [Hdig _]. eauto. }
  rewrite (strip_dollar_sign ca); [|done|].
  2:{ intros c r. rewrite Hcol. intros [= <- _]. by apply upper_not_dollar. }
  rewrite (span_app_stop is_upper col); [|done|].
  2:{ intros c r Hc. destruct Hra as [-> | ->].
      - rewrite Hstr in Hc. injection Hc as <- _. by apply digit_not_upper.
      - by injection Hc as <- _. }
  assert ((1 <=? String.length col)%nat && (String.length col <=? 3)%nat
          = true) as ->.
  { apply andb_true_iff. split; apply Nat.leb_le; lia. }
  rewrite (strip_dollar_sign ra); [|done|].
  2:{ intros c r. rewrite Hstr. intros [= <- _]. by apply digit_not_dollar. }
  rewrite (span_app_stop is_digit (str n) rest Hd Hrest).
  rewrite Hstr. done.
Qed.

Lemma ref_token_render (t : ftoken) :
  ref_well_formed t -> ref_token (render_token t) = Some t.
Proof.
  intros Ht. unfold ref_token.
  rewrite <- (append_nil_r (render_token t)).
  rewrite (ref_at_render t "" Ht) by done.
  destruct t as [|ca col ra n]; [done|].
  destruct Ht as (_ & _ & _ & _ & Hn). by rewrite digits_value_str.
Qed.

Lemma split_colon_once_app (a b : string) :
  has_char (is_char ":") a = false ->
  split_colon_once (a +:+ ":" +:+ b) = [a; b].
Proof.
  induction a as [|c a IH]; intros Ha; [done|].
  simpl in Ha. apply orb_false_iff in Ha as [Hc Ha].
  change (String c a +:+ ":" +:+ b) with (String c (a +:+ ":" +:+ b)).
  cbn [split_colon_once]. unfold is_char in Hc.
  rewrite Hc. by rewrite (IH Ha).
Qed.

Lemma split_colon_once_none (a : string) :
  has_char (is_char ":") a = false -> split_colon_once a = [a].
Proof.
  induction a as [|c a IH]; intros Ha; [done|].
  simpl in Ha. apply orb_false_iff in Ha as [Hc Ha].
  cbn [split_colon_once]. unfold is_char in Hc.
  rewrite Hc. by rewrite (IH Ha).
Qed.

Lemma render_token_no_colon (t : ftoken) :
  ref_well_formed t -> has_char (is_char ":") (render_token t) = false.
Proof.
  destruct t as [|ca col ra n]; [done|].
  intros (Hca & Hra & Hu & _ & Hn). cbn [render_token].
  rewrite !has_char_app.
  assert (has_char (is_char ":") ca = false) as ->
    by (by destruct Hca as [-> | ->]).
  assert (has_char (is_char ":") ra = false) as ->
    by (by destruct Hra as [-> | ->]).
  assert (∀ c, is_upper c = true -> is_char ":" c = false) as Hup.
  { intros c Hc. unfold is_char.
    destruct (Ascii.eqb_spec c ":") as [->|]; done. }
  assert (∀ c, is_digit c = true -> is_char ":" c = false) as Hdg.
  { intros c Hc. unfold is_char.
    destruct (Ascii.eqb_spec c ":") as [->|]; done. }
  rewrite (all_chars_no_char _ _ col Hup Hu).
  by rewrite (all_chars_no_char _ _ (str n) Hdg (str_nonneg_digits n Hn)).
Qed.

Lemma insert_token_zero (start_row : Z) (t : ftoken) :
  insert_token start_row 0 t = t.
Proof.
  destruct t as [|ca col ra n]; [done|]. cbn [insert_token].
  rewrite Z.add_0_r. by destruct (start_row <=? n).
Qed.

(** X17: on a range written as two references joined by a colon, and on
    a single reference, [shift_ref_rows] adds [delta] to the row of each
    reference whose row is [start_row] or more, and keeps the columns,
    the [$] signs and the colon. *)
Theorem shift_ref_rows_range (a b : ftoken) (start_row delta : Z) :
  ref_well_formed a -> ref_well_formed b ->
  shift_ref_rows (render_token a +:+ ":" +:+ render_token b) start_row delta
  = render_token (insert_token start_row delta a) +:+ ":"
      +:+ render_token (insert_token start_row delta b)
  ∧ shift_ref_rows (render_token a) start_row delta
    = render_token (insert_token start_row delta a).
Proof.
  intros Ha Hb. destruct (decide (delta = 0)) as [->|Hd].
  - rewrite !insert_token_zero. unfold shift_ref_rows.
    split.
    + by destruct (render_token a +:+ ":" +:+ render_token b).
    + by destruct (render_token a).
  - rewrite !shift_ref_rows_text by done. unfold insert_range_text.
    rewrite split_colon_once_app by (by apply render_token_no_colon).
    rewrite split_colon_once_none by (by apply render_token_no_colon).
    cbn [fmap list_fmap join_colon].
    by rewrite !ref_token_render.
Qed.

(** X17, witness: the dimension A1:Q120 and the merged range $B$20:$B$30
    after two rows inserted at row 26. *)
Lemma shift_ref_rows_range_witness :
  shift_ref_rows "A1:Q120" 26 2 = "A1:Q122"
  ∧ shift_ref_rows "$B$20:$B$30" 26 2 = "$B$20:$B$32".
Proof.
  split.
  - apply (shift_ref_rows_range (TRef "" "A" "" 1) (TRef "" "Q" "" 120) 26 2);
      (split; [by left|]); (split; [by left|]); (split; [reflexivity|]);
      simpl; lia.
  - apply (shift_ref_rows_range (TRef "$" "B" "$" 20) (TRef "$" "B" "$" 30)
             26 2);
      (split; [by right|]); (split; [by right|]); (split; [reflexivity|]);
      simpl; lia.
Defined.

End Ranges.

(** ** Recalculation and visibility *)

Section Recalculation.
Import Text Re ET.

Lemma recalc_attributes_twice (a : gmap string string) :
  recalc_attributes (recalc_attributes a) = recalc_attributes a.
Proof.
  unfold recalc_attributes. apply map_eq. intros k.
  destruct (decide ("calcMode" = k)) as [<-|H1];
    [by rewrite !lookup_insert_eq|].
  destruct (decide ("forceFullCalc" = k)) as [<-|H2].
  { by repeat (rewrite lookup_insert_eq || (rewrite lookup_insert_ne by done)). }
  destruct (decide ("fullCalcOnLoad" = k)) as [<-|H3].
  { by repeat (rewrite lookup_insert_eq || (rewrite lookup_insert_ne by done)). }
  by rewrite !lookup_insert_ne by done.
Qed.

(** What [ensure_recalc_on_open] makes of a workbook: the first
    calculation properties element, or a new one put after the other
    children, gets the three attributes. *)
Lemma ensure_recalc_on_open_eq (workbook_xml : Element) :
  ensure_recalc_on_open workbook_xml
  = match find_index tag_calcPr workbook_xml with
    | Some ci =>
        update_child ci (fun calc => set_attrib (recalc_attributes (attrib calc)) calc)
          workbook_xml
    | None =>
        append_child
          (mkElement tag_calcPr (recalc_attributes ∅) None None [])
          workbook_xml
    end.
Proof.
  unfold ensure_recalc_on_open.
  destruct (find_index tag_calcPr workbook_xml) as [ci|]; [done|].
  unfold update_child, append_child. cbn [children set_children].
  rewrite lookup_app_r, Nat.sub_diag by done. cbn [lookup list_lookup].
  unfold set_child. cbn [children set_children].
  rewrite insert_app_r_alt, Nat.sub_diag by done. done.
Qed.

Lemma find_append_child (t : string) (new e : Element) :
  find t (append_child new e)
  = match find t e with
    | Some c => Some c
    | None => if has_tag t new then Some new else None
    end.
Proof.
  rewrite !find_head. unfold findall, append_child.
  cbn [children set_children]. rewrite filter_app.
  destruct (filter (fun c => has_tag t c = true) (children e)) as [|c l];
    [|done].
  cbn [app]. destruct (has_tag t new) eqn:E.
  - by rewrite filter_cons_True.
  - by rewrite filter_cons_False by congruence.
Qed.

(** X18: in the workbook that [ensure_recalc_on_open] returns, the first
    calculation properties element carries the attributes
    [fullCalcOnLoad = 1], [forceFullCalc = 1] and [calcMode = auto] and
    is otherwise the element that was there, or a new element after the
    other children when there was none; the first element of every other
    tag, and the tag and the attributes of the workbook, are as they
    were. *)
Theorem ensure_recalc_on_open_sets (workbook_xml : Element) :
  let workbook_xml' := ensure_recalc_on_open workbook_xml in
  let old :=
    default (new_element tag_calcPr ∅) (find tag_calcPr workbook_xml) in
  find tag_calcPr workbook_xml'
  = Some (set_attrib (recalc_attributes (attrib old)) old)
  ∧ recalc_attributes (attrib old) !! "fullCalcOnLoad" = Some "1"
  ∧ recalc_attributes (attrib old) !! "forceFullCalc" = Some "1"
  ∧ recalc_attributes (attrib old) !! "calcMode" = Some "auto"
  ∧ (∀ k, k <> "fullCalcOnLoad" -> k <> "forceFullCalc" -> k <> "calcMode" ->
          recalc_attributes (attrib old) !! k = attrib old !! k)
  ∧ tag workbook_xml' = tag workbook_xml
  ∧ attrib workbook_xml' = attrib workbook_xml
  ∧ (∀ t, t <> tag_calcPr -> find t workbook_xml' = find t workbook_xml)
  ∧ length (children workbook_xml')
    = (length (children workbook_xml)
       + match find tag_calcPr workbook_xml with
         | Some _ => 0
         | None => 1
         end)%nat.
Proof.
  cbv zeta. rewrite ensure_recalc_on_open_eq.
  split; [|split; [|split; [|split; [|split]]]].
  2:{ unfold recalc_attributes.
      by rewrite !lookup_insert_ne, lookup_insert_eq by done. }
  2:{ unfold recalc_attributes.
      by rewrite lookup_insert_ne, lookup_insert_eq by done. }
  2:{ unfold recalc_attributes. by rewrite lookup_insert_eq. }
  - destruct (find_index tag_calcPr workbook_xml) as [ci|] eqn:Ei.
    + rewrite find_update_child by done.
      destruct (find_index_lookup _ _ _ Ei) as (c & _ & _ & ->).
      cbn [fmap option_fmap option_map default].
      by rewrite decide_True.
    + rewrite find_append_child. unfold find. rewrite Ei. done.
  - intros k H1 H2 H3. unfold recalc_attributes.
    by rewrite !lookup_insert_ne.
  - destruct (find_index tag_calcPr workbook_xml) as [ci|] eqn:Ei.
    + rewrite update_child_set. cbn [tag attrib set_children children].
      split; [done|]. split; [done|]. split.
      * intros t Ht. rewrite <- update_child_set.
        rewrite find_update_child by done.
        destruct (find t workbook_xml) as [c|] eqn:Ef; [|done].
        cbn [fmap option_fmap option_map].
        rewrite decide_False; [done|].
        intros Hi. destruct (find_index_lookup _ _ _ Ei) as (c1 & Hc1 & T1 & _).
        destruct (find_index_lookup _ _ _ Hi) as (c2 & Hc2 & T2 & _).
        assert (c2 = c1) as -> by congruence.
        by pose proof (has_tag_inj _ _ _ T1 T2).
      * rewrite length_alter.
        destruct (find_index_lookup _ _ _ Ei) as (c & _ & _ & ->). lia.
    + cbn [tag attrib append_child set_children children].
      split; [done|]. split; [done|]. split.
      * intros t Ht. rewrite find_append_child.
        destruct (find t workbook_xml); [done|].
        unfold has_tag. cbn [tag].
        destruct (String.eqb_spec tag_calcPr t); [congruence|done].
      * rewrite List.length_app. unfold find. rewrite Ei. done.
Qed.

(** X19: [ensure_recalc_on_open] changes nothing in a workbook it has
    already worked on. *)
Theorem ensure_recalc_on_open_twice (workbook_xml : Element) :
  ensure_recalc_on_open (ensure_recalc_on_open workbook_xml)
  = ensure_recalc_on_open workbook_xml.
Proof.
  rewrite (ensure_recalc_on_open_eq workbook_xml).
  destruct (find_index tag_calcPr workbook_xml) as [ci|] eqn:Ei.
  - rewrite ensure_recalc_on_open_eq.
    rewrite find_index_update_child, Ei by done.
    rewrite !update_child_set. cbn [children set_children].
    rewrite set_children_twice, list_alter_alter_eq. f_equal.
    apply list_alter_ext; [|done]. intros c _. unfold compose.
    unfold set_attrib. cbn [attrib tag text tail children].
    by rewrite recalc_attributes_twice.
  - rewrite ensure_recalc_on_open_eq.
    assert (find_index tag_calcPr
              (append_child
                 (mkElement tag_calcPr (recalc_attributes ∅) None None [])
                 workbook_xml)
            = Some (length (children workbook_xml))) as ->.
    { unfold find_index, append_child. cbn [children set_children].
      apply index_where_app_hit; [|done].
      intros y Hy. by eapply index_where_None. }
    rewrite update_child_set. unfold append_child.
    cbn [children set_children]. rewrite set_children_twice.
    rewrite alter_app_r_alt, Nat.sub_diag by done. cbn [alter list_alter].
    unfold set_attrib. cbn [attrib tag text tail children].
    by rewrite recalc_attributes_twice.
Qed.

End Recalculation.

Section VisibleAgain.
Import Text Re ET.

Lemma unhide_twice (e : Element) : unhide (unhide e) = unhide e.
Proof.
  unfold unhide. destruct (has_tag tag_row e) eqn:E; [|by rewrite E].
  assert (has_tag tag_row (pop_attr "hidden" e) = true) as -> by done.
  unfold pop_attr, set_attrib. cbn [attrib tag text tail children].
  by rewrite delete_delete_eq.
Qed.

(** X20: [ensure_all_rows_visible] changes nothing in a sheet it has
    already worked on. *)
Theorem ensure_all_rows_visible_twice (sheet_xml : Element) :
  ensure_all_rows_visible (ensure_all_rows_visible sheet_xml)
  = ensure_all_rows_visible sheet_xml.
Proof.
  rewrite (ensure_all_rows_visible_eq sheet_xml).
  destruct (find_index tag_sheetData sheet_xml) as [sd|] eqn:Ei.
  - rewrite ensure_all_rows_visible_eq.
    rewrite find_index_update_child, Ei by done.
    rewrite !update_child_set. cbn [children set_children].
    rewrite set_children_twice, list_alter_alter_eq. f_equal.
    apply list_alter_ext; [|done]. intros c _. unfold compose.
    cbn [children set_children]. rewrite set_children_twice.
    f_equal. rewrite <- list_fmap_compose.
    apply list_fmap_ext. intros i x _. apply unhide_twice.
  - rewrite ensure_all_rows_visible_eq. by rewrite Ei.
Qed.

End VisibleAgain.

(** ** Names *)

Section Tokens.
Import Text Re ET.

Lemma py_split_from_run (t : string) :
  ∀ cur s, all_chars (fun c => negb (is_space c)) t = true ->
           py_split_from cur (t +:+ s) = py_split_from (cur +:+ t) s.
Proof.
  induction t as [|c t IH]; intros cur s Ht.
  - by rewrite append_nil_r.
  - simpl in Ht. apply andb_true_iff in Ht as [Hc Ht].
    change (String c t +:+ s) with (String c (t +:+ s)).
    cbn [py_split_from]. apply negb_true_iff in Hc. rewrite Hc.
    rewrite (IH _ _ Ht). by rewrite append_assoc.
Qed.

Lemma py_split_from_space (cur s : string) :
  cur <> "" -> py_split_from cur (" " +:+ s) = cur :: py_split_from "" s.
Proof. intros Hc. simpl. by destruct cur. Qed.

Lemma py_split_from_end (cur : string) :
  cur <> "" -> py_split_from cur "" = [cur].
Proof. intros Hc. simpl. by destruct cur. Qed.

(** Splitting what has been joined gives the tokens back. *)
Lemma py_split_join (tokens : list string) :
  Forall (fun t => t <> ""
                   ∧ all_chars (fun c => negb (is_space c)) t = true) tokens ->
  py_split (join_space tokens) = tokens.
Proof.
  unfold py_split. induction 1 as [|t ts [Hne Ht] Hts IH]; [done|].
  destruct ts as [|t' ts].
  - cbn [join_space]. rewrite <- (append_nil_r t) at 1.
    rewrite py_split_from_run by done.
    by rewrite py_split_from_end.
  - change (join_space (t :: t' :: ts))
      with (t +:+ " " +:+ join_space (t' :: ts)).
    rewrite py_split_from_run by done.
    rewrite py_split_from_space by done. by rewrite IH.
Qed.

(** The tokens of a text are not empty and hold no whitespace, and
    their characters are characters of the text. *)
Lemma py_split_from_tokens (q : ascii -> bool) (s : string) :
  ∀ cur,
    all_chars (fun c => is_space c || q c) s = true ->
    all_chars q cur = true ->
    Forall (fun t => t <> "" ∧ all_chars q t = true) (py_split_from cur s).
Proof.
  induction s as [|c s IH]; intros cur Hs Hcur.
  - simpl. destruct cur; [constructor|]. by repeat constructor.
  - simpl in Hs. apply andb_true_iff in Hs as [Hc Hs].
    cbn [py_split_from]. destruct (is_space c) eqn:Esp.
    + destruct cur as [|x cur]; [by apply IH|].
      constructor; [done|by apply IH].
    + apply IH; [done|]. rewrite all_chars_app, Hcur. simpl.
      simpl in Hc. by rewrite Hc.
Qed.

End Tokens.

Section ClassRuns.
Import Text Re ET.

Variable p : ascii -> bool.

(** What [class+] matches at a cursor: the whole run of characters of
    the class that starts there, when there is one. *)
Lemma match_at_plus (q : option ascii) (s : string) :
  match_at (Plus (Chr p)) q s
  = match span p s with
    | (String x a, b) => Some (MState (last_char (String x a)) b [])
    | _ => None
    end.
Proof.
  unfold match_at. rewrite exec_plus.
  pose proof (run_splits_head p s) as H.
  destruct (run_splits p s) as [|ab l]; cbn [head fmap list_fmap] in *.
  - by destruct (span p s) as [[|x a] b].
  - destruct (span p s) as [[|x a] b]; [done|]. by injection H as ->.
Qed.

Lemma scan_from_plus (fuel : nat) :
  ∀ q s,
    Forall (fun pc => match pc with
                      | PChar c => p c = false
                      | PMatch _ _ => True
                      end)
      (scan_from fuel (Plus (Chr p)) q s).
Proof.
  induction fuel as [|fuel IH]; intros q s; [constructor|].
  cbn [scan_from]. rewrite match_at_plus.
  pose proof (span_app p s) as Happ.
  pose proof (span_rest p s) as Hrest.
  destruct (span p s) as [[|x a] b]; cbn [fst snd] in *.
  - destruct s as [|c s']; [constructor|].
    constructor; [by apply (Hrest c s')|apply IH].
  - destruct s as [|c s']; [done|].
    cbn [rest].
    assert (String.length (String c s') - String.length b
            = S (String.length a))%nat as ->.
    { rewrite Happ. change (String x a +:+ b) with (String x (a +:+ b)).
      cbn [String.length]. rewrite length_app. lia. }
    cbv beta iota. constructor; [done|apply IH].
Qed.

(** The characters of a text in which every run of the class has been
    replaced. *)
Lemma sub_plus_chars (repl : list string -> string) (q : ascii -> bool)
    (s : string) :
  (∀ gs, all_chars q (repl gs) = true) ->
  (∀ c, p c = false -> q c = true) ->
  all_chars q (Re.sub (Plus (Chr p)) repl s) = true.
Proof.
  intros Hrepl Hq. unfold Re.sub, scan.
  pose proof (scan_from_plus (S (String.length s)) None s) as H.
  induction H as [|pc l Hpc _ IH]; [done|].
  cbn [fmap list_fmap concat_text]. rewrite all_chars_app, IH.
  destruct pc as [c|t gs]; [|by rewrite Hrepl].
  simpl. by rewrite (Hq c Hpc).
Qed.

(** A text without a character of the class is left as it is. *)
Lemma scan_from_plus_none (fuel : nat) :
  ∀ q s, (String.length s <= fuel)%nat ->
         all_chars (fun c => negb (p c)) s = true ->
         concat_text
           ((fun pc => match pc with
                       | PChar c => String c ""
                       | PMatch _ gs => " "
                       end) <$> scan_from fuel (Plus (Chr p)) q s) = s.
Proof.
  induction fuel as [|fuel IH]; intros q s Hl Hs.
  - destruct s; [done|simpl in Hl; lia].
  - cbn [scan_from]. rewrite match_at_plus.
    destruct s as [|c s']; [done|].
    simpl in Hs. apply andb_true_iff in Hs as [Hc Hs].
    apply negb_true_iff in Hc. cbn [span]. rewrite Hc.
    cbn [fmap list_fmap concat_text]. rewrite IH; [done| |done].
    simpl in Hl. lia.
Qed.

End ClassRuns.

Section NormalizedNames.
Import Text Re ET.

Variable nfkd : string -> string.

Lemma name_char_space (c : ascii) :
  is_lower c || is_digit c || is_char " " c = true ->
  is_space c || (is_lower c || is_digit c) = true.
Proof.
  destruct (is_lower c), (is_digit c); rewrite ?orb_true_r; try done.
  simpl. unfold is_char. intros ->%Ascii.eqb_eq. done.
Qed.

Lemma all_chars_join_space (q : ascii -> bool) (tokens : list string) :
  q " "%char = true ->
  Forall (fun t => all_chars q t = true) tokens ->
  all_chars q (join_space tokens) = true.
Proof.
  intros Hsp. induction 1 as [|t ts Ht Hts IH]; [done|].
  destruct ts as [|t' ts]; [done|].
  change (join_space (t :: t' :: ts))
    with (t +:+ " " +:+ join_space (t' :: ts)).
  rewrite !all_chars_app, Ht, IH. simpl. by rewrite Hsp.
Qed.

Lemma filter_chars_all (q : ascii -> bool) (s : string) :
  all_chars q s = true -> filter_chars q s = s.
Proof.
  induction s as [|c s IH]; [done|]. simpl.
  intros [-> Hs]%andb_true_iff. by rewrite IH.
Qed.

Lemma map_chars_id (f : ascii -> ascii) (q : ascii -> bool) (s : string) :
  (∀ c, q c = true -> f c = c) -> all_chars q s = true -> map_chars f s = s.
Proof.
  intros Hf. induction s as [|c s IH]; [done|]. simpl.
  intros [Hc Hs]%andb_true_iff. by rewrite (Hf c Hc), IH.
Qed.

(** The tokens of a normalized name. *)
Lemma normalize_name_split (name : string) :
  normalize_name nfkd name = join_space (py_split (normalize_name nfkd name))
  ∧ Forall name_token (py_split (normalize_name nfkd name)).
Proof.
  unfold normalize_name at 2 3.
  set (text := Re.sub NOT_NAME_CHARS_RE (fun _ => " ") _).
  assert (Forall name_token (py_split text)) as Htokens.
  { apply py_split_from_tokens; [|done].
    eapply all_chars_impl; [apply name_char_space|].
    apply sub_plus_chars; [done|].
    intros c Hc. by apply negb_false_iff in Hc. }
  rewrite py_split_join.
  - done.
  - eapply Forall_impl; [exact Htokens|]. intros t [Hne Ht].
    split; [done|]. eapply all_chars_impl; [|exact Ht].
    intros c Hc. unfold is_lower, is_digit, is_space in *.
    destruct c as [[] [] [] [] [] [] [] []]; done.
Qed.

(** X21: a normalized name is made of tokens of lowercase letters and
    digits, one space between two tokens and no space before the first
    or after the last; splitting it gives the tokens back. *)
Theorem normalize_name_tokens (name : string) :
  ∃ tokens,
    normalize_name nfkd name = join_space tokens
    ∧ Forall name_token tokens
    ∧ py_split (normalize_name nfkd name) = tokens.
Proof.
  exists (py_split (normalize_name nfkd name)).
  destruct (normalize_name_split name) as [H1 H2]. done.
Qed.

(** X22: when the normalization form leaves ASCII text as it is,
    normalizing a normalized name changes nothing. *)
Theorem normalize_name_idempotent (name : string) :
  (∀ s, is_ascii s = true -> nfkd s = s) ->
  normalize_name nfkd (normalize_name nfkd name) = normalize_name nfkd name.
Proof.
  intros Hnfkd. destruct (normalize_name_split name) as [Hjoin Htokens].
  set (y := normalize_name nfkd name) in *.
  assert (all_chars (fun c => is_lower c || is_digit c || is_char " " c) y
          = true) as Hy.
  { rewrite Hjoin. apply all_chars_join_space; [done|].
    eapply Forall_impl; [exact Htokens|]. intros t [_ Ht].
    eapply all_chars_impl; [|exact Ht]. intros c ->. done. }
  unfold normalize_name at 1.
  rewrite Hnfkd.
  2:{ unfold is_ascii. eapply all_chars_impl; [|exact Hy].
      intros c Hc. unfold is_lower, is_digit, is_char in Hc.
      destruct c as [[] [] [] [] [] [] [] []]; done. }
  unfold ascii_ignore. rewrite filter_chars_all.
  2:{ eapply all_chars_impl; [|exact Hy].
      intros c Hc. unfold is_lower, is_digit, is_char in Hc.
      destruct c as [[] [] [] [] [] [] [] []]; done. }
  rewrite (map_chars_id lower_char _ y) with (2 := Hy).
  2:{ intros c Hc. unfold lower_char, is_upper.
      unfold is_lower, is_digit, is_char in Hc.
      destruct c as [[] [] [] [] [] [] [] []]; done. }
  assert (Re.sub NOT_NAME_CHARS_RE (fun _ => " ") y = y) as ->.
  { unfold Re.sub, scan, NOT_NAME_CHARS_RE.
    apply (scan_from_plus_none _ (S (String.length y)) None y); [lia|].
    eapply all_chars_impl; [|exact Hy]. intros c Hc.
    by rewrite negb_involutive. }
  by rewrite <- Hjoin.
Qed.

End NormalizedNames.

Section NormalizedNamesSample.
Import Text Re ET.

(** X22, witness: a name with capitals, punctuation and repeated
    spaces. *)
Lemma normalize_name_idempotent_witness :
  normalize_name Sample.nfkd "  Mary-Ann   O'Neil 3rd " = "mary ann o neil 3rd"
  ∧ normalize_name Sample.nfkd
      (normalize_name Sample.nfkd "  Mary-Ann   O'Neil 3rd ")
    = normalize_name Sample.nfkd "  Mary-Ann   O'Neil 3rd ".
Proof.
  split; [vm_compute; reflexivity|].
  apply normalize_name_idempotent. intros s _. reflexivity.
Defined.

End NormalizedNamesSample.

(** ** Identity resolution: the exact pass *)

Section ExactPass.
Import Text Re ET.

Variable nfkd : string -> string.
Variable ratio : string -> string -> float.

(** A source name whose normalized form is that of one workbook name
    only, not claimed yet, is given this name. *)
Lemma choose_exact (workbook_names : list string) (used : gset string)
    (source_name c : string) :
  filter (fun w => normalize_name nfkd w = normalize_name nfkd source_name)
    workbook_names = [c] ->
  c ∉ used ->
  choose nfkd ratio workbook_names
    (index_by (normalize_name nfkd) workbook_names)
    (index_by (fun w => name_first_last (normalize_name nfkd w))
       workbook_names)
    used source_name = Some c.
Proof.
  intros Hf Hc. unfold choose. rewrite index_by_lookup, Hf.
  unfold available. by rewrite filter_cons_True.
Qed.

Lemma exact_loop (workbook_names : list string) (target : string -> string)
    (qs : list string) :
  ∀ st,
    NoDup (target <$> qs) ->
    (∀ q, q ∈ qs -> target q ∉ used_workbook_names st) ->
    (∀ q, q ∈ qs ->
          filter (fun w => normalize_name nfkd w = normalize_name nfkd q)
            workbook_names = [target q]) ->
    let st' :=
      foldl (match_step nfkd ratio workbook_names
               (index_by (normalize_name nfkd) workbook_names)
               (index_by (fun w => name_first_last (normalize_name nfkd w))
                  workbook_names)) st qs in
    unmatched_sources st' = unmatched_sources st
    ∧ (∀ q, q ∈ qs -> source_to_workbook st' !! q = Some (target q))
    ∧ (∀ q, q ∉ qs ->
            source_to_workbook st' !! q = source_to_workbook st !! q).
Proof.
  induction qs as [|q0 qs IH]; intros st Hnd Hused Hone; cbv zeta.
  - split; [done|]. split; [by intros q ?%elem_of_nil|done].
  - cbn [foldl]. rewrite fmap_cons in Hnd. apply NoDup_cons in Hnd as [Hq0 Hnd].
    assert (match_step nfkd ratio workbook_names
              (index_by (normalize_name nfkd) workbook_names)
              (index_by (fun w => name_first_last (normalize_name nfkd w))
                 workbook_names) st q0
            = mkMatchState ({[target q0]} ∪ used_workbook_names st)
                (<[q0 := target q0]> (source_to_workbook st))
                (unmatched_sources st)) as ->.
    { unfold match_step.
      by rewrite (choose_exact workbook_names _ q0 (target q0))
        by (try apply Hone; try apply Hused; by left). }
    match goal with
    | |- context [foldl ?f ?s qs] => destruct (IH s) as (I1 & I2 & I3)
    end; [done| |by intros q Hq; apply Hone; right|].
    { intros q Hq. cbn [used_workbook_names].
      apply not_elem_of_union. split; [|by apply Hused; right].
      apply not_elem_of_singleton. intros Heq. apply Hq0. rewrite <- Heq.
      by apply list_elem_of_fmap_2. }
    cbv zeta in I1, I2, I3. cbn [unmatched_sources source_to_workbook] in *.
    split; [done|]. split.
    + intros q [->|Hq]%elem_of_cons.
      * destruct (decide (q0 ∈ qs)) as [Hin|Hin]; [by apply I2|].
        by rewrite I3, lookup_insert_eq.
      * by apply I2.
    + intros q Hq. apply not_elem_of_cons in Hq as [Hne Hq].
      by rewrite I3, lookup_insert_ne.
Qed.

(** X23: when every source name has the normalized form of exactly one
    workbook name, and different source names have different such
    workbook names, [match_names] gives every source name that workbook
    name and leaves no source name unmatched, whatever the similarity
    of the names is. *)
Theorem match_names_exact (workbook_names source_names : list string)
    (target : string -> string) :
  NoDup (target <$> source_names) ->
  (∀ q, q ∈ source_names ->
        filter (fun w => normalize_name nfkd w = normalize_name nfkd q)
          workbook_names = [target q]) ->
  let result := match_names nfkd ratio workbook_names source_names in
  (∀ q, q ∈ source_names -> result.1 !! q = Some (target q))
  ∧ (∀ q, q ∉ source_names -> result.1 !! q = None)
  ∧ result.2 = [].
Proof.
  intros Hnd Hone. cbv zeta. unfold match_names, match_loop. cbn [fst snd].
  destruct (exact_loop workbook_names target source_names
              (mkMatchState ∅ ∅ []) Hnd) as (I1 & I2 & I3);
    [by intros|done|].
  cbv zeta in I1, I2, I3. split; [done|]. split; [|done].
  intros q Hq. by rewrite I3.
Qed.

(** X24: without workbook names every source name is left unmatched, in
    the order of the source names. *)
Theorem match_names_no_candidates (source_names : list string) :
  match_names nfkd ratio [] source_names = (∅, source_names).
Proof.
  unfold match_names, match_loop.
  assert (∀ st,
            foldl (match_step nfkd ratio []
                     (index_by (normalize_name nfkd) [])
                     (index_by
                        (fun w => name_first_last (normalize_name nfkd w))
                        [])) st source_names
            = mkMatchState (used_workbook_names st) (source_to_workbook st)
                (unmatched_sources st ++ source_names)) as H.
  { induction source_names as [|q qs IH]; intros st.
    - rewrite app_nil_r. by destruct st.
    - cbn [foldl]. rewrite IH. unfold match_step, choose, index_by.
      cbn [foldl]. rewrite !lookup_empty.
      cbn [default available filter list_filter fuzzy_pass fuzzy_scored
             fmap list_fmap py_sorted stable_sort rev foldr fuzzy_gate
             used_workbook_names source_to_workbook unmatched_sources].
      by rewrite <- app_assoc. }
  by rewrite H.
Qed.

End ExactPass.

Section ExactPassSample.
Import Text Re ET.

(** X23, witness: two source names that differ from the roster names in
    case and spacing only. *)
Lemma match_names_exact_witness :
  (match_names Sample.nfkd Sample.ratio Sample.roster_names
     ["jonathan  smith"; "MARIA LOPEZ"]).1 !! "MARIA LOPEZ"
  = Some "Maria Lopez"
  ∧ (match_names Sample.nfkd Sample.ratio Sample.roster_names
       ["jonathan  smith"; "MARIA LOPEZ"]).2 = [].
Proof.
  destruct (match_names_exact Sample.nfkd Sample.ratio Sample.roster_names
              ["jonathan  smith"; "MARIA LOPEZ"]
              (fun q => if String.eqb q "MARIA LOPEZ" then "Maria Lopez"
                        else "Jonathan Smith")) as (H1 & _ & H3).
  - cbn [fmap list_fmap String.eqb Ascii.eqb Bool.eqb].
    apply NoDup_cons. split; [|apply NoDup_singleton].
    intros H%list_elem_of_singleton. discriminate H.
  - intros q Hq.
    repeat (apply elem_of_cons in Hq as [->|Hq]; [vm_compute; reflexivity|]).
    by apply elem_of_nil in Hq.
  - split; [|exact H3]. apply H1.
    apply elem_of_cons. right. apply elem_of_cons. by left.
Defined.

End ExactPassSample.

(** ** Grouping the roster *)

Section Grouping.
Import Text Re ET.

Variable nfkd : string -> string.

(** The dictionary of the first loop maps a company to the entries that
    have it, in their order, and holds no company without an entry. *)
Lemma grouped_lookup (roster_entries : list RosterEntry) (company : string) :
  foldl (fun (grouped : gmap string (list RosterEntry)) entry =>
           <[home_company entry :=
               default [] (grouped !! home_company entry) ++ [entry]]>
             grouped)
    ∅ roster_entries !! company
  = match filter (fun e => home_company e = company) roster_entries with
    | [] => None
    | group => Some group
    end.
Proof.
  induction roster_entries as [|e es IH] using rev_ind; [done|].
  rewrite foldl_app, filter_app. cbn [foldl].
  destruct (decide (home_company e = company)) as [<-|Hne].
  - rewrite lookup_insert_eq, IH.
    rewrite (filter_cons_True _ e []) by done.
    by destruct (filter _ es).
  - rewrite lookup_insert_ne, IH by done.
    rewrite (filter_cons_False _ e []) by done. by rewrite app_nil_r.
Qed.

Lemma StronglySorted_weaken {A} (R R' : A -> A -> Prop) (l : list A) :
  (∀ a b, R a b -> R' a b) -> StronglySorted R l -> StronglySorted R' l.
Proof.
  intros HR. induction 1 as [|x l Hs IH Hx]; constructor; [done|].
  eapply Forall_impl; [exact Hx|]. intros y. apply HR.
Qed.

(** The group of a company: its entries, sorted by normalized name. *)
Lemma group_roster_lookup (roster_entries : list RosterEntry)
    (company : string) :
  default [] (group_roster nfkd roster_entries !! company)
  = py_sorted
      (fun a b =>
         String.ltb (normalize_name nfkd (name a))
           (normalize_name nfkd (name b))) false
      (filter (fun e => home_company e = company) roster_entries).
Proof.
  unfold group_roster. rewrite lookup_fmap, grouped_lookup.
  by destruct (filter _ roster_entries).
Qed.

Lemma group_roster_perm (roster_entries : list RosterEntry)
    (company : string) :
  default [] (group_roster nfkd roster_entries !! company)
  ≡ₚ filter (fun e => home_company e = company) roster_entries.
Proof. rewrite group_roster_lookup. apply py_sorted_perm. Qed.

(** X25: [group_roster] puts every entry of the roster into the group of
    its home company and nowhere else, none twice; a company without an
    entry has no group; and each group is in the order of the normalized
    names of its entries. *)
Theorem group_roster_partition (roster_entries : list RosterEntry)
    (company : string) :
  let group := default [] (group_roster nfkd roster_entries !! company) in
  group ≡ₚ filter (fun e => home_company e = company) roster_entries
  ∧ (group_roster nfkd roster_entries !! company = None
     <-> filter (fun e => home_company e = company) roster_entries = [])
  ∧ StronglySorted
      (fun a b =>
         String.ltb (normalize_name nfkd (name b))
           (normalize_name nfkd (name a)) = false)
      group.
Proof.
  cbv zeta. split; [apply group_roster_perm|]. split.
  - unfold group_roster. rewrite lookup_fmap, grouped_lookup.
    by destruct (filter _ roster_entries).
  - rewrite group_roster_lookup. unfold py_sorted.
    pose proof (stable_sort_sorted
                  (fun a b : RosterEntry =>
                     String.ltb (normalize_name nfkd (name a))
                       (normalize_name nfkd (name b)))
                  (fun _ => True)
                  (fun a b =>
                     String.ltb (normalize_name nfkd (name a))
                       (normalize_name nfkd (name b)) = true)) as H.
    eapply StronglySorted_weaken; [|apply H].
    + intros a b Hab. simpl in Hab. by destruct (String.ltb _ _).
    + done.
    + intros x Hx. by rewrite string_ltb_irrefl in Hx.
    + intros x y z. apply string_ltb_trans.
    + by apply Forall_forall.
Qed.

End Grouping.

(** ** Placing the roster *)

Section Placing.
Import Text Re ET PyFloat.

Lemma place_row_employee (company : string)
    (company_entries : list RosterEntry) (st st' : PlaceState) (idx : nat)
    (row_number : Z) :
  place_row company company_entries st (idx, row_number) = Ok st' ->
  employee_triple <$> employee_rows st'
  = (employee_triple <$> employee_rows st)
    ++ match company_entries !! idx with
       | Some entry => [(row_number, name entry, company)]
       | None => []
       end.
Proof.
  unfold place_row.
  intros ([sd1 ri] & _ & H)%bind_Ok.
  apply bind_Ok in H as (sd2 & _ & H).
  destruct (company_entries !! idx) as [entry|]; injection H as <-;
    cbn [employee_rows].
  - by rewrite fmap_app.
  - by rewrite app_nil_r.
Qed.

Lemma place_slots_employee (company : string)
    (company_entries : list RosterEntry) (slots : list Z) :
  ∀ k st st',
    for_each (place_row company company_entries)
      (imap (fun idx row_number => ((k + idx)%nat, row_number)) slots) st
    = Ok st' ->
    employee_triple <$> employee_rows st'
    = (employee_triple <$> employee_rows st)
      ++ zip_with (fun row_number entry => (row_number, name entry, company))
           slots (drop k company_entries).
Proof.
  induction slots as [|rn slots IH]; intros k st st' H.
  - injection H as <-. by rewrite app_nil_r.
  - cbn [imap for_each] in H. apply bind_Ok in H as (st1 & H1 & H).
    rewrite Nat.add_0_r in H1. apply place_row_employee in H1.
    rewrite (imap_ext _ (fun idx row_number => ((S k + idx)%nat, row_number)))
      in H by (intros i x _; unfold compose; f_equal; lia).
    rewrite (IH _ _ _ H), H1, <- app_assoc. f_equal.
    destruct (company_entries !! k) as [entry|] eqn:E.
    + by rewrite (drop_S _ _ _ E).
    + apply lookup_ge_None in E.
      rewrite !drop_ge by lia. by destruct slots.
Qed.

Lemma place_loop_employee (grouped : gmap string (list RosterEntry))
    (company_slots : list (string * list Z)) :
  ∀ st st',
    for_each
      (fun st '(company, slots) =>
         let company_entries := default [] (grouped !! company) in
         for_each (place_row company company_entries)
           (imap (fun idx row_number => (idx, row_number)) slots) st)
      company_slots st = Ok st' ->
    employee_triple <$> employee_rows st'
    = (employee_triple <$> employee_rows st)
      ++ (company_slots
          ≫= (fun section : string * list Z =>
                zip_with
                  (fun row_number entry =>
                     (row_number, name entry, section.1))
                  section.2 (default [] (grouped !! section.1)))).
Proof.
  induction company_slots as [|[company slots] cs IH]; intros st st' H.
  - injection H as <-. by rewrite app_nil_r.
  - cbn [for_each] in H. apply bind_Ok in H as (st1 & H1 & H).
    cbv zeta in H1.
    apply (place_slots_employee company _ slots O) in H1.
    rewrite (IH _ _ H), H1, <- app_assoc. done.
Qed.

End Placing.

Section EmployeeRows.
Import Text Re ET PyFloat.

Variable nfkd : string -> string.

(** The employee rows [build_employee_rows_from_roster] returns. *)
Lemma build_employee_rows (sheet_root root' : Element) (sd : nat)
    (roster_entries : list RosterEntry) (employee_rows : list EmployeeRow)
    (reimbursement_row : Z) :
  find_index tag_sheetData sheet_root = Some sd ->
  build_employee_rows_from_roster nfkd sheet_root sd roster_entries
  = Ok (root', employee_rows, reimbursement_row) ->
  employee_triple <$> employee_rows
  = placed_rows (group_roster nfkd roster_entries).
Proof.
  intros Hsd. unfold build_employee_rows_from_roster. cbv zeta.
  set (grouped := group_roster nfkd roster_entries).
  intros (st & Hslots & H)%bind_Ok.
  destruct (slot_loop_layout _ _ _ _ Hsd Hslots) as [Hlayout Hsd'].
  destruct (children (slot_sheet st) !! sd) as [sheet_data|] eqn:Ec;
    [|done].
  cbn [mbind result_bind] in H.
  apply bind_Ok in H as ([sd_r rr] & Hrefresh & H).
  apply bind_Ok in H as (pst & Hplace & [= _ <- _]).
  rewrite Hlayout in Hplace.
  by apply place_loop_employee in Hplace.
Qed.


End EmployeeRows.

Section EmployeeRowsSample.
Import Text Re ET PyFloat.


End EmployeeRowsSample.

Section Complete.
Import Text Re ET PyFloat.

Lemma zip_with_take_l {A B C} (f : A -> B -> C) (l : list A) (k : list B) :
  zip_with f l k = zip_with f (take (length k) l) k.
Proof.
  revert k. induction l as [|x l IH]; intros [|y k]; try done.
  cbn [length take zip_with]. by rewrite <- IH.
Qed.

(** The entries of a company on the rows of its section, when the
    section has a row for each. *)
Lemma section_zip (company : string) (lo hi : Z) (group : list RosterEntry) :
  Z.of_nat (length group) <= hi + 1 - lo ->
  let z :=
    zip_with (fun row_number entry => (row_number, name entry, company))
      (py_range lo (hi + 1)) group in
  length z = length group
  ∧ NoDup ((fun t : Z * string * string => t.1.1) <$> z)
  ∧ (∀ t, t ∈ z -> lo <= t.1.1 <= hi ∧ t.2 = company)
  ∧ (∀ entry, entry ∈ group -> ∃ r, (r, name entry, company) ∈ z).
Proof.
  intros Hlen. cbv zeta.
  assert (length group <= length (py_range lo (hi + 1)))%nat as Hl
    by (rewrite py_range_length; lia).
  split; [by apply length_zip_with_r|]. split; [|split].
  - rewrite zip_with_take_l.
    rewrite fmap_zip_with_l; [|done|by rewrite length_take_le].
    eapply sublist_NoDup; [apply py_range_NoDup|apply sublist_take].
  - intros t (r & e & -> & Hr%elem_of_py_range & _)%elem_of_zip_with.
    cbn [fst snd]. split; [lia|done].
  - intros entry (i & Hi)%list_elem_of_lookup_1.
    destruct (lookup_lt_is_Some_2 (py_range lo (hi + 1)) i) as [r Hr].
    { apply lookup_lt_Some in Hi. lia. }
    exists r. apply (list_elem_of_lookup_2 _ i).
    apply lookup_zip_with_Some. by exists r, entry.
Qed.

Lemma filter_sections (roster_entries : list RosterEntry) :
  length (filter (fun e => home_company e ∈ section_companies) roster_entries)
  = (length (filter (fun e => home_company e = "scanio_moving")
               roster_entries)
     + length (filter (fun e => home_company e = "scanio_storage")
                 roster_entries)
     + length (filter (fun e => home_company e = "sea_and_air_intl")
                 roster_entries)
     + length (filter (fun e => home_company e = "flat_price")
                 roster_entries))%nat.
Proof.
  induction roster_entries as [|e es IH]; [done|].
  rewrite !filter_cons.
  assert (home_company e ∈ section_companies
          <-> home_company e = "scanio_moving"
              ∨ home_company e = "scanio_storage"
              ∨ home_company e = "sea_and_air_intl"
              ∨ home_company e = "flat_price") as Hin.
  { unfold section_companies. cbn [COMPANY_ROW_SLOTS fmap list_fmap fst].
    rewrite !elem_of_cons, elem_of_nil. tauto. }
  destruct (decide (home_company e ∈ section_companies)) as [H|H];
    rewrite Hin in H.
  - destruct H as [H|[H|[H|H]]]; rewrite H;
      repeat match goal with
             | |- context [decide (?a = ?b)] =>
                 destruct (decide (a = b)) as [Hd|Hd];
                 [try discriminate Hd|try (exfalso; apply Hd; reflexivity)];
                 try clear Hd
             end;
      cbn [length]; lia.
  - repeat match goal with
           | |- context [decide (?a = ?b)] =>
               destruct (decide (a = b)) as [Hd|Hd]; [tauto|clear Hd]
           end.
    done.
Qed.

Variable nfkd : string -> string.

(** X27: [build_employee_rows_from_roster] leaves no one out: every
    entry of the roster whose home company has a section has an
    employee row with its name and its company, on a row of the section
    of the company; there are as many employee rows as such entries;
    and no two employee rows are on the same row. *)
Theorem build_employee_rows_complete (sheet_root root' : Element) (sd : nat)
    (roster_entries : list RosterEntry) (employee_rows : list EmployeeRow)
    (reimbursement_row : Z) :
  find_index tag_sheetData sheet_root = Some sd ->
  build_employee_rows_from_roster nfkd sheet_root sd roster_entries
  = Ok (root', employee_rows, reimbursement_row) ->
  (∀ entry,
     entry ∈ roster_entries -> home_company entry ∈ section_companies ->
     ∃ er lo hi,
       er ∈ employee_rows
       ∧ workbook_name er = name entry
       ∧ employee_home_company er = home_company entry
       ∧ (home_company entry, (lo, hi))
         ∈ section_bounds (group_roster nfkd roster_entries)
       ∧ lo <= row_number er <= hi)
  ∧ length employee_rows
    = length (filter (fun e => home_company e ∈ section_companies)
                roster_entries)
  ∧ NoDup (row_number <$> employee_rows).
Proof.
  intros Hsd H. pose proof (build_employee_rows nfkd _ _ _ _ _ _ Hsd H) as Hrows.
  clear H Hsd.
  set (grouped := group_roster nfkd roster_entries) in *.
  unfold placed_rows, section_layout, section_bounds in *. cbv zeta in *.
  pose proof (section_overflow_nonneg grouped "scanio_moving" 21) as N1.
  pose proof (section_overflow_nonneg grouped "scanio_storage" 7) as N2.
  pose proof (section_overflow_nonneg grouped "sea_and_air_intl" 10) as N3.
  pose proof (section_overflow_nonneg grouped "flat_price" 22) as N4.
  assert (∀ company capacity,
            Z.of_nat (length (default [] (grouped !! company)))
            <= capacity + section_overflow grouped company capacity) as Hcap
    by (intros; unfold section_overflow; lia).
  pose proof (Hcap "scanio_moving" 21) as C1.
  pose proof (Hcap "scanio_storage" 7) as C2.
  pose proof (Hcap "sea_and_air_intl" 10) as C3.
  pose proof (Hcap "flat_price" 22) as C4. clear Hcap.
  set (o1 := section_overflow grouped "scanio_moving" 21) in *.
  set (o2 := section_overflow grouped "scanio_storage" 7) in *.
  set (o3 := section_overflow grouped "sea_and_air_intl" 10) in *.
  set (o4 := section_overflow grouped "flat_price" 22) in *.
  cbn [fmap list_fmap mbind list_bind fst snd] in Hrows.
  rewrite app_nil_r in Hrows.
  destruct (section_zip "scanio_moving" 5 (25 + o1)
              (default [] (grouped !! "scanio_moving")))
    as (L1 & D1 & B1 & E1); [lia|].
  destruct (section_zip "scanio_storage" (33 + o1) (39 + o1 + o2)
              (default [] (grouped !! "scanio_storage")))
    as (L2 & D2 & B2 & E2); [lia|].
  destruct (section_zip "sea_and_air_intl" (47 + o1 + o2)
              (56 + o1 + o2 + o3)
              (default [] (grouped !! "sea_and_air_intl")))
    as (L3 & D3 & B3 & E3); [lia|].
  destruct (section_zip "flat_price" (64 + o1 + o2 + o3)
              (85 + o1 + o2 + o3 + o4)
              (default [] (grouped !! "flat_price")))
    as (L4 & D4 & B4 & E4); [lia|].
  cbv zeta in *.
  set (z1 := zip_with _ (py_range 5 _) _) in *.
  set (z2 := zip_with _ (py_range (33 + o1) _) _) in *.
  set (z3 := zip_with _ (py_range (47 + o1 + o2) _) _) in *.
  set (z4 := zip_with _ (py_range (64 + o1 + o2 + o3) _) _) in *.
  assert (∀ t, t ∈ employee_triple <$> employee_rows ->
               ∃ er, er ∈ employee_rows ∧ row_number er = t.1.1
                     ∧ workbook_name er = t.1.2
                     ∧ employee_home_company er = t.2) as Hback.
  { intros t (er & -> & Her)%list_elem_of_fmap. by exists er. }
  split; [|split].
  - intros entry Hentry Hcompany.
    assert (entry ∈ default [] (grouped !! home_company entry)) as Hgroup.
    { unfold grouped. rewrite group_roster_perm.
      by apply list_elem_of_filter. }
    unfold section_companies in Hcompany.
    cbn [COMPANY_ROW_SLOTS fmap list_fmap fst] in Hcompany.
    rewrite !elem_of_cons, elem_of_nil in Hcompany.
    destruct Hcompany as [Hc|[Hc|[Hc|[Hc|[]]]]]; rewrite Hc in *.
    + destruct (E1 _ Hgroup) as (r & Hr).
      destruct (Hback (r, name entry, "scanio_moving"))
        as (er & Her & R1 & R2 & R3).
      { rewrite Hrows. rewrite !elem_of_app. auto. }
      exists er, 5, (25 + o1). repeat split; try done.
      * rewrite !elem_of_cons. auto.
      * rewrite R1. apply (B1 _ Hr).
      * rewrite R1. apply (B1 _ Hr).
    + destruct (E2 _ Hgroup) as (r & Hr).
      destruct (Hback (r, name entry, "scanio_storage"))
        as (er & Her & R1 & R2 & R3).
      { rewrite Hrows. rewrite !elem_of_app. auto. }
      exists er, (33 + o1), (39 + o1 + o2). repeat split; try done.
      * rewrite !elem_of_cons. auto.
      * rewrite R1. apply (B2 _ Hr).
      * rewrite R1. apply (B2 _ Hr).
    + destruct (E3 _ Hgroup) as (r & Hr).
      destruct (Hback (r, name entry, "sea_and_air_intl"))
        as (er & Her & R1 & R2 & R3).
      { rewrite Hrows. rewrite !elem_of_app. auto. }
      exists er, (47 + o1 + o2), (56 + o1 + o2 + o3).
      repeat split; try done.
      * rewrite !elem_of_cons. auto.
      * rewrite R1. apply (B3 _ Hr).
      * rewrite R1. apply (B3 _ Hr).
    + destruct (E4 _ Hgroup) as (r & Hr).
      destruct (Hback (r, name entry, "flat_price"))
        as (er & Her & R1 & R2 & R3).
      { rewrite Hrows. rewrite !elem_of_app. auto. }
      exists er, (64 + o1 + o2 + o3), (85 + o1 + o2 + o3 + o4).
      repeat split; try done.
      * rewrite !elem_of_cons. auto 10.
      * rewrite R1. apply (B4 _ Hr).
      * rewrite R1. apply (B4 _ Hr).
  - rewrite <- (length_fmap employee_triple), Hrows.
    rewrite !List.length_app, L1, L2, L3, L4, filter_sections.
    unfold grouped. rewrite !group_roster_perm. lia.
  - replace (row_number <$> employee_rows)
      with ((fun t : Z * string * string => t.1.1)
            <$> (employee_triple <$> employee_rows))
      by (by rewrite <- list_fmap_compose).
    rewrite Hrows, !fmap_app.
    assert (∀ (z : list (Z * string * string)) lo hi (c : string) x,
              (∀ t, t ∈ z -> lo <= t.1.1 <= hi ∧ t.2 = c) ->
              x ∈ (fun t : Z * string * string => t.1.1) <$> z ->
              lo <= x <= hi) as Hrange.
    { intros z lo hi c x Hz (t & -> & Ht)%list_elem_of_fmap.
      by destruct (Hz t Ht). }
    apply NoDup_app. split; [exact D1|]. split.
    { intros x Hx Hy. apply (Hrange z1 _ _ _ _ B1) in Hx.
      rewrite !elem_of_app in Hy. destruct Hy as [Hy|[Hy|Hy]].
      - apply (Hrange z2 _ _ _ _ B2) in Hy. lia.
      - apply (Hrange z3 _ _ _ _ B3) in Hy. lia.
      - apply (Hrange z4 _ _ _ _ B4) in Hy. lia. }
    apply NoDup_app. split; [exact D2|]. split.
    { intros x Hx Hy. apply (Hrange z2 _ _ _ _ B2) in Hx.
      rewrite !elem_of_app in Hy. destruct Hy as [Hy|Hy].
      - apply (Hrange z3 _ _ _ _ B3) in Hy. lia.
      - apply (Hrange z4 _ _ _ _ B4) in Hy. lia. }
    apply NoDup_app. split; [exact D3|]. split; [|exact D4].
    intros x Hx Hy. apply (Hrange z3 _ _ _ _ B3) in Hx.
    apply (Hrange z4 _ _ _ _ B4) in Hy. lia.
Qed.

End Complete.

Section CompleteSample.
Import Text Re ET PyFloat.

(** X27, witness: the nine employees of the sample roster. *)
Lemma build_employee_rows_complete_witness :
  ∃ root' employee_rows reimbursement_row,
    build_employee_rows_from_roster Sample.nfkd Sample.worksheet 1
      Sample.storage_roster
    = Ok (root', employee_rows, reimbursement_row)
    ∧ length employee_rows = 9%nat
    ∧ NoDup (row_number <$> employee_rows).
Proof.
  assert (is_ok (build_employee_rows_from_roster Sample.nfkd
                   Sample.worksheet 1 Sample.storage_roster) = true)
    as Hok by (vm_compute; reflexivity).
  destruct (build_employee_rows_from_roster Sample.nfkd Sample.worksheet 1
              Sample.storage_roster) as [[[root' rows] rr]|] eqn:E;
    [|discriminate Hok].
  destruct (build_employee_rows_complete Sample.nfkd Sample.worksheet root' 1
              Sample.storage_roster rows rr) as (_ & Hlen & Hnd);
    [vm_compute; reflexivity|exact E|].
  exists root', rows, rr. split; [reflexivity|]. split; [|exact Hnd].
  rewrite Hlen. vm_compute. reflexivity.
Defined.

End CompleteSample.

(** ** The formulas across the sections *)

Section CrossFormulas.
Import Text Re ET PyFloat.

(** The reimbursement row is the sixteenth row after the last employee
    row of the last section. *)
Lemma refresh_layout_row (grouped : gmap string (list RosterEntry))
    (sheet_data sheet_data' : Element) (reimbursement_row : Z) :
  refresh_company_summary_formulas sheet_data (section_layout grouped)
  = Ok (sheet_data', reimbursement_row) ->
  reimbursement_row = 101 + total_overflow grouped.
Proof.
  unfold refresh_company_summary_formulas, total_overflow.
  intros ([sdx rowsx] & Hloop & H)%bind_Ok.
  unfold section_layout, section_bounds in Hloop. cbv zeta in Hloop.
  cbn [fmap list_fmap fst snd] in Hloop.
  pose proof (section_overflow_nonneg grouped "scanio_moving" 21) as N1.
  pose proof (section_overflow_nonneg grouped "scanio_storage" 7) as N2.
  pose proof (section_overflow_nonneg grouped "sea_and_air_intl" 10) as N3.
  pose proof (section_overflow_nonneg grouped "flat_price" 22) as N4.
  set (o1 := section_overflow grouped "scanio_moving" 21) in *.
  set (o2 := section_overflow grouped "scanio_storage" 7) in *.
  set (o3 := section_overflow grouped "sea_and_air_intl" 10) in *.
  set (o4 := section_overflow grouped "flat_price" 22) in *.
  apply (refresh_step _ _ _ _ _ 1.18%float) in Hloop
    as (s1 & W1 & Hloop); [|lia|reflexivity].
  apply (refresh_step _ _ _ _ _ 1.24%float) in Hloop
    as (s2 & W2 & Hloop); [|lia|reflexivity].
  apply (refresh_step _ _ _ _ _ 1.18%float) in Hloop
    as (s3 & W3 & Hloop); [|lia|reflexivity].
  apply (refresh_step _ _ _ _ _ 1.18%float) in Hloop
    as (s4 & W4 & Hloop); [|lia|reflexivity].
  injection Hloop as <- <-.
  unfold lookup_dict in H.
  match type of H with
  | context [?m !! "scanio_moving"] =>
      assert (m !! "scanio_moving" = Some (bounds_rows (5, 25 + o1))) as L1
        by (by rewrite !lookup_insert_ne, lookup_insert_eq by done);
      assert (m !! "scanio_storage"
              = Some (bounds_rows (33 + o1, 39 + o1 + o2))) as L2
        by (by rewrite !lookup_insert_ne, lookup_insert_eq by done);
      assert (m !! "sea_and_air_intl"
              = Some (bounds_rows (47 + o1 + o2, 56 + o1 + o2 + o3))) as L3
        by (by rewrite !lookup_insert_ne, lookup_insert_eq by done);
      assert (m !! "flat_price"
              = Some (bounds_rows
                        (64 + o1 + o2 + o3, 85 + o1 + o2 + o3 + o4))) as L4
        by (by rewrite lookup_insert_eq)
  end.
  rewrite L1, L2, L3, L4 in H. cbn [mbind result_bind] in H.
  cbv zeta in H.
  repeat match type of H with
         | context [sfc ?a ?b ?c ?d] =>
             destruct (sfc a b c d); cbn [mbind result_bind] in H;
             try done
         end.
  injection H as _ <-. cbn [bounds_rows total_row fst snd]. lia.
Qed.

Lemma cross_last_write (grouped : gmap string (list RosterEntry))
    (r : Z) (column f : string) :
  (r, column, f) ∈ summary_cross_writes grouped ->
  last_write (summary_writes (section_bounds grouped)) r column = Some f
  ∧ (r = 91 + total_overflow grouped ∨ r = 93 + total_overflow grouped
     ∨ r = 101 + total_overflow grouped).
Proof.
  unfold summary_cross_writes, total_overflow, section_bounds, summary_writes.
  cbv zeta.
  set (o1 := section_overflow grouped "scanio_moving" 21) in *.
  set (o2 := section_overflow grouped "scanio_storage" 7) in *.
  set (o3 := section_overflow grouped "sea_and_air_intl" 10) in *.
  set (o4 := section_overflow grouped "flat_price" 22) in *.
  cbn [fst snd]. intros Hin. rewrite !last_write_app.
  unfold cross_writes in *. cbn [bounds_rows total_row amount_row fst snd] in *.
  rewrite !elem_of_cons, elem_of_nil in Hin.
  destruct Hin as [Hin|[Hin|[Hin|[Hin|[]]]]]; injection Hin as -> -> ->;
    (split; [|lia]);
    cbn [last_write String.eqb Ascii.eqb Bool.eqb andb];
    rewrite ?Z.eqb_refl;
    repeat match goal with
           | |- context [?a =? ?b] => rewrite (proj2 (Z.eqb_neq a b)) by lia
           end;
    done.
Qed.

Variable nfkd : string -> string.

(** X28: [build_employee_rows_from_roster] returns as the reimbursement
    row the row 101 moved down by the number of rows inserted, and in
    the sheet it returns the four formulas across the sections stand on
    their rows and name the total rows and the amount rows of the four
    sections as they are after the insertions. *)
Theorem build_cross_formulas (sheet_root root' : Element) (sd : nat)
    (roster_entries : list RosterEntry) (employee_rows : list EmployeeRow)
    (reimbursement_row : Z) :
  find_index tag_sheetData sheet_root = Some sd ->
  build_employee_rows_from_roster nfkd sheet_root sd roster_entries
  = Ok (root', employee_rows, reimbursement_row) ->
  reimbursement_row
  = 101 + total_overflow (group_roster nfkd roster_entries)
  ∧ ∃ sheet_data',
      children root' !! sd = Some sheet_data'
      ∧ ∀ r column f,
          (r, column, f)
          ∈ summary_cross_writes (group_roster nfkd roster_entries) ->
          formula_at sheet_data' r column = Some f.
Proof.
  intros Hsd. unfold build_employee_rows_from_roster. cbv zeta.
  set (grouped := group_roster nfkd roster_entries).
  intros (st & Hslots & H)%bind_Ok.
  destruct (slot_loop_layout _ _ _ _ Hsd Hslots) as [Hlayout Hsd'].
  destruct (children (slot_sheet st) !! sd) as [sheet_data|] eqn:Ec;
    [|done].
  cbn [mbind result_bind] in H.
  apply bind_Ok in H as ([sd_r rr] & Hrefresh & H).
  apply bind_Ok in H as (pst & Hplace & [= <- _ <-]).
  rewrite Hlayout in Hrefresh, Hplace.
  split; [by eapply refresh_layout_row|].
  apply refresh_layout_writes in Hrefresh.
  exists (place_sheet pst). split.
  { unfold set_child. cbn [children set_children].
    apply list_lookup_insert_eq. by eapply lookup_lt_Some. }
  intros r column f Hin.
  destruct (cross_last_write grouped r column f Hin) as [Hw Hr].
  rewrite (formula_at_row sd_r (place_sheet pst) r).
  - by rewrite (apply_writes_last _ _ _ Hrefresh r column), Hw.
  - apply (place_loop_rows _ _ _ _ Hplace r).
    intros company slots Hsec.
    unfold section_layout, section_bounds, total_overflow in *.
    cbv zeta in *. cbn [fmap list_fmap fst snd] in Hsec.
    pose proof (section_overflow_nonneg grouped "scanio_moving" 21) as N1.
    pose proof (section_overflow_nonneg grouped "scanio_storage" 7) as N2.
    pose proof (section_overflow_nonneg grouped "sea_and_air_intl" 10) as N3.
    pose proof (section_overflow_nonneg grouped "flat_price" 22) as N4.
    rewrite !elem_of_cons, elem_of_nil in Hsec.
    destruct Hsec as [Hs|[Hs|[Hs|[Hs|[]]]]]; injection Hs as -> ->;
      rewrite elem_of_py_range; lia.
Qed.

End CrossFormulas.

Section CrossFormulasSample.
Import Text Re ET PyFloat.

(** X28, witness: with the nine employees of the sample roster in the
    section of seven slots, two rows are inserted and the reimbursement
    row is row 103. *)
Lemma build_cross_formulas_witness :
  ∃ root' employee_rows sheet_data',
    build_employee_rows_from_roster Sample.nfkd Sample.worksheet 1
      Sample.storage_roster
    = Ok (root', employee_rows, 103)
    ∧ children root' !! 1%nat = Some sheet_data'
    ∧ formula_at sheet_data' 103 "F" = Some "G90+G61+G44+G28".
Proof.
  assert (is_ok (build_employee_rows_from_roster Sample.nfkd
                   Sample.worksheet 1 Sample.storage_roster) = true)
    as Hok by (vm_compute; reflexivity).
  destruct (build_employee_rows_from_roster Sample.nfkd Sample.worksheet 1
              Sample.storage_roster) as [[[root' rows] rr]|] eqn:E;
    [|discriminate Hok].
  destruct (build_cross_formulas Sample.nfkd Sample.worksheet root' 1
              Sample.storage_roster rows rr) as (Hrr & sd' & Hc & Hf);
    [vm_compute; reflexivity|exact E|].
  assert (rr = 103) as -> by (rewrite Hrr; vm_compute; reflexivity).
  exists root', rows, sd'. split; [reflexivity|]. split; [exact Hc|].
  apply Hf. vm_compute.
  apply elem_of_cons. right. apply elem_of_cons. right.
  apply elem_of_cons. right. apply elem_of_cons. by left.
Defined.

End CrossFormulasSample.

(** ** The values of the shares and of the pay *)

Section ShareValues.
Import Text Re ET.

Lemma fraction_zero (part total : Q) :
  (total == 0)%Q -> (fraction part total == 0)%Q.
Proof.
  intros H. unfold fraction.
  by rewrite (proj2 (Qeq_bool_iff total 0) H).
Qed.

Lemma fraction_share (part total : Q) :
  ¬ (total == 0)%Q -> (fraction part total == part / total)%Q.
Proof.
  intros H. unfold fraction.
  destruct (Qeq_bool total 0) eqn:E; [|done].
  by apply Qeq_bool_iff in E.
Qed.

(** X29: the formulas [set_employee_row_formulas] writes into the
    columns L, N and P of an employee row never give an error value:
    each gives the share of its company in the hours of the three
    companies; the three shares are 0 when these hours add up to 0, and
    add up to 1 otherwise. *)
Theorem employee_hour_shares (sheet_data sheet_data' : Element) (r : Z)
    (rate scanio sea_and_air flat_price : Q) :
  set_employee_row_formulas sheet_data r = Ok sheet_data' ->
  let total := (scanio + sea_and_air + flat_price)%Q in
  let v := cell_value 3 (entered_hours rate scanio sea_and_air flat_price) r in
  formula_at sheet_data' r "L"
  = Some (render (FIfError (FDiv (FRef "K" r) (FRef "Q" r)) (FInt 0)))
  ∧ formula_at sheet_data' r "N"
    = Some (render (FIfError (FDiv (FRef "M" r) (FRef "Q" r)) (FInt 0)))
  ∧ formula_at sheet_data' r "P"
    = Some (render (FIfError (FDiv (FRef "O" r) (FRef "Q" r)) (FInt 0)))
  ∧ render (FIfError (FDiv (FRef "K" r) (FRef "Q" r)) (FInt 0))
    = employee_formula_L (str r)
  ∧ v "L" r = Some (fraction scanio total)
  ∧ v "N" r = Some (fraction sea_and_air total)
  ∧ v "P" r = Some (fraction flat_price total)
  ∧ ((total == 0)%Q ->
     (fraction scanio total == 0)%Q ∧ (fraction sea_and_air total == 0)%Q
     ∧ (fraction flat_price total == 0)%Q)
  ∧ (¬ (total == 0)%Q ->
     (fraction scanio total + fraction sea_and_air total
      + fraction flat_price total == 1)%Q).
Proof.
  intros H. cbv zeta.
  split; [by apply (set_employee_row_formulas_cells _ _ _ "L" _ H)|].
  split; [by apply (set_employee_row_formulas_cells _ _ _ "N" _ H)|].
  split; [by apply (set_employee_row_formulas_cells _ _ _ "P" _ H)|].
  split; [reflexivity|].
  split; [apply value_L|]. split; [apply value_N|]. split; [apply value_P|].
  split.
  - intros Hz. by rewrite !fraction_zero.
  - intros Hz. rewrite !fraction_share by done. by field.
Qed.

(** X29, witness: row 25 of the sample sheet with 10, 20 and 10 hours. *)
Lemma employee_hour_shares_witness :
  ∃ sheet_data',
    set_employee_row_formulas Sample.sheet_data 25 = Ok sheet_data'
    ∧ formula_at sheet_data' 25 "L" = Some "IFERROR(K25/Q25,0)"
    ∧ value_is (cell_value 3 (entered_hours 20 10 20 10) 25 "N" 25) (1 # 2).
Proof.
  assert (is_ok (set_employee_row_formulas Sample.sheet_data 25) = true)
    as Hok by (vm_compute; reflexivity).
  destruct (set_employee_row_formulas Sample.sheet_data 25)
    as [sheet_data'|] eqn:E; [|discriminate Hok].
  destruct (employee_hour_shares Sample.sheet_data sheet_data' 25
              20 10 20 10 E) as (HL & _ & _ & _ & _ & HN & _).
  exists sheet_data'. split; [reflexivity|]. split; [exact HL|].
  rewrite HN. vm_compute. reflexivity.
Defined.

(** X30: the formulas [set_employee_row_formulas] writes into the
    columns E and F of an employee row give, for the hours [d] that
    column D holds and the rate of column C: the hours times the rate
    and 0 when the hours are 40 or less; 40 times the rate plus one and
    a half times the rate for each hour above 40, and half the rate for
    each hour above 40, otherwise.  In both cases the pay less the
    premium is the hours times the rate. *)
Theorem employee_pay_values (sheet_data sheet_data' : Element) (r : Z)
    (rate scanio sea_and_air flat_price : Q) :
  set_employee_row_formulas sheet_data r = Ok sheet_data' ->
  let v := cell_value 5 (entered_hours rate scanio sea_and_air flat_price) r in
  formula_at sheet_data' r "E" = Some (employee_formula_E (str r))
  ∧ formula_at sheet_data' r "F" = Some (employee_formula_F (str r))
  ∧ ∃ d e f,
      v "D" r = Some d ∧ v "C" r = Some rate
      ∧ v "E" r = Some e ∧ v "F" r = Some f
      ∧ ((d <= 40)%Q -> (e == d * rate)%Q ∧ (f == 0)%Q)
      ∧ ((40 < d)%Q ->
         (e == 40 * rate + (d - 40) * ((3 # 2) * rate))%Q
         ∧ (f == (d - 40) * ((1 # 2) * rate))%Q)
      ∧ (e - f == d * rate)%Q.
Proof.
  intros H. cbv zeta.
  split.
  { by apply (set_employee_row_formulas_cells _ _ _ "E"
                (FIfGt (FRef "D" r) (FInt 40)
                   (FAdd
                      (FMul (FParen (FSub (FRef "D" r) (FInt 40)))
                         (FParen (FMul (FRef "C" r) (FDec 1 5))))
                      (FParen (FMul (FRef "C" r) (FInt 40))))
                   (FMul (FRef "D" r) (FRef "C" r))) H). }
  split.
  { by apply (set_employee_row_formulas_cells _ _ _ "F"
                (FIfGt (FRef "D" r) (FInt 40)
                   (FMul (FParen (FSub (FRef "D" r) (FInt 40)))
                      (FParen (FMul (FRef "C" r) (FDec 0 5))))
                   (FInt 0)) H). }
  eexists _, _, _.
  split; [apply value_D|]. split; [apply value_C|].
  split; [apply value_E|]. split; [apply value_F|].
  set (d := total_hours_D scanio sea_and_air flat_price).
  destruct (d ?= 40)%Q eqn:Ec.
  - apply Qeq_alt in Ec. split; [intros _; split; reflexivity|].
    split; [intros Hlt; rewrite Ec in Hlt; by apply Qlt_irrefl in Hlt|].
    ring.
  - apply Qlt_alt in Ec. split; [intros _; split; reflexivity|].
    split; [intros Hlt; exfalso; eapply Qlt_irrefl, Qlt_trans; eauto|].
    ring.
  - apply Qgt_alt in Ec. split.
    { intros Hle. exfalso. eapply Qlt_irrefl, Qlt_le_trans; eauto. }
    split; [intros _; split; field|]. field.
Qed.

(** X30, witness: row 25 of the sample sheet with a rate of 20 and 50
    hours in column K. *)
Lemma employee_pay_values_witness :
  ∃ sheet_data',
    set_employee_row_formulas Sample.sheet_data 25 = Ok sheet_data'
    ∧ formula_at sheet_data' 25 "F"
      = Some "IF(D25>40,(D25-40)*(C25*0.5),0)".
Proof.
  assert (is_ok (set_employee_row_formulas Sample.sheet_data 25) = true)
    as Hok by (vm_compute; reflexivity).
  destruct (set_employee_row_formulas Sample.sheet_data 25)
    as [sheet_data'|] eqn:E; [|discriminate Hok].
  destruct (employee_pay_values Sample.sheet_data sheet_data' 25
              20 50 0 0 E) as (_ & HF & _).
  exists sheet_data'. split; [reflexivity|exact HF].
Defined.

End ShareValues.
